(** * Bulgarian laws scraper: model of the batch / scrape / validate / aggregate pipeline

    Shallow embedding of the JavaScript sources
    - [schemas.js]            (helpers [extractLawId], [createScrapedLaw], [createFailedLaw])
    - [law-scraper.js]        (class [BulgarianLawsScraper])
    - [batch-processor.js]    (class [BatchProcessor])
    - [result-aggregator.js]  (class [ResultAggregator])
    - the text validator      (class [TextValidator])

    JavaScript strings are sequences of UTF-16 code units; they are modelled
    as lists of integers, so that [length] is the JavaScript [.length]. *)

From Stdlib Require Import String Ascii DecimalString ZArith List Bool Lia Permutation Arith.
From Stdlib Require Import Sorted DecimalNat.
Import ListNotations.
Local Open Scope Z_scope.

(* ================================================================== *)
(** ** JavaScript string primitives *)
(* ================================================================== *)

Module JS.

Definition jsstring := list Z.

(** Literals are written as UTF-8 text and decoded to code units (all the
    literals of the sources are in the Basic Multilingual Plane). *)
Fixpoint utf8_decode (bs : list Z) : jsstring :=
  match bs with
  | [] => []
  | b :: rest =>
      if b <? 128 then b :: utf8_decode rest
      else if b <? 224 then
        match rest with
        | c1 :: rest' => ((b mod 32) * 64 + c1 mod 64) :: utf8_decode rest'
        | [] => []
        end
      else
        match rest with
        | c1 :: c2 :: rest' =>
            ((b mod 16) * 4096 + (c1 mod 64) * 64 + c2 mod 64) :: utf8_decode rest'
        | _ => []
        end
  end.

Definition js (s : string) : jsstring :=
  utf8_decode (map (fun a => Z.of_N (N_of_ascii a)) (list_ascii_of_string s)).

Definition inRange (lo hi c : Z) : bool := (lo <=? c) && (c <=? hi).

(** WhiteSpace and LineTerminator code units: what [\s] matches and what
    [String.prototype.trim] strips. *)
Definition isWhiteSpace (c : Z) : bool :=
  inRange 9 13 c || (c =? 32) || (c =? 160) || (c =? 5760) || inRange 8192 8202 c
  || (c =? 8232) || (c =? 8233) || (c =? 8239) || (c =? 8287) || (c =? 12288)
  || (c =? 65279).

Definition isLineTerminator (c : Z) : bool :=
  (c =? 10) || (c =? 13) || (c =? 8232) || (c =? 8233).

Definition isDigit (c : Z) : bool := inRange 48 57 c.

Fixpoint dropWhile {A} (p : A -> bool) (l : list A) : list A :=
  match l with
  | [] => []
  | x :: l' => if p x then dropWhile p l' else l
  end.

Definition trimStart (s : jsstring) : jsstring := dropWhile isWhiteSpace s.
Definition trimEnd (s : jsstring) : jsstring := rev (dropWhile isWhiteSpace (rev s)).
Definition trim (s : jsstring) : jsstring := trimEnd (trimStart s).

(** [s.slice(i, j)] and [s.substring(i, j)] for 0 <= i, 0 <= j. *)
Definition slice {A} (i j : nat) (l : list A) : list A := firstn (j - i)%nat (skipn i l).
(** [s.slice(i)] for 0 <= i. *)
Definition sliceFrom {A} (i : nat) (l : list A) : list A := skipn i l.
(** [s.slice(-n)] for n > 0: the last [n] elements. *)
Definition sliceLast {A} (n : nat) (l : list A) : list A :=
  skipn (length l - n)%nat l.

Fixpoint startsWith (p s : jsstring) : bool :=
  match p, s with
  | [], _ => true
  | _ :: _, [] => false
  | a :: p', b :: s' => (a =? b) && startsWith p' s'
  end.

Definition endsWith (p s : jsstring) : bool := startsWith (rev p) (rev s).

(** [s.includes(p)] *)
Fixpoint includes (p s : jsstring) : bool :=
  startsWith p s ||
  match s with
  | [] => false
  | _ :: s' => includes p s'
  end.

(** [s.split(sep)] for a one-unit separator. *)
Fixpoint splitChar (sep : Z) (cur : jsstring) (s : jsstring) : list jsstring :=
  match s with
  | [] => [rev cur]
  | c :: s' => if c =? sep then rev cur :: splitChar sep [] s'
               else splitChar sep (c :: cur) s'
  end.

(** [s.split(sep)] for a two-unit separator [a b]: leftmost, non-overlapping. *)
Fixpoint splitPair (a b : Z) (cur : jsstring) (s : jsstring) : list jsstring :=
  match s with
  | [] => [rev cur]
  | c :: s' =>
      match s' with
      | d :: s'' =>
          if (c =? a) && (d =? b) then rev cur :: splitPair a b [] s''
          else splitPair a b (c :: cur) s'
      | [] => [rev (c :: cur)]
      end
  end.

(** [s.split(/\s+/)]: the pieces between the maximal runs of white space. *)
Fixpoint splitWhiteSpace (cur : jsstring) (inRun : bool) (s : jsstring) : list jsstring :=
  match s with
  | [] => [rev cur]
  | c :: s' =>
      if isWhiteSpace c then
        if inRun then splitWhiteSpace cur true s'
        else rev cur :: splitWhiteSpace [] true s'
      else splitWhiteSpace (c :: cur) false s'
  end.

(** [parts.join(sep)] *)
Fixpoint join (sep : jsstring) (parts : list jsstring) : jsstring :=
  match parts with
  | [] => []
  | [p] => p
  | p :: rest => p ++ sep ++ join sep rest
  end.

(** String equality [a === b]. *)
Fixpoint eqb (a b : jsstring) : bool :=
  match a, b with
  | [], [] => true
  | x :: a', y :: b' => (x =? y) && eqb a' b'
  | _, _ => false
  end.

(** Decimal rendering of a non-negative integer in a template literal. *)
Definition ofNat (n : nat) : jsstring := js (NilZero.string_of_uint (Nat.to_uint n)).

(** [parseInt(s, 10)] on a string of decimal digits. *)
Definition parseDigits (s : jsstring) : Z :=
  fold_left (fun acc c => acc * 10 + (c - 48)) s 0.

(** Case folding.  [toLowerCase] and the regular expression flag [i] (which
    compares the upper-case images of single code units) are modelled on the
    Latin and Cyrillic letters, the only letters of the patterns and keywords
    of the sources; the Cyrillic Extended-C variants whose upper-case image is
    a basic Cyrillic capital are included.  Elsewhere both are the identity,
    which no keyword or pattern of the sources can observe. *)
Definition toLowerUnit (c : Z) : Z :=
  if inRange 65 90 c then c + 32
  else if inRange 1040 1071 c then c + 32
  else if inRange 1024 1039 c then c + 80
  else c.

Definition toLowerCase (s : jsstring) : jsstring := map toLowerUnit s.

Definition canonicalize (c : Z) : Z :=
  if inRange 97 122 c then c - 32
  else if inRange 1072 1103 c then c - 32
  else if inRange 1104 1119 c then c - 80
  else if c =? 7296 then 1042
  else if c =? 7297 then 1044
  else if c =? 7298 then 1054
  else if c =? 7299 then 1057
  else if (c =? 7300) || (c =? 7301) then 1058
  else if c =? 7302 then 1066
  else c.

End JS.
Import JS.

(* ================================================================== *)
(** ** Regular expressions: a backtracking matcher *)
(* ================================================================== *)

(** The patterns of the sources use literals, classes, greedy [*], [+], [?]
    and [{0,n}], alternation and the anchors [^] and [$] (no flag [m]).  The
    matcher follows the backtracking order of the language (left alternative
    first, longest repetition first), so that [exec] returns the same leftmost
    match as [RegExp.prototype.exec]: the pair of [match.index] and
    [match.index + match[0].length]. *)

Module Regex.

Inductive regex : Type :=
| Eps
| Unit (p : Z -> bool)
| Seq (a b : regex)
| Alt (a b : regex)
| Star (a : regex)
| Upto (n : nat) (a : regex)
| Bol
| Eol.

Definition cont := nat -> jsstring -> option nat.

(** [rmatch r i s k]: match [r] at index [i], where [s] is the input from
    [i] on, then continue with [k]. *)
Fixpoint rmatch (r : regex) (i : nat) (s : jsstring) (k : cont) {struct r} : option nat :=
  match r with
  | Eps => k i s
  | Unit p =>
      match s with
      | c :: s' => if p c then k (S i) s' else None
      | [] => None
      end
  | Seq a b => rmatch a i s (fun i' s' => rmatch b i' s' k)
  | Alt a b =>
      match rmatch a i s k with
      | Some e => Some e
      | None => rmatch b i s k
      end
  | Star a =>
      (fix loop (fuel : nat) (i : nat) (s : jsstring) {struct fuel} : option nat :=
         match fuel with
         | O => k i s
         | S fuel' =>
             match rmatch a i s
                     (fun i' s' => if (i <? i')%nat then loop fuel' i' s' else None) with
             | Some e => Some e
             | None => k i s
             end
         end) (length s) i s
  | Upto n a =>
      (fix loop (n : nat) (i : nat) (s : jsstring) {struct n} : option nat :=
         match n with
         | O => k i s
         | S n' =>
             match rmatch a i s (fun i' s' => loop n' i' s') with
             | Some e => Some e
             | None => k i s
             end
         end) n i s
  | Bol => if (i =? 0)%nat then k i s else None
  | Eol => match s with [] => k i s | _ :: _ => None end
  end.

Definition accept : cont := fun e _ => Some e.

(** Leftmost match from index [i] on. *)
Fixpoint search (r : regex) (i : nat) (s : jsstring) : option (nat * nat) :=
  match rmatch r i s accept with
  | Some e => Some (i, e)
  | None =>
      match s with
      | [] => None
      | _ :: s' => search r (S i) s'
      end
  end.

(** [pattern.exec(s)] / [s.match(pattern)]: index and end of the match. *)
Definition exec (r : regex) (s : jsstring) : option (nat * nat) := search r 0 s.

(** [pattern.test(s)] *)
Definition test (r : regex) (s : jsstring) : bool :=
  match exec r s with Some _ => true | None => false end.

(** The pattern ends with the anchor [$]. *)
Fixpoint endsWithEol (r : regex) : bool :=
  match r with
  | Eol => true
  | Seq _ b => endsWithEol b
  | _ => false
  end.

(** Pattern syntax. *)
Definition unit_cs (c : Z) : regex := Unit (fun x => x =? c).
Definition unit_ci (c : Z) : regex := Unit (fun x => canonicalize x =? canonicalize c).
Fixpoint seqs (rs : list regex) : regex :=
  match rs with
  | [] => Eps
  | [r] => r
  | r :: rs' => Seq r (seqs rs')
  end.
Definition lit (s : string) : regex := seqs (map unit_cs (js s)).
Definition liti (s : string) : regex := seqs (map unit_ci (js s)).
Definition Plus (a : regex) : regex := Seq a (Star a).
Definition Opt (a : regex) : regex := Upto 1 a.
Definition ws : regex := Unit isWhiteSpace.          (* \s *)
Definition digit : regex := Unit isDigit.            (* \d *)
Definition dot : regex := Unit (fun c => negb (isLineTerminator c)).  (* . *)
Definition anyUnit : regex := Unit (fun _ => true).  (* [\s\S] *)

End Regex.

(* ================================================================== *)
(** ** schemas.js *)
(* ================================================================== *)

Module Schemas.

(** [a || b] on strings: the empty string and [undefined] are falsy. *)
Definition orString (a : option jsstring) (b : jsstring) : jsstring :=
  match a with
  | Some (c :: s) => c :: s
  | _ => b
  end.

(** [a || null] on strings. *)
Definition orNull (a : option jsstring) : option jsstring :=
  match a with
  | Some (c :: s) => Some (c :: s)
  | _ => None
  end.

(** Input law: [{ title, date, link }]. *)
Record InputLaw : Type := mkInputLaw {
  title : jsstring;
  date : jsstring;
  link : jsstring
}.

(** [validateInputLaw], on an object whose three fields are strings. *)
Definition validateInputLaw (law : InputLaw) : bool :=
  match trim (title law) with
  | [] => false
  | _ :: _ => includes (js "parliament.bg") (link law)
  end.

(** [/\/ID\/(\d+)/] *)
Definition lawIdPattern : Regex.regex :=
  Regex.Seq (Regex.lit "/ID/") (Regex.Plus Regex.digit).

(** [extractLawId]: the digits captured after ["/ID/"], or [null]. *)
Definition extractLawId (url : jsstring) : option jsstring :=
  match Regex.exec lawIdPattern url with
  | Some (b, e) => Some (slice (b + 4) e url)
  | None => None
  end.

(** The second argument of [createScrapedLaw]: any of its properties may be
    absent. *)
Module ScrapingData.
Record t : Type := mk {
  actualTitle : option jsstring;
  metadata : option (list jsstring);
  fullText : option jsstring;
  error : option jsstring;
  retryCount : option nat
}.
Definition empty : t := mk None None None None None.
End ScrapingData.

Module ScrapedLaw.
Record t : Type := mk {
  title : jsstring;
  date : jsstring;
  link : jsstring;
  lawId : option jsstring;
  actualTitle : jsstring;
  metadata : list jsstring;
  fullText : jsstring;
  textLength : nat;
  scrapedAt : Z;
  isComplete : bool;
  error : option jsstring;
  retryCount : nat
}.
End ScrapedLaw.

Module FailedLaw.
Record t : Type := mk {
  lawId : option jsstring;
  link : jsstring;
  title : jsstring;
  error : jsstring;
  retryCount : nat;
  failedAt : Z;
  batchId : jsstring
}.
End FailedLaw.

(** [createScrapedLaw]; [now] is the clock read by [new Date()]. *)
Definition createScrapedLaw (now : Z) (inputLaw : InputLaw) (scrapingData : ScrapingData.t)
  : ScrapedLaw.t :=
  let lawId := extractLawId (link inputLaw) in
  {| ScrapedLaw.title := title inputLaw;
     ScrapedLaw.date := date inputLaw;
     ScrapedLaw.link := link inputLaw;
     ScrapedLaw.lawId := lawId;
     ScrapedLaw.actualTitle := orString (ScrapingData.actualTitle scrapingData) [];
     ScrapedLaw.metadata :=
       match ScrapingData.metadata scrapingData with Some m => m | None => [] end;
     ScrapedLaw.fullText := orString (ScrapingData.fullText scrapingData) [];
     ScrapedLaw.textLength := length (orString (ScrapingData.fullText scrapingData) []);
     ScrapedLaw.scrapedAt := now;
     ScrapedLaw.isComplete :=
       match ScrapingData.fullText scrapingData with
       | Some (c :: s) => (50 <? length (c :: s))%nat
       | _ => false
       end;
     ScrapedLaw.error := orNull (ScrapingData.error scrapingData);
     ScrapedLaw.retryCount :=
       match ScrapingData.retryCount scrapingData with Some n => n | None => O end |}.

(** [createFailedLaw] *)
Definition createFailedLaw (now : Z) (inputLaw : InputLaw) (error : jsstring)
    (retryCount : nat) (batchId : jsstring) : FailedLaw.t :=
  {| FailedLaw.lawId := extractLawId (link inputLaw);
     FailedLaw.link := link inputLaw;
     FailedLaw.title := title inputLaw;
     FailedLaw.error := error;
     FailedLaw.retryCount := retryCount;
     FailedLaw.failedAt := now;
     FailedLaw.batchId := batchId |}.

End Schemas.
Import Schemas.

(* ================================================================== *)
(** ** The text validator (class TextValidator) *)
(* ================================================================== *)

Module TextValidator.
Import Regex.

Inductive Severity : Type := none | low | medium | high | critical.

Definition rank (s : Severity) : nat :=
  match s with
  | none => 0 | low => 1 | medium => 2 | high => 3 | critical => 4
  end%nat.

Definition isCritical (s : Severity) : bool :=
  match s with critical => true | _ => false end.

Inductive IssueTag : Type :=
| no_full_text | extremely_short | very_short | ends_with_table_data
| suspicious_ending | truncated | encoding_issues | poor_structure | no_law_content.

Record ValidationResult : Type := mkResult {
  isValid : bool;
  issues : list IssueTag;
  severity : Severity;
  recommendations : list string
}.

(** [[\d\s.,\-]] *)
Definition numericUnit (c : Z) : bool :=
  isDigit c || isWhiteSpace c || (c =? 46) || (c =? 44) || (c =? 45).
(** [[а-я\s]] under the flag [i] *)
Definition cyrillicOrSpace (c : Z) : bool :=
  inRange 1040 1071 (canonicalize c) || isWhiteSpace c.
(** [[\d\s]] *)
Definition digitOrSpace (c : Z) : bool := isDigit c || isWhiteSpace c.

Definition validEndingPatterns : list regex :=
  [ seqs [liti "чл."; Star ws; Plus digit; Star dot; Eol];
    seqs [liti "параграф"; Star ws; Plus digit; Star dot; Eol];
    liti "влиза в сила";
    liti "отменя се";
    liti "допълва се";
    liti "изменя се";
    liti "настоящия закон";
    seqs [liti "публикува"; Star dot; liti "държавен вестник"];
    liti "отменят се";
    liti "в сила от";
    liti "заличава се";
    liti "добавя се";
    liti "запазва се" ].

Definition invalidEndingPatterns : list regex :=
  [ seqs [Bol; Star ws; Plus digit; Plus (Unit numericUnit); Eol];
    seqs [Bol; Star ws; Star (Unit numericUnit); Plus digit; Star ws; Eol];
    seqs [Bol; Star ws; Plus digit; Star ws; Star (Unit cyrillicOrSpace); Plus digit;
          Star ws; Eol];
    seqs [Bol; Star ws; liti "OP-"; Plus digit];
    seqs [Bol; Star ws; liti "СМР"];
    seqs [Bol; Star ws; liti "Инженеринг"];
    seqs [Bol; Star ws; liti "Община"; Plus ws];
    seqs [Bol; Star ws; liti "област"; Plus ws];
    seqs [Bol; Star ws; lit "км"; Star ws; Eol];
    seqs [Bol; Star ws; Plus (Unit digitOrSpace); lit "м"; Star ws; Eol];
    seqs [Bol; Star ws; Plus (Unit digitOrSpace); lit "лв"; Star ws; Eol] ].

Definition truncationIndicators : list regex :=
  [ liti "[TRUNCATED]";
    liti "Text truncated from";
    lit "...";
    seqs [liti "и т.н"; Opt (unit_ci 46); Star ws; Eol];
    liti "продължава" ].

(** [/[�]/] *)
Definition replacementCharacter : regex := Unit (fun c => c =? 65533).

Definition lawKeywords : list jsstring :=
  [ js "закон"; js "член"; js "параграф"; js "алинея"; js "точка"; js "изменя";
    js "допълва" ].

(** The argument of [validateLawText]; only [fullText] is read. *)
Module LawData.
Record t : Type := mk {
  fullText : option jsstring;
  lawId : option jsstring;
  title : option jsstring
}.
End LawData.

Definition initialResult : ValidationResult :=
  {| isValid := true; issues := []; severity := none; recommendations := [] |}.

(** One rejecting check that fires: [isValid = false], push the tag, set the
    severity, push the recommendation. *)
Definition reject (tag : IssueTag) (sev : Severity) (rec : string) (r : ValidationResult)
  : ValidationResult :=
  {| isValid := false;
     issues := issues r ++ [tag];
     severity := sev;
     recommendations := recommendations r ++ [rec] |}.

(** [result.severity === 'critical' ? 'critical' : s] *)
Definition criticalOr (s : Severity) (r : ValidationResult) : Severity :=
  if isCritical (severity r) then critical else s.

(** "Check text length" *)
Definition checkLength (text : jsstring) (r : ValidationResult) : ValidationResult :=
  if (length text <? 100)%nat then
    reject extremely_short critical "Text too short - likely scraping error" r
  else if (length text <? 500)%nat then
    reject very_short high "Text very short - verify content quality" r
  else r.

(** [fullText.slice(-500).trim()], then its last ten lines. *)
Definition endingText (text : jsstring) : jsstring := trim (sliceLast 500 text).
Definition lastLines (text : jsstring) : jsstring :=
  trim (join [10] (sliceLast 10 (splitChar 10 [] (endingText text)))).

Definition hasValidEnding (text : jsstring) : bool :=
  existsb (fun pattern => test pattern (lastLines text)) validEndingPatterns.
Definition hasInvalidEnding (text : jsstring) : bool :=
  existsb (fun pattern => test pattern (lastLines text)) invalidEndingPatterns.
Definition wordCount (text : jsstring) : nat :=
  length (splitWhiteSpace [] false (lastLines text)).

(** "Check for invalid endings" *)
Definition checkInvalidEnding (text : jsstring) (r : ValidationResult) : ValidationResult :=
  if hasInvalidEnding text then
    reject ends_with_table_data (criticalOr high r)
      "Text ends with table/numeric data instead of law content" r
  else r.

Definition checkSuspiciousEnding (text : jsstring) (r : ValidationResult)
  : ValidationResult :=
  if negb (hasValidEnding text) && negb (hasInvalidEnding text) then
    if (wordCount text <? 5)%nat then
      reject suspicious_ending (criticalOr medium r) "Ending seems incomplete or unusual" r
    else r
  else r.

(** "Check for truncation indicators" *)
Definition checkTruncation (text : jsstring) (r : ValidationResult) : ValidationResult :=
  if existsb (fun pattern => test pattern text) truncationIndicators then
    reject truncated (criticalOr high r) "Text appears to be truncated" r
  else r.

(** "Check for encoding issues" *)
Definition checkEncoding (text : jsstring) (r : ValidationResult) : ValidationResult :=
  if test replacementCharacter text then
    reject encoding_issues (criticalOr medium r) "Text has encoding issues" r
  else r.

(** "Analyze content structure" *)
Definition paragraphs (text : jsstring) : list jsstring :=
  filter (fun p => (0 <? length (trim p))%nat) (splitPair 10 10 [] text).

Definition checkStructure (text : jsstring) (r : ValidationResult) : ValidationResult :=
  if (length (paragraphs text) <? 3)%nat then
    {| isValid := isValid r;
       issues := issues r ++ [poor_structure];
       severity := match severity r with none => low | s => s end;
       recommendations := recommendations r ++ ["Text has poor paragraph structure"%string] |}
  else r.

(** "Check for reasonable law-like content" *)
Definition hasLawKeywords (text : jsstring) : bool :=
  existsb (fun keyword => includes keyword (toLowerCase text)) lawKeywords.

Definition checkLawContent (text : jsstring) (r : ValidationResult) : ValidationResult :=
  if negb (hasLawKeywords text) then
    reject no_law_content (criticalOr high r)
      "Text does not contain typical law terminology" r
  else r.

(** The checks that follow the early return, in source order. *)
Definition checks : list (jsstring -> ValidationResult -> ValidationResult) :=
  [ checkLength; checkInvalidEnding; checkSuspiciousEnding; checkTruncation;
    checkEncoding; checkStructure; checkLawContent ].

Definition runChecks (cs : list (jsstring -> ValidationResult -> ValidationResult))
    (text : jsstring) (r : ValidationResult) : ValidationResult :=
  fold_left (fun acc check => check text acc) cs r.

(** [validateLawText] *)
Definition validateLawText (lawData : LawData.t) : ValidationResult :=
  match LawData.fullText lawData with
  | None | Some [] =>
      reject no_full_text critical "Complete re-scrape required" initialResult
  | Some text => runChecks checks text initialResult
  end.

(** The results after each check of the decision sequence, the initial result
    first. *)
Fixpoint decisionSequence (cs : list (jsstring -> ValidationResult -> ValidationResult))
    (text : jsstring) (r : ValidationResult) : list ValidationResult :=
  match cs with
  | [] => [r]
  | check :: cs' => r :: decisionSequence cs' text (check text r)
  end.

(** The severity each issue carries in the decision sequence. *)
Definition issueSeverity (tag : IssueTag) : Severity :=
  match tag with
  | no_full_text | extremely_short => critical
  | very_short | ends_with_table_data | truncated | no_law_content => high
  | suspicious_ending | encoding_issues => medium
  | poor_structure => low
  end.

Definition maxSeverity (a b : Severity) : Severity :=
  if (rank a <? rank b)%nat then b else a.

Definition maxIssueSeverity (tags : list IssueTag) : Severity :=
  fold_left (fun acc tag => maxSeverity acc (issueSeverity tag)) tags none.

End TextValidator.

(* ================================================================== *)
(** ** Files of the output directory *)
(* ================================================================== *)

Module FS.

(** What [JSON.parse] makes of the content of a [*.json] file: an object with
    the fields of a scraped law (what [JSON.stringify] wrote), the value
    [null], whose properties cannot be read, or a syntax error.  Values of
    other shapes (numbers, arrays, objects with other fields) are outside
    the model. *)
Inductive FileContent : Type :=
| RecordFile (law : ScrapedLaw.t)
| NullFile
| CorruptFile.

(** A directory: file names with their contents, each name once. *)
Definition Directory := list (jsstring * FileContent).

Definition existsSync (name : jsstring) (d : Directory) : bool :=
  existsb (fun entry => JS.eqb (fst entry) name) d.

(** [fs.promises.writeFile]: create the file or replace its content wholesale. *)
Fixpoint writeFile (name : jsstring) (content : FileContent) (d : Directory) : Directory :=
  match d with
  | [] => [(name, content)]
  | (n, c) :: d' =>
      if JS.eqb n name then (n, content) :: d'
      else (n, c) :: writeFile name content d'
  end.

End FS.
Import FS.

(* ================================================================== *)
(** ** law-scraper.js (class BulgarianLawsScraper) *)
(* ================================================================== *)

Module Scraper.
Import Regex.

(** The options the modelled methods read. *)
Record Options : Type := mkOptions {
  maxRetries : nat;
  delayBetweenRequests : Z;
  concurrency : nat;
  minTextLength : nat;
  maxTextLength : nat
}.

(** The defaults of the constructor. *)
Definition defaultOptions : Options :=
  {| maxRetries := 3; delayBetweenRequests := 2000; concurrency := 3;
     minTextLength := 50; maxTextLength := 1000 * 1000 |}.

(** *** processLawText *)

Definition lineStart : regex := Alt Bol (unit_cs 10).   (* (?:^|\n) *)

Definition startPatterns : list regex :=
  [ seqs [lineStart; Star ws; liti "ЗАКОН"; Plus ws; Alt (liti "ЗА") (liti "№")];
    seqs [lineStart; Star ws; liti "УКАЗ"; Plus ws; liti "№"];
    seqs [lineStart; Star ws; liti "Закон"; Plus ws; liti "за"] ].

Definition endPatterns : list regex :=
  [ seqs [liti "Председател"; Upto 200 anyUnit; Eol];
    seqs [liti "Министър-председател"; Upto 200 anyUnit; Eol];
    seqs [liti "Издаден"; Upto 100 anyUnit; Eol] ].

(** The [for ... of patterns] loops: the first pattern that matches decides. *)
Fixpoint firstMatch (patterns : list regex) (text : jsstring) : option (nat * nat) :=
  match patterns with
  | [] => None
  | pattern :: rest =>
      match exec pattern text with
      | Some m => Some m
      | None => firstMatch rest text
      end
  end.

Definition startIndex (text : jsstring) : nat :=
  match firstMatch startPatterns text with
  | Some (index, _) => index
  | None => O
  end.

(** [match.index + match[0].length] of the first end pattern that matches. *)
Definition endIndex (text : jsstring) : nat :=
  match firstMatch endPatterns text with
  | Some (_, matchEnd) => matchEnd
  | None => length text
  end.

Definition processLawText (text : jsstring) : jsstring :=
  match text with
  | [] => []
  | _ :: _ => trim (slice (startIndex text) (endIndex text) text)
  end.

(** *** extractLawContent *)

(** What the selector cascades of [extractLawContent] read from the page: the
    title the title selectors stop at, the inner text of each [.law-details]
    element, and the text the three body strategies end with.  The selection
    itself is the browser's. *)
Record PageContent : Type := mkPage {
  titleText : jsstring;
  detailTexts : list jsstring;
  bodyText : jsstring
}.

Definition truncationMarker : jsstring := 10 :: js "[TRUNCATED]".   (* '\n[TRUNCATED]' *)

(** "Clean and process the full text", "Enforce max length limit" *)
Definition cleanAndLimit (opts : Options) (fullText : jsstring) : jsstring :=
  match fullText with
  | [] => []
  | _ :: _ =>
      let fullText := processLawText fullText in
      if (maxTextLength opts <? length fullText)%nat then
        slice 0 (maxTextLength opts) fullText ++ truncationMarker
      else fullText
  end.

Definition isNonEmpty (s : jsstring) : bool :=
  match s with [] => false | _ :: _ => true end.

Definition extractLawContent (opts : Options) (page : PageContent) : ScrapingData.t :=
  {| ScrapingData.actualTitle := Some (trim (titleText page));
     ScrapingData.metadata := Some (filter isNonEmpty (map trim (detailTexts page)));
     ScrapingData.fullText := Some (trim (cleanAndLimit opts (bodyText page)));
     ScrapingData.error := None;
     ScrapingData.retryCount := None |}.

(** *** scrapeSingleLaw *)

Record Stats : Type := mkStats {
  processed : nat;
  successful : nat;
  failed : nat;
  skipped : nat
}.

(** What an invocation does that can be observed from outside. *)
Inductive Event : Type :=
| Skipped (fileName : jsstring)                       (* "Skipping already processed law" *)
| Attempt (item : jsstring) (attempt : nat)           (* a browser is launched for the attempt *)
| Sleep (item : jsstring) (ms : Z)                    (* [this.delay] of the backoff *)
| Saved (fileName : jsstring) (law : ScrapedLaw.t)    (* [saveLawToFile] wrote the file *)
| Failure (entry : FailedLaw.t)                       (* [logFailedLaw] *)
| RateLimit (ms : Z)                                  (* the delay between requests *)
| Progress (stats : Stats).                           (* [saveBatchProgress] *)

(** The state the scraper works on: the output directory, [this.stats], the
    entries handed to [logFailedLaw] in order (the read-modify-write of the
    log file itself is not modelled), and the events so far (oldest first). *)
Record World : Type := mkWorld {
  files : Directory;
  stats : Stats;
  failures : list FailedLaw.t;
  trace : list Event
}.

Definition emit (e : Event) (w : World) : World :=
  {| files := files w; stats := stats w; failures := failures w; trace := trace w ++ [e] |}.

(** What the outside world answers to one attempt: some step of the [try]
    block before the record is created throws (launch, navigation, stability
    wait, extraction), or the page content is read at clock [now] and the
    later file write succeeds or throws (a write that throws leaves no
    file). *)
Inductive AttemptOutcome : Type :=
| Throws (message : jsstring)
| Extracts (page : PageContent) (now : Z) (saveError : option jsstring).

(** The answers for one work item: one per attempt, and the clock of the
    failure entry. *)
Record ItemEnv : Type := mkItemEnv {
  outcome : nat -> AttemptOutcome;
  failedAt : Z
}.

(** [`${lawId}.json`] inside the output directory. *)
Definition outputFile (law : InputLaw) : jsstring :=
  match extractLawId (link law) with
  | Some lawId => lawId ++ js ".json"
  | None => js "null.json"
  end.

(** [Math.min(1000 * Math.pow(2, attempt - 1), 10000)] *)
Definition backoffDelay (attempt : nat) : Z :=
  Z.min (1000 * 2 ^ Z.of_nat (attempt - 1)) 10000.

(** The body of the [try] block: the new world on success, the message of
    the error thrown otherwise. *)
Definition tryAttempt (opts : Options) (env : ItemEnv) (law : InputLaw) (attempt : nat)
    (w : World) : World + jsstring :=
  match outcome env attempt with
  | Throws message => inr message
  | Extracts page now saveError =>
      let scrapingData := extractLawContent opts page in
      let scrapedLaw :=
        createScrapedLaw now law
          {| ScrapingData.actualTitle := ScrapingData.actualTitle scrapingData;
             ScrapingData.metadata := ScrapingData.metadata scrapingData;
             ScrapingData.fullText := ScrapingData.fullText scrapingData;
             ScrapingData.error := ScrapingData.error scrapingData;
             ScrapingData.retryCount := Some (attempt - 1)%nat |} in
      if negb (ScrapedLaw.isComplete scrapedLaw) then
        inr (js "Insufficient content extracted (" ++
             ofNat (ScrapedLaw.textLength scrapedLaw) ++ js " chars)")
      else
        match saveError with
        | Some message => inr (js "Failed to save law file: " ++ message)
        | None =>
            let w := emit (Saved (outputFile law) scrapedLaw) w in
            inl {| files := writeFile (outputFile law) (RecordFile scrapedLaw) (files w);
                   stats := {| processed := S (processed (stats w));
                               successful := S (successful (stats w));
                               failed := failed (stats w);
                               skipped := skipped (stats w) |};
                   failures := failures w;
                   trace := trace w |}
        end
  end.

(** "All retries exhausted - log failure" *)
Definition exhausted (env : ItemEnv) (law : InputLaw) (batchId : jsstring)
    (lastError : option jsstring) (retryCount : nat) (w : World) : World :=
  let failedLaw :=
    createFailedLaw (failedAt env) law (orString lastError (js "Unknown error"))
      retryCount batchId in
  {| files := files w;
     stats := {| processed := S (processed (stats w));
                 successful := successful (stats w);
                 failed := S (failed (stats w));
                 skipped := skipped (stats w) |};
     failures := failures w ++ [failedLaw];
     trace := trace w ++ [Failure failedLaw] |}.

(** The retry loop [for (attempt = 1; attempt <= maxRetries; attempt++)]:
    [remaining] counts the iterations left, [attempt] is the loop variable.
    The [finally] block closes the page and the browser and logs; it touches
    no part of the world. *)
Fixpoint retryLoop (opts : Options) (env : ItemEnv) (law : InputLaw) (batchId : jsstring)
    (remaining attempt : nat) (lastError : option jsstring) (retryCount : nat)
    (w : World) : World :=
  match remaining with
  | O => exhausted env law batchId lastError retryCount w
  | S remaining' =>
      let w := emit (Attempt (outputFile law) attempt) w in
      match tryAttempt opts env law attempt w with
      | inl w' => w'
      | inr message =>
          let w :=
            if (attempt <? maxRetries opts)%nat
            then emit (Sleep (outputFile law) (backoffDelay attempt)) w
            else w in
          retryLoop opts env law batchId remaining' (S attempt) (Some message) attempt w
      end
  end.

(** "Skip if already processed and file exists" *)
Definition skip (law : InputLaw) (w : World) : World :=
  {| files := files w;
     stats := {| processed := processed (stats w);
                 successful := successful (stats w);
                 failed := failed (stats w);
                 skipped := S (skipped (stats w)) |};
     failures := failures w;
     trace := trace w ++ [Skipped (outputFile law)] |}.

Definition scrapeSingleLaw (opts : Options) (env : ItemEnv) (law : InputLaw)
    (batchId : jsstring) (w : World) : World :=
  if existsSync (outputFile law) (files w) then skip law w
  else retryLoop opts env law batchId (maxRetries opts) 1 None 0 w.

(** An event of the retry loop proper: an attempt or a backoff delay. *)
Definition isRetryStep (e : Event) : bool :=
  match e with
  | Attempt _ _ | Sleep _ _ => true
  | _ => false
  end.

(** The [try] block of the attempt ends in the [catch]. *)
Definition attemptFails (opts : Options) (env : ItemEnv) (law : InputLaw) (attempt : nat)
  : bool :=
  match tryAttempt opts env law attempt
          {| files := []; stats := mkStats 0 0 0 0; failures := []; trace := [] |} with
  | inl _ => false
  | inr _ => true
  end.

(** A record that passes the content check of [scrapeSingleLaw]. *)
Definition sufficient (r : ScrapedLaw.t) : Prop :=
  ScrapedLaw.isComplete r = true /\ (50 < length (ScrapedLaw.fullText r))%nat.

(** Every record a [Saved] event of the trace carries passes the check. *)
Definition savedSufficient (T : list Event) : Prop :=
  forall name r, In (Saved name r) T -> sufficient r.

(** Every file of [d] is a file of [dir] left as it was, or a record that
    passes the check. *)
Definition filesSufficient (dir d : Directory) : Prop :=
  forall name content,
    In (name, content) d ->
    In (name, content) dir \/ exists r, content = RecordFile r /\ sufficient r.

(** An event of the scheduler's own: the delay between requests or a
    progress checkpoint. *)
Definition isBookkeeping (e : Event) : bool :=
  match e with
  | RateLimit _ | Progress _ => true
  | _ => false
  end.

(** *** processLawsWithConcurrency *)

(** Each of the [concurrency] workers runs the loop [processNext]; they share
    the cursor [index] and the world.  Control passes from one worker to
    another only at an [await].  A worker that claims an item runs
    [scrapeSingleLaw] up to its first [await] at once: the cursor is advanced
    and the existence of the output file is checked in the same turn.  The
    retry loop that follows reads nothing of the shared world and changes it
    only when it ends (file and counters on success, failure entry and
    counters on exhaustion), so it is one further turn of the worker. *)
Inductive Worker : Type :=
| Idle                                          (* at the test of the [while] loop *)
| Scraping (currentIndex : nat) (law : InputLaw)  (* inside the retry loop *)
| Done.                                         (* left the loop *)

Record Scheduler : Type := mkScheduler {
  index : nat;
  workers : list Worker;
  world : World
}.

Fixpoint setWorker (i : nat) (x : Worker) (l : list Worker) : list Worker :=
  match l, i with
  | [], _ => []
  | _ :: l', O => x :: l'
  | y :: l', S i' => y :: setWorker i' x l'
  end.

(** After [scrapeSingleLaw] returns: the delay between requests, then the
    progress file every tenth index. *)
Definition afterItem (opts : Options) (total currentIndex : nat) (w : World) : World :=
  let w :=
    if (0 <? delayBetweenRequests opts) && (currentIndex <? total - 1)%nat
    then emit (RateLimit (delayBetweenRequests opts)) w
    else w in
  if (currentIndex mod 10 =? 0)%nat then emit (Progress (stats w)) w else w.

(** One turn of worker [i]; [None] when there is no such worker or it has
    left its loop. *)
Definition workerStep (opts : Options) (env : nat -> ItemEnv) (batchId : jsstring)
    (laws : list InputLaw) (i : nat) (s : Scheduler) : option Scheduler :=
  match nth_error (workers s) i with
  | Some Idle =>
      match nth_error laws (index s) with
      | Some law =>
          let currentIndex := index s in
          if existsSync (outputFile law) (files (world s)) then
            Some {| index := S currentIndex;
                    workers := workers s;
                    world := afterItem opts (length laws) currentIndex (skip law (world s)) |}
          else
            Some {| index := S currentIndex;
                    workers := setWorker i (Scraping currentIndex law) (workers s);
                    world := world s |}
      | None =>
          Some {| index := index s; workers := setWorker i Done (workers s);
                  world := world s |}
      end
  | Some (Scraping currentIndex law) =>
      Some {| index := index s;
              workers := setWorker i Idle (workers s);
              world :=
                afterItem opts (length laws) currentIndex
                  (retryLoop opts (env currentIndex) law batchId (maxRetries opts) 1 None 0
                     (world s)) |}
  | Some Done | None => None
  end.

(** The workers take turns in the order of [schedule]. *)
Fixpoint runSchedule (opts : Options) (env : nat -> ItemEnv) (batchId : jsstring)
    (laws : list InputLaw) (schedule : list nat) (s : Scheduler) : Scheduler :=
  match schedule with
  | [] => s
  | i :: schedule' =>
      match workerStep opts env batchId laws i s with
      | Some s' => runSchedule opts env batchId laws schedule' s'
      | None => runSchedule opts env batchId laws schedule' s
      end
  end.

Definition isDone (x : Worker) : bool :=
  match x with Done => true | _ => false end.

(** [Promise.all(workers)] is settled. *)
Definition allDone (s : Scheduler) : bool := forallb isDone (workers s).

(** A new scraper object on an output directory: [this.stats] at zero. *)
Definition freshWorld (dir : Directory) : World :=
  {| files := dir; stats := mkStats 0 0 0 0; failures := []; trace := [] |}.

Definition startWorkers (opts : Options) (dir : Directory) : Scheduler :=
  {| index := 0; workers := repeat Idle (concurrency opts); world := freshWorld dir |}.

(** A run of [processLawsWithConcurrency] on a fresh scraper. *)
Definition processLawsWithConcurrency (opts : Options) (env : nat -> ItemEnv)
    (batchId : jsstring) (laws : list InputLaw) (schedule : list nat) (dir : Directory)
  : Scheduler :=
  runSchedule opts env batchId laws schedule (startWorkers opts dir).

(** The turns worker [i] is given by [schedule]. *)
Definition turnsOf (i : nat) (schedule : list nat) : nat :=
  count_occ Nat.eq_dec schedule i.

(** The event loop resumes every worker until it has left its loop: each of
    the [concurrency] workers is given at least [2 * laws.length + 1] turns
    (two for an item it claims: the claim and the end of the retry loop, and
    one to find the cursor at the end).  The order of the turns is free, and
    a turn given to a worker that has left its loop does nothing. *)
Definition resumesEveryWorker (opts : Options) (laws : list InputLaw) (schedule : list nat)
  : bool :=
  forallb (fun i => (2 * length laws + 1 <=? turnsOf i schedule)%nat)
    (seq 0 (concurrency opts)).

(** What worker [i] has left to do at most: two turns for each item not yet
    claimed, one for the retry loop it is in, one to leave. *)
Definition turnsLeft (laws : list InputLaw) (i : nat) (s : Scheduler) : nat :=
  match nth_error (workers s) i with
  | Some Idle => 2 * (length laws - index s) + 1
  | Some (Scraping _ _) => 2 * (length laws - index s) + 2
  | Some Done | None => 0
  end.

(** *** Resumption *)

(** Every law of the worklist has its output file in the directory. *)
Definition allOutputsExist (laws : list InputLaw) (dir : Directory) : Prop :=
  forall law, In law laws -> existsSync (outputFile law) dir = true.

(** An event that is neither an attempt, a sleep, a save nor a failure. *)
Definition isQuiet (e : Event) : bool :=
  match e with
  | Skipped _ | RateLimit _ | Progress _ => true
  | _ => false
  end.

(** The state of a run over a directory that holds every output file: no
    worker is scraping, and every item claimed so far was skipped. *)
Record AllSkipped (opts : Options) (laws : list InputLaw) (dir : Directory) (s : Scheduler)
  : Prop := {
  skipped_files : files (world s) = dir;
  skipped_successful : successful (stats (world s)) = O;
  skipped_failed : failed (stats (world s)) = O;
  skipped_count : skipped (stats (world s)) = index s;
  skipped_index : (index s <= length laws)%nat;
  skipped_workers :
    Forall (fun x => x = Idle \/ (x = Done /\ index s = length laws)) (workers s);
  skipped_pool : length (workers s) = concurrency opts;
  skipped_trace : Forall (fun e => isQuiet e = true) (trace (world s))
}.

(** The state of any run: an item that was claimed has its output file, or
    is being scraped, or some item has failed. *)
Record Claimed (opts : Options) (laws : list InputLaw) (s : Scheduler) : Prop := {
  claimed_items :
    forall k law,
      nth_error laws k = Some law -> (k < index s)%nat ->
      existsSync (outputFile law) (files (world s)) = true
      \/ In (Scraping k law) (workers s)
      \/ (0 < failed (stats (world s)))%nat;
  claimed_workers :
    Forall (fun x => match x with
                     | Scraping k law => nth_error laws k = Some law
                     | Done => (length laws <= index s)%nat
                     | Idle => True
                     end) (workers s);
  claimed_pool : length (workers s) = concurrency opts
}.

End Scraper.

(* ================================================================== *)
(** ** batch-processor.js (class BatchProcessor) *)
(* ================================================================== *)

Module BatchProcessor.
Import Regex.

Inductive SortOrder : Type := desc | asc.
Inductive Strategy : Type := size_ | year_ | equal_.

(** The options the partitioning reads; [totalWorkers] may be absent. *)
Record Options : Type := mkOptions {
  batchSize : nat;
  sortOrder : SortOrder;
  strategy : Strategy;
  totalWorkers : option nat
}.

(** The defaults of the constructor. *)
Definition defaultOptions : Options :=
  {| batchSize := 100; sortOrder := desc; strategy := size_; totalWorkers := None |}.

Record Batch : Type := mkBatch {
  batchIndex : nat;
  year : option Z;
  subBatch : option nat;
  laws : list InputLaw;
  size : nat;
  startIndex : nat;
  endIndex : nat
}.

(** *** createBatchesBySize *)

(** The loop [for (i = 0; i < laws.length; i += batchSize)].  [fuel] bounds
    the number of iterations; [None]: the loop is still running when the fuel
    is spent. *)
Fixpoint sizeLoop (fuel : nat) (batchSize : nat) (laws : list InputLaw) (i : nat)
    (batches : list Batch) : option (list Batch) :=
  if (i <? length laws)%nat then
    match fuel with
    | O => None
    | S fuel' =>
        let batchLaws := slice i (i + batchSize) laws in
        sizeLoop fuel' batchSize laws (i + batchSize)
          (batches ++
           [ {| batchIndex := length batches;
                year := None;
                subBatch := None;
                laws := batchLaws;
                size := length batchLaws;
                startIndex := i;
                endIndex := Nat.min (i + batchSize) (length laws) |} ])
    end
  else Some batches.

(** [createBatchesBySize(laws)]: the batch size is [this.options.batchSize].
    One iteration per law is fuel enough for every batch size that lets the
    loop advance. *)
Definition createBatchesBySize (opts : Options) (laws : list InputLaw)
  : option (list Batch) :=
  sizeLoop (length laws) (batchSize opts) laws 0 [].

(** *** createEqualSizeBatches *)

(** [Math.ceil(n / totalWorkers)] *)
Definition ceilDiv (n d : nat) : nat := ((n + d - 1) / d)%nat.

(** [this.options.totalWorkers || 10] *)
Definition workerCount (opts : Options) : nat :=
  match totalWorkers opts with
  | Some (S k) => S k
  | _ => 10%nat
  end.

(** [createBatchesBySize] declares the single parameter [laws]: a second
    argument of a call is evaluated and dropped. *)
Definition createBatchesBySize_call (opts : Options) (laws : list InputLaw)
    (ignoredArgument : nat) : option (list Batch) :=
  createBatchesBySize opts laws.

Definition createEqualSizeBatches (opts : Options) (laws : list InputLaw)
  : option (list Batch) :=
  let totalWorkers := workerCount opts in
  let batchSize := ceilDiv (length laws) totalWorkers in
  createBatchesBySize_call opts laws batchSize.

(** *** extractYearFromLaw *)

(** [/(\d{4})/] *)
Definition yearPattern : regex := seqs [digit; digit; digit; digit].

Definition extractYearFromLaw (law : InputLaw) : Z :=
  let fromId :=
    match extractLawId (link law) with
    | Some lawId =>
        let id := parseDigits lawId in
        if 166000 <=? id then 2025
        else if 165000 <=? id then 2024
        else if 164000 <=? id then 2023
        else if 163000 <=? id then 2022
        else if 162000 <=? id then 2021
        else if 161000 <=? id then 2020
        else if 160000 <=? id then 2019
        else if 159000 <=? id then 2018
        else if 158000 <=? id then 2017
        else 2016
    | None => 2025
    end in
  match exec yearPattern (title law) with
  | Some (b, e) =>
      let year := parseDigits (slice b e (title law)) in
      if (2016 <=? year) && (year <=? 2030) then year else fromId
  | None => fromId
  end.

(** *** createBatchesByYear *)

(** An entry of a year group: [{ law, originalIndex }]. *)
Definition Entry : Type := (InputLaw * nat)%type.

(** The [Map] from year to group, in insertion order. *)
Definition YearGroups : Type := list (Z * list Entry).

Definition has (year : Z) (groups : YearGroups) : bool :=
  existsb (fun g => fst g =? year) groups.

Fixpoint get (year : Z) (groups : YearGroups) : list Entry :=
  match groups with
  | [] => []
  | (y, entries) :: rest => if y =? year then entries else get year rest
  end.

(** [yearGroups.get(year).push(entry)] for a year the map has. *)
Fixpoint push (year : Z) (entry : Entry) (groups : YearGroups) : YearGroups :=
  match groups with
  | [] => []
  | (y, entries) :: rest =>
      if y =? year then (y, entries ++ [entry]) :: rest
      else (y, entries) :: push year entry rest
  end.

(** The body of [laws.forEach((law, index) => ...)]. *)
Definition addToGroups (groups : YearGroups) (law : InputLaw) (index : nat) : YearGroups :=
  let year := extractYearFromLaw law in
  let groups := if has year groups then groups else groups ++ [(year, [])] in
  push year (law, index) groups.

Fixpoint groupByYear (laws : list InputLaw) (index : nat) (groups : YearGroups)
  : YearGroups :=
  match laws with
  | [] => groups
  | law :: rest => groupByYear rest (S index) (addToGroups groups law index)
  end.

(** All the entries of the map, group after group. *)
Definition entriesOf (groups : YearGroups) : list Entry := concat (map snd groups).

(** The map as [groupByYear] builds it: each year once, no group empty. *)
Record GroupsOk (groups : YearGroups) : Prop := {
  keys_distinct : NoDup (map fst groups);
  groups_nonempty : Forall (fun g => snd g <> []) groups
}.

(** [Array.prototype.sort] with the comparator of [sortedYears]; the keys of
    a map are distinct, so every sorting algorithm yields this result. *)
Definition comesBefore (order : SortOrder) (a b : Z) : bool :=
  match order with
  | desc => b <=? a
  | asc => a <=? b
  end.

Fixpoint insertYear (order : SortOrder) (y : Z) (sorted : list Z) : list Z :=
  match sorted with
  | [] => [y]
  | x :: rest => if comesBefore order y x then y :: x :: rest
                 else x :: insertYear order y rest
  end.

Definition sortYears (order : SortOrder) (years : list Z) : list Z :=
  fold_right (insertYear order) [] years.

(** [entries[0].originalIndex] and
    [entries[entries.length - 1].originalIndex + 1]; reading them from an
    empty array throws a [TypeError] ([None]). *)
Definition indexRange (entries : list Entry) : option (nat * nat) :=
  match hd_error entries, hd_error (rev entries) with
  | Some (_, first), Some (_, last) => Some (first, (last + 1)%nat)
  | _, _ => None
  end.

(** The inner loop [for (i = 0; i < yearLaws.length; i += batchSize)] that
    splits a year into sub-batches.  [None]: the loop throws, or is still
    running when the fuel is spent. *)
Fixpoint subBatchLoop (fuel : nat) (batchSize : nat) (year : Z) (yearLaws : list Entry)
    (i : nat) (batches : list Batch) : option (list Batch) :=
  if (i <? length yearLaws)%nat then
    match fuel with
    | O => None
    | S fuel' =>
        let subBatch := slice i (i + batchSize) yearLaws in
        match indexRange subBatch with
        | None => None
        | Some (first, last) =>
            subBatchLoop fuel' batchSize year yearLaws (i + batchSize)
              (batches ++
               [ {| batchIndex := length batches;
                    year := Some year;
                    subBatch := Some (i / batchSize + 1)%nat;
                    laws := map fst subBatch;
                    size := length subBatch;
                    startIndex := first;
                    endIndex := last |} ])
        end
    end
  else Some batches.

(** The loop [for (const year of sortedYears)]. *)
Fixpoint yearLoop (opts : Options) (groups : YearGroups) (sortedYears : list Z)
    (batches : list Batch) : option (list Batch) :=
  match sortedYears with
  | [] => Some batches
  | year :: rest =>
      let yearLaws := get year groups in
      if (batchSize opts <? length yearLaws)%nat then
        match subBatchLoop (length yearLaws) (batchSize opts) year yearLaws 0 batches with
        | Some batches' => yearLoop opts groups rest batches'
        | None => None
        end
      else
        match indexRange yearLaws with
        | None => None
        | Some (first, last) =>
            yearLoop opts groups rest
              (batches ++
               [ {| batchIndex := length batches;
                    year := Some year;
                    subBatch := None;
                    laws := map fst yearLaws;
                    size := length yearLaws;
                    startIndex := first;
                    endIndex := last |} ])
        end
  end.

Definition createBatchesByYear (opts : Options) (laws : list InputLaw)
  : option (list Batch) :=
  let yearGroups := groupByYear laws 0 [] in
  let sortedYears := sortYears (sortOrder opts) (map fst yearGroups) in
  yearLoop opts yearGroups sortedYears [].

(** *** createBatchesByStrategy *)

Definition createBatchesByStrategy (opts : Options) (laws : list InputLaw)
  : option (list Batch) :=
  match strategy opts with
  | year_ => createBatchesByYear opts laws
  | equal_ => createEqualSizeBatches opts laws
  | size_ => createBatchesBySize opts laws
  end.

(** The concatenation of the batches' [laws] in [batchIndex] order. *)
Definition allLaws (batches : list Batch) : list InputLaw :=
  concat (map laws batches).

End BatchProcessor.

(* ================================================================== *)
(** ** result-aggregator.js (class ResultAggregator) *)
(* ================================================================== *)

Module ResultAggregator.

(** The statistics block; [minTextLength] starts at [Infinity] ([None]). *)
Record Statistics : Type := mkStatistics {
  total : nat;
  successful : nat;
  withErrors : nat;
  totalTextLength : nat;
  minTextLength : option nat;
  maxTextLength : nat;
  averageTextLength : nat
}.

Definition initialStatistics : Statistics :=
  {| total := 0; successful := 0; withErrors := 0; totalTextLength := 0;
     minTextLength := None; maxTextLength := 0; averageTextLength := 0 |}.

(** [Math.min(stats.minTextLength, n)] *)
Definition minWith (m : option nat) (n : nat) : option nat :=
  match m with
  | None => Some n
  | Some k => Some (Nat.min k n)
  end.

(** The body of [for (const file of lawFiles)]: [try] to read and parse the
    file, push the parsed value ([None] is [null]) and count it; [catch]
    counts an error.  Reading [law.isComplete] of [null] throws, after the
    push and [stats.total++]. *)
Definition processFile (acc : list (option ScrapedLaw.t) * Statistics) (content : FileContent)
  : list (option ScrapedLaw.t) * Statistics :=
  let (scrapedLaws, stats) := acc in
  match content with
  | RecordFile law =>
      let scrapedLaws := scrapedLaws ++ [Some law] in
      if ScrapedLaw.isComplete law && (50 <? ScrapedLaw.textLength law)%nat then
        (scrapedLaws,
         {| total := S (total stats);
            successful := S (successful stats);
            withErrors := withErrors stats;
            totalTextLength := (totalTextLength stats + ScrapedLaw.textLength law)%nat;
            minTextLength := minWith (minTextLength stats) (ScrapedLaw.textLength law);
            maxTextLength := Nat.max (maxTextLength stats) (ScrapedLaw.textLength law);
            averageTextLength := averageTextLength stats |})
      else
        (scrapedLaws,
         {| total := S (total stats);
            successful := successful stats;
            withErrors := S (withErrors stats);
            totalTextLength := totalTextLength stats;
            minTextLength := minTextLength stats;
            maxTextLength := maxTextLength stats;
            averageTextLength := averageTextLength stats |})
  | NullFile =>
      (scrapedLaws ++ [None],
       {| total := S (total stats);
          successful := successful stats;
          withErrors := S (withErrors stats);
          totalTextLength := totalTextLength stats;
          minTextLength := minTextLength stats;
          maxTextLength := maxTextLength stats;
          averageTextLength := averageTextLength stats |})
  | CorruptFile =>
      (scrapedLaws,
       {| total := total stats;
          successful := successful stats;
          withErrors := S (withErrors stats);
          totalTextLength := totalTextLength stats;
          minTextLength := minTextLength stats;
          maxTextLength := maxTextLength stats;
          averageTextLength := averageTextLength stats |})
  end.

(** "Calculate average": [Math.round(totalTextLength / successful)], and
    [Infinity] replaced by 0. *)
Definition finishStatistics (stats : Statistics) : Statistics :=
  {| total := total stats;
     successful := successful stats;
     withErrors := withErrors stats;
     totalTextLength := totalTextLength stats;
     minTextLength :=
       match minTextLength stats with
       | Some m => if (0 <? successful stats)%nat then Some m else Some O
       | None => Some O
       end;
     maxTextLength := maxTextLength stats;
     averageTextLength :=
       if (0 <? successful stats)%nat
       then ((2 * totalTextLength stats + successful stats) / (2 * successful stats))%nat
       else averageTextLength stats |}.

(** [scrapedLaws.sort((a, b) => dateB - dateA)]: stable, newest first;
    [scrapedAt] is the time in milliseconds that the stored ISO string denotes.
    [fold_right] inserts each value in front of the later ones, so a record
    stays before the later records of the same date.  The comparator reads
    [scrapedAt] of both values and throws ([None]) when one is [null]; an
    array of one value is not compared at all. *)
Fixpoint insertByDate (law : option ScrapedLaw.t) (sorted : list (option ScrapedLaw.t))
  : option (list (option ScrapedLaw.t)) :=
  match sorted with
  | [] => Some [law]
  | x :: rest =>
      match x, law with
      | Some a, Some b =>
          if ScrapedLaw.scrapedAt a <=? ScrapedLaw.scrapedAt b then Some (law :: x :: rest)
          else option_map (cons x) (insertByDate law rest)
      | _, _ => None
      end
  end.

Definition sortByDate (l : list (option ScrapedLaw.t)) : option (list (option ScrapedLaw.t)) :=
  fold_right (fun law sorted =>
                match sorted with
                | Some sorted => insertByDate law sorted
                | None => None
                end) (Some []) l.

(** The failure log: absent, unparsable, the value [null], or an array of
    entries. *)
Inductive FailureLog : Type :=
| NoLog
| CorruptLog
| NullLog
| Log (entries : list FailedLaw.t).

Record Metadata : Type := mkMetadata {
  totalScrapedLaws : nat;
  successfulLaws : nat;
  errorLaws : nat;
  failedLawsCount : nat;
  statistics : Statistics
}.

Record AggregatedResult : Type := mkAggregated {
  metadata : Metadata;
  scrapedLaws : list (option ScrapedLaw.t);
  failedLaws : list FailedLaw.t
}.

(** [files.filter((f) => f.endsWith('.json'))] *)
Definition lawFiles (dir : Directory) : Directory :=
  filter (fun entry => endsWith (js ".json") (fst entry)) dir.

(** [aggregate]: [scrapedDir] is [None] when the directory does not exist.
    [None] is a rejected promise: the directory is missing, the failure log
    does not parse, the sort comparator throws, or [failedLaws.length] is
    read of [null]. *)
Definition aggregate (scrapedDir : option Directory) (failureLog : FailureLog)
  : option AggregatedResult :=
  match scrapedDir with
  | None => None
  | Some dir =>
      let (scrapedLaws, stats) :=
        fold_left processFile (map snd (lawFiles dir)) ([], initialStatistics) in
      let stats := finishStatistics stats in
      let failedLaws :=
        match failureLog with
        | NoLog => Some (Some [])
        | CorruptLog => None
        | NullLog => Some None
        | Log entries => Some (Some entries)
        end in
      match failedLaws with
      | None => None
      | Some failedLaws =>
          match sortByDate scrapedLaws, failedLaws with
          | Some scrapedLaws, Some failedLaws =>
              Some {| metadata :=
                        {| totalScrapedLaws := total stats;
                           successfulLaws := successful stats;
                           errorLaws := withErrors stats;
                           failedLawsCount := length failedLaws;
                           statistics := stats |};
                      scrapedLaws := scrapedLaws;
                      failedLaws := failedLaws |}
          | _, _ => None
          end
      end
  end.

End ResultAggregator.

(* ================================================================== *)
(** ** The statements of the specification, and the scenarios *)
(* ================================================================== *)

Module Spec.

(** *** Extraction record *)

(** The invariant of the extraction record for a configured threshold
    [minTextLength]. *)
Definition recordInvariant (minTextLength : nat) (r : ScrapedLaw.t) : Prop :=
  ScrapedLaw.textLength r = length (ScrapedLaw.fullText r) /\
  (ScrapedLaw.isComplete r = true <->
   ScrapedLaw.fullText r <> [] /\ (minTextLength < ScrapedLaw.textLength r)%nat).

Definition sixtyUnits : jsstring := repeat 97 60.

Definition someLaw : InputLaw :=
  {| title := js "12/03/2021 Закон за изменение на Закона за пътищата";
     date := js "";
     link := js "https://www.parliament.bg/bg/laws/ID/163456" |}.

(** *** Validator *)

(** A short amendment act with one replacement character (U+FFFD) in it. *)
Definition shortLawWithReplacementCharacter : jsstring :=
  js "ЗАКОН за изменение на Закона за пътищата

§ 1. В чл. 5 думата „агенци�та“ се заменя с „Агенцията“.

§ 2. Законът влиза в сила от деня на обнародването му в „Държавен вестник“.".

(** *** Batches *)

Definition numberedLaw (k : nat) : InputLaw :=
  {| title := js "Закон " ++ ofNat k;
     date := js "";
     link := js "https://www.parliament.bg/bg/laws/ID/1650" ++ ofNat (10 + k) |}.

(** A sorted worklist of 25 laws. *)
Definition twentyFiveLaws : list InputLaw := map numberedLaw (rev (seq 1 25)).

(** Seven laws of three years, the year in the title. *)
Definition datedLaw (year k : nat) : InputLaw :=
  {| title := js "01/02/" ++ ofNat year ++ js " Закон " ++ ofNat k;
     date := js "";
     link := js "https://www.parliament.bg/bg/laws/ID/1600" ++ ofNat (10 + k) |}.

Definition sevenLaws : list InputLaw :=
  [ datedLaw 2024 7; datedLaw 2024 6; datedLaw 2023 5; datedLaw 2024 4;
    datedLaw 2023 3; datedLaw 2022 2; datedLaw 2024 1 ].


(** *** Aggregation *)

(** The records of the files that hold one, in directory order. *)
Fixpoint recordsIn (contents : list FileContent) : list ScrapedLaw.t :=
  match contents with
  | [] => []
  | RecordFile law :: rest => law :: recordsIn rest
  | NullFile :: rest => recordsIn rest
  | CorruptFile :: rest => recordsIn rest
  end.

Fixpoint corruptIn (contents : list FileContent) : nat :=
  match contents with
  | [] => O
  | RecordFile _ :: rest => corruptIn rest
  | NullFile :: rest => corruptIn rest
  | CorruptFile :: rest => S (corruptIn rest)
  end.

Definition parsedRecords (dir : Directory) : list ScrapedLaw.t :=
  recordsIn (map snd (ResultAggregator.lawFiles dir)).

Definition corruptCount (dir : Directory) : nat :=
  corruptIn (map snd (ResultAggregator.lawFiles dir)).

(** A record the aggregator does not count as successful. *)
Definition countsAsError (law : ScrapedLaw.t) : bool :=
  negb (ScrapedLaw.isComplete law && (50 <? ScrapedLaw.textLength law)%nat).

(** The scenario as the specification states it, for a directory of 9
    record files that parse and 1 that does not. *)
Definition aggregationScenario (dir : Directory) (log : ResultAggregator.FailureLog) : Prop :=
  exists r,
    ResultAggregator.aggregate (Some dir) log = Some r /\
    ResultAggregator.total (ResultAggregator.statistics (ResultAggregator.metadata r)) = 10%nat /\
    ResultAggregator.errorLaws (ResultAggregator.metadata r) = 1%nat /\
    (forall law, In law (parsedRecords dir) -> In (Some law) (ResultAggregator.scrapedLaws r)).

(** A complete record of law [k], scraped at time [k]. *)
Definition completeRecord (k : nat) : ScrapedLaw.t :=
  createScrapedLaw (Z.of_nat k) (numberedLaw k)
    (ScrapingData.mk None None (Some (repeat 1072 (100 + k))) None None).

Definition recordEntry (k : nat) : jsstring * FileContent :=
  (Scraper.outputFile (numberedLaw k), RecordFile (completeRecord k)).

(** Nine record files and one corrupt file. *)
Definition nineAndOneCorrupt : Directory :=
  map recordEntry (seq 1 4) ++ [(js "165099.json", CorruptFile)] ++ map recordEntry (seq 5 5).


(** *** Normalizer *)

(** The scenario of the specification: navigation text, the opening of an
    act, an article, the signature line, a footer. *)
Definition pageWithFooter : jsstring :=
  js "Начало | Контакти
ЗАКОН ЗА ИЗМЕНЕНИЕ на Закона за пътищата
чл. 5 се изменя така
Председател на НС
footer".

(** The text from the opening to the end of the signature line. *)
Definition lawWithoutFooter : jsstring :=
  js "ЗАКОН ЗА ИЗМЕНЕНИЕ на Закона за пътищата
чл. 5 се изменя така
Председател на НС".

(** The truncation property as the specification states it. *)
Definition truncationAsStated (opts : Scraper.Options) (page : Scraper.PageContent) : Prop :=
  (Scraper.maxTextLength opts < length (Scraper.processLawText (Scraper.bodyText page)))%nat ->
  exists out,
    ScrapingData.fullText (Scraper.extractLawContent opts page) = Some out /\
    length out = (Scraper.maxTextLength opts + length (js "[TRUNCATED]"))%nat /\
    endsWith (js "[TRUNCATED]") out = true.

Definition eightUnitPage : Scraper.PageContent :=
  Scraper.mkPage (js "") [] (js "abcdefgh").

Definition limitFive : Scraper.Options :=
  {| Scraper.maxRetries := 3; Scraper.delayBetweenRequests := 2000;
     Scraper.concurrency := 3; Scraper.minTextLength := 50;
     Scraper.maxTextLength := 5 |}.


(** *** Retries and resumption *)

Definition goodPage : Scraper.PageContent :=
  Scraper.mkPage (js "Закон за пътищата") [js " Обн. ДВ, бр. 5 "; js "  "] pageWithFooter.

Definition emptyPage : Scraper.PageContent := Scraper.mkPage (js "") [] (js "").

Definition threeRetries : Scraper.Options :=
  {| Scraper.maxRetries := 3; Scraper.delayBetweenRequests := 2000;
     Scraper.concurrency := 1; Scraper.minTextLength := 50;
     Scraper.maxTextLength := 1000 |}.

(** Navigation times out at the first attempt, the page is empty at the
    second, the third attempt reads the act. *)
Definition failTwiceThenSucceed : Scraper.ItemEnv :=
  {| Scraper.outcome := fun attempt =>
       match attempt with
       | 1%nat => Scraper.Throws (js "Timeout 30000ms exceeded")
       | 2%nat => Scraper.Extracts emptyPage 1700 None
       | _ => Scraper.Extracts goodPage 1800 None
       end;
     Scraper.failedAt := 1900 |}.

(** Every attempt times out. *)
Definition alwaysTimesOut : Scraper.ItemEnv :=
  {| Scraper.outcome := fun _ => Scraper.Throws (js "Timeout 30000ms exceeded");
     Scraper.failedAt := 1900 |}.

(** Every attempt reads the act. *)
Definition alwaysSucceeds : Scraper.ItemEnv :=
  {| Scraper.outcome := fun _ => Scraper.Extracts goodPage 1800 None;
     Scraper.failedAt := 1900 |}.

Definition batchId : jsstring := js "default".


Definition retryTrace : list Scraper.Event :=
  Scraper.trace
    (Scraper.scrapeSingleLaw threeRetries failTwiceThenSucceed someLaw batchId
       (Scraper.freshWorld [])).


(** Resumption as the specification states it: after a first run, a second
    run on the same worklist and the directory the first run left has no
    successful scrape and skips every item. *)
Definition resumeAsStated (opts : Scraper.Options) (env1 env2 : nat -> Scraper.ItemEnv)
    (batchId : jsstring) (laws : list InputLaw) (dir : Directory) (sched1 sched2 : list nat)
  : Prop :=
  let s1 := Scraper.processLawsWithConcurrency opts env1 batchId laws sched1 dir in
  let s2 :=
    Scraper.processLawsWithConcurrency opts env2 batchId laws sched2
      (Scraper.files (Scraper.world s1)) in
  Scraper.allDone s1 = true -> Scraper.allDone s2 = true ->
  Scraper.successful (Scraper.stats (Scraper.world s2)) = O /\
  Scraper.skipped (Scraper.stats (Scraper.world s2)) = length laws.

(** A worklist of two laws and one worker. *)
Definition twoLaws : list InputLaw := [numberedLaw 1; numberedLaw 2].

End Spec.

(* ================================================================== *)
(** ** Auxiliary notions for the statements about the matcher *)
(* ================================================================== *)

Module MatcherAux.
Import Regex.

(** The longest prefix whose units satisfy [p]. *)
Fixpoint takeWhile {A} (p : A -> bool) (l : list A) : list A :=
  match l with
  | [] => []
  | x :: l' => if p x then x :: takeWhile p l' else []
  end.

(** [s] starts with units that satisfy the predicates [ps], one by one. *)
Fixpoint prefixBy (ps : list (Z -> bool)) (s : jsstring) : bool :=
  match ps, s with
  | [], _ => true
  | _ :: _, [] => false
  | p :: ps', c :: s' => p c && prefixBy ps' s'
  end.

(** The loop of the greedy star, by itself. *)
Fixpoint starLoop (a : regex) (k : cont) (fuel : nat) (i : nat) (s : jsstring) : option nat :=
  match fuel with
  | O => k i s
  | S fuel' =>
      match rmatch a i s
              (fun i' s' => if (i <? i')%nat then starLoop a k fuel' i' s' else None) with
      | Some e => Some e
      | None => k i s
      end
  end.

(** [a] and [b] are equal up to the case folding of the flag [i]. *)
Definition sameFolded (a b : jsstring) : Prop :=
  map canonicalize a = map canonicalize b.

End MatcherAux.

(* ================================================================== *)
(** ** Auxiliary notions for the statements about the validator *)
(* ================================================================== *)

Module ValidatorAux.
Import TextValidator.

(** The one tag that does not reject. *)
Definition isAdvisory (tag : IssueTag) : bool :=
  match tag with poor_structure => true | _ => false end.

(** The place of the check that pushes the tag in the decision sequence. *)
Definition checkOrder (tag : IssueTag) : nat :=
  match tag with
  | no_full_text => 0
  | extremely_short | very_short => 1
  | ends_with_table_data | suspicious_ending => 2
  | truncated => 3
  | encoding_issues => 4
  | poor_structure => 5
  | no_law_content => 6
  end%nat.

Fixpoint ascending (l : list nat) : bool :=
  match l with
  | a :: ((b :: _) as rest) => (a <? b)%nat && ascending rest
  | _ => true
  end.

Definition severityEqb (a b : Severity) : bool := (rank a =? rank b)%nat.

(** The severity is [none] for no issue, the level of one of the issues
    otherwise. *)
Definition severityAmong (s : Severity) (tags : list IssueTag) : bool :=
  match tags with
  | [] => severityEqb s none
  | _ :: _ => existsb (fun tag => severityEqb s (issueSeverity tag)) tags
  end.

(** [fullText] is missing, empty, or shorter than 100 units. *)
Definition shorterThan100 (lawData : LawData.t) : bool :=
  match LawData.fullText lawData with
  | None => true
  | Some text => (length text <? 100)%nat
  end.

(** The nine conditions the checks test on a text that is not empty. *)
Record Conditions : Type := mkConditions {
  below100 : bool;
  below500 : bool;
  invalidEnding : bool;
  validEnding : bool;
  fewWords : bool;
  truncationFound : bool;
  replacementFound : bool;
  fewParagraphs : bool;
  keywordsFound : bool
}.

Definition conditionsOf (text : jsstring) : Conditions :=
  {| below100 := (length text <? 100)%nat;
     below500 := (length text <? 500)%nat;
     invalidEnding := hasInvalidEnding text;
     validEnding := hasValidEnding text;
     fewWords := (wordCount text <? 5)%nat;
     truncationFound := existsb (fun pattern => Regex.test pattern text) truncationIndicators;
     replacementFound := Regex.test replacementCharacter text;
     fewParagraphs := (length (paragraphs text) <? 3)%nat;
     keywordsFound := hasLawKeywords text |}.

(** The decision sequence as a table over the conditions. *)
Definition tableResult (c : Conditions) : ValidationResult :=
  let r := initialResult in
  let r :=
    if below100 c then
      reject extremely_short critical "Text too short - likely scraping error" r
    else if below500 c then
      reject very_short high "Text very short - verify content quality" r
    else r in
  let r :=
    if invalidEnding c then
      reject ends_with_table_data (criticalOr high r)
        "Text ends with table/numeric data instead of law content" r
    else r in
  let r :=
    if negb (validEnding c) && negb (invalidEnding c) then
      if fewWords c then
        reject suspicious_ending (criticalOr medium r) "Ending seems incomplete or unusual" r
      else r
    else r in
  let r :=
    if truncationFound c then
      reject truncated (criticalOr high r) "Text appears to be truncated" r
    else r in
  let r :=
    if replacementFound c then
      reject encoding_issues (criticalOr medium r) "Text has encoding issues" r
    else r in
  let r :=
    if fewParagraphs c then
      {| isValid := isValid r;
         issues := issues r ++ [poor_structure];
         severity := match severity r with none => low | s => s end;
         recommendations :=
           recommendations r ++ ["Text has poor paragraph structure"%string] |}
    else r in
  if negb (keywordsFound c) then
    reject no_law_content (criticalOr high r)
      "Text does not contain typical law terminology" r
  else r.

(** The result for a record, by the table. *)
Definition tableOf (lawData : LawData.t) : ValidationResult :=
  match LawData.fullText lawData with
  | None | Some [] => reject no_full_text critical "Complete re-scrape required" initialResult
  | Some text => tableResult (conditionsOf text)
  end.

End ValidatorAux.

(* ================================================================== *)
(** ** scrapeLawsBatch, and notions for the statements about a run *)
(* ================================================================== *)

Module ScraperRun.
Import Scraper.

(** The object [scrapeLawsBatch] returns ([duration] is the clock's). *)
Record BatchSummary : Type := mkSummary {
  summaryBatchId : jsstring;
  total : nat;
  summarySuccessful : nat;
  summaryFailed : nat;
  summarySkipped : nat
}.

(** The workers of a call on the scraper whose state is [w]. *)
Definition startWorkersOn (opts : Options) (w : World) : Scheduler :=
  {| index := 0; workers := repeat Idle (concurrency opts); world := w |}.

(** [scrapeLawsBatch] on the scraper whose state is [w]: [this.stats] is
    set by the constructor only, so a call on an object that has been used
    before goes on from the counters the earlier calls left, and the summary
    reports those counters.  An empty array throws; laws that
    [validateInputLaw] refuses are filtered out; the promise resolves when
    every worker has left its loop, after the final progress checkpoint.
    [None]: the call throws, or the workers are still running when
    [schedule] ends. *)
Definition scrapeLawsBatch (opts : Options) (env : nat -> ItemEnv) (batchId : jsstring)
    (laws : list InputLaw) (schedule : list nat) (w : World)
  : option (BatchSummary * World) :=
  match laws with
  | [] => None
  | _ :: _ =>
      let validLaws := filter validateInputLaw laws in
      let s := runSchedule opts env batchId validLaws schedule (startWorkersOn opts w) in
      if allDone s then
        let w := emit (Progress (stats (world s))) (world s) in
        Some ({| summaryBatchId := batchId;
                 total := length validLaws;
                 summarySuccessful := successful (stats w);
                 summaryFailed := failed (stats w);
                 summarySkipped := skipped (stats w) |}, w)
      else None
  end.

Definition isScraping (x : Worker) : bool :=
  match x with Scraping _ _ => true | _ => false end.

(** The number of workers inside a retry loop. *)
Definition countScraping (ws : list Worker) : nat := length (filter isScraping ws).

(** The attempts of a trace, and the time it spends in backoff delays. *)
Definition countAttempts (T : list Event) : nat :=
  length (filter (fun e => match e with Attempt _ _ => true | _ => false end) T).

Fixpoint totalSleep (T : list Event) : Z :=
  match T with
  | [] => 0
  | Sleep _ ms :: T' => ms + totalSleep T'
  | _ :: T' => totalSleep T'
  end.

(** The counters of a call that started in the state [w0] add up: what
    they have grown by since the start accounts for the items claimed. *)
Record Accounted (opts : Options) (laws : list InputLaw) (w0 : World) (s : Scheduler)
  : Prop := {
  accounted_processed :
    (processed (stats (world s)) + successful (stats w0) + failed (stats w0))%nat
    = (processed (stats w0) + successful (stats (world s)) + failed (stats (world s)))%nat;
  accounted_failures :
    (length (failures (world s)) + failed (stats w0))%nat
    = (length (failures w0) + failed (stats (world s)))%nat;
  accounted_index :
    (successful (stats (world s)) + failed (stats (world s)) + skipped (stats (world s))
     + countScraping (workers s))%nat
    = (index s + successful (stats w0) + failed (stats w0) + skipped (stats w0))%nat;
  accounted_grow :
    (successful (stats w0) <= successful (stats (world s)))%nat /\
    (failed (stats w0) <= failed (stats (world s)))%nat /\
    (skipped (stats w0) <= skipped (stats (world s)))%nat;
  accounted_bound : (index s <= length laws)%nat
}.

(** A record as [scrapeSingleLaw] saves it for [law]. *)
Record recordOf (opts : Options) (law : InputLaw) (r : ScrapedLaw.t) : Prop := {
  record_title : ScrapedLaw.title r = title law;
  record_date : ScrapedLaw.date r = date law;
  record_link : ScrapedLaw.link r = link law;
  record_lawId : ScrapedLaw.lawId r = extractLawId (link law);
  record_retryCount : (ScrapedLaw.retryCount r < maxRetries opts)%nat;
  record_error : ScrapedLaw.error r = None;
  record_complete : ScrapedLaw.isComplete r = true;
  record_textLength : ScrapedLaw.textLength r = length (ScrapedLaw.fullText r);
  record_bounds :
    (50 < ScrapedLaw.textLength r <= maxTextLength opts + 12)%nat
}.

(** A failure entry as [scrapeSingleLaw] logs it for [law]. *)
Record failureOf (opts : Options) (batchId : jsstring) (law : InputLaw) (f : FailedLaw.t)
  : Prop := {
  failure_lawId : FailedLaw.lawId f = extractLawId (link law);
  failure_link : FailedLaw.link f = link law;
  failure_title : FailedLaw.title f = title law;
  failure_retryCount : FailedLaw.retryCount f = maxRetries opts;
  failure_batchId : FailedLaw.batchId f = batchId;
  failure_error : FailedLaw.error f <> []
}.

(** What a run has written and logged belongs to the laws of the worklist,
    and what the directory [dir] held at the start is still there. *)
Record Faithful (opts : Options) (batchId : jsstring) (laws : list InputLaw)
    (dir : Directory) (s : Scheduler) : Prop := {
  faithful_saved :
    forall name r,
      In (Saved name r) (trace (world s)) ->
      exists law, In law laws /\ name = outputFile law /\ recordOf opts law r;
  faithful_failures :
    forall f,
      In f (failures (world s)) -> exists law, In law laws /\ failureOf opts batchId law f;
  faithful_files :
    forall name content,
      In (name, content) (files (world s)) ->
      In (name, content) dir \/
      exists law r,
        In law laws /\ name = outputFile law /\ content = RecordFile r /\ recordOf opts law r;
  faithful_kept :
    forall name content, In (name, content) dir -> In (name, content) (files (world s));
  faithful_exists :
    forall name, existsSync name dir = true -> existsSync name (files (world s)) = true;
  faithful_fresh :
    forall k law, In (Scraping k law) (workers s) -> existsSync (outputFile law) dir = false
}.

(** A directory as runs of the scraper fill it: record files named
    [*.json] that the aggregator counts as successful. *)
Definition scraperOutput (d : Directory) : Prop :=
  forall name content,
    In (name, content) d ->
    endsWith (js ".json") name = true /\
    exists r, content = RecordFile r /\
              ScrapedLaw.isComplete r = true /\ (50 < ScrapedLaw.textLength r)%nat.

End ScraperRun.

(* ================================================================== *)
(** ** validateAllLaws and the re-scrape lists (TextValidator) *)
(* ================================================================== *)

Module ValidatorRun.
Import TextValidator.

(** [s.replace(p, '')] for a string pattern: the first occurrence goes. *)
Fixpoint removeFirst (p s : jsstring) : jsstring :=
  if startsWith p s then skipn (length p) s
  else match s with
       | [] => []
       | c :: s' => c :: removeFirst p s'
       end.

(** An issue of a detailed result: one of [validateLawText], or the
    ['parse_error'] of the [catch] block. *)
Inductive ReportedIssue : Type :=
| Found (tag : IssueTag)
| parse_error.

(** An element of [detailedResults]:
    [{ lawId, ...validation, textLength, title }]. *)
Record DetailedResult : Type := mkDetailed {
  lawId : jsstring;
  resultIsValid : bool;
  resultIssues : list ReportedIssue;
  resultSeverity : Severity;
  resultRecommendations : list string;
  textLength : nat;
  title : jsstring
}.

(** [bySeverity]: the four counters of the literal.  Incrementing a key the
    literal lacks (['none']) stores [NaN] under it: [noneIsNaN]. *)
Record BySeverity : Type := mkBySeverity {
  criticalCount : nat;
  highCount : nat;
  mediumCount : nat;
  lowCount : nat;
  noneIsNaN : bool
}.

Record ValidationResults : Type := mkResults {
  total : nat;
  valid : nat;
  invalid : nat;
  bySeverity : BySeverity;
  byIssueType : list (IssueTag * nat);
  detailedResults : list DetailedResult
}.

Definition initialResults : ValidationResults :=
  {| total := 0; valid := 0; invalid := 0;
     bySeverity := mkBySeverity 0 0 0 0 false;
     byIssueType := []; detailedResults := [] |}.

(** [bySeverity[severity]++] *)
Definition countSeverity (s : Severity) (b : BySeverity) : BySeverity :=
  match s with
  | critical => mkBySeverity (S (criticalCount b)) (highCount b) (mediumCount b)
                  (lowCount b) (noneIsNaN b)
  | high => mkBySeverity (criticalCount b) (S (highCount b)) (mediumCount b)
              (lowCount b) (noneIsNaN b)
  | medium => mkBySeverity (criticalCount b) (highCount b) (S (mediumCount b))
                (lowCount b) (noneIsNaN b)
  | low => mkBySeverity (criticalCount b) (highCount b) (mediumCount b)
             (S (lowCount b)) (noneIsNaN b)
  | none => mkBySeverity (criticalCount b) (highCount b) (mediumCount b)
              (lowCount b) true
  end.

Definition tagEqb (a b : IssueTag) : bool :=
  match a, b with
  | no_full_text, no_full_text | extremely_short, extremely_short
  | very_short, very_short | ends_with_table_data, ends_with_table_data
  | suspicious_ending, suspicious_ending | truncated, truncated
  | encoding_issues, encoding_issues | poor_structure, poor_structure
  | no_law_content, no_law_content => true
  | _, _ => false
  end.

(** [byIssueType[issue] = (byIssueType[issue] || 0) + 1]; a new key goes
    last. *)
Fixpoint countIssue (tag : IssueTag) (m : list (IssueTag * nat)) : list (IssueTag * nat) :=
  match m with
  | [] => [(tag, 1%nat)]
  | (t, n) :: m' => if tagEqb t tag then (t, S n) :: m' else (t, n) :: countIssue tag m'
  end.

(** [byIssueType[issue] || 0] *)
Fixpoint countOf (tag : IssueTag) (m : list (IssueTag * nat)) : nat :=
  match m with
  | [] => 0
  | (t, n) :: m' => if tagEqb t tag then n else countOf tag m'
  end.

(** [{ ...lawData, lawId }] as [validateLawText] reads it. *)
Definition lawDataOf (lawId : jsstring) (lawData : ScrapedLaw.t) : LawData.t :=
  {| LawData.fullText := Some (ScrapedLaw.fullText lawData);
     LawData.lawId := Some lawId;
     LawData.title := Some (ScrapedLaw.title lawData) |}.

(** The [catch] block of [files.forEach]. *)
Definition parseError (lawId : jsstring) (acc : ValidationResults) : ValidationResults :=
  {| total := total acc; valid := valid acc; invalid := S (invalid acc);
     bySeverity := countSeverity critical (bySeverity acc);
     byIssueType := byIssueType acc;
     detailedResults :=
       detailedResults acc ++
       [ {| lawId := lawId;
            resultIsValid := false;
            resultIssues := [parse_error];
            resultSeverity := critical;
            resultRecommendations := ["File cannot be parsed"%string];
            textLength := 0;
            title := js "Parse Error" |} ] |}.

(** The body of [files.forEach]. *)
Definition validateFile (acc : ValidationResults) (entry : jsstring * FS.FileContent)
  : ValidationResults :=
  let lawId := removeFirst (js ".json") (fst entry) in
  match snd entry with
  | FS.RecordFile lawData =>
      let validation := validateLawText (lawDataOf lawId lawData) in
      let detailed :=
        {| lawId := lawId;
           resultIsValid := isValid validation;
           resultIssues := map Found (issues validation);
           resultSeverity := severity validation;
           resultRecommendations := recommendations validation;
           textLength :=
             match ScrapedLaw.fullText lawData with
             | [] => 0
             | _ :: _ => length (ScrapedLaw.fullText lawData)
             end;
           title := orString (Some (ScrapedLaw.title lawData)) (js "Unknown") |} in
      if isValid validation then
        {| total := total acc; valid := S (valid acc); invalid := invalid acc;
           bySeverity := bySeverity acc;
           byIssueType := byIssueType acc;
           detailedResults := detailedResults acc ++ [detailed] |}
      else
        {| total := total acc; valid := valid acc; invalid := S (invalid acc);
           bySeverity := countSeverity (severity validation) (bySeverity acc);
           byIssueType :=
             fold_left (fun m issue => countIssue issue m) (issues validation)
               (byIssueType acc);
           detailedResults := detailedResults acc ++ [detailed] |}
  | FS.NullFile =>
      (* [{ ...null, lawId }] is [{ lawId }]: the validation is counted, then
         reading [lawData.fullText] of [null] throws before the push, and the
         [catch] block counts the file again. *)
      let validation :=
        validateLawText
          {| LawData.fullText := None; LawData.lawId := Some lawId; LawData.title := None |} in
      let acc :=
        if isValid validation then
          {| total := total acc; valid := S (valid acc); invalid := invalid acc;
             bySeverity := bySeverity acc;
             byIssueType := byIssueType acc;
             detailedResults := detailedResults acc |}
        else
          {| total := total acc; valid := valid acc; invalid := S (invalid acc);
             bySeverity := countSeverity (severity validation) (bySeverity acc);
             byIssueType :=
               fold_left (fun m issue => countIssue issue m) (issues validation)
                 (byIssueType acc);
             detailedResults := detailedResults acc |} in
      parseError lawId acc
  | FS.CorruptFile => parseError lawId acc
  end.

(** [validateAllLaws]; [scrapedDir] is [None] when the directory does not
    exist. *)
Definition validateAllLaws (scrapedDir : option FS.Directory) : ValidationResults :=
  match scrapedDir with
  | None => initialResults
  | Some dir =>
      let files := ResultAggregator.lawFiles dir in
      fold_left validateFile files
        {| total := length files; valid := 0; invalid := 0;
           bySeverity := mkBySeverity 0 0 0 0 false;
           byIssueType := []; detailedResults := [] |}
  end.

(** [results.detailedResults.filter((r) => r.severity === s).map((r) => r.lawId)] *)
Definition priorityList (s : Severity) (results : ValidationResults) : list jsstring :=
  map lawId
    (filter (fun r => (rank (resultSeverity r) =? rank s)%nat) (detailedResults results)).

(** The three lists of [generateValidationReport]. *)
Record PriorityLists : Type := mkPriorityLists {
  criticalList : list jsstring;
  highList : list jsstring;
  mediumList : list jsstring
}.

Definition priorityLists (results : ValidationResults) : PriorityLists :=
  {| criticalList := priorityList critical results;
     highList := priorityList high results;
     mediumList := priorityList medium results |}.

(** The detailed result lists the issue [tag]. *)
Definition listsIssue (tag : IssueTag) (r : DetailedResult) : bool :=
  existsb (fun issue => match issue with
                        | Found t => tagEqb t tag
                        | parse_error => false
                        end) (resultIssues r).

(** The [*.json] files of the directory that hold [null]. *)
Definition isNull (content : FS.FileContent) : bool :=
  match content with FS.NullFile => true | _ => false end.

Definition nullFiles (scrapedDir : option FS.Directory) : nat :=
  match scrapedDir with
  | None => O
  | Some dir => length (filter isNull (map snd (ResultAggregator.lawFiles dir)))
  end.

(** The counters of [results] agree with its detailed results, but for the
    [nulls] files that held [null]: each of them was counted twice, as
    [no_full_text] and as a parse error, under [invalid] and [critical], and
    has one detailed result, the parse error. *)
Record Consistent (nulls : nat) (results : ValidationResults) : Prop := {
  consistent_detailed :
    (length (detailedResults results) + nulls)%nat
    = (valid results + invalid results)%nat;
  consistent_valid :
    length (filter resultIsValid (detailedResults results)) = valid results;
  consistent_critical :
    (length (priorityList critical results) + nulls)%nat
    = criticalCount (bySeverity results);
  consistent_high :
    length (priorityList high results) = highCount (bySeverity results);
  consistent_medium :
    length (priorityList medium results) = mediumCount (bySeverity results);
  consistent_invalid :
    (criticalCount (bySeverity results) + highCount (bySeverity results)
     + mediumCount (bySeverity results))%nat = invalid results;
  consistent_low : lowCount (bySeverity results) = O;
  consistent_none : noneIsNaN (bySeverity results) = false;
  consistent_issues :
    forall tag,
      countOf tag (byIssueType results)
      = (length (filter (fun r => negb (resultIsValid r) && listsIssue tag r)
                   (detailedResults results))
         + if tagEqb tag no_full_text then nulls else O)%nat
}.

End ValidatorRun.

(* ================================================================== *)
(** ** Auxiliary notions for the statements about the aggregator *)
(* ================================================================== *)

Module AggregatorAux.
Import ResultAggregator.

(** The statistics inside the loop over the files: nothing is recorded
    before the first successful record; after it the minimum is a length
    above 50, at most the maximum, and the sum lies between [successful]
    times the one and the other. *)
Record StatisticsOk (stats : Statistics) : Prop := {
  ok_average : averageTextLength stats = O;
  ok_empty :
    successful stats = O ->
    minTextLength stats = None /\ maxTextLength stats = O /\ totalTextLength stats = O;
  ok_filled :
    (0 < successful stats)%nat ->
    exists m,
      minTextLength stats = Some m /\ (50 < m <= maxTextLength stats)%nat /\
      (successful stats * m <= totalTextLength stats)%nat /\
      (totalTextLength stats <= successful stats * maxTextLength stats)%nat
}.

(** What the loop over the files pushes: the values of the files that parse,
    in directory order ([None] is [null]). *)
Fixpoint parsedValues (contents : list FileContent) : list (option ScrapedLaw.t) :=
  match contents with
  | [] => []
  | RecordFile law :: rest => Some law :: parsedValues rest
  | NullFile :: rest => None :: parsedValues rest
  | CorruptFile :: rest => parsedValues rest
  end.

Definition isNullValue (v : option ScrapedLaw.t) : bool :=
  match v with None => true | Some _ => false end.

(** The sort compares [null] with another value: two or more files parse
    and one of them holds [null]. *)
Definition comparesNull (dir : Directory) : bool :=
  let values := parsedValues (map snd (lawFiles dir)) in
  (2 <=? length values)%nat && existsb isNullValue values.

(** The failure log is absent or holds an array. *)
Definition logIsUsable (log : FailureLog) : bool :=
  match log with
  | NoLog | Log _ => true
  | CorruptLog | NullLog => false
  end.

(** [aggregate] on an existing directory is rejected. *)
Definition rejects (dir : Directory) (log : FailureLog) : bool :=
  negb (logIsUsable log) || comparesNull dir.

End AggregatorAux.

(* ================================================================== *)
(** ** Auxiliary notions for the statements about the batches *)
(* ================================================================== *)

Module BatchAux.
Import BatchProcessor.

(** The batch at position [k] of the strategy [size]: the [k]-th run of
    [batchSize] consecutive laws of the worklist [l]. *)
Record SizeBatch (batchSize : nat) (l : list InputLaw) (k : nat) (b : Batch) : Prop := {
  sb_index : batchIndex b = k;
  sb_start : startIndex b = (k * batchSize)%nat;
  sb_end : endIndex b = Nat.min (k * batchSize + batchSize) (length l);
  sb_laws : laws b = firstn batchSize (skipn (k * batchSize) l);
  sb_size : size b = length (laws b);
  sb_range : size b = (endIndex b - startIndex b)%nat;
  sb_bounds : (1 <= size b <= batchSize)%nat;
  sb_year : year b = None /\ subBatch b = None
}.

(** The batch at position [k] of the strategy [year]: laws of one year, in
    worklist order, all found between [startIndex] and [endIndex]. *)
Record YearBatch (batchSize : nat) (l : list InputLaw) (k : nat) (b : Batch) : Prop := {
  yb_index : batchIndex b = k;
  yb_year :
    exists y, year b = Some y /\ Forall (fun law => extractYearFromLaw law = y) (laws b);
  yb_size : size b = length (laws b);
  yb_bounds : (1 <= size b <= batchSize)%nat;
  yb_range : (startIndex b < endIndex b <= length l)%nat;
  yb_first : nth_error l (startIndex b) = hd_error (laws b);
  yb_last : nth_error l (endIndex b - 1) = hd_error (rev (laws b));
  yb_span : (size b <= endIndex b - startIndex b)%nat
}.

(** The entries of the group of year [y] while [groupByYear] is at index
    [i] of the worklist [l]: laws of that year with their places in [l], in
    increasing order of place. *)
Record EntriesOk (l : list InputLaw) (i : nat) (y : Z) (entries : list Entry) : Prop := {
  entries_place :
    Forall (fun e => nth_error l (snd e) = Some (fst e) /\ (snd e < i)%nat /\
                     extractYearFromLaw (fst e) = y) entries;
  entries_sorted : StronglySorted lt (map snd entries)
}.

End BatchAux.

(* ================================================================== *)
(** ** Batch files and the batch configuration (BatchProcessor) *)
(* ================================================================== *)

Module BatchFiles.
Import BatchProcessor.

(** [s.padStart(3, '0')] *)
Definition padStart3 (s : jsstring) : jsstring := repeat 48 (3 - length s)%nat ++ s.

(** [`batch_${batch.batchIndex.toString().padStart(3, '0')}.json`] *)
Definition batchFileName (batchIndex : nat) : jsstring :=
  js "batch_" ++ padStart3 (ofNat batchIndex) ++ js ".json".

(** [x || null] on a number that may be absent. *)
Definition orNullZ (x : option Z) : option Z :=
  match x with
  | Some 0 => None
  | _ => x
  end.

Definition orNullNat (x : option nat) : option nat :=
  match x with
  | Some O => None
  | _ => x
  end.

(** The content of a batch file. *)
Record BatchData : Type := mkBatchData {
  dataBatchIndex : nat;
  dataTotalBatches : nat;
  dataSize : nat;
  dataStartIndex : nat;
  dataEndIndex : nat;
  dataYear : option Z;
  dataSubBatch : option nat;
  dataCreatedAt : Z;
  dataLaws : list InputLaw
}.

(** An entry of [batchConfigs]; [filePath] is [filename] inside the output
    directory. *)
Record BatchConfig : Type := mkBatchConfig {
  configBatchIndex : nat;
  filename : jsstring;
  configSize : nat;
  configYear : option Z;
  configStartIndex : nat;
  configEndIndex : nat
}.

(** The content of the configuration file. *)
Record Configuration : Type := mkConfiguration {
  totalLaws : nat;
  totalBatches : nat;
  configStrategy : Strategy;
  configBatchSize : nat;
  configSortOrder : SortOrder;
  configCreatedAt : Z;
  batches : list BatchConfig
}.

(** What [JSON.parse] makes of a file of the output directory. *)
Inductive StoredBatch : Type :=
| BatchFile (data : BatchData)
| UnparsableBatch.

(** The configuration file: missing, not JSON, or a configuration. *)
Inductive StoredConfiguration : Type :=
| NoConfigurationFile
| UnparsableConfiguration
| ConfigurationFile (config : Configuration).

(** The output directory (each name once) and the configuration file. *)
Record Disk : Type := mkDisk {
  outputDir : list (jsstring * StoredBatch);
  batchConfigFile : StoredConfiguration
}.

(** [fs.promises.writeFile] in the output directory. *)
Fixpoint writeBatchFile (name : jsstring) (content : StoredBatch)
    (dir : list (jsstring * StoredBatch)) : list (jsstring * StoredBatch) :=
  match dir with
  | [] => [(name, content)]
  | (n, c) :: dir' =>
      if JS.eqb n name then (n, content) :: dir'
      else (n, c) :: writeBatchFile name content dir'
  end.

(** [fs.existsSync] and [readFile] of a file of the output directory. *)
Fixpoint readBatchFile (name : jsstring) (dir : list (jsstring * StoredBatch))
  : option StoredBatch :=
  match dir with
  | [] => None
  | (n, c) :: dir' => if JS.eqb n name then Some c else readBatchFile name dir'
  end.

(** "Create batch metadata"; [now] is the clock read by [new Date()]. *)
Definition batchDataOf (now : Z) (totalBatches : nat) (batch : Batch) : BatchData :=
  {| dataBatchIndex := batchIndex batch;
     dataTotalBatches := totalBatches;
     dataSize := size batch;
     dataStartIndex := startIndex batch;
     dataEndIndex := endIndex batch;
     dataYear := orNullZ (year batch);
     dataSubBatch := orNullNat (subBatch batch);
     dataCreatedAt := now;
     dataLaws := laws batch |}.

(** "Create config entry" *)
Definition batchConfigOf (batch : Batch) : BatchConfig :=
  {| configBatchIndex := batchIndex batch;
     filename := batchFileName (batchIndex batch);
     configSize := size batch;
     configYear := orNullZ (year batch);
     configStartIndex := startIndex batch;
     configEndIndex := endIndex batch |}.

(** The loop [for (const batch of batches)] of [saveBatchFiles]; [clock]
    gives the time at each iteration, [position] counts the iterations. *)
Fixpoint saveBatchFilesLoop (clock : nat -> Z) (totalBatches : nat) (rest : list Batch)
    (position : nat) (dir : list (jsstring * StoredBatch)) (batchConfigs : list BatchConfig)
  : list BatchConfig * list (jsstring * StoredBatch) :=
  match rest with
  | [] => (batchConfigs, dir)
  | batch :: rest' =>
      let filename := batchFileName (batchIndex batch) in
      let batchData := batchDataOf (clock position) totalBatches batch in
      saveBatchFilesLoop clock totalBatches rest' (S position)
        (writeBatchFile filename (BatchFile batchData) dir)
        (batchConfigs ++ [batchConfigOf batch])
  end.

(** [saveBatchFiles]: the entries it returns, and the directory it leaves. *)
Definition saveBatchFiles (clock : nat -> Z) (batches : list Batch) (disk : Disk)
  : list BatchConfig * Disk :=
  let (batchConfigs, dir) :=
    saveBatchFilesLoop clock (length batches) batches 0 (outputDir disk) [] in
  (batchConfigs, {| outputDir := dir; batchConfigFile := batchConfigFile disk |}).

(** [saveBatchConfiguration] *)
Definition saveBatchConfiguration (opts : Options) (now : Z) (batchConfigs : list BatchConfig)
    (totalLaws : nat) (disk : Disk) : Disk :=
  {| outputDir := outputDir disk;
     batchConfigFile :=
       ConfigurationFile
         {| totalLaws := totalLaws;
            totalBatches := length batchConfigs;
            configStrategy := strategy opts;
            configBatchSize := batchSize opts;
            configSortOrder := sortOrder opts;
            configCreatedAt := now;
            batches := batchConfigs |} |}.

(** The ways a read of the batch data can throw. *)
Inductive ReadError : Type :=
| NoBatchConfiguration      (* 'No batch configuration found.' *)
| BatchNotInConfiguration   (* 'Batch ... not found in configuration.' *)
| BatchFileNotFound         (* 'Batch file not found: ...' *)
| JsonSyntaxError.          (* [JSON.parse] throws *)

(** [loadBatchConfiguration]: [null] when the file is missing. *)
Definition loadBatchConfiguration (disk : Disk) : ReadError + option Configuration :=
  match batchConfigFile disk with
  | NoConfigurationFile => inr None
  | UnparsableConfiguration => inl JsonSyntaxError
  | ConfigurationFile config => inr (Some config)
  end.

(** [getBatchIndicesForMatrix] *)
Definition getBatchIndicesForMatrix (disk : Disk) : ReadError + list nat :=
  match loadBatchConfiguration disk with
  | inl e => inl e
  | inr None => inl NoBatchConfiguration
  | inr (Some config) => inr (map configBatchIndex (batches config))
  end.

(** [getBatchData] *)
Definition getBatchData (disk : Disk) (batchIndex : nat) : ReadError + BatchData :=
  match loadBatchConfiguration disk with
  | inl e => inl e
  | inr None => inl NoBatchConfiguration
  | inr (Some config) =>
      match find (fun b => (configBatchIndex b =? batchIndex)%nat) (batches config) with
      | None => inl BatchNotInConfiguration
      | Some batchConfig =>
          match readBatchFile (filename batchConfig) (outputDir disk) with
          | None => inl BatchFileNotFound
          | Some UnparsableBatch => inl JsonSyntaxError
          | Some (BatchFile data) => inr data
          end
      end
  end.

(** [cleanupBatchFiles]: unlink the files [batch_*.json] and the
    configuration file. *)
Definition cleanupBatchFiles (disk : Disk) : Disk :=
  {| outputDir :=
       filter (fun entry => negb (startsWith (js "batch_") (fst entry)
                                  && endsWith (js ".json") (fst entry)))
         (outputDir disk);
     batchConfigFile := NoConfigurationFile |}.

(** What [createBatches] does once the worklist is loaded and sorted:
    partition, save the batch files, save the configuration.  [None]: the
    partitioning does not return. *)
Definition saveBatches (opts : Options) (clock : nat -> Z) (now : Z)
    (sortedLaws : list InputLaw) (disk : Disk) : option (list Batch * Disk) :=
  match createBatchesByStrategy opts sortedLaws with
  | None => None
  | Some batches =>
      let (batchConfigs, disk) := saveBatchFiles clock batches disk in
      Some (batches, saveBatchConfiguration opts now batchConfigs (length sortedLaws) disk)
  end.

End BatchFiles.

(* ================================================================== *)
(** ** What becomes of each item of a run (BulgarianLawsScraper) *)
(* ================================================================== *)

Module Fates.
Import Scraper.

(** One of the attempts [attempt], [attempt + 1], ... of the [remaining]
    iterations of the retry loop does not end in the [catch]. *)
Fixpoint someAttemptPasses (opts : Options) (env : ItemEnv) (law : InputLaw)
    (remaining attempt : nat) : bool :=
  match remaining with
  | O => false
  | S remaining' =>
      negb (attemptFails opts env law attempt)
      || someAttemptPasses opts env law remaining' (S attempt)
  end.

(** What the directory at the start and the answers of the site hold in
    store for an item: its file is there, or some attempt will pass, or
    none will. *)
Inductive Fate : Type := WillSkip | WillSave | WillFail.

Definition fate (opts : Options) (env : nat -> ItemEnv) (dir : Directory)
    (item : nat * InputLaw) : Fate :=
  if existsSync (outputFile (snd item)) dir then WillSkip
  else if someAttemptPasses opts (env (fst item)) (snd item) (maxRetries opts) 1
       then WillSave else WillFail.

Definition fateEqb (a b : Fate) : bool :=
  match a, b with
  | WillSkip, WillSkip | WillSave, WillSave | WillFail, WillFail => true
  | _, _ => false
  end.

(** The counter of [this.stats] that a fate feeds. *)
Definition counter (f : Fate) (st : Stats) : nat :=
  match f with
  | WillSkip => skipped st
  | WillSave => successful st
  | WillFail => failed st
  end.

Definition countFate (opts : Options) (env : nat -> ItemEnv) (dir : Directory) (f : Fate)
    (items : list (nat * InputLaw)) : nat :=
  length (filter (fun item => fateEqb (fate opts env dir item) f) items).

(** The laws of the worklist with their indices. *)
Definition items (laws : list InputLaw) : list (nat * InputLaw) :=
  combine (seq 0 (length laws)) laws.

(** The items inside a retry loop. *)
Definition scrapingItems (pool : list Worker) : list (nat * InputLaw) :=
  flat_map (fun x => match x with Scraping k law => [(k, law)] | _ => [] end) pool.

(** The state of a run, measured against the fates of the items: each item
    is counted, or inside a retry loop, or not yet claimed; the files are
    those of the start and those of the saved items. *)
Record Balanced (opts : Options) (env : nat -> ItemEnv) (laws : list InputLaw)
    (dir : Directory) (s : Scheduler) : Prop := {
  balanced_count :
    forall f,
      (counter f (stats (world s))
       + countFate opts env dir f (scrapingItems (workers s))
       + countFate opts env dir f (skipn (index s) (items laws)))%nat
      = countFate opts env dir f (items laws);
  balanced_index : (index s <= length laws)%nat;
  balanced_workers :
    forall k law,
      In (Scraping k law) (workers s) ->
      (k < index s)%nat /\ nth_error laws k = Some law /\
      existsSync (outputFile law) dir = false;
  balanced_kept :
    forall name, existsSync name dir = true -> existsSync name (files (world s)) = true;
  balanced_sound :
    forall name,
      existsSync name (files (world s)) = true ->
      existsSync name dir = true \/
      exists k law,
        (k < index s)%nat /\ nth_error laws k = Some law /\ name = outputFile law /\
        fate opts env dir (k, law) = WillSave;
  balanced_complete :
    forall k law,
      (k < index s)%nat -> nth_error laws k = Some law ->
      fate opts env dir (k, law) = WillSave ->
      In (Scraping k law) (workers s) \/
      existsSync (outputFile law) (files (world s)) = true
}.

End Fates.

(* ================================================================== *)
(** ** cleanHtmlText (BulgarianLawsScraper) *)
(* ================================================================== *)

Module HtmlCleaner.
Import Regex.

(** [s.replace(pattern, replacement)] for a pattern with the flag [g] and a
    replacement without [$]: the matches are looked for from left to right,
    each from the end of the one before; after an empty match the next unit
    is copied.  [i] is the index of [s] in the whole string; one unit of
    [fuel] per unit of [s] and one more let the loop end. *)
Fixpoint replaceLoop (fuel : nat) (pattern : regex) (replacement : jsstring) (i : nat)
    (s : jsstring) : jsstring :=
  match fuel with
  | O => s
  | S fuel' =>
      match rmatch pattern i s accept with
      | Some e =>
          if (i <? e)%nat then
            replacement ++ replaceLoop fuel' pattern replacement e (skipn (e - i) s)
          else
            match s with
            | [] => replacement
            | c :: s' => replacement ++ c :: replaceLoop fuel' pattern replacement (S i) s'
            end
      | None =>
          match s with
          | [] => []
          | c :: s' => c :: replaceLoop fuel' pattern replacement (S i) s'
          end
      end
  end.

Definition replaceAll (pattern : regex) (replacement : jsstring) (s : jsstring) : jsstring :=
  replaceLoop (S (length s)) pattern replacement 0 s.

(** [[^>]] *)
Definition notGreaterThan (c : Z) : bool := negb (c =? 62).

(** [/<name[^>]*>/i], the opening of [/<name[^>]*>[\s\S]*?<\/name>/gi]. *)
Definition openingTag (name : string) : regex :=
  Seq (liti ("<" ++ name)) (Seq (Star (Unit notGreaterThan)) (lit ">")).

(** [/<\/name>/i] *)
Definition closingTag (name : string) : regex := liti ("</" ++ name ++ ">").

(** A match of [/<name[^>]*>[\s\S]*?<\/name>/i] at index [i]: the opening
    tag, then, the quantifier being lazy, everything up to the first closing
    tag.  The end of the match. *)
Definition matchElement (name : string) (i : nat) (s : jsstring) : option nat :=
  match rmatch (openingTag name) i s accept with
  | Some e1 =>
      match search (closingTag name) e1 (skipn (e1 - i) s) with
      | Some (_, e2) => Some e2
      | None => None
      end
  | None => None
  end.

(** [s.replace(/<name[^>]*>[\s\S]*?<\/name>/gi, '')] *)
Fixpoint removeElementsLoop (fuel : nat) (name : string) (i : nat) (s : jsstring) : jsstring :=
  match fuel with
  | O => s
  | S fuel' =>
      match matchElement name i s with
      | Some e => removeElementsLoop fuel' name e (skipn (e - i) s)
      | None =>
          match s with
          | [] => []
          | c :: s' => c :: removeElementsLoop fuel' name (S i) s'
          end
      end
  end.

Definition removeElements (name : string) (s : jsstring) : jsstring :=
  removeElementsLoop (S (length s)) name 0 s.

(** [/<[^>]+>/] *)
Definition anyTag : regex := Seq (lit "<") (Seq (Plus (Unit notGreaterThan)) (lit ">")).

(** [[a-zA-Z0-9#]] *)
Definition entityUnit (c : Z) : bool :=
  inRange 97 122 c || inRange 65 90 c || inRange 48 57 c || (c =? 35).

(** [/&[a-zA-Z0-9#]+;/] *)
Definition otherEntity : regex := Seq (lit "&") (Seq (Plus (Unit entityUnit)) (lit ";")).

Definition lineFeed : regex := Unit (fun c => c =? 10).

(** [/\n{3,}/] *)
Definition threeLineFeeds : regex := seqs [lineFeed; lineFeed; lineFeed; Star lineFeed].

(** [/^\s+|\s+$/] *)
Definition outerWhiteSpace : regex := Alt (Seq Bol (Plus ws)) (Seq (Plus ws) Eol).

(** [cleanHtmlText] *)
Definition cleanHtmlText (html : jsstring) : jsstring :=
  let s := removeElements "script" html in
  let s := removeElements "style" s in
  let s := replaceAll anyTag [10] s in
  let s := replaceAll (lit "&nbsp;") (js " ") s in
  let s := replaceAll (lit "&quot;") [34] s in
  let s := replaceAll (lit "&amp;") (js "&") s in
  let s := replaceAll (lit "&lt;") (js "<") s in
  let s := replaceAll (lit "&gt;") (js ">") s in
  let s := replaceAll otherEntity [] s in
  let s := replaceAll threeLineFeeds [10; 10] s in
  let s := replaceAll outerWhiteSpace [] s in
  trim s.

(** No three line feeds in a row. *)
Fixpoint tripleFree (s : jsstring) : bool :=
  match s with
  | a :: t =>
      match t with
      | b :: c :: _ => negb ((a =? 10) && (b =? 10) && (c =? 10)) && tripleFree t
      | _ => true
      end
  | [] => true
  end.

End HtmlCleaner.

(* ================================================================== *)
(** * Properties *)
(* ================================================================== *)

Import Regex.

(** ** Facts about the matcher *)

(** A successful match is an answer of the continuation, reached at an index
    that is consistent with the input consumed. *)
Lemma rmatch_cont : forall r i s k e,
    rmatch r i s k = Some e ->
    exists i' s', (i + length s = i' + length s')%nat /\ (i <= i')%nat /\ k i' s' = Some e.
Proof.
  induction r as [|p|a IHa b IHb|a IHa b IHb|a IHa|n a IHa| |]; intros i s k e H; simpl in H.
  - exists i, s; auto.
  - destruct s as [|c s']; [discriminate|].
    destruct (p c); [|discriminate].
    exists (S i), s'; simpl; repeat split; auto; lia.
  - apply IHa in H. destruct H as (i1 & s1 & E1 & L1 & H).
    apply IHb in H. destruct H as (i2 & s2 & E2 & L2 & H).
    exists i2, s2; repeat split; auto; lia.
  - destruct (rmatch a i s k) eqn:Ha.
    + inversion H; subst. exact (IHa _ _ _ _ Ha).
    + exact (IHb _ _ _ _ H).
  - revert H. generalize (length s) at 1. intros fuel H.
    revert i s H. induction fuel as [|fuel IHf]; intros i s H; simpl in H.
    + exists i, s; auto.
    + destruct (rmatch a i s _) eqn:Ha.
      * inversion H; subst. apply IHa in Ha.
        destruct Ha as (i1 & s1 & E1 & L1 & Ha).
        destruct (i <? i1)%nat; [|discriminate].
        apply IHf in Ha. destruct Ha as (i2 & s2 & E2 & L2 & Ha).
        exists i2, s2; repeat split; auto; lia.
      * exists i, s; auto.
  - revert i s H. induction n as [|n IHn]; intros i s H; simpl in H.
    + exists i, s; auto.
    + destruct (rmatch a i s _) eqn:Ha.
      * inversion H; subst. apply IHa in Ha.
        destruct Ha as (i1 & s1 & E1 & L1 & Ha).
        apply IHn in Ha. destruct Ha as (i2 & s2 & E2 & L2 & Ha).
        exists i2, s2; repeat split; auto; lia.
      * exists i, s; auto.
  - destruct (i =? 0)%nat; [|discriminate]. exists i, s; auto.
  - destruct s; [|discriminate]. exists i, []; auto.
Qed.

(** The match found by [search] starts at or after the start index and lies
    inside the input. *)
Lemma search_bounds : forall r s i b e,
    search r i s = Some (b, e) ->
    (i <= b)%nat /\ (b <= e)%nat /\ (e <= i + length s)%nat.
Proof.
  intros r s; induction s as [|c s IH]; intros i b e H; simpl in H.
  - destruct (rmatch r i [] accept) eqn:Hm; [|discriminate].
    inversion H; subst. apply rmatch_cont in Hm.
    destruct Hm as (i' & s' & E & L & Hk). inversion Hk; subst. simpl in *. lia.
  - destruct (rmatch r i (c :: s) accept) eqn:Hm.
    + inversion H; subst. apply rmatch_cont in Hm.
      destruct Hm as (i' & s' & E & L & Hk). inversion Hk; subst. simpl in *. lia.
    + apply IH in H. simpl. lia.
Qed.

(** A pattern that ends with [$] can only match up to the end of the input. *)
Lemma rmatch_eol : forall r i s k e,
    endsWithEol r = true ->
    rmatch r i s k = Some e ->
    k (i + length s)%nat [] = Some e.
Proof.
  induction r as [|p|a IHa b IHb|a IHa b IHb|a IHa|n a IHa| |];
    intros i s k e Hr H; simpl in Hr; try discriminate.
  - simpl in H. apply rmatch_cont in H. destruct H as (i1 & s1 & E1 & L1 & H).
    apply IHb in H; [|exact Hr]. rewrite E1. exact H.
  - simpl in H. destruct s; [|discriminate].
    simpl. rewrite Nat.add_0_r. exact H.
Qed.

Lemma search_eol_end : forall r s i b e,
    endsWithEol r = true ->
    search r i s = Some (b, e) -> e = (i + length s)%nat.
Proof.
  intros r s; induction s as [|c s IH]; intros i b e Hr H; simpl in H.
  - destruct (rmatch r i [] accept) eqn:Hm; [|discriminate].
    inversion H; subst. apply rmatch_eol in Hm; [|exact Hr].
    inversion Hm. reflexivity.
  - destruct (rmatch r i (c :: s) accept) eqn:Hm.
    + inversion H; subst. apply rmatch_eol in Hm; [|exact Hr].
      inversion Hm. reflexivity.
    + apply IH in H; [|exact Hr]. simpl. lia.
Qed.

(* ================================================================== *)
(** ** The extraction record (schemas.js) *)
(* ================================================================== *)

Lemma orString_nil : forall a, orString a [] = match a with Some s => s | None => [] end.
Proof. intros [[|c s]|]; reflexivity. Qed.

(** [isComplete] compares the length of the stored text with the literal 50. *)
Lemma createScrapedLaw_isComplete : forall now law data,
    ScrapedLaw.isComplete (createScrapedLaw now law data)
    = (50 <? length (ScrapedLaw.fullText (createScrapedLaw now law data)))%nat.
Proof.
  intros now law data. simpl.
  destruct (ScrapingData.fullText data) as [[|c s]|]; reflexivity.
Qed.

(** C5 (as amended): for every input law and every scraping data, the record
    made by [createScrapedLaw] has [textLength] equal to the length of the
    stored [fullText], and [isComplete] is true exactly when [textLength]
    exceeds the literal 50 of [createScrapedLaw] (then [fullText] is not
    empty); no configured threshold is read. *)
Theorem C5_createScrapedLaw_threshold_50 : forall now law data,
    ScrapedLaw.textLength (createScrapedLaw now law data)
    = length (ScrapedLaw.fullText (createScrapedLaw now law data)) /\
    ScrapedLaw.isComplete (createScrapedLaw now law data)
    = (50 <? ScrapedLaw.textLength (createScrapedLaw now law data))%nat /\
    Spec.recordInvariant 50 (createScrapedLaw now law data).
Proof.
  intros now law data.
  assert (Hb : ScrapedLaw.isComplete (createScrapedLaw now law data)
               = (50 <? ScrapedLaw.textLength (createScrapedLaw now law data))%nat)
    by apply createScrapedLaw_isComplete.
  split; [reflexivity|]. split; [exact Hb|].
  split; [reflexivity|].
  rewrite Hb. rewrite Nat.ltb_lt. simpl.
  split.
  - intros H. split; [|exact H].
    intros E. rewrite E in H. simpl in H. lia.
  - intros [_ H]. exact H.
Qed.

(** C5 (as stated) fails: a scraper configured with [minTextLength] 100
    still gets a complete record from a text of 60 code units. *)
Lemma C5_counterexample_configured_threshold :
  ~ (forall (opts : Scraper.Options) now law data,
        Spec.recordInvariant (Scraper.minTextLength opts) (createScrapedLaw now law data)).
Proof.
  intros H.
  specialize (H (Scraper.mkOptions 3 2000 3 100 1000) 0 Spec.someLaw
                (ScrapingData.mk None None (Some Spec.sixtyUnits) None None)).
  destruct H as [_ [H _]].
  assert (C : ScrapedLaw.isComplete
                (createScrapedLaw 0 Spec.someLaw
                   (ScrapingData.mk None None (Some Spec.sixtyUnits) None None)) = true)
    by reflexivity.
  apply H in C. destruct C as [_ C]. vm_compute in C.
  apply Nat.leb_le in C. discriminate C.
Qed.

(* ================================================================== *)
(** ** The validator *)
(* ================================================================== *)

Import TextValidator.

(** Once the severity is critical, none of the checks that follow the length
    check changes it. *)
Lemma reject_keeps_critical : forall tag s rec r,
    severity r = critical -> severity (reject tag (criticalOr s r) rec r) = critical.
Proof. intros tag s rec r H. unfold reject, criticalOr. simpl. rewrite H. reflexivity. Qed.

Lemma later_check_keeps_critical : forall check text r,
    In check (tl checks) -> severity r = critical -> severity (check text r) = critical.
Proof.
  intros check text r Hin H.
  unfold checks in Hin. simpl in Hin.
  destruct Hin as [<-|[<-|[<-|[<-|[<-|[<-|[]]]]]]].
  - unfold checkInvalidEnding.
    destruct (hasInvalidEnding text); [apply reject_keeps_critical|]; exact H.
  - unfold checkSuspiciousEnding.
    destruct (negb (hasValidEnding text) && negb (hasInvalidEnding text)); [|exact H].
    destruct (wordCount text <? 5)%nat; [apply reject_keeps_critical|]; exact H.
  - unfold checkTruncation.
    destruct (existsb _ truncationIndicators); [apply reject_keeps_critical|]; exact H.
  - unfold checkEncoding.
    destruct (test replacementCharacter text); [apply reject_keeps_critical|]; exact H.
  - unfold checkStructure.
    destruct (length (paragraphs text) <? 3)%nat; [|exact H].
    simpl. rewrite H. reflexivity.
  - unfold checkLawContent.
    destruct (negb (hasLawKeywords text)); [apply reject_keeps_critical|]; exact H.
Qed.

Lemma runChecks_keep_critical : forall cs text r,
    incl cs (tl checks) -> severity r = critical ->
    severity (runChecks cs text r) = critical.
Proof.
  induction cs as [|check cs IH]; intros text r Hincl H; [exact H|].
  unfold runChecks. simpl. apply IH.
  - intros x Hx. apply Hincl. right. exact Hx.
  - apply later_check_keeps_critical; [apply Hincl; left; reflexivity|exact H].
Qed.

(** A text of fewer than 100 units is reported critical whatever the later
    checks find. *)
Lemma extremely_short_is_critical : forall text lawId title,
    (length text < 100)%nat ->
    severity (validateLawText (LawData.mk (Some text) lawId title)) = critical.
Proof.
  intros text lawId title H. unfold validateLawText. simpl.
  destruct text as [|c text]; [reflexivity|].
  change checks with (checkLength :: tl checks).
  unfold runChecks. simpl fold_left.
  apply (runChecks_keep_critical (tl checks)); [apply incl_refl|].
  unfold checkLength.
  apply Nat.ltb_lt in H. rewrite H. reflexivity.
Qed.

(** C1 (the code at the failing input): the record holds a short text with a
    replacement character.  The length check sets the severity to high with
    the tag [very_short]; the encoding check then assigns medium, and medium
    is the severity reported, below the high of a detected issue. *)
Theorem C1_severity_lowered_by_encoding_check :
  let r := validateLawText (LawData.mk (Some Spec.shortLawWithReplacementCharacter) None None) in
  issues r = [very_short; encoding_issues] /\
  severity r = medium /\
  maxIssueSeverity (issues r) = high /\
  map severity (decisionSequence checks Spec.shortLawWithReplacementCharacter initialResult)
  = [none; high; high; high; high; medium; medium; medium].
Proof. vm_compute. repeat split. Qed.

(* ================================================================== *)
(** ** The batch partitioner *)
(* ================================================================== *)

Import BatchProcessor.

Lemma allLaws_snoc : forall batches b, allLaws (batches ++ [b]) = allLaws batches ++ laws b.
Proof.
  intros batches b. unfold allLaws.
  rewrite map_app, concat_app. simpl. rewrite app_nil_r. reflexivity.
Qed.

Lemma slice_skipn : forall {A} (l : list A) i n,
    slice i (i + n) l ++ skipn (i + n) l = skipn i l.
Proof.
  intros A l i n. unfold slice.
  replace (i + n - i)%nat with n by lia.
  replace (i + n)%nat with (n + i)%nat by lia.
  rewrite <- skipn_skipn. apply firstn_skipn.
Qed.

(** *** Strategy [size] *)

(** With a batch size of at least one, one unit of fuel per remaining law
    lets the loop end, and the batches it adds hold the remaining laws in
    order. *)
Lemma sizeLoop_total : forall fuel bs l i batches,
    (1 <= bs)%nat -> (length l <= i + fuel)%nat ->
    exists out, sizeLoop fuel bs l i batches = Some out /\
                allLaws out = allLaws batches ++ skipn i l.
Proof.
  induction fuel as [|fuel IH]; intros bs l i batches Hbs Hfuel.
  - exists batches. simpl.
    assert (E : (i <? length l)%nat = false) by (apply Nat.ltb_ge; lia).
    rewrite E. split; [reflexivity|].
    rewrite skipn_all2 by lia. rewrite app_nil_r. reflexivity.
  - simpl. destruct (i <? length l)%nat eqn:E.
    + edestruct (IH bs l (i + bs)%nat) as (out & Hout & Hall); [exact Hbs|lia|].
      exists out. split; [exact Hout|].
      rewrite Hall, allLaws_snoc. simpl laws.
      rewrite <- app_assoc. rewrite slice_skipn. reflexivity.
    + exists batches. split; [reflexivity|].
      apply Nat.ltb_ge in E.
      rewrite skipn_all2 by lia. rewrite app_nil_r. reflexivity.
Qed.

Lemma createBatchesBySize_complete : forall opts l,
    (1 <= batchSize opts)%nat ->
    exists batches, createBatchesBySize opts l = Some batches /\ allLaws batches = l.
Proof.
  intros opts l H. unfold createBatchesBySize.
  destruct (sizeLoop_total (length l) (batchSize opts) l 0 [] H) as (out & Hout & Hall);
    [lia|].
  exists out. split; [exact Hout|]. rewrite Hall. reflexivity.
Qed.

(** A batch size of zero never lets the loop end on a worklist that is not
    empty. *)
Lemma sizeLoop_zero_diverges : forall fuel l batches,
    l <> [] -> sizeLoop fuel 0 l 0 batches = None.
Proof.
  induction fuel as [|fuel IH]; intros l batches Hl;
    destruct l as [|x l]; try contradiction; simpl; [reflexivity|].
  apply (IH (x :: l)). discriminate.
Qed.

(** *** Strategy [equal] *)

(** The batch size computed from the worker count never reaches the loop. *)
Lemma createEqualSizeBatches_is_createBatchesBySize : forall opts l,
    createEqualSizeBatches opts l = createBatchesBySize opts l.
Proof. reflexivity. Qed.

(** C7 (the code at the failing input): 25 laws under the default options
    with the strategy [equal].  The worker count 10 asks for batches of
    ceil(25 / 10) = 3 laws; the code returns the single batch of 25 laws that
    the batch size 100 of the options gives. *)
Theorem C7_equal_batches_use_options_batchSize :
  option_map (map size)
    (createEqualSizeBatches
       {| batchSize := 100; sortOrder := desc; strategy := equal_; totalWorkers := None |}
       Spec.twentyFiveLaws) = Some [25%nat] /\
  ceilDiv (length Spec.twentyFiveLaws)
    (workerCount
       {| batchSize := 100; sortOrder := desc; strategy := equal_; totalWorkers := None |})
  = 3%nat.
Proof. vm_compute. split; reflexivity. Qed.

(** *** Strategy [year] *)

Lemma has_true_iff : forall y groups, has y groups = true <-> In y (map fst groups).
Proof.
  intros y groups. unfold has. rewrite existsb_exists. split.
  - intros ((k, es) & Hin & E). simpl in E. apply Z.eqb_eq in E. subst k.
    apply in_map_iff. exists (y, es). split; [reflexivity|exact Hin].
  - intros H. apply in_map_iff in H. destruct H as ((k, es) & E & Hin).
    simpl in E. subst k. exists (y, es). split; [exact Hin|]. simpl. apply Z.eqb_refl.
Qed.

Lemma push_keys : forall y e groups, map fst (push y e groups) = map fst groups.
Proof.
  intros y e groups. induction groups as [|(k, es) rest IH]; [reflexivity|].
  simpl. destruct (k =? y); simpl; [reflexivity|]. rewrite IH. reflexivity.
Qed.

Lemma push_entries : forall y e groups,
    In y (map fst groups) -> Permutation (entriesOf (push y e groups)) (entriesOf groups ++ [e]).
Proof.
  intros y e groups. induction groups as [|(k, es) rest IH]; intros Hin; [contradiction|].
  simpl. destruct (k =? y) eqn:E.
  - unfold entriesOf. simpl. rewrite <- !app_assoc.
    apply Permutation_app_head. apply Permutation_app_comm.
  - unfold entriesOf in *. simpl. rewrite <- app_assoc.
    apply Permutation_app_head. apply IH.
    simpl in Hin. destruct Hin as [Hin|Hin]; [|exact Hin].
    apply Z.eqb_neq in E. contradiction.
Qed.

Lemma push_nonempty : forall y e groups,
    Forall (fun g => snd g <> []) groups ->
    Forall (fun g => snd g <> []) (push y e groups).
Proof.
  intros y e groups H. induction H as [|(k, es) rest Hg Hrest IH]; [constructor|].
  simpl. destruct (k =? y).
  - constructor; [|exact Hrest]. simpl. destruct es; discriminate.
  - constructor; [exact Hg|exact IH].
Qed.

Lemma push_new_group : forall y e groups,
    ~ In y (map fst groups) -> push y e (groups ++ [(y, [])]) = groups ++ [(y, [e])].
Proof.
  intros y e groups. induction groups as [|(k, es) rest IH]; intros Hnin.
  - simpl. rewrite Z.eqb_refl. reflexivity.
  - simpl in *. destruct (k =? y) eqn:E.
    + apply Z.eqb_eq in E. exfalso. apply Hnin. left. exact E.
    + rewrite IH; [reflexivity|]. intros H. apply Hnin. right. exact H.
Qed.

(** What one law adds to the map. *)
Lemma addToGroups_ok : forall groups law i,
    GroupsOk groups ->
    GroupsOk (addToGroups groups law i) /\
    Permutation (entriesOf (addToGroups groups law i)) (entriesOf groups ++ [(law, i)]).
Proof.
  intros groups law i [Hnd Hne]. unfold addToGroups.
  destruct (has (extractYearFromLaw law) groups) eqn:Hhas.
  - apply has_true_iff in Hhas. split; [split|].
    + rewrite push_keys. exact Hnd.
    + apply push_nonempty. exact Hne.
    + apply push_entries. exact Hhas.
  - assert (Hnin : ~ In (extractYearFromLaw law) (map fst groups)).
    { intros H. apply has_true_iff in H. congruence. }
    rewrite push_new_group by exact Hnin. split; [split|].
    + rewrite map_app. simpl.
      apply Permutation_NoDup with (l := extractYearFromLaw law :: map fst groups).
      * apply Permutation_cons_append.
      * constructor; assumption.
    + apply Forall_app. split; [exact Hne|]. constructor; [discriminate|constructor].
    + unfold entriesOf. rewrite map_app, concat_app. simpl. reflexivity.
Qed.

Lemma groupByYear_ok : forall l i groups,
    GroupsOk groups ->
    GroupsOk (groupByYear l i groups) /\
    Permutation (map fst (entriesOf (groupByYear l i groups)))
                (map fst (entriesOf groups) ++ l).
Proof.
  induction l as [|law l IH]; intros i groups Hok; simpl.
  - split; [exact Hok|]. rewrite app_nil_r. apply Permutation_refl.
  - destruct (addToGroups_ok groups law i Hok) as [Hok' Hperm].
    destruct (IH (S i) _ Hok') as [Hok'' Hperm'].
    split; [exact Hok''|].
    eapply Permutation_trans; [exact Hperm'|].
    replace (map fst (entriesOf groups) ++ law :: l)
      with ((map fst (entriesOf groups) ++ [law]) ++ l)
      by (rewrite <- app_assoc; reflexivity).
    apply Permutation_app_tail.
    apply (Permutation_map fst) in Hperm. rewrite map_app in Hperm. exact Hperm.
Qed.

Lemma get_keys : forall groups,
    NoDup (map fst groups) -> map (fun y => get y groups) (map fst groups) = map snd groups.
Proof.
  induction groups as [|(k, es) rest IH]; intros Hnd; [reflexivity|].
  simpl in *. inversion Hnd as [|? ? Hnin Hnd']; subst.
  rewrite Z.eqb_refl. f_equal.
  rewrite <- IH by exact Hnd'.
  apply map_ext_in. intros y Hy.
  destruct (k =? y) eqn:E; [|reflexivity].
  apply Z.eqb_eq in E. subst. contradiction.
Qed.

Lemma get_nonempty : forall groups y,
    Forall (fun g => snd g <> []) groups -> In y (map fst groups) -> get y groups <> [].
Proof.
  induction groups as [|(k, es) rest IH]; intros y Hne Hin; [contradiction|].
  inversion Hne as [|? ? Hg Hrest]; subst. simpl in *.
  destruct (k =? y) eqn:E; [exact Hg|].
  apply IH; [exact Hrest|].
  destruct Hin as [Hin|Hin]; [|exact Hin].
  apply Z.eqb_neq in E. contradiction.
Qed.

Lemma insertYear_perm : forall order y l, Permutation (insertYear order y l) (y :: l).
Proof.
  intros order y l. induction l as [|x l IH]; simpl; [apply Permutation_refl|].
  destruct (comesBefore order y x); [apply Permutation_refl|].
  eapply Permutation_trans; [apply perm_skip; exact IH|apply perm_swap].
Qed.

Lemma sortYears_perm : forall order l, Permutation (sortYears order l) l.
Proof.
  intros order l. induction l as [|y l IH]; simpl; [constructor|].
  eapply Permutation_trans; [apply insertYear_perm|apply perm_skip; exact IH].
Qed.

Lemma indexRange_some : forall entries : list Entry,
    entries <> [] -> exists first last, indexRange entries = Some (first, last).
Proof.
  intros entries H. unfold indexRange.
  destruct (rev entries) as [|(l', j) rest'] eqn:E.
  - apply (f_equal (@length _)) in E. rewrite length_rev in E.
    destruct entries; [contradiction|discriminate].
  - destruct entries as [|(l, i) rest]; [contradiction|].
    simpl. eauto.
Qed.

Lemma slice_nonempty : forall {A} (l : list A) i n,
    (1 <= n)%nat -> (i < length l)%nat -> slice i (i + n) l <> [].
Proof.
  intros A l i n Hn Hi E.
  apply (f_equal (@length _)) in E. unfold slice in E.
  rewrite length_firstn, length_skipn in E. simpl in E. lia.
Qed.

Lemma subBatchLoop_total : forall fuel bs y entries i batches,
    (1 <= bs)%nat -> (length entries <= i + fuel)%nat ->
    exists out, subBatchLoop fuel bs y entries i batches = Some out /\
                allLaws out = allLaws batches ++ map fst (skipn i entries).
Proof.
  induction fuel as [|fuel IH]; intros bs y entries i batches Hbs Hfuel.
  - exists batches. simpl.
    assert (E : (i <? length entries)%nat = false) by (apply Nat.ltb_ge; lia).
    rewrite E. split; [reflexivity|].
    rewrite skipn_all2 by lia. simpl. rewrite app_nil_r. reflexivity.
  - simpl. destruct (i <? length entries)%nat eqn:E.
    + apply Nat.ltb_lt in E.
      destruct (indexRange_some (slice i (i + bs) entries)) as (first & last & Hr);
        [apply slice_nonempty; assumption|].
      rewrite Hr.
      edestruct (IH bs y entries (i + bs)%nat) as (out & Hout & Hall); [exact Hbs|lia|].
      exists out. split; [exact Hout|].
      rewrite Hall, allLaws_snoc. simpl laws.
      rewrite <- app_assoc, <- map_app, slice_skipn. reflexivity.
    + exists batches. split; [reflexivity|].
      apply Nat.ltb_ge in E.
      rewrite skipn_all2 by lia. simpl. rewrite app_nil_r. reflexivity.
Qed.

Lemma yearLoop_total : forall opts groups years batches,
    (1 <= batchSize opts)%nat ->
    (forall y, In y years -> get y groups <> []) ->
    exists out, yearLoop opts groups years batches = Some out /\
                allLaws out
                = allLaws batches ++ concat (map (fun y => map fst (get y groups)) years).
Proof.
  intros opts groups years. induction years as [|y years IH]; intros batches Hbs Hne.
  - exists batches. simpl. rewrite app_nil_r. split; reflexivity.
  - simpl. destruct (batchSize opts <? length (get y groups))%nat.
    + destruct (subBatchLoop_total (length (get y groups)) (batchSize opts) y
                  (get y groups) 0 batches Hbs) as (mid & Hmid & Hall); [lia|].
      rewrite Hmid.
      destruct (IH mid Hbs) as (out & Hout & Hall');
        [intros z Hz; apply Hne; right; exact Hz|].
      exists out. split; [exact Hout|].
      rewrite Hall', Hall. simpl. rewrite <- app_assoc. reflexivity.
    + destruct (indexRange_some (get y groups)) as (first & last & Hr);
        [apply Hne; left; reflexivity|].
      rewrite Hr.
      edestruct IH as (out & Hout & Hall'); [exact Hbs| |].
      { intros z Hz. apply Hne. right. exact Hz. }
      exists out. split; [exact Hout|].
      rewrite Hall', allLaws_snoc. simpl. rewrite <- app_assoc. reflexivity.
Qed.

Lemma createBatchesByYear_complete : forall opts l,
    (1 <= batchSize opts)%nat ->
    exists batches, createBatchesByYear opts l = Some batches /\
                    Permutation (allLaws batches) l.
Proof.
  intros opts l Hbs. unfold createBatchesByYear.
  destruct (groupByYear_ok l 0 []) as [[Hnd Hne] Hperm].
  { split; constructor. }
  set (groups := groupByYear l 0 []) in *.
  destruct (yearLoop_total opts groups (sortYears (sortOrder opts) (map fst groups)) [] Hbs)
    as (out & Hout & Hall).
  { intros y Hy. apply get_nonempty; [exact Hne|].
    eapply Permutation_in; [apply sortYears_perm|exact Hy]. }
  exists out. split; [exact Hout|].
  rewrite Hall. simpl.
  eapply Permutation_trans; [|exact Hperm].
  rewrite <- !flat_map_concat_map.
  eapply Permutation_trans.
  - apply Permutation_flat_map. apply sortYears_perm.
  - rewrite flat_map_concat_map.
    rewrite <- (map_map (fun y => get y groups) (map fst)).
    rewrite get_keys by exact Hnd.
    unfold entriesOf. rewrite concat_map. apply Permutation_refl.
Qed.

(** C6: for every strategy and every sorted worklist, when the configured
    batch size is at least one the partitioning ends and the concatenation of
    the batches' laws in batch order is a permutation of the worklist (for
    [size] and [equal], the worklist itself). *)
Theorem C6_batches_partition_worklist : forall opts l,
    (1 <= batchSize opts)%nat ->
    exists batches,
      createBatchesByStrategy opts l = Some batches /\
      Permutation (allLaws batches) l /\
      (strategy opts <> year_ -> allLaws batches = l).
Proof.
  intros opts l Hbs. unfold createBatchesByStrategy.
  destruct (strategy opts) eqn:Hs.
  - destruct (createBatchesBySize_complete opts l Hbs) as (b & Hb & Hall).
    exists b. repeat split; [exact Hb|rewrite Hall; apply Permutation_refl|intros _; exact Hall].
  - destruct (createBatchesByYear_complete opts l Hbs) as (b & Hb & Hall).
    exists b. repeat split; [exact Hb|exact Hall|intros H; contradiction].
  - rewrite createEqualSizeBatches_is_createBatchesBySize.
    destruct (createBatchesBySize_complete opts l Hbs) as (b & Hb & Hall).
    exists b. repeat split; [exact Hb|rewrite Hall; apply Permutation_refl|intros _; exact Hall].
Qed.

(** C6 at a worklist of seven laws of three years, strategy [year], batch
    size 2. *)
Lemma C6_witness_seven_laws_by_year :
  (1 <= 2)%nat /\
  exists batches,
    createBatchesByStrategy
      {| batchSize := 2; sortOrder := desc; strategy := year_; totalWorkers := None |}
      Spec.sevenLaws = Some batches /\
    Permutation (allLaws batches) Spec.sevenLaws /\
    (year_ <> year_ -> allLaws batches = Spec.sevenLaws).
Proof.
  split; [lia|].
  apply (C6_batches_partition_worklist
           {| batchSize := 2; sortOrder := desc; strategy := year_; totalWorkers := None |}
           Spec.sevenLaws).
  simpl. lia.
Defined.

(* ================================================================== *)
(** ** The result aggregator *)
(* ================================================================== *)

Import ResultAggregator.

Lemma insertByDate_record : forall b sorted,
    Forall (fun v => v <> None) sorted ->
    exists out, insertByDate (Some b) sorted = Some out /\ Permutation out (Some b :: sorted).
Proof.
  intros b sorted. induction sorted as [|x rest IH]; intros H.
  - exists [Some b]. split; [reflexivity|apply Permutation_refl].
  - inversion H as [|x' rest' Hx Hrest]; subst.
    destruct x as [a|]; [|contradiction]. cbn [insertByDate].
    destruct (ScrapedLaw.scrapedAt a <=? ScrapedLaw.scrapedAt b).
    + eexists. split; [reflexivity|apply Permutation_refl].
    + destruct (IH Hrest) as (out & Hout & Hperm). rewrite Hout.
      exists (Some a :: out). split; [reflexivity|].
      eapply Permutation_trans; [apply perm_skip; exact Hperm|apply perm_swap].
Qed.

Lemma insertByDate_null : forall sorted, sorted <> [] -> insertByDate None sorted = None.
Proof.
  intros [|x rest] H; [contradiction|]. simpl. destruct x; reflexivity.
Qed.

Lemma existsb_isNullValue : forall l,
    existsb AggregatorAux.isNullValue l = false <-> Forall (fun v => v <> None) l.
Proof.
  induction l as [|v l IH]; simpl.
  - split; [constructor|reflexivity].
  - destruct v as [a|]; simpl.
    + rewrite IH. split; intros H; [constructor; [discriminate|exact H]|].
      inversion H; assumption.
    + split; [discriminate|]. intros H. inversion H; subst. contradiction.
Qed.

(** The sort throws exactly when [null] is compared with another value:
    the array holds two values or more, and [null] among them.  Otherwise
    it returns the values in another order. *)
Lemma sortByDate_spec : forall l,
    if (2 <=? length l)%nat && existsb AggregatorAux.isNullValue l
    then sortByDate l = None
    else exists out, sortByDate l = Some out /\ Permutation out l.
Proof.
  induction l as [|v l IH].
  - simpl. exists []. split; [reflexivity|constructor].
  - cbn [sortByDate fold_right]. fold (sortByDate l).
    destruct l as [|u l'].
    + simpl. exists [v]. split; [reflexivity|apply Permutation_refl].
    + change (2 <=? length (v :: u :: l'))%nat with true. cbn [andb].
      remember (u :: l') as rest eqn:Er. cbn [existsb].
      destruct (existsb AggregatorAux.isNullValue rest) eqn:En.
      * rewrite orb_true_r.
        destruct (2 <=? length rest)%nat eqn:E2; cbn [andb] in IH.
        -- rewrite IH. reflexivity.
        -- (* the one value that follows is [null]: [v] is compared with it *)
           destruct IH as (out & Hout & Hperm). rewrite Hout.
           subst rest. destruct l' as [|u' l'']; [|discriminate E2].
           apply Permutation_sym, Permutation_length_1_inv in Hperm. subst out.
           destruct u as [a|]; [discriminate En|]. simpl. reflexivity.
      * rewrite andb_false_r in IH. rewrite orb_false_r.
        destruct IH as (out & Hout & Hperm). rewrite Hout.
        apply existsb_isNullValue in En.
        assert (Hall : Forall (fun v => v <> None) out).
        { apply Forall_forall. intros x Hx. rewrite Forall_forall in En. apply En.
          exact (Permutation_in _ Hperm Hx). }
        destruct v as [b|]; simpl.
        -- destruct (insertByDate_record b out Hall) as (out' & Hout' & Hperm').
           exists out'. split; [exact Hout'|].
           eapply Permutation_trans; [exact Hperm'|apply perm_skip; exact Hperm].
        -- apply insertByDate_null. intros ->.
           apply Permutation_nil in Hperm. subst rest. discriminate Hperm.
Qed.

Lemma parsedValues_length : forall contents,
    length (AggregatorAux.parsedValues contents)
    = (length (Spec.recordsIn contents)
       + length (filter ValidatorRun.isNull contents))%nat.
Proof.
  induction contents as [|[law| |] contents IH]; simpl; lia.
Qed.

(** The loop over the files: the parsed values are pushed in order, [total]
    counts them, and [withErrors] counts the corrupt files, the files that
    hold [null] and the records that are not complete. *)
Lemma processFiles_counts : forall contents acc stats,
    exists stats',
      fold_left processFile contents (acc, stats)
      = (acc ++ AggregatorAux.parsedValues contents, stats') /\
      total stats' = (total stats + length (AggregatorAux.parsedValues contents))%nat /\
      withErrors stats'
      = (withErrors stats + Spec.corruptIn contents
         + length (filter ValidatorRun.isNull contents)
         + length (filter Spec.countsAsError (Spec.recordsIn contents)))%nat /\
      successful stats'
      = (successful stats
         + length (filter (fun l => negb (Spec.countsAsError l)) (Spec.recordsIn contents)))%nat.
Proof.
  induction contents as [|c contents IH]; intros acc stats.
  - exists stats. simpl. rewrite app_nil_r. repeat split; lia.
  - destruct c as [law| |].
    + assert (Ec : Spec.countsAsError law
                   = negb (ScrapedLaw.isComplete law && (50 <? ScrapedLaw.textLength law)%nat))
        by reflexivity.
      cbn [fold_left processFile].
      destruct (ScrapedLaw.isComplete law && (50 <? ScrapedLaw.textLength law)%nat);
        simpl in Ec;
        match goal with
        | |- context [fold_left processFile contents (?a, ?s)] =>
            destruct (IH a s) as (stats' & Hf & Ht & He & Hs)
        end;
        exists stats'; rewrite Hf, <- app_assoc; simpl; rewrite Ec; simpl in *;
        repeat split; lia.
    + cbn [fold_left processFile].
      match goal with
      | |- context [fold_left processFile contents (?a, ?s)] =>
          destruct (IH a s) as (stats' & Hf & Ht & He & Hs)
      end.
      exists stats'. rewrite Hf, <- app_assoc. simpl in *. repeat split; lia.
    + cbn [fold_left processFile].
      match goal with
      | |- context [fold_left processFile contents (?a, ?s)] =>
          destruct (IH a s) as (stats' & Hf & Ht & He & Hs)
      end.
      exists stats'. rewrite Hf. simpl in *. repeat split; lia.
Qed.

(** A record that parses but is not complete is counted under [total] and
    under [withErrors]; a file that does not parse under [withErrors] only. *)
Lemma processFile_error_paths : forall acc stats law,
    Spec.countsAsError law = true ->
    total (snd (processFile (acc, stats) (RecordFile law))) = S (total stats) /\
    withErrors (snd (processFile (acc, stats) (RecordFile law))) = S (withErrors stats) /\
    total (snd (processFile (acc, stats) CorruptFile)) = total stats /\
    withErrors (snd (processFile (acc, stats) CorruptFile)) = S (withErrors stats).
Proof.
  intros acc stats law H. unfold Spec.countsAsError in H. apply negb_true_iff in H.
  simpl. rewrite H. simpl. repeat split; reflexivity.
Qed.

(** [aggregate] on a directory that exists is rejected when the failure log
    is there and is not an array, or when the sort compares [null]. *)
Lemma aggregate_rejects : forall dir log,
    AggregatorAux.rejects dir log = true -> aggregate (Some dir) log = None.
Proof.
  intros dir log H. unfold aggregate.
  destruct (processFiles_counts (map snd (lawFiles dir)) [] initialStatistics)
    as (stats' & Hf & _).
  rewrite Hf. simpl app.
  pose proof (sortByDate_spec (AggregatorAux.parsedValues (map snd (lawFiles dir)))) as Hsort.
  unfold AggregatorAux.rejects, AggregatorAux.comparesNull in H.
  destruct log as [| | |entries]; cbn [AggregatorAux.logIsUsable negb orb] in H.
  - rewrite H in Hsort. rewrite Hsort. reflexivity.
  - reflexivity.
  - destruct (sortByDate _); reflexivity.
  - rewrite H in Hsort. rewrite Hsort. reflexivity.
Qed.

(** Otherwise it returns, and counts the files as the loop left them. *)
Lemma aggregate_counts : forall dir log,
    AggregatorAux.rejects dir log = false ->
    exists r,
      aggregate (Some dir) log = Some r /\
      totalScrapedLaws (metadata r)
      = length (AggregatorAux.parsedValues (map snd (lawFiles dir))) /\
      total (statistics (metadata r))
      = length (AggregatorAux.parsedValues (map snd (lawFiles dir))) /\
      errorLaws (metadata r)
      = (Spec.corruptCount dir
         + length (filter ValidatorRun.isNull (map snd (lawFiles dir)))
         + length (filter Spec.countsAsError (Spec.parsedRecords dir)))%nat /\
      successfulLaws (metadata r)
      = length (filter (fun l => negb (Spec.countsAsError l)) (Spec.parsedRecords dir)) /\
      Permutation (scrapedLaws r) (AggregatorAux.parsedValues (map snd (lawFiles dir))) /\
      failedLaws r = match log with Log entries => entries | _ => [] end /\
      failedLawsCount (metadata r) = length (failedLaws r).
Proof.
  intros dir log H. unfold aggregate.
  destruct (processFiles_counts (map snd (lawFiles dir)) [] initialStatistics)
    as (stats' & Hf & Ht & He & Hs).
  rewrite Hf. simpl in Ht, He, Hs. simpl app.
  pose proof (sortByDate_spec (AggregatorAux.parsedValues (map snd (lawFiles dir)))) as Hsort.
  unfold AggregatorAux.rejects, AggregatorAux.comparesNull in H.
  apply orb_false_iff in H. destruct H as [Hlog Hnull].
  rewrite Hnull in Hsort. destruct Hsort as (out & Hout & Hperm). rewrite Hout.
  destruct log as [| | |entries]; try discriminate Hlog;
    eexists; (split; [reflexivity|]);
    cbn [metadata scrapedLaws failedLaws successfulLaws errorLaws totalScrapedLaws
         failedLawsCount statistics finishStatistics total successful withErrors];
    unfold Spec.parsedRecords, Spec.corruptCount;
    repeat split; try lia; exact Hperm.
Qed.

(** C4 (the code at the failing input): the directory of nine complete
    records and one file of invalid JSON, no failure log.  [aggregate]
    returns and has the nine records in [scrapedLaws], but of the 10
    [*.json] files it found it reports a total of 9: [stats.total++] stands
    after [JSON.parse] inside the [try] block, so the corrupt file is
    counted as an error and not as a file processed, and the 9 successful
    laws and the 1 error add up to more than the total.  The scenario of the
    specification does not hold. *)
Theorem C4_total_leaves_out_the_corrupt_file :
  length (lawFiles Spec.nineAndOneCorrupt) = 10%nat /\
  length (Spec.parsedRecords Spec.nineAndOneCorrupt) = 9%nat /\
  Spec.corruptCount Spec.nineAndOneCorrupt = 1%nat /\
  (exists r,
      aggregate (Some Spec.nineAndOneCorrupt) NoLog = Some r /\
      total (statistics (metadata r)) = 9%nat /\
      totalScrapedLaws (metadata r) = 9%nat /\
      successfulLaws (metadata r) = 9%nat /\
      errorLaws (metadata r) = 1%nat /\
      Permutation (scrapedLaws r) (map Some (Spec.parsedRecords Spec.nineAndOneCorrupt))) /\
  ~ Spec.aggregationScenario Spec.nineAndOneCorrupt NoLog.
Proof.
  assert (H9 : option_map (fun r => (total (statistics (metadata r)),
                                     totalScrapedLaws (metadata r),
                                     successfulLaws (metadata r),
                                     errorLaws (metadata r)))
                 (aggregate (Some Spec.nineAndOneCorrupt) NoLog)
               = Some (9, 9, 9, 1)%nat)
    by (vm_compute; reflexivity).
  split; [vm_compute; reflexivity|].
  split; [vm_compute; reflexivity|].
  split; [vm_compute; reflexivity|].
  split.
  - destruct (aggregate_counts Spec.nineAndOneCorrupt NoLog) as (r & Hr & _ & _ & _ & _ & Hp & _);
      [vm_compute; reflexivity|].
    exists r. rewrite Hr in H9. cbn [option_map] in H9. injection H9 as Ht Hs Hu He.
    split; [exact Hr|]. rewrite Ht, Hs, Hu, He. repeat split.
    eapply Permutation_trans; [exact Hp|].
    vm_compute. apply Permutation_refl.
  - intros (r & Hr & Ht & _).
    rewrite Hr in H9. simpl in H9. rewrite Ht in H9. discriminate H9.
Qed.

(* ================================================================== *)
(** ** The text normalizer (processLawText, extractLawContent) *)
(* ================================================================== *)

Import Scraper.

(** *** Trimming *)

Lemma dropWhile_head : forall {A} (p : A -> bool) l c t,
    dropWhile p l = c :: t -> p c = false.
Proof.
  intros A p l. induction l as [|x l IH]; intros c t H; simpl in H; [discriminate|].
  destruct (p x) eqn:E; [exact (IH _ _ H)|].
  inversion H; subst. exact E.
Qed.

Lemma dropWhile_suffix : forall {A} (p : A -> bool) l,
    exists dropped, l = dropped ++ dropWhile p l.
Proof.
  intros A p l. induction l as [|x l IH]; simpl.
  - exists []. reflexivity.
  - destruct (p x).
    + destruct IH as (d & Hd). exists (x :: d). simpl. rewrite <- Hd. reflexivity.
    + exists []. reflexivity.
Qed.

Lemma dropWhile_fixed : forall {A} (p : A -> bool) c t,
    p c = false -> dropWhile p (c :: t) = c :: t.
Proof. intros A p c t H. simpl. rewrite H. reflexivity. Qed.

(** What [trim] returns does not start with white space. *)
Lemma trim_head : forall s c t, trim s = c :: t -> isWhiteSpace c = false.
Proof.
  intros s c t H. unfold trim, trimEnd, trimStart in H.
  destruct (dropWhile_suffix isWhiteSpace (rev (dropWhile isWhiteSpace s))) as (d & Hd).
  apply (f_equal (@rev _)) in Hd. rewrite rev_involutive, rev_app_distr, H in Hd.
  simpl in Hd. apply (dropWhile_head isWhiteSpace s c (t ++ rev d)). exact Hd.
Qed.

(** A string that neither starts nor ends with white space is its own trim. *)
Lemma trim_fixed : forall c body z,
    isWhiteSpace c = false -> isWhiteSpace z = false ->
    trim (c :: body ++ [z]) = c :: body ++ [z].
Proof.
  intros c body z Hc Hz. unfold trim, trimStart, trimEnd.
  rewrite (dropWhile_fixed isWhiteSpace c (body ++ [z]) Hc).
  assert (E : rev (c :: body ++ [z]) = z :: rev (c :: body)).
  { simpl. rewrite rev_app_distr. reflexivity. }
  rewrite E, (dropWhile_fixed isWhiteSpace z _ Hz), <- E.
  apply rev_involutive.
Qed.

Lemma startsWith_app : forall p q, startsWith p (p ++ q) = true.
Proof.
  induction p as [|a p IH]; intros q; simpl; [reflexivity|].
  rewrite Z.eqb_refl, IH. reflexivity.
Qed.

Lemma endsWith_app : forall p q, endsWith p (q ++ p) = true.
Proof. intros p q. unfold endsWith. rewrite rev_app_distr. apply startsWith_app. Qed.

(** *** The end of the slice *)

Lemma firstMatch_eol_end : forall patterns text b e,
    forallb endsWithEol patterns = true ->
    firstMatch patterns text = Some (b, e) -> e = length text.
Proof.
  induction patterns as [|pattern rest IH]; intros text b e Hall H; simpl in *;
    [discriminate|].
  apply andb_true_iff in Hall. destruct Hall as [Hp Hrest].
  unfold exec in H. destruct (search pattern 0 text) as [[b' e']|] eqn:Hs.
  - inversion H; subst. apply (search_eol_end _ _ _ _ _ Hp Hs).
  - apply (IH text b e Hrest H).
Qed.

(** Each end pattern is anchored at the end of the text, so the end of its
    match is the end of the text: [endIndex] never cuts anything off. *)
Lemma endIndex_is_text_end : forall text, endIndex text = length text.
Proof.
  intros text. unfold endIndex.
  destruct (firstMatch endPatterns text) as [[b e]|] eqn:H; [|reflexivity].
  apply (firstMatch_eol_end endPatterns text b e); [vm_compute; reflexivity|exact H].
Qed.

Lemma processLawText_from_start : forall text,
    processLawText text = trim (skipn (startIndex text) text).
Proof.
  intros text. unfold processLawText. destruct text as [|c text]; [reflexivity|].
  rewrite endIndex_is_text_end. unfold slice.
  rewrite firstn_all2; [reflexivity|]. rewrite length_skipn. lia.
Qed.

(** C3 (the code at the failing input): on the page with one opening marker,
    one signature line and a footer, [processLawText] starts at the opening
    marker and keeps the footer after the signature line: the end index is
    the length of the page. *)
Theorem C3_footer_after_signature_is_kept :
  processLawText Spec.pageWithFooter = Spec.lawWithoutFooter ++ js "
footer" /\
  endIndex Spec.pageWithFooter = length Spec.pageWithFooter /\
  processLawText Spec.pageWithFooter <> Spec.lawWithoutFooter.
Proof.
  split; [vm_compute; reflexivity|]. split; [vm_compute; reflexivity|].
  vm_compute. discriminate.
Qed.

(** *** The size limit *)

Lemma processLawText_head : forall text c t,
    processLawText text = c :: t -> isWhiteSpace c = false.
Proof.
  intros text c t H. unfold processLawText in H.
  destruct text; [discriminate|]. apply (trim_head _ _ _ H).
Qed.

Lemma truncationMarker_split : truncationMarker = (10 :: removelast (js "[TRUNCATED]")) ++ [93].
Proof. vm_compute. reflexivity. Qed.

(** C2 (as amended): when the text that [processLawText] returns is longer
    than a [maxTextLength] of at least one, the full text of the extraction
    is its first [maxTextLength] units followed by a line feed and
    ["[TRUNCATED]"]: its length is [maxTextLength] + 12, one more than
    [maxTextLength] + the length of ["[TRUNCATED]"], and it ends with
    ["[TRUNCATED]"]. *)
Theorem C2_truncated_text_has_newline_and_marker : forall opts page,
    (1 <= maxTextLength opts)%nat ->
    (maxTextLength opts < length (processLawText (bodyText page)))%nat ->
    exists out,
      ScrapingData.fullText (extractLawContent opts page) = Some out /\
      out = firstn (maxTextLength opts) (processLawText (bodyText page))
            ++ 10 :: js "[TRUNCATED]" /\
      length out = (maxTextLength opts + 12)%nat /\
      length out = (maxTextLength opts + length (js "[TRUNCATED]") + 1)%nat /\
      endsWith (js "[TRUNCATED]") out = true.
Proof.
  intros opts page Hmax Hlen.
  set (t := processLawText (bodyText page)) in *.
  assert (Hout : trim (cleanAndLimit opts (bodyText page))
                 = firstn (maxTextLength opts) t ++ truncationMarker).
  { unfold cleanAndLimit.
    destruct (bodyText page) as [|b body] eqn:Hbody.
    - subst t. simpl in Hlen. lia.
    - fold t. apply Nat.ltb_lt in Hlen. rewrite Hlen.
      unfold slice. rewrite Nat.sub_0_r. simpl skipn.
      destruct t as [|c t'] eqn:Ht; [simpl in Hlen; apply Nat.ltb_lt in Hlen; lia|].
      assert (Hc : isWhiteSpace c = false).
      { apply (processLawText_head (b :: body) c t'). subst t. exact Ht. }
      destruct (maxTextLength opts) as [|m]; [lia|].
      simpl firstn.
      assert (E : (c :: firstn m t') ++ truncationMarker
                  = c :: (firstn m t' ++ 10 :: removelast (js "[TRUNCATED]")) ++ [93]).
      { rewrite truncationMarker_split, app_assoc. reflexivity. }
      rewrite E. apply trim_fixed; [exact Hc|reflexivity]. }
  exists (firstn (maxTextLength opts) t ++ truncationMarker).
  split; [simpl; rewrite Hout; reflexivity|].
  split; [reflexivity|].
  assert (Hl : length (firstn (maxTextLength opts) t ++ truncationMarker)
               = (maxTextLength opts + 12)%nat).
  { rewrite length_app, length_firstn.
    replace (length truncationMarker) with 12%nat by (vm_compute; reflexivity). lia. }
  split; [exact Hl|]. split.
  - rewrite Hl. replace (length (js "[TRUNCATED]")) with 11%nat by (vm_compute; reflexivity).
    lia.
  - unfold truncationMarker.
    change (firstn (maxTextLength opts) t ++ 10 :: js "[TRUNCATED]")
      with (firstn (maxTextLength opts) t ++ [10] ++ js "[TRUNCATED]").
    rewrite app_assoc. apply endsWith_app.
Qed.

(** C2 at a limit of 5 units and a text of 8. *)
Lemma C2_witness_limit_five :
  exists out,
    ScrapingData.fullText (extractLawContent Spec.limitFive Spec.eightUnitPage) = Some out /\
    out = firstn 5 (processLawText (js "abcdefgh")) ++ 10 :: js "[TRUNCATED]" /\
    length out = 17%nat /\
    length out = (5 + length (js "[TRUNCATED]") + 1)%nat /\
    endsWith (js "[TRUNCATED]") out = true.
Proof.
  apply (C2_truncated_text_has_newline_and_marker Spec.limitFive Spec.eightUnitPage).
  - simpl. lia.
  - vm_compute. lia.
Defined.

(** C2 (as stated) fails there: the output has 17 units, not 5 + 11. *)
Lemma C2_counterexample_length :
  ~ Spec.truncationAsStated Spec.limitFive Spec.eightUnitPage.
Proof.
  intros H. destruct H as (out & Hout & Hlen & _).
  - vm_compute. lia.
  - vm_compute in Hout. inversion Hout; subst. vm_compute in Hlen. discriminate Hlen.
Qed.

(* ================================================================== *)
(** ** The retry loop (scrapeSingleLaw) *)
(* ================================================================== *)

(** The record of a successful attempt. *)
Lemma tryAttempt_success : forall opts env law attempt w w',
    tryAttempt opts env law attempt w = inl w' ->
    exists r,
      sufficient r /\
      w' = {| files := writeFile (outputFile law) (RecordFile r) (files w);
              stats := {| processed := S (processed (stats w));
                          successful := S (successful (stats w));
                          failed := failed (stats w);
                          skipped := skipped (stats w) |};
              failures := failures w;
              trace := trace w ++ [Saved (outputFile law) r] |}.
Proof.
  intros opts env law attempt w w' H. unfold tryAttempt in H.
  destruct (outcome env attempt) as [message|page now saveError]; [discriminate|].
  match type of H with
  | context [createScrapedLaw ?n ?l ?d] => set (r := createScrapedLaw n l d) in *
  end.
  destruct (ScrapedLaw.isComplete r) eqn:Hc; simpl in H; [|discriminate].
  destruct saveError; [discriminate|].
  inversion H; subst w'. exists r. split; [|reflexivity].
  split; [exact Hc|].
  unfold r in Hc. rewrite createScrapedLaw_isComplete in Hc.
  apply Nat.ltb_lt in Hc. exact Hc.
Qed.

Lemma tryAttempt_fails : forall opts env law attempt w message,
    tryAttempt opts env law attempt w = inr message ->
    attemptFails opts env law attempt = true.
Proof.
  intros opts env law attempt w message H. unfold attemptFails.
  unfold tryAttempt in *.
  destruct (outcome env attempt) as [m|page now saveError]; [reflexivity|].
  destruct (negb _); [reflexivity|].
  destruct saveError; [reflexivity|discriminate].
Qed.

Lemma tryAttempt_succeeds : forall opts env law attempt w w',
    tryAttempt opts env law attempt w = inl w' ->
    attemptFails opts env law attempt = false.
Proof.
  intros opts env law attempt w w' H. unfold attemptFails.
  unfold tryAttempt in *.
  destruct (outcome env attempt) as [m|page now saveError]; [discriminate|].
  destruct (negb _); [discriminate|].
  destruct saveError; [discriminate|reflexivity].
Qed.

(** The retry loop ends in one of two ways: one record that passes the content
    check is written and counted as successful, or nothing is written and one
    failure is logged and counted.  Before that it only attempts and sleeps. *)
Lemma retryLoop_outcome : forall opts env law batchId remaining attempt lastError retryCount w,
    (exists r T,
        sufficient r /\ Forall (fun e => isRetryStep e = true) T /\
        retryLoop opts env law batchId remaining attempt lastError retryCount w
        = {| files := writeFile (outputFile law) (RecordFile r) (files w);
             stats := {| processed := S (processed (stats w));
                         successful := S (successful (stats w));
                         failed := failed (stats w);
                         skipped := skipped (stats w) |};
             failures := failures w;
             trace := trace w ++ T ++ [Saved (outputFile law) r] |})
    \/
    (exists f T,
        Forall (fun e => isRetryStep e = true) T /\
        retryLoop opts env law batchId remaining attempt lastError retryCount w
        = {| files := files w;
             stats := {| processed := S (processed (stats w));
                         successful := successful (stats w);
                         failed := S (failed (stats w));
                         skipped := skipped (stats w) |};
             failures := failures w ++ [f];
             trace := trace w ++ T ++ [Failure f] |}).
Proof.
  intros opts env law batchId remaining.
  induction remaining as [|remaining IH]; intros attempt lastError retryCount w.
  - right. eexists. exists []. split; [constructor|]. reflexivity.
  - simpl.
    destruct (tryAttempt opts env law attempt (emit (Attempt (outputFile law) attempt) w))
      as [w'|message] eqn:Htry.
    + left. apply tryAttempt_success in Htry. destruct Htry as (r & Hr & Hw').
      exists r, [Attempt (outputFile law) attempt].
      split; [exact Hr|]. split; [repeat constructor|].
      rewrite Hw'. simpl. rewrite <- app_assoc. reflexivity.
    + match goal with
      | |- context [retryLoop _ _ _ _ remaining (S attempt) (Some message) attempt ?w2] =>
          destruct (IH (S attempt) (Some message) attempt w2)
            as [(r & T & Hr & HT & E)|(f & T & HT & E)]; rewrite E; clear E
      end.
      * left. destruct (attempt <? maxRetries opts)%nat.
        -- exists r, (Attempt (outputFile law) attempt
                      :: Sleep (outputFile law) (backoffDelay attempt) :: T).
           split; [exact Hr|]. split; [repeat constructor; exact HT|].
           simpl. rewrite <- !app_assoc. reflexivity.
        -- exists r, (Attempt (outputFile law) attempt :: T).
           split; [exact Hr|]. split; [repeat constructor; exact HT|].
           simpl. rewrite <- !app_assoc. reflexivity.
      * right. destruct (attempt <? maxRetries opts)%nat.
        -- exists f, (Attempt (outputFile law) attempt
                      :: Sleep (outputFile law) (backoffDelay attempt) :: T).
           split; [repeat constructor; exact HT|].
           simpl. rewrite <- !app_assoc. reflexivity.
        -- exists f, (Attempt (outputFile law) attempt :: T).
           split; [repeat constructor; exact HT|].
           simpl. rewrite <- !app_assoc. reflexivity.
Qed.

Lemma cons_eq_app_cases : forall {A} (x y : A) l pre post,
    x :: l = pre ++ y :: post ->
    (pre = [] /\ x = y /\ l = post) \/ (exists pre', pre = x :: pre' /\ l = pre' ++ y :: post).
Proof.
  intros A x y l pre post H. destruct pre as [|p pre'].
  - left. inversion H. auto.
  - right. inversion H. exists pre'. auto.
Qed.

(** The shape of the trace of the retry loop, attempt by attempt.  The loop
    variable and the iterations left add up to [maxRetries + 1]. *)
Lemma retryLoop_steps : forall opts env law batchId remaining attempt lastError retryCount w,
    (attempt + remaining = S (maxRetries opts))%nat ->
    exists T,
      trace (retryLoop opts env law batchId remaining attempt lastError retryCount w)
      = trace w ++ T /\
      ((1 <= remaining)%nat -> exists T', T = Attempt (outputFile law) attempt :: T') /\
      (remaining = O -> Forall (fun e => isRetryStep e = false) T) /\
      forall pre i post,
        T = pre ++ Attempt (outputFile law) i :: post ->
        (attempt <= i <= maxRetries opts)%nat /\
        (attemptFails opts env law i = true -> (i < maxRetries opts)%nat ->
         exists post',
           post = Sleep (outputFile law) (backoffDelay i)
                  :: Attempt (outputFile law) (S i) :: post') /\
        (attemptFails opts env law i = false \/ i = maxRetries opts ->
         Forall (fun e => isRetryStep e = false) post).
Proof.
  intros opts env law batchId remaining.
  induction remaining as [|remaining IH]; intros attempt lastError retryCount w Hsum.
  - eexists. split; [reflexivity|]. split; [lia|]. split; [repeat constructor|].
    intros pre i post H.
    destruct pre as [|p [|q pre]]; simpl in H; inversion H.
  - simpl.
    destruct (tryAttempt opts env law attempt (emit (Attempt (outputFile law) attempt) w))
      as [w'|message] eqn:Htry.
    + pose proof (tryAttempt_succeeds _ _ _ _ _ _ Htry) as Hok.
      apply tryAttempt_success in Htry. destruct Htry as (r & Hr & Hw').
      exists [Attempt (outputFile law) attempt; Saved (outputFile law) r].
      split; [rewrite Hw'; simpl; rewrite <- app_assoc; reflexivity|].
      split; [eauto|]. split; [discriminate|].
      intros pre i post H.
      apply cons_eq_app_cases in H.
      destruct H as [(-> & Hi & <-)|(pre' & -> & H)].
      * inversion Hi; subst i. split; [lia|]. split.
        -- intros Hf. congruence.
        -- intros _. repeat constructor.
      * destruct pre' as [|p [|q pre']]; simpl in H; inversion H.
    + pose proof (tryAttempt_fails _ _ _ _ _ _ Htry) as Hfail.
      match goal with
      | |- context [retryLoop _ _ _ _ remaining (S attempt) (Some message) attempt ?w2] =>
          destruct (IH (S attempt) (Some message) attempt w2) as (T & E & Hfirst & Hlast & Hall);
            [lia|]
      end.
      destruct (attempt <? maxRetries opts)%nat eqn:Hlt.
      * apply Nat.ltb_lt in Hlt.
        exists (Attempt (outputFile law) attempt
                :: Sleep (outputFile law) (backoffDelay attempt) :: T).
        split; [rewrite E; simpl; rewrite <- !app_assoc; reflexivity|].
        split; [eauto|]. split; [discriminate|].
        intros pre i post H.
        apply cons_eq_app_cases in H.
        destruct H as [(-> & Hi & <-)|(pre' & -> & H)].
        -- inversion Hi; subst i. split; [lia|]. split.
           ++ intros _ _. destruct Hfirst as (T' & ->); [lia|]. eauto.
           ++ intros [Hf|Hf]; [congruence|lia].
        -- apply cons_eq_app_cases in H.
           destruct H as [(_ & Hi & _)|(pre'' & -> & H)]; [discriminate|].
           destruct (Hall _ _ _ H) as (Hr & Hs & Hn).
           split; [lia|]. split; assumption.
      * apply Nat.ltb_ge in Hlt.
        assert (remaining = O) by lia. subst remaining.
        exists (Attempt (outputFile law) attempt :: T).
        split; [rewrite E; simpl; rewrite <- !app_assoc; reflexivity|].
        split; [eauto|]. split; [discriminate|].
        intros pre i post H.
        apply cons_eq_app_cases in H.
        destruct H as [(-> & Hi & <-)|(pre' & -> & H)].
        -- inversion Hi; subst i. split; [lia|]. split.
           ++ intros _ Hi'. lia.
           ++ intros _. apply Hlast. reflexivity.
        -- destruct (Hall _ _ _ H) as (Hr & Hs & Hn). lia.
Qed.

(** C8: in the trace that [scrapeSingleLaw] adds for an item, every attempt
    [i] lies between 1 and [maxRetries]; an attempt [i < maxRetries] that
    fails is followed at once by a sleep of min(1000 * 2^(i-1), 10000)
    milliseconds and then by attempt [i + 1]; after an attempt that succeeds
    and after attempt [maxRetries] there is no further sleep or attempt. *)
Theorem C8_exponential_backoff_between_attempts :
  forall opts env law batchId w pre i post,
    trace (scrapeSingleLaw opts env law batchId w)
    = trace w ++ pre ++ Attempt (outputFile law) i :: post ->
    (1 <= i <= maxRetries opts)%nat /\
    backoffDelay i = Z.min (1000 * 2 ^ (Z.of_nat i - 1)) 10000 /\
    (attemptFails opts env law i = true -> (i < maxRetries opts)%nat ->
     exists post',
       post = Sleep (outputFile law) (backoffDelay i)
              :: Attempt (outputFile law) (S i) :: post') /\
    (attemptFails opts env law i = false \/ i = maxRetries opts ->
     Forall (fun e => isRetryStep e = false) post).
Proof.
  intros opts env law batchId w pre i post H.
  unfold scrapeSingleLaw in H.
  destruct (existsSync (outputFile law) (files w)).
  - simpl in H. apply app_inv_head in H.
    destruct pre as [|p [|q pre]]; simpl in H; inversion H.
  - destruct (retryLoop_steps opts env law batchId (maxRetries opts) 1 None 0 w)
      as (T & E & _ & _ & Hall); [lia|].
    rewrite E in H. apply app_inv_head in H.
    destruct (Hall _ _ _ H) as (Hr & Hs & Hn).
    split; [exact Hr|]. split; [|split; assumption].
    unfold backoffDelay. rewrite Nat2Z.inj_sub by lia. reflexivity.
Qed.

(** C8 at an item whose first attempt times out, whose second attempt reads
    an empty page and whose third attempt succeeds, with [maxRetries] 3: the
    second attempt is followed by a sleep of 2000 ms and the third attempt. *)
Lemma C8_witness_fail_twice_then_succeed :
  (1 <= 2 <= maxRetries Spec.threeRetries)%nat /\
  backoffDelay 2 = Z.min (1000 * 2 ^ (Z.of_nat 2 - 1)) 10000 /\
  (attemptFails Spec.threeRetries Spec.failTwiceThenSucceed Spec.someLaw 2 = true ->
   (2 < maxRetries Spec.threeRetries)%nat ->
   exists post',
     skipn 3 Spec.retryTrace
     = Sleep (outputFile Spec.someLaw) (backoffDelay 2)
       :: Attempt (outputFile Spec.someLaw) 3 :: post') /\
  (attemptFails Spec.threeRetries Spec.failTwiceThenSucceed Spec.someLaw 2 = false
   \/ 2%nat = maxRetries Spec.threeRetries ->
   Forall (fun e => isRetryStep e = false) (skipn 3 Spec.retryTrace)).
Proof.
  apply (C8_exponential_backoff_between_attempts
           Spec.threeRetries Spec.failTwiceThenSucceed Spec.someLaw Spec.batchId
           (freshWorld []) (firstn 2 Spec.retryTrace) 2 (skipn 3 Spec.retryTrace)).
  vm_compute. reflexivity.
Defined.

(* ================================================================== *)
(** ** The output directory *)
(* ================================================================== *)

Lemma eqb_eq : forall a b, JS.eqb a b = true <-> a = b.
Proof.
  induction a as [|x a IH]; intros [|y b]; simpl; split; intros H;
    try reflexivity; try discriminate.
  - apply andb_true_iff in H. destruct H as [Hx Hab].
    apply Z.eqb_eq in Hx. apply IH in Hab. subst. reflexivity.
  - inversion H; subst. rewrite Z.eqb_refl. simpl. apply IH. reflexivity.
Qed.

Lemma eqb_refl : forall a, JS.eqb a a = true.
Proof. intros a. apply eqb_eq. reflexivity. Qed.

Lemma existsSync_writeFile_same : forall name content d,
    existsSync name (writeFile name content d) = true.
Proof.
  intros name content d. induction d as [|(n, c) d IH]; simpl.
  - rewrite eqb_refl. reflexivity.
  - destruct (JS.eqb n name) eqn:E; simpl; rewrite E; simpl; [reflexivity|exact IH].
Qed.

Lemma existsSync_writeFile_mono : forall n name content d,
    existsSync n d = true -> existsSync n (writeFile name content d) = true.
Proof.
  intros n name content d. induction d as [|(m, c) d IH]; simpl; intros H; [discriminate|].
  destruct (JS.eqb m name) eqn:E; simpl.
  - exact H.
  - apply orb_true_iff in H. destruct H as [H|H]; [rewrite H; reflexivity|].
    rewrite (IH H). apply orb_true_r.
Qed.

Lemma In_writeFile : forall n c name content d,
    In (n, c) (writeFile name content d) -> c = content \/ In (n, c) d.
Proof.
  intros n c name content d. induction d as [|(m, x) d IH]; simpl; intros H.
  - destruct H as [H|[]]. inversion H. left. reflexivity.
  - destruct (JS.eqb m name); simpl in H.
    + destruct H as [H|H]; [inversion H; left; reflexivity|right; right; exact H].
    + destruct H as [H|H]; [right; left; exact H|].
      destruct (IH H) as [E|E]; [left; exact E|right; right; exact E].
Qed.

(* ================================================================== *)
(** ** The scheduler (processLawsWithConcurrency) *)
(* ================================================================== *)

(** After an item only bookkeeping events are added. *)
Lemma afterItem_effect : forall opts total currentIndex w,
    exists T,
      Forall (fun e => isBookkeeping e = true) T /\
      afterItem opts total currentIndex w
      = {| files := files w; stats := stats w; failures := failures w;
           trace := trace w ++ T |}.
Proof.
  intros opts total currentIndex w. unfold afterItem.
  destruct ((0 <? delayBetweenRequests opts) && (currentIndex <? total - 1)%nat);
    destruct (currentIndex mod 10 =? 0)%nat; unfold emit; simpl.
  - exists [RateLimit (delayBetweenRequests opts); Progress (stats w)].
    split; [repeat constructor|]. rewrite <- app_assoc. reflexivity.
  - exists [RateLimit (delayBetweenRequests opts)]. split; [repeat constructor|]. reflexivity.
  - exists [Progress (stats w)]. split; [repeat constructor|]. reflexivity.
  - exists []. split; [constructor|]. rewrite app_nil_r. destruct w; reflexivity.
Qed.

Lemma savedSufficient_app : forall T1 T2,
    savedSufficient T1 -> savedSufficient T2 -> savedSufficient (T1 ++ T2).
Proof.
  intros T1 T2 H1 H2 name r Hin. apply in_app_or in Hin.
  destruct Hin as [Hin|Hin]; [exact (H1 _ _ Hin)|exact (H2 _ _ Hin)].
Qed.

Lemma savedSufficient_bookkeeping : forall T,
    Forall (fun e => isBookkeeping e = true) T -> savedSufficient T.
Proof.
  intros T H name r Hin. rewrite Forall_forall in H. apply H in Hin. discriminate Hin.
Qed.

Lemma savedSufficient_retrySteps : forall T,
    Forall (fun e => isRetryStep e = true) T -> savedSufficient T.
Proof.
  intros T H name r Hin. rewrite Forall_forall in H. apply H in Hin. discriminate Hin.
Qed.

(** The retry loop keeps the two invariants of the output. *)
Lemma retryLoop_sufficient : forall opts env law batchId remaining attempt lastError retryCount
                                    dir w,
    savedSufficient (trace w) -> filesSufficient dir (files w) ->
    savedSufficient
      (trace (retryLoop opts env law batchId remaining attempt lastError retryCount w)) /\
    filesSufficient dir
      (files (retryLoop opts env law batchId remaining attempt lastError retryCount w)).
Proof.
  intros opts env law batchId remaining attempt lastError retryCount dir w Ht Hf.
  destruct (retryLoop_outcome opts env law batchId remaining attempt lastError retryCount w)
    as [(r & T & Hr & HT & E)|(f & T & HT & E)]; rewrite E; simpl.
  - split.
    + apply savedSufficient_app; [exact Ht|].
      apply savedSufficient_app; [apply savedSufficient_retrySteps; exact HT|].
      intros name r' [Hin|[]]. inversion Hin; subst. exact Hr.
    + intros name content Hin. apply In_writeFile in Hin.
      destruct Hin as [->|Hin]; [right; exists r; split; [reflexivity|exact Hr]|].
      exact (Hf _ _ Hin).
  - split; [|exact Hf].
    apply savedSufficient_app; [exact Ht|].
    apply savedSufficient_app; [apply savedSufficient_retrySteps; exact HT|].
    intros name r' [Hin|[]]. discriminate Hin.
Qed.

Lemma workerStep_sufficient : forall opts env batchId laws i s s' dir,
    workerStep opts env batchId laws i s = Some s' ->
    savedSufficient (trace (world s)) -> filesSufficient dir (files (world s)) ->
    savedSufficient (trace (world s')) /\ filesSufficient dir (files (world s')).
Proof.
  intros opts env batchId laws i s s' dir H Ht Hf. unfold workerStep in H.
  destruct (nth_error (workers s) i) as [[|currentIndex law|]|]; try discriminate.
  - destruct (nth_error laws (index s)) as [law|].
    + destruct (existsSync (outputFile law) (files (world s))).
      * inversion H; subst s'; clear H. simpl.
        destruct (afterItem_effect opts (length laws) (index s) (skip law (world s)))
          as (T & HT & E).
        rewrite E. simpl. split; [|exact Hf].
        apply savedSufficient_app; [|apply savedSufficient_bookkeeping; exact HT].
        apply savedSufficient_app; [exact Ht|].
        intros name r [Hin|[]]. discriminate Hin.
      * inversion H; subst s'. simpl. split; assumption.
    + inversion H; subst s'. simpl. split; assumption.
  - inversion H; subst s'; clear H. simpl.
    match goal with
    | |- context [afterItem opts ?n ?k ?w] =>
        destruct (afterItem_effect opts n k w) as (T & HT & E); rewrite E; simpl
    end.
    destruct (retryLoop_sufficient opts (env currentIndex) law batchId (maxRetries opts) 1
                None 0 dir (world s) Ht Hf) as [Ht' Hf'].
    split; [|exact Hf'].
    apply savedSufficient_app; [exact Ht'|apply savedSufficient_bookkeeping; exact HT].
Qed.

Lemma runSchedule_sufficient : forall opts env batchId laws schedule s dir,
    savedSufficient (trace (world s)) -> filesSufficient dir (files (world s)) ->
    savedSufficient (trace (world (runSchedule opts env batchId laws schedule s))) /\
    filesSufficient dir (files (world (runSchedule opts env batchId laws schedule s))).
Proof.
  intros opts env batchId laws schedule.
  induction schedule as [|i schedule IH]; intros s dir Ht Hf; simpl; [split; assumption|].
  destruct (workerStep opts env batchId laws i s) as [s'|] eqn:Hstep.
  - destruct (workerStep_sufficient _ _ _ _ _ _ _ dir Hstep Ht Hf) as [Ht' Hf'].
    apply IH; assumption.
  - apply IH; assumption.
Qed.

(** An attempt that reads too little text ends in the [catch]. *)
Lemma tryAttempt_insufficient : forall opts env law attempt w page now saveError,
    outcome env attempt = Extracts page now saveError ->
    (length (trim (cleanAndLimit opts (bodyText page))) <= 50)%nat ->
    exists message, tryAttempt opts env law attempt w = inr message.
Proof.
  intros opts env law attempt w page now saveError Ho Hlen.
  unfold tryAttempt. rewrite Ho.
  match goal with
  | |- context [createScrapedLaw ?n ?l ?d] => set (r := createScrapedLaw n l d)
  end.
  assert (Hc : ScrapedLaw.isComplete r = false).
  { unfold r. rewrite createScrapedLaw_isComplete. apply Nat.ltb_ge.
    cbn [ScrapedLaw.fullText createScrapedLaw ScrapingData.fullText extractLawContent].
    rewrite orString_nil. exact Hlen. }
  rewrite Hc. simpl. eauto.
Qed.

(** C10: in every run of the scheduler, whatever the schedule and the
    answers of the site, each record that is saved has [isComplete] true and
    a full text of more than 50 units; each file of the output directory is
    a file that was there before the run, untouched, or such a record; and an
    attempt whose extracted text has at most 50 units throws before saving. *)
Theorem C10_only_complete_records_are_saved :
  forall opts env batchId laws schedule dir,
    savedSufficient
      (trace (world (processLawsWithConcurrency opts env batchId laws schedule dir))) /\
    filesSufficient dir
      (files (world (processLawsWithConcurrency opts env batchId laws schedule dir))) /\
    (forall k law attempt w page now saveError,
        outcome (env k) attempt = Extracts page now saveError ->
        (length (trim (cleanAndLimit opts (bodyText page))) <= 50)%nat ->
        exists message, tryAttempt opts (env k) law attempt w = inr message).
Proof.
  intros opts env batchId laws schedule dir.
  unfold processLawsWithConcurrency.
  destruct (runSchedule_sufficient opts env batchId laws schedule (startWorkers opts dir) dir)
    as [Ht Hf].
  - intros name r [].
  - intros name content Hin. left. exact Hin.
  - split; [exact Ht|]. split; [exact Hf|].
    intros k law attempt w page now saveError Ho Hlen.
    exact (tryAttempt_insufficient opts (env k) law attempt w page now saveError Ho Hlen).
Qed.

(** *** The pool of workers *)

Lemma length_setWorker : forall i x l, length (setWorker i x l) = length l.
Proof.
  intros i x l. revert i. induction l as [|y l IH]; intros [|i]; simpl; auto.
Qed.

Lemma Forall_setWorker : forall (P : Worker -> Prop) i x l,
    Forall P l -> P x -> Forall P (setWorker i x l).
Proof.
  intros P i x l H Hx. revert i. induction H as [|y l Hy Hl IH]; intros [|i]; simpl;
    constructor; auto.
Qed.

Lemma In_setWorker_new : forall i x l z,
    nth_error l i = Some z -> In x (setWorker i x l).
Proof.
  intros i x l. revert i. induction l as [|y l IH]; intros [|i] z H; simpl in *;
    try discriminate.
  - left. reflexivity.
  - right. exact (IH _ _ H).
Qed.

Lemma In_setWorker_cases : forall i x l y z,
    In y l -> nth_error l i = Some z -> y = z \/ In y (setWorker i x l).
Proof.
  intros i x l. revert i. induction l as [|a l IH]; intros [|i] y z Hin H; simpl in *;
    try contradiction.
  - inversion H; subst. destruct Hin as [Hin|Hin]; [left; symmetry; exact Hin|].
    right. right. exact Hin.
  - destruct Hin as [Hin|Hin]; [right; left; exact Hin|].
    destruct (IH _ _ _ Hin H) as [E|E]; [left; exact E|right; right; exact E].
Qed.

Lemma runSchedule_app : forall opts env batchId laws a b s,
    runSchedule opts env batchId laws (a ++ b) s
    = runSchedule opts env batchId laws b (runSchedule opts env batchId laws a s).
Proof.
  intros opts env batchId laws a. induction a as [|i a IH]; intros b s; simpl; [reflexivity|].
  destruct (workerStep opts env batchId laws i s); apply IH.
Qed.

(** *** A run over a directory that holds every output file *)

Lemma workerStep_allSkipped : forall opts env batchId laws dir i s s',
    allOutputsExist laws dir ->
    AllSkipped opts laws dir s ->
    workerStep opts env batchId laws i s = Some s' ->
    AllSkipped opts laws dir s'.
Proof.
  intros opts env batchId laws dir i s s' Hall [Hf Hs Hfa Hc Hi Hw Hp Ht] H.
  unfold workerStep in H.
  destruct (nth_error (workers s) i) as [[|currentIndex law|]|] eqn:Hn; try discriminate.
  - destruct (nth_error laws (index s)) as [law|] eqn:Hl.
    + assert (Hlt : (index s < length laws)%nat)
        by (apply nth_error_Some; rewrite Hl; discriminate).
      rewrite Hf, (Hall law (nth_error_In _ _ Hl)) in H.
      inversion H; subst s'; clear H.
      destruct (afterItem_effect opts (length laws) (index s) (skip law (world s)))
        as (T & HT & E).
      split; simpl; try rewrite E; simpl; auto; try lia.
      * eapply Forall_impl; [|exact Hw]. intros x [Hx|[_ Hx]]; [left; exact Hx|lia].
      * apply Forall_app. split; [apply Forall_app; split; [exact Ht|repeat constructor]|].
        eapply Forall_impl; [|exact HT]. intros [] He; simpl in *; congruence.
    + apply nth_error_None in Hl.
      inversion H; subst s'; clear H.
      split; simpl; auto.
      * apply Forall_setWorker; [exact Hw|]. right. split; [reflexivity|lia].
      * rewrite length_setWorker. exact Hp.
  - exfalso. apply nth_error_In in Hn. rewrite Forall_forall in Hw.
    destruct (Hw _ Hn) as [E|[E _]]; discriminate E.
Qed.

Lemma runSchedule_allSkipped : forall opts env batchId laws dir schedule s,
    allOutputsExist laws dir ->
    AllSkipped opts laws dir s ->
    AllSkipped opts laws dir (runSchedule opts env batchId laws schedule s).
Proof.
  intros opts env batchId laws dir schedule.
  induction schedule as [|i schedule IH]; intros s Hall Hs; simpl; [exact Hs|].
  destruct (workerStep opts env batchId laws i s) as [s'|] eqn:Hstep.
  - apply IH; [exact Hall|]. exact (workerStep_allSkipped _ _ _ _ _ _ _ _ Hall Hs Hstep).
  - apply IH; assumption.
Qed.

Lemma startWorkers_allSkipped : forall opts laws dir,
    AllSkipped opts laws dir (startWorkers opts dir).
Proof.
  intros opts laws dir. split; simpl; auto; try lia.
  - apply Forall_forall. intros x Hx. apply repeat_spec in Hx. left. exact Hx.
  - apply repeat_length.
Qed.

(** When the pool is not empty and every worker has left its loop, every
    item was claimed. *)
Lemma allDone_index : forall (P : Worker -> Prop) s,
    (1 <= length (workers s))%nat ->
    allDone s = true ->
    Forall P (workers s) ->
    P Done.
Proof.
  intros P s Hlen Hd HP. unfold allDone in Hd.
  destruct (workers s) as [|x l]; [simpl in Hlen; lia|].
  simpl in Hd. apply andb_true_iff in Hd. destruct Hd as [Hx _].
  inversion HP; subst. destruct x; try discriminate. assumption.
Qed.

Lemma allSkipped_done : forall opts laws dir s,
    (1 <= concurrency opts)%nat ->
    AllSkipped opts laws dir s ->
    allDone s = true ->
    skipped (stats (world s)) = length laws.
Proof.
  intros opts laws dir s Hc [Hf Hs Hfa Hcount Hi Hw Hp Ht] Hd.
  rewrite Hcount.
  destruct (allDone_index _ s ltac:(lia) Hd Hw) as [E|[_ E]]; [discriminate|exact E].
Qed.

(** *** Any run: what a completed run without failures leaves behind *)

Lemma workerStep_claimed : forall opts env batchId laws i s s',
    Claimed opts laws s ->
    workerStep opts env batchId laws i s = Some s' ->
    Claimed opts laws s'.
Proof.
  intros opts env batchId laws i s s' [Ha Hb Hp] H.
  unfold workerStep in H.
  destruct (nth_error (workers s) i) as [[|currentIndex lawc|]|] eqn:Hn; try discriminate.
  - destruct (nth_error laws (index s)) as [law|] eqn:Hl.
    + destruct (existsSync (outputFile law) (files (world s))) eqn:Hex;
        inversion H; subst s'; clear H.
      * destruct (afterItem_effect opts (length laws) (index s) (skip law (world s)))
          as (T & HT & E).
        split; simpl; [|eapply Forall_impl; [|exact Hb]; intros [] Hx; auto; lia|exact Hp].
        intros k l Hk Hlt. rewrite E. simpl.
        destruct (Nat.eq_dec k (index s)) as [->|Hne].
        -- rewrite Hl in Hk. inversion Hk; subst. left. exact Hex.
        -- apply Ha; [exact Hk|lia].
      * split; simpl.
        -- intros k l Hk Hlt.
           destruct (Nat.eq_dec k (index s)) as [->|Hne].
           ++ rewrite Hl in Hk. inversion Hk; subst. right. left.
              exact (In_setWorker_new _ _ _ _ Hn).
           ++ destruct (Ha k l Hk ltac:(lia)) as [Hx|[Hx|Hx]]; auto.
              destruct (In_setWorker_cases i (Scraping (index s) law) _ _ _ Hx Hn)
                as [E|E]; [discriminate|auto].
        -- apply Forall_setWorker; [|exact Hl].
           eapply Forall_impl; [|exact Hb]. intros [] Hx; auto; lia.
        -- rewrite length_setWorker. exact Hp.
    + inversion H; subst s'; clear H. apply nth_error_None in Hl.
      split; simpl.
      * intros k l Hk Hlt.
        destruct (Ha k l Hk Hlt) as [Hx|[Hx|Hx]]; auto.
        destruct (In_setWorker_cases i Done _ _ _ Hx Hn) as [E|E]; [discriminate|auto].
      * apply Forall_setWorker; [exact Hb|exact Hl].
      * rewrite length_setWorker. exact Hp.
  - inversion H; subst s'; clear H.
    assert (Hlawc : nth_error laws currentIndex = Some lawc).
    { rewrite Forall_forall in Hb. exact (Hb _ (nth_error_In _ _ Hn)). }
    match goal with
    | |- context [afterItem opts ?n ?k ?w] =>
        destruct (afterItem_effect opts n k w) as (T & HT & E)
    end.
    split; simpl; [|apply Forall_setWorker; [exact Hb|exact I]
                   |rewrite length_setWorker; exact Hp].
    intros k l Hk Hlt. rewrite E. simpl.
    destruct (retryLoop_outcome opts (env currentIndex) lawc batchId (maxRetries opts) 1
                None 0 (world s)) as [(r & T' & Hr & HT' & E')|(f & T' & HT' & E')];
      rewrite E'; simpl.
    + destruct (Ha k l Hk Hlt) as [Hx|[Hx|Hx]]; auto.
      * left. apply existsSync_writeFile_mono. exact Hx.
      * destruct (In_setWorker_cases i Idle _ _ _ Hx Hn) as [Eq|Hin]; auto.
        inversion Eq; subst. left. apply existsSync_writeFile_same.
    + right. right. lia.
Qed.

Lemma runSchedule_claimed : forall opts env batchId laws schedule s,
    Claimed opts laws s ->
    Claimed opts laws (runSchedule opts env batchId laws schedule s).
Proof.
  intros opts env batchId laws schedule.
  induction schedule as [|i schedule IH]; intros s Hs; simpl; [exact Hs|].
  destruct (workerStep opts env batchId laws i s) as [s'|] eqn:Hstep.
  - apply IH. exact (workerStep_claimed _ _ _ _ _ _ _ Hs Hstep).
  - apply IH. exact Hs.
Qed.

Lemma startWorkers_claimed : forall opts laws dir, Claimed opts laws (startWorkers opts dir).
Proof.
  intros opts laws dir. split; simpl.
  - intros k l _ Hlt. lia.
  - apply Forall_forall. intros x Hx. apply repeat_spec in Hx. subst x. exact I.
  - apply repeat_length.
Qed.

(** A run that is over and counted no failure has left the output file of
    every law of the worklist. *)
Lemma completed_run_leaves_all_outputs : forall opts env batchId laws schedule dir,
    (1 <= concurrency opts)%nat ->
    allDone (processLawsWithConcurrency opts env batchId laws schedule dir) = true ->
    failed (stats (world (processLawsWithConcurrency opts env batchId laws schedule dir)))
    = O ->
    allOutputsExist laws
      (files (world (processLawsWithConcurrency opts env batchId laws schedule dir))).
Proof.
  intros opts env batchId laws schedule dir Hc Hd Hf.
  unfold processLawsWithConcurrency in *.
  pose proof (runSchedule_claimed opts env batchId laws schedule _
                (startWorkers_claimed opts laws dir)) as [Ha Hb Hp].
  set (s := runSchedule opts env batchId laws schedule (startWorkers opts dir)) in *.
  assert (Hidx : (length laws <= index s)%nat).
  { exact (allDone_index _ s ltac:(lia) Hd Hb). }
  intros law Hin. apply In_nth_error in Hin. destruct Hin as (k & Hk).
  assert (Hlt : (k < length laws)%nat) by (apply nth_error_Some; rewrite Hk; discriminate).
  destruct (Ha k law Hk ltac:(lia)) as [Hx|[Hx|Hx]]; [exact Hx| |lia].
  exfalso. unfold allDone in Hd. rewrite forallb_forall in Hd.
  apply Hd in Hx. discriminate Hx.
Qed.

(** *** Every worker that is resumed leaves its loop *)

Lemma nth_error_setWorker : forall i j x l,
    nth_error (setWorker j x l) i
    = if (i =? j)%nat then match nth_error l i with Some _ => Some x | None => None end
      else nth_error l i.
Proof.
  intros i j x l. revert i j. induction l as [|y l IH]; intros [|i] [|j]; simpl;
    try reflexivity.
  - destruct (i =? j)%nat; reflexivity.
  - apply IH.
Qed.

Lemma workerStep_pool : forall opts env batchId laws j s s',
    workerStep opts env batchId laws j s = Some s' ->
    length (workers s') = length (workers s).
Proof.
  intros opts env batchId laws j s s' H. unfold workerStep in H.
  destruct (nth_error (workers s) j) as [[|k law|]|]; try discriminate.
  - destruct (nth_error laws (index s)) as [law|].
    + destruct (existsSync _ _); inversion H; subst s'; simpl;
        rewrite ?length_setWorker; reflexivity.
    + inversion H; subst s'. simpl. apply length_setWorker.
  - inversion H; subst s'. simpl. apply length_setWorker.
Qed.

Lemma runSchedule_pool : forall opts env batchId laws schedule s,
    length (workers (runSchedule opts env batchId laws schedule s)) = length (workers s).
Proof.
  intros opts env batchId laws schedule.
  induction schedule as [|j schedule IH]; intros s; simpl; [reflexivity|].
  destruct (workerStep opts env batchId laws j s) as [s'|] eqn:E; rewrite IH;
    [exact (workerStep_pool _ _ _ _ _ _ _ E)|reflexivity].
Qed.

(** A turn of worker [j] takes one from what worker [j] has left to do, and
    adds nothing to what another worker has left. *)
Lemma workerStep_turnsLeft : forall opts env batchId laws i j s s',
    workerStep opts env batchId laws j s = Some s' ->
    (turnsLeft laws i s' + (if (i =? j)%nat then 1 else 0) <= turnsLeft laws i s)%nat.
Proof.
  intros opts env batchId laws i j s s' H. unfold workerStep in H.
  destruct (nth_error (workers s) j) as [[|k lawk|]|] eqn:Hj; try discriminate.
  - destruct (nth_error laws (index s)) as [law|] eqn:Hl.
    + assert (Hlt : (index s < length laws)%nat)
        by (apply nth_error_Some; rewrite Hl; discriminate).
      destruct (existsSync (outputFile law) (files (world s)));
        inversion H; subst s'; clear H; unfold turnsLeft; cbn [index workers].
      * destruct (Nat.eqb_spec i j) as [->|Hij].
        -- rewrite Hj. lia.
        -- destruct (nth_error (workers s) i) as [[| |]|]; lia.
      * rewrite nth_error_setWorker.
        destruct (Nat.eqb_spec i j) as [->|Hij].
        -- rewrite Hj. lia.
        -- destruct (nth_error (workers s) i) as [[| |]|]; lia.
    + inversion H; subst s'; clear H; unfold turnsLeft; cbn [index workers].
      rewrite nth_error_setWorker.
      destruct (Nat.eqb_spec i j) as [->|Hij].
      * rewrite Hj. lia.
      * destruct (nth_error (workers s) i) as [[| |]|]; lia.
  - inversion H; subst s'; clear H; unfold turnsLeft; cbn [index workers].
    rewrite nth_error_setWorker.
    destruct (Nat.eqb_spec i j) as [->|Hij].
    + rewrite Hj. lia.
    + destruct (nth_error (workers s) i) as [[| |]|]; lia.
Qed.

Lemma workerStep_none_turnsLeft : forall opts env batchId laws i s,
    workerStep opts env batchId laws i s = None -> turnsLeft laws i s = O.
Proof.
  intros opts env batchId laws i s H. unfold workerStep in H. unfold turnsLeft.
  destruct (nth_error (workers s) i) as [[|k law|]|]; try reflexivity; try discriminate.
  destruct (nth_error laws (index s)); [|discriminate].
  destruct (existsSync _ _); discriminate.
Qed.

Lemma runSchedule_turnsLeft : forall opts env batchId laws i schedule s,
    (turnsLeft laws i (runSchedule opts env batchId laws schedule s)
     <= turnsLeft laws i s - turnsOf i schedule)%nat.
Proof.
  intros opts env batchId laws i schedule.
  induction schedule as [|j schedule IH]; intros s.
  - simpl. lia.
  - cbn [runSchedule]. unfold turnsOf in *. cbn [count_occ].
    destruct (workerStep opts env batchId laws j s) as [s'|] eqn:E.
    + pose proof (workerStep_turnsLeft opts env batchId laws i j s s' E) as Hstep.
      specialize (IH s').
      destruct (Nat.eq_dec j i) as [->|Hne].
      * rewrite Nat.eqb_refl in Hstep. lia.
      * destruct (Nat.eqb_spec i j) as [->|_]; [contradiction|]. lia.
    + specialize (IH s).
      destruct (Nat.eq_dec j i) as [->|Hne]; [|exact IH].
      rewrite (workerStep_none_turnsLeft _ _ _ _ _ _ E) in *. lia.
Qed.

Lemma allDone_turnsLeft : forall laws s,
    (forall i, (i < length (workers s))%nat -> turnsLeft laws i s = O) ->
    allDone s = true.
Proof.
  intros laws s H. unfold allDone. apply forallb_forall. intros x Hx.
  apply In_nth_error in Hx. destruct Hx as (i & Hi).
  assert (Hlt : (i < length (workers s))%nat)
    by (apply nth_error_Some; rewrite Hi; discriminate).
  specialize (H i Hlt). unfold turnsLeft in H. rewrite Hi in H.
  destruct x; [lia|lia|reflexivity].
Qed.

Lemma resumesEveryWorker_turns : forall opts laws schedule i,
    resumesEveryWorker opts laws schedule = true ->
    (i < concurrency opts)%nat ->
    (2 * length laws + 1 <= turnsOf i schedule)%nat.
Proof.
  intros opts laws schedule i H Hi. unfold resumesEveryWorker in H.
  rewrite forallb_forall in H. apply Nat.leb_le. apply H. apply in_seq. lia.
Qed.

(** A call ends, whatever state the scraper is in and whatever the order of
    the turns, once every worker has been given its turns. *)
Lemma resumed_workers_finish : forall opts env batchId laws schedule w,
    resumesEveryWorker opts laws schedule = true ->
    allDone (runSchedule opts env batchId laws schedule
               {| index := 0; workers := repeat Idle (concurrency opts); world := w |}) = true.
Proof.
  intros opts env batchId laws schedule w H.
  apply (allDone_turnsLeft laws). intros i Hi.
  rewrite runSchedule_pool in Hi. cbn [workers] in Hi. rewrite repeat_length in Hi.
  pose proof (runSchedule_turnsLeft opts env batchId laws i schedule
                {| index := 0; workers := repeat Idle (concurrency opts); world := w |}) as Hle.
  pose proof (resumesEveryWorker_turns opts laws schedule i H Hi) as Hturns.
  assert (Hstart : (turnsLeft laws i
                      {| index := 0; workers := repeat Idle (concurrency opts); world := w |}
                    <= 2 * length laws + 1)%nat).
  { unfold turnsLeft. cbn [index workers].
    destruct (nth_error (repeat Idle (concurrency opts)) i) as [x|] eqn:Hx; [|lia].
    apply nth_error_In, repeat_spec in Hx. subst x. lia. }
  lia.
Qed.

(** C9 (as amended): an item whose output file exists when it is claimed is
    skipped: no attempt is made, nothing is written, [skipped] grows by one
    and [successful] stays.  An item whose output file is absent (as after
    a run in which it failed and no item of the same law ID was saved) is
    not skipped: it is counted as processed, after a first attempt when
    [maxRetries] is at least 1.  Consequently, after a first run that is
    over and counted no failure, a second run on the same worklist and the
    directory the first run left (with at least one worker, whatever the
    schedule and the answers of the site) has no successful scrape, attempts
    nothing, leaves the directory as it is, and has skipped every item when
    it is over; and it is over once every worker has been given its turns,
    whatever their order. *)
Theorem C9_resume_skips_saved_items :
  forall opts env1 env2 batchId laws dir sched1 sched2,
    (1 <= concurrency opts)%nat ->
    allDone (processLawsWithConcurrency opts env1 batchId laws sched1 dir) = true ->
    failed (stats (world (processLawsWithConcurrency opts env1 batchId laws sched1 dir)))
    = O ->
    (forall env law w,
        existsSync (outputFile law) (files w) = true ->
        scrapeSingleLaw opts env law batchId w
        = {| files := files w;
             stats := {| processed := processed (stats w);
                         successful := successful (stats w);
                         failed := failed (stats w);
                         skipped := S (skipped (stats w)) |};
             failures := failures w;
             trace := trace w ++ [Skipped (outputFile law)] |}) /\
    (forall env law w,
        existsSync (outputFile law) (files w) = false ->
        skipped (stats (scrapeSingleLaw opts env law batchId w)) = skipped (stats w) /\
        processed (stats (scrapeSingleLaw opts env law batchId w)) = S (processed (stats w)) /\
        ((1 <= maxRetries opts)%nat ->
         exists T,
           trace (scrapeSingleLaw opts env law batchId w)
           = trace w ++ Attempt (outputFile law) 1 :: T)) /\
    successful
      (stats (world (processLawsWithConcurrency opts env2 batchId laws sched2
                       (files (world (processLawsWithConcurrency opts env1 batchId laws
                                        sched1 dir)))))) = O /\
    files (world (processLawsWithConcurrency opts env2 batchId laws sched2
                    (files (world (processLawsWithConcurrency opts env1 batchId laws
                                     sched1 dir)))))
    = files (world (processLawsWithConcurrency opts env1 batchId laws sched1 dir)) /\
    Forall (fun e => isQuiet e = true)
      (trace (world (processLawsWithConcurrency opts env2 batchId laws sched2
                       (files (world (processLawsWithConcurrency opts env1 batchId laws
                                        sched1 dir)))))) /\
    (allDone (processLawsWithConcurrency opts env2 batchId laws sched2
                (files (world (processLawsWithConcurrency opts env1 batchId laws
                                 sched1 dir)))) = true ->
     skipped
       (stats (world (processLawsWithConcurrency opts env2 batchId laws sched2
                        (files (world (processLawsWithConcurrency opts env1 batchId laws
                                         sched1 dir))))))
     = length laws) /\
    (forall schedule,
        resumesEveryWorker opts laws schedule = true ->
        allDone (processLawsWithConcurrency opts env2 batchId laws schedule
                   (files (world (processLawsWithConcurrency opts env1 batchId laws
                                    sched1 dir)))) = true).
Proof.
  intros opts env1 env2 batchId laws dir sched1 sched2 Hc Hd Hf.
  pose proof (completed_run_leaves_all_outputs opts env1 batchId laws sched1 dir Hc Hd Hf)
    as Hall.
  set (dir1 := files (world (processLawsWithConcurrency opts env1 batchId laws sched1 dir)))
    in *.
  split.
  { intros env law w Hex. unfold scrapeSingleLaw. rewrite Hex. reflexivity. }
  split.
  { intros env law w Hex. unfold scrapeSingleLaw. rewrite Hex.
    split; [|split].
    - destruct (retryLoop_outcome opts env law batchId (maxRetries opts) 1 None 0 w)
        as [(r & T & _ & _ & E)|(f & T & _ & E)]; rewrite E; reflexivity.
    - destruct (retryLoop_outcome opts env law batchId (maxRetries opts) 1 None 0 w)
        as [(r & T & _ & _ & E)|(f & T & _ & E)]; rewrite E; reflexivity.
    - intros Hm.
      destruct (retryLoop_steps opts env law batchId (maxRetries opts) 1 None 0 w)
        as (T & E & Hfirst & _); [lia|].
      destruct (Hfirst Hm) as (T' & ->). exists T'. exact E. }
  pose proof (runSchedule_allSkipped opts env2 batchId laws dir1 sched2
                (startWorkers opts dir1) Hall (startWorkers_allSkipped opts laws dir1))
    as Hs.
  fold (processLawsWithConcurrency opts env2 batchId laws sched2 dir1) in Hs.
  split; [exact (skipped_successful _ _ _ _ Hs)|].
  split; [exact (skipped_files _ _ _ _ Hs)|].
  split; [exact (skipped_trace _ _ _ _ Hs)|].
  split; [intros Hd2; exact (allSkipped_done _ _ _ _ Hc Hs Hd2)|].
  intros schedule Hturns.
  exact (resumed_workers_finish opts env2 batchId laws schedule (freshWorld dir1) Hturns).
Qed.

(** C9 at a worklist of two laws and one worker: the first run saves both,
    the second run skips both although the site would now time out. *)
Lemma C9_witness_two_laws :
  (forall env law w,
      existsSync (outputFile law) (files w) = true ->
      scrapeSingleLaw Spec.threeRetries env law Spec.batchId w
      = {| files := files w;
           stats := {| processed := processed (stats w);
                       successful := successful (stats w);
                       failed := failed (stats w);
                       skipped := S (skipped (stats w)) |};
           failures := failures w;
           trace := trace w ++ [Skipped (outputFile law)] |}) /\
  (forall env law w,
      existsSync (outputFile law) (files w) = false ->
      skipped (stats (scrapeSingleLaw Spec.threeRetries env law Spec.batchId w))
      = skipped (stats w) /\
      processed (stats (scrapeSingleLaw Spec.threeRetries env law Spec.batchId w))
      = S (processed (stats w)) /\
      ((1 <= maxRetries Spec.threeRetries)%nat ->
       exists T,
         trace (scrapeSingleLaw Spec.threeRetries env law Spec.batchId w)
         = trace w ++ Attempt (outputFile law) 1 :: T)) /\
  successful
    (stats (world (processLawsWithConcurrency Spec.threeRetries
                     (fun _ => Spec.alwaysTimesOut) Spec.batchId Spec.twoLaws [O; O; O]
                     (files (world (processLawsWithConcurrency Spec.threeRetries
                                      (fun _ => Spec.alwaysSucceeds) Spec.batchId
                                      Spec.twoLaws [O; O; O; O; O] [])))))) = O /\
  files (world (processLawsWithConcurrency Spec.threeRetries
                  (fun _ => Spec.alwaysTimesOut) Spec.batchId Spec.twoLaws [O; O; O]
                  (files (world (processLawsWithConcurrency Spec.threeRetries
                                   (fun _ => Spec.alwaysSucceeds) Spec.batchId
                                   Spec.twoLaws [O; O; O; O; O] [])))))
  = files (world (processLawsWithConcurrency Spec.threeRetries
                    (fun _ => Spec.alwaysSucceeds) Spec.batchId Spec.twoLaws
                    [O; O; O; O; O] [])) /\
  Forall (fun e => isQuiet e = true)
    (trace (world (processLawsWithConcurrency Spec.threeRetries
                     (fun _ => Spec.alwaysTimesOut) Spec.batchId Spec.twoLaws [O; O; O]
                     (files (world (processLawsWithConcurrency Spec.threeRetries
                                      (fun _ => Spec.alwaysSucceeds) Spec.batchId
                                      Spec.twoLaws [O; O; O; O; O] [])))))) /\
  (allDone (processLawsWithConcurrency Spec.threeRetries
              (fun _ => Spec.alwaysTimesOut) Spec.batchId Spec.twoLaws [O; O; O]
              (files (world (processLawsWithConcurrency Spec.threeRetries
                               (fun _ => Spec.alwaysSucceeds) Spec.batchId
                               Spec.twoLaws [O; O; O; O; O] [])))) = true ->
   skipped
     (stats (world (processLawsWithConcurrency Spec.threeRetries
                      (fun _ => Spec.alwaysTimesOut) Spec.batchId Spec.twoLaws [O; O; O]
                      (files (world (processLawsWithConcurrency Spec.threeRetries
                                       (fun _ => Spec.alwaysSucceeds) Spec.batchId
                                       Spec.twoLaws [O; O; O; O; O] []))))))
   = length Spec.twoLaws) /\
  (forall schedule,
      resumesEveryWorker Spec.threeRetries Spec.twoLaws schedule = true ->
      allDone (processLawsWithConcurrency Spec.threeRetries
                 (fun _ => Spec.alwaysTimesOut) Spec.batchId Spec.twoLaws schedule
                 (files (world (processLawsWithConcurrency Spec.threeRetries
                                  (fun _ => Spec.alwaysSucceeds) Spec.batchId
                                  Spec.twoLaws [O; O; O; O; O] [])))) = true).
Proof.
  apply (C9_resume_skips_saved_items Spec.threeRetries
           (fun _ => Spec.alwaysSucceeds) (fun _ => Spec.alwaysTimesOut)
           Spec.batchId Spec.twoLaws [] [O; O; O; O; O] [O; O; O]).
  - simpl. lia.
  - vm_compute. reflexivity.
  - vm_compute. reflexivity.
Defined.

(** C9 (as stated) fails: every attempt of the first run times out, so it
    leaves no output file; the second run on the same worklist and directory
    scrapes both laws with success and skips none. *)
Lemma C9_counterexample_failed_items_are_rescraped :
  ~ Spec.resumeAsStated Spec.threeRetries
      (fun _ => Spec.alwaysTimesOut) (fun _ => Spec.alwaysSucceeds)
      Spec.batchId Spec.twoLaws [] [O; O; O; O; O] [O; O; O; O; O].
Proof.
  unfold Spec.resumeAsStated. intros H.
  destruct H as [H _]; [vm_compute; reflexivity|vm_compute; reflexivity|].
  vm_compute in H. discriminate H.
Qed.

(* ================================================================== *)
(** * Further properties of the code *)
(* ================================================================== *)

(** ** More facts about the matcher *)

Import MatcherAux.

(** The matcher depends on its continuation only through its answers. *)
Lemma rmatch_ext : forall r i s k1 k2,
    (forall i' s', k1 i' s' = k2 i' s') -> rmatch r i s k1 = rmatch r i s k2.
Proof.
  induction r as [|p|a IHa b IHb|a IHa b IHb|a IHa|n a IHa| |]; intros i s k1 k2 H; simpl.
  - apply H.
  - destruct s as [|c s]; [reflexivity|]. destruct (p c); [apply H|reflexivity].
  - apply IHa. intros i' s'. apply IHb. exact H.
  - rewrite (IHa i s k1 k2 H), (IHb i s k1 k2 H). reflexivity.
  - generalize (length s). intros fuel. revert i s.
    induction fuel as [|fuel IHf]; intros i s; [apply H|].
    match goal with
    | |- match rmatch a i s ?K1 with _ => _ end = match rmatch a i s ?K2 with _ => _ end =>
        rewrite (IHa i s K1 K2)
    end.
    + rewrite H. reflexivity.
    + intros i' s'. destruct (i <? i')%nat; [apply IHf|reflexivity].
  - revert i s. induction n as [|n IHn]; intros i s; [apply H|].
    match goal with
    | |- match rmatch a i s ?K1 with _ => _ end = match rmatch a i s ?K2 with _ => _ end =>
        rewrite (IHa i s K1 K2)
    end.
    + rewrite H. reflexivity.
    + intros i' s'. apply IHn.
  - destruct (i =? 0)%nat; [apply H|reflexivity].
  - destruct s; [apply H|reflexivity].
Qed.

Lemma rmatch_star_loop : forall a i s k,
    rmatch (Star a) i s k = starLoop a k (length s) i s.
Proof.
  intros a i s k. simpl. generalize (length s). intros fuel. revert i s.
  induction fuel as [|fuel IH]; intros i s; [reflexivity|].
  simpl. erewrite rmatch_ext; [reflexivity|].
  intros i' s'. simpl. destruct (i <? i')%nat; [apply IH|reflexivity].
Qed.

(** A sequence of single units matches exactly the inputs that start with
    such units. *)
Lemma rmatch_units : forall ps i s k,
    rmatch (seqs (map Unit ps)) i s k
    = if prefixBy ps s then k (i + length ps)%nat (skipn (length ps) s) else None.
Proof.
  induction ps as [|p ps IH]; intros i s k.
  - simpl. rewrite Nat.add_0_r. reflexivity.
  - destruct ps as [|q ps].
    + simpl. destruct s as [|c s]; [reflexivity|].
      rewrite andb_true_r. replace (i + 1)%nat with (S i) by lia.
      destruct s; reflexivity.
    + change (seqs (map Unit (p :: q :: ps)))
        with (Seq (Unit p) (seqs (map Unit (q :: ps)))).
      cbn [rmatch]. destruct s as [|c s]; [reflexivity|].
      cbn [prefixBy]. destruct (p c); [|reflexivity].
      rewrite IH.
      replace (i + length (p :: q :: ps))%nat with (S i + length (q :: ps))%nat
        by (simpl; lia).
      reflexivity.
Qed.

(** The greedy star over single units, followed by a continuation that
    accepts after the longest run. *)
Lemma starLoop_units : forall p k fuel i s e,
    (length s <= fuel)%nat ->
    k (i + length (takeWhile p s))%nat (dropWhile p s) = Some e ->
    starLoop (Unit p) k fuel i s = Some e.
Proof.
  intros p k fuel. induction fuel as [|fuel IH]; intros i s e Hf Hk.
  - destruct s; [|simpl in Hf; lia]. simpl in *. rewrite Nat.add_0_r in Hk. exact Hk.
  - simpl. destruct s as [|c s].
    + simpl in Hk. rewrite Nat.add_0_r in Hk. exact Hk.
    + simpl in Hk. destruct (p c) eqn:Hp.
      * assert (Hlt : (i <? S i)%nat = true) by (apply Nat.ltb_lt; lia).
        rewrite Hlt. rewrite (IH (S i) s e).
        -- reflexivity.
        -- simpl in Hf. lia.
        -- simpl in Hk. replace (S i + length (takeWhile p s))%nat
             with (i + S (length (takeWhile p s)))%nat by lia. exact Hk.
      * simpl in Hk. rewrite Nat.add_0_r in Hk. exact Hk.
Qed.

(** What [search] returns is the first index at which the pattern matches. *)
Lemma search_first : forall r s i b e,
    search r i s = Some (b, e) ->
    (i <= b)%nat /\
    rmatch r b (skipn (b - i) s) accept = Some e /\
    forall j, (j < b - i)%nat -> rmatch r (i + j) (skipn j s) accept = None.
Proof.
  intros r s. induction s as [|c s IH]; intros i b e H; simpl in H.
  - destruct (rmatch r i [] accept) eqn:Hm; [|discriminate].
    inversion H; subst. rewrite Nat.sub_diag. simpl. repeat split; auto. intros j Hj. lia.
  - destruct (rmatch r i (c :: s) accept) eqn:Hm.
    + inversion H; subst. rewrite Nat.sub_diag. simpl. repeat split; auto.
      intros j Hj. lia.
    + apply IH in H. destruct H as (Hle & Hb & Hnone).
      split; [lia|]. split.
      * replace (b - i)%nat with (S (b - S i)) by lia. simpl. exact Hb.
      * intros [|j] Hj.
        -- rewrite Nat.add_0_r. simpl. exact Hm.
        -- simpl. replace (i + S j)%nat with (S i + j)%nat by lia.
           apply Hnone. lia.
Qed.

(** A match at some index of the input makes [search] succeed, at that index
    or before. *)
Lemma search_finds : forall r pre rest i e,
    rmatch r (i + length pre) rest accept = Some e ->
    exists b e', search r i (pre ++ rest) = Some (b, e') /\ (b <= i + length pre)%nat.
Proof.
  intros r pre. induction pre as [|c pre IH]; intros rest i e H; simpl in *.
  - rewrite Nat.add_0_r in H.
    destruct rest as [|c rest]; simpl; rewrite H; eexists _, _;
      (split; [reflexivity|lia]).
  - destruct (rmatch r i (c :: pre ++ rest) accept) eqn:Hm.
    + eexists _, _. split; [reflexivity|lia].
    + replace (i + S (length pre))%nat with (S i + length pre)%nat in H by lia.
      destruct (IH rest (S i) e H) as (b & e' & Hs & Hle).
      exists b, e'. split; [exact Hs|lia].
Qed.

Lemma rmatch_Seq : forall a b i s k,
    rmatch (Seq a b) i s k = rmatch a i s (fun i' s' => rmatch b i' s' k).
Proof. reflexivity. Qed.

Lemma rmatch_Unit : forall p i s k,
    rmatch (Unit p) i s k
    = match s with
      | c :: s' => if p c then k (S i) s' else None
      | [] => None
      end.
Proof. reflexivity. Qed.

Lemma lit_units : forall s, lit s = seqs (map Unit (map (fun c x => x =? c) (js s))).
Proof. intros s. unfold lit. rewrite map_map. reflexivity. Qed.

Lemma prefixBy_startsWith : forall l s,
    prefixBy (map (fun c x => x =? c) l) s = startsWith l s.
Proof.
  induction l as [|a l IH]; intros [|b s]; simpl; try reflexivity.
  rewrite IH, Z.eqb_sym. reflexivity.
Qed.

Lemma startsWith_true : forall l s,
    startsWith l s = true <-> exists rest, s = l ++ rest.
Proof.
  induction l as [|a l IH]; intros s; simpl.
  - split; [intros _; exists s; reflexivity|reflexivity].
  - destruct s as [|b s].
    + split; [discriminate|]. intros (rest & H). discriminate H.
    + rewrite andb_true_iff, Z.eqb_eq, IH. split.
      * intros (-> & rest & ->). exists rest. reflexivity.
      * intros (rest & H). inversion H; subst. split; [reflexivity|]. exists rest. reflexivity.
Qed.

Lemma rmatch_lit : forall str i s k,
    rmatch (lit str) i s k
    = if startsWith (js str) s
      then k (i + length (js str))%nat (skipn (length (js str)) s)
      else None.
Proof.
  intros str i s k. rewrite lit_units, rmatch_units, prefixBy_startsWith, !length_map.
  reflexivity.
Qed.

Lemma takeWhile_dropWhile : forall {A} (p : A -> bool) l,
    takeWhile p l ++ dropWhile p l = l.
Proof.
  intros A p l. induction l as [|x l IH]; simpl; [reflexivity|].
  destruct (p x); simpl; [rewrite IH|]; reflexivity.
Qed.

Lemma takeWhile_all : forall {A} (p : A -> bool) l, forallb p (takeWhile p l) = true.
Proof.
  intros A p l. induction l as [|x l IH]; simpl; [reflexivity|].
  destruct (p x) eqn:E; simpl; [rewrite E, IH|]; reflexivity.
Qed.

Lemma firstn_takeWhile : forall {A} (p : A -> bool) l,
    firstn (length (takeWhile p l)) l = takeWhile p l.
Proof.
  intros A p l. rewrite <- (takeWhile_dropWhile p l) at 2.
  rewrite firstn_app, Nat.sub_diag, firstn_all. simpl. apply app_nil_r.
Qed.

(** Greedy repetition of one unit in front of the accepting continuation
    takes the longest run. *)
Lemma rmatch_star_unit_accept : forall p i s,
    rmatch (Star (Unit p)) i s accept = Some (i + length (takeWhile p s))%nat.
Proof.
  intros p i s. rewrite rmatch_star_loop.
  apply starLoop_units; [lia|reflexivity].
Qed.

(* ================================================================== *)
(** ** The law ID (schemas.js) and the name of the output file *)
(* ================================================================== *)

(** Where the pattern of the law ID matches, and how far. *)
Lemma rmatch_lawId : forall b s,
    rmatch lawIdPattern b s accept
    = if startsWith (js "/ID/") s then
        match skipn 4 s with
        | c :: rest =>
            if isDigit c then Some (b + 5 + length (takeWhile isDigit rest))%nat else None
        | [] => None
        end
      else None.
Proof.
  intros b s. unfold lawIdPattern, Plus, digit.
  rewrite rmatch_Seq, rmatch_lit.
  replace (length (js "/ID/")) with 4%nat by (vm_compute; reflexivity).
  destruct (startsWith (js "/ID/") s); [|reflexivity].
  rewrite rmatch_Seq, rmatch_Unit.
  destruct (skipn 4 s) as [|c rest]; [reflexivity|].
  destruct (isDigit c); [|reflexivity].
  rewrite rmatch_star_unit_accept. f_equal. lia.
Qed.

Lemma skipn_app_exact : forall {A} (l1 l2 : list A), skipn (length l1) (l1 ++ l2) = l2.
Proof.
  intros A l1 l2. rewrite skipn_app, skipn_all, Nat.sub_diag. reflexivity.
Qed.

(** The law ID is the run of digits after the first ["/ID/"] that is followed
    by a digit. *)
Lemma extractLawId_spec : forall url,
    match extractLawId url with
    | Some id =>
        id <> [] /\ forallb isDigit id = true /\
        exists pre post,
          url = pre ++ js "/ID/" ++ id ++ post /\
          match post with [] => True | c :: _ => isDigit c = false end
    | None =>
        forall pre c post, url = pre ++ js "/ID/" ++ c :: post -> isDigit c = false
    end.
Proof.
  intros url. unfold extractLawId, exec.
  destruct (search lawIdPattern 0 url) as [[b e]|] eqn:Hs.
  - apply search_first in Hs. destruct Hs as (_ & Hm & _).
    rewrite Nat.sub_0_r, rmatch_lawId in Hm.
    destruct (startsWith (js "/ID/") (skipn b url)) eqn:Hsw; [|discriminate].
    apply startsWith_true in Hsw. destruct Hsw as (rest0 & Hrest0).
    rewrite Hrest0 in Hm.
    change 4%nat with (length (js "/ID/")) in Hm. rewrite skipn_app_exact in Hm.
    destruct rest0 as [|c rest]; [discriminate|].
    destruct (isDigit c) eqn:Hc; [|discriminate].
    inversion Hm; subst e; clear Hm.
    assert (Hid : slice (b + 4) (b + 5 + length (takeWhile isDigit rest)) url
                  = c :: takeWhile isDigit rest).
    { unfold slice.
      replace (b + 4)%nat with (length (js "/ID/") + b)%nat by (vm_compute length; lia).
      rewrite <- skipn_skipn, Hrest0, skipn_app_exact.
      replace (b + 5 + length (takeWhile isDigit rest) - (length (js "/ID/") + b))%nat
        with (S (length (takeWhile isDigit rest))) by (vm_compute length; lia).
      simpl. rewrite firstn_takeWhile. reflexivity. }
    rewrite Hid. split; [discriminate|]. split.
    + simpl. rewrite Hc. apply takeWhile_all.
    + exists (firstn b url), (dropWhile isDigit rest). split.
      * rewrite <- (firstn_skipn b url) at 1. rewrite Hrest0.
        apply (f_equal (app (firstn b url))). apply (f_equal (app (js "/ID/"))).
        rewrite <- app_comm_cons, takeWhile_dropWhile. reflexivity.
      * destruct (dropWhile isDigit rest) as [|d rest'] eqn:Hd; [exact I|].
        exact (dropWhile_head _ _ _ _ Hd).
  - intros pre c post Hurl.
    destruct (isDigit c) eqn:Hc; [|reflexivity]. exfalso.
    destruct (search_finds lawIdPattern pre (js "/ID/" ++ c :: post) 0
                (length pre + 5 + length (takeWhile isDigit post))%nat)
      as (b & e' & Hf & _).
    + rewrite rmatch_lawId.
      assert (Hsw : startsWith (js "/ID/") (js "/ID/" ++ c :: post) = true)
        by (apply startsWith_true; eexists; reflexivity).
      rewrite Hsw. change 4%nat with (length (js "/ID/")).
      rewrite skipn_app_exact, Hc. reflexivity.
    + rewrite <- Hurl, Hs in Hf. discriminate Hf.
Qed.

(** X1: the law ID that [extractLawId] returns is a non-empty run of
    decimal digits that follows ["/ID/"] in the URL and ends where the digits
    end; it returns [null] exactly when no ["/ID/"] of the URL is followed by
    a digit. *)
Theorem X1_extractLawId_is_the_digits_after_ID : forall url,
    match extractLawId url with
    | Some id =>
        id <> [] /\ forallb isDigit id = true /\
        exists pre post,
          url = pre ++ js "/ID/" ++ id ++ post /\
          match post with [] => True | c :: _ => isDigit c = false end
    | None =>
        forall pre c post, url = pre ++ js "/ID/" ++ c :: post -> isDigit c = false
    end.
Proof. exact extractLawId_spec. Qed.

(** X2: two work items have the same output file exactly when
    [extractLawId] gives the same result for their links (the same digits, or
    [null] for both): a law ID never yields the name ["null.json"]. *)
Theorem X2_output_file_is_keyed_by_law_id : forall law1 law2,
    outputFile law1 = outputFile law2 <->
    extractLawId (link law1) = extractLawId (link law2).
Proof.
  assert (Hnull : forall url id, extractLawId url = Some id ->
                                 id ++ js ".json" <> js "null.json").
  { intros url id Hid H. pose proof (extractLawId_spec url) as Hs. rewrite Hid in Hs.
    destruct Hs as (Hne & Hd & _). destruct id as [|c id]; [contradiction|].
    simpl in Hd. apply andb_true_iff in Hd. destruct Hd as [Hc _].
    vm_compute in H. inversion H; subst c. discriminate Hc. }
  intros law1 law2. unfold outputFile. split.
  - destruct (extractLawId (link law1)) as [id1|] eqn:H1;
      destruct (extractLawId (link law2)) as [id2|] eqn:H2; intros H.
    + apply app_inv_tail in H. subst. reflexivity.
    + exfalso. exact (Hnull _ _ H1 H).
    + exfalso. symmetry in H. exact (Hnull _ _ H2 H).
    + reflexivity.
  - intros ->. reflexivity.
Qed.

(* ================================================================== *)
(** ** The decision table of the validator *)
(* ================================================================== *)

Import ValidatorAux.

(** The validator computes the table. *)
Lemma validateLawText_table : forall lawData, validateLawText lawData = tableOf lawData.
Proof.
  intros lawData. unfold validateLawText, tableOf.
  destruct (LawData.fullText lawData) as [[|c text]|]; reflexivity.
Qed.

(** A statement about the result follows from its instances on the 512 rows
    of the table and on the result for a missing text. *)
Ltac validator_table :=
  intros lawData; rewrite validateLawText_table;
  unfold tableOf, shorterThan100;
  destruct (LawData.fullText lawData) as [[|c text]|];
  [vm_compute; reflexivity| |vm_compute; reflexivity];
  change (length (c :: text) <? 100)%nat with (below100 (conditionsOf (c :: text)));
  generalize (conditionsOf (c :: text));
  intros [b1 b2 b3 b4 b5 b6 b7 b8 b9];
  destruct b1, b2, b3, b4, b5, b6, b7, b8, b9; vm_compute; reflexivity.

(** X3: a result is valid exactly when its issues hold no tag other than
    [poor_structure]: each of the other eight tags rejects, and
    [poor_structure] alone never does. *)
Theorem X3_valid_iff_only_advisory_issues : forall lawData,
    isValid (validateLawText lawData) = forallb isAdvisory (issues (validateLawText lawData)).
Proof. validator_table. Qed.

(** X4: a result is valid exactly when its severity is [none] or [low];
    a rejected record is reported [medium] at least. *)
Theorem X4_valid_iff_severity_at_most_low : forall lawData,
    isValid (validateLawText lawData)
    = (rank (severity (validateLawText lawData)) <=? 1)%nat.
Proof. validator_table. Qed.

(** X5: the issues are listed in the order of the checks, no tag twice
    ([extremely_short] and [very_short] exclude each other, and so do
    [ends_with_table_data] and [suspicious_ending]), with one recommendation
    for each issue. *)
Theorem X5_issues_in_check_order_one_recommendation_each : forall lawData,
    ascending (map checkOrder (issues (validateLawText lawData)))
    && (length (recommendations (validateLawText lawData))
        =? length (issues (validateLawText lawData)))%nat = true.
Proof. validator_table. Qed.

(** X6: the severity reported is [none] when there is no issue and the
    level of one of the detected issues otherwise, so it is never above the
    maximum of their levels. *)
Theorem X6_severity_is_the_level_of_a_detected_issue : forall lawData,
    severityAmong (severity (validateLawText lawData)) (issues (validateLawText lawData))
    && (rank (severity (validateLawText lawData))
        <=? rank (maxIssueSeverity (issues (validateLawText lawData))))%nat = true.
Proof. validator_table. Qed.

(** X7: the severity is [critical] exactly for a text that is missing, empty
    or shorter than 100 units, whatever the other checks find. *)
Theorem X7_critical_iff_shorter_than_100 : forall lawData,
    isCritical (severity (validateLawText lawData)) = shorterThan100 lawData.
Proof. validator_table. Qed.

(* ================================================================== *)
(** ** More on trimming and on the normalizer *)
(* ================================================================== *)

Lemma takeWhile_Forall : forall {A} (p : A -> bool) l,
    Forall (fun x => p x = true) (takeWhile p l).
Proof.
  intros A p l. induction l as [|x l IH]; simpl; [constructor|].
  destruct (p x) eqn:E; constructor; assumption.
Qed.

Lemma dropWhile_idem : forall {A} (p : A -> bool) l,
    dropWhile p (dropWhile p l) = dropWhile p l.
Proof.
  intros A p l. induction l as [|x l IH]; simpl; [reflexivity|].
  destruct (p x) eqn:E; [exact IH|]. simpl. rewrite E. reflexivity.
Qed.

Lemma dropWhile_length : forall {A} (p : A -> bool) l,
    (length (dropWhile p l) <= length l)%nat.
Proof.
  intros A p l. induction l as [|x l IH]; simpl; [lia|].
  destruct (p x); simpl; lia.
Qed.

(** [trim] cuts white space off both ends, and nothing else. *)
Lemma trim_decompose : forall x,
    exists before after,
      x = before ++ trim x ++ after /\
      Forall (fun c => isWhiteSpace c = true) before /\
      Forall (fun c => isWhiteSpace c = true) after.
Proof.
  intros x. unfold trim, trimEnd, trimStart.
  exists (takeWhile isWhiteSpace x),
         (rev (takeWhile isWhiteSpace (rev (dropWhile isWhiteSpace x)))).
  split; [|split].
  - rewrite <- rev_app_distr, takeWhile_dropWhile, rev_involutive, takeWhile_dropWhile.
    reflexivity.
  - apply takeWhile_Forall.
  - apply Forall_rev. apply takeWhile_Forall.
Qed.

Lemma trim_length : forall x, (length (trim x) <= length x)%nat.
Proof.
  intros x. unfold trim, trimEnd, trimStart. rewrite length_rev.
  etransitivity; [apply dropWhile_length|]. rewrite length_rev. apply dropWhile_length.
Qed.

Lemma trim_last : forall x body z, trim x = body ++ [z] -> isWhiteSpace z = false.
Proof.
  intros x body z H. unfold trim, trimEnd in H.
  apply (f_equal (@rev _)) in H. rewrite rev_involutive, rev_app_distr in H. simpl in H.
  exact (dropWhile_head _ _ _ _ H).
Qed.

Lemma trim_idempotent : forall x, trim (trim x) = trim x.
Proof.
  intros x. destruct (trim x) as [|c t] eqn:E; [reflexivity|].
  pose proof (trim_head _ _ _ E) as Hc.
  rewrite <- E. unfold trim at 1. unfold trimStart. rewrite E.
  rewrite dropWhile_fixed by exact Hc. rewrite <- E.
  unfold trim, trimEnd. rewrite rev_involutive, dropWhile_idem. reflexivity.
Qed.

(** X8: [processLawText] returns a contiguous part of its input that
    neither starts nor ends with white space, and what it leaves out after
    that part is white space only: text that follows a signature line is
    never cut off. *)
Theorem X8_processLawText_keeps_everything_after_the_start : forall text,
    (exists before after,
        text = before ++ processLawText text ++ after /\
        Forall (fun c => isWhiteSpace c = true) after) /\
    (forall c rest, processLawText text = c :: rest -> isWhiteSpace c = false) /\
    (forall body z, processLawText text = body ++ [z] -> isWhiteSpace z = false).
Proof.
  intros text. rewrite processLawText_from_start. split; [|split].
  - destruct (trim_decompose (skipn (startIndex text) text)) as (b & a & E & _ & Ha).
    exists (firstn (startIndex text) text ++ b), a. split; [|exact Ha].
    rewrite <- app_assoc, <- E. symmetry. apply firstn_skipn.
  - intros c rest H. exact (trim_head _ _ _ H).
  - intros body z H. exact (trim_last _ _ _ H).
Qed.

Lemma processLawText_trimmed : forall text, trim (processLawText text) = processLawText text.
Proof. intros text. rewrite processLawText_from_start. apply trim_idempotent. Qed.

(** The full text of an extraction, without the option. *)
Lemma extractLawContent_fullText : forall opts page,
    ScrapingData.fullText (extractLawContent opts page)
    = Some (trim (cleanAndLimit opts (bodyText page))).
Proof. reflexivity. Qed.

Lemma cleanAndLimit_within : forall opts body,
    (length (processLawText body) <= maxTextLength opts)%nat ->
    trim (cleanAndLimit opts body) = processLawText body.
Proof.
  intros opts body H. unfold cleanAndLimit. destruct body as [|b body]; [reflexivity|].
  apply Nat.ltb_ge in H. rewrite H. apply processLawText_trimmed.
Qed.

Lemma cleanAndLimit_bound : forall opts body,
    (length (trim (cleanAndLimit opts body)) <= maxTextLength opts + 12)%nat.
Proof.
  intros opts body. etransitivity; [apply trim_length|].
  unfold cleanAndLimit. destruct body as [|b body]; [simpl; lia|].
  destruct (maxTextLength opts <? length (processLawText (b :: body)))%nat eqn:E.
  - rewrite length_app. unfold slice. rewrite length_firstn.
    replace (length truncationMarker) with 12%nat by (vm_compute; reflexivity). lia.
  - apply Nat.ltb_ge in E. lia.
Qed.

(** X9: the full text of an extraction never has more than
    [maxTextLength] + 12 units; when the text that [processLawText] returns
    fits in [maxTextLength], it is stored as it is, with no marker. *)
Theorem X9_extracted_text_is_bounded : forall opts page,
    exists out,
      ScrapingData.fullText (extractLawContent opts page) = Some out /\
      (length out <= maxTextLength opts + 12)%nat /\
      ((length (processLawText (bodyText page)) <= maxTextLength opts)%nat ->
       out = processLawText (bodyText page)).
Proof.
  intros opts page. exists (trim (cleanAndLimit opts (bodyText page))).
  split; [reflexivity|]. split; [apply cleanAndLimit_bound|].
  apply cleanAndLimit_within.
Qed.

(* ================================================================== *)
(** ** What a run writes, logs and counts *)
(* ================================================================== *)

Import ScraperRun.

(** The record of a successful attempt, in full. *)
Lemma tryAttempt_record : forall opts env law attempt w w',
    (1 <= attempt <= maxRetries opts)%nat ->
    tryAttempt opts env law attempt w = inl w' ->
    exists r,
      recordOf opts law r /\
      w' = {| files := writeFile (outputFile law) (RecordFile r) (files w);
              stats := {| processed := S (processed (stats w));
                          successful := S (successful (stats w));
                          failed := failed (stats w);
                          skipped := skipped (stats w) |};
              failures := failures w;
              trace := trace w ++ [Saved (outputFile law) r] |}.
Proof.
  intros opts env law attempt w w' Ha H. unfold tryAttempt in H.
  destruct (outcome env attempt) as [message|page now saveError]; [discriminate|].
  match type of H with
  | context [createScrapedLaw ?n ?l ?d] => set (r := createScrapedLaw n l d) in *
  end.
  destruct (ScrapedLaw.isComplete r) eqn:Hc; simpl in H; [|discriminate].
  destruct saveError; [discriminate|].
  inversion H; subst w'. exists r. split; [|reflexivity].
  assert (Hlen : ScrapedLaw.textLength r = length (ScrapedLaw.fullText r)) by reflexivity.
  assert (Hfull : ScrapedLaw.fullText r = trim (cleanAndLimit opts (bodyText page))).
  { unfold r. cbn [ScrapedLaw.fullText createScrapedLaw ScrapingData.fullText
                     extractLawContent]. apply orString_nil. }
  split; try reflexivity.
  - unfold r. cbn [ScrapedLaw.retryCount createScrapedLaw ScrapingData.retryCount]. lia.
  - exact Hc.
  - rewrite Hlen. split.
    + unfold r in Hc. rewrite createScrapedLaw_isComplete in Hc.
      apply Nat.ltb_lt in Hc. exact Hc.
    + rewrite Hfull. apply cleanAndLimit_bound.
Qed.

Lemma orString_nonempty : forall a b, b <> [] -> orString a b <> [].
Proof. intros [[|c s]|] b Hb; simpl; auto; discriminate. Qed.

(** How the retry loop ends, with the record or the failure entry in full. *)
Lemma retryLoop_details : forall opts env law batchId remaining attempt lastError retryCount w,
    (attempt + remaining = S (maxRetries opts))%nat ->
    (retryCount + 1 = attempt)%nat ->
    (exists r T,
        recordOf opts law r /\ Forall (fun e => isRetryStep e = true) T /\
        retryLoop opts env law batchId remaining attempt lastError retryCount w
        = {| files := writeFile (outputFile law) (RecordFile r) (files w);
             stats := {| processed := S (processed (stats w));
                         successful := S (successful (stats w));
                         failed := failed (stats w);
                         skipped := skipped (stats w) |};
             failures := failures w;
             trace := trace w ++ T ++ [Saved (outputFile law) r] |})
    \/
    (exists f T,
        failureOf opts batchId law f /\ Forall (fun e => isRetryStep e = true) T /\
        retryLoop opts env law batchId remaining attempt lastError retryCount w
        = {| files := files w;
             stats := {| processed := S (processed (stats w));
                         successful := successful (stats w);
                         failed := S (failed (stats w));
                         skipped := skipped (stats w) |};
             failures := failures w ++ [f];
             trace := trace w ++ T ++ [Failure f] |}).
Proof.
  intros opts env law batchId remaining.
  induction remaining as [|remaining IH]; intros attempt lastError retryCount w Hsum Hrc.
  - right. eexists. exists []. split; [|split; [constructor|reflexivity]].
    split; try reflexivity.
    + simpl. lia.
    + simpl. apply orString_nonempty. vm_compute. discriminate.
  - simpl.
    destruct (tryAttempt opts env law attempt (emit (Attempt (outputFile law) attempt) w))
      as [w'|message] eqn:Htry.
    + left. apply tryAttempt_record in Htry; [|lia]. destruct Htry as (r & Hr & Hw').
      exists r, [Attempt (outputFile law) attempt].
      split; [exact Hr|]. split; [repeat constructor|].
      rewrite Hw'. simpl. rewrite <- app_assoc. reflexivity.
    + match goal with
      | |- context [retryLoop _ _ _ _ remaining (S attempt) (Some message) attempt ?w2] =>
          destruct (IH (S attempt) (Some message) attempt w2)
            as [(r & T & Hr & HT & E)|(f & T & Hf & HT & E)]; [lia|lia| |];
            rewrite E; clear E
      end.
      * left. destruct (attempt <? maxRetries opts)%nat.
        -- exists r, (Attempt (outputFile law) attempt
                      :: Sleep (outputFile law) (backoffDelay attempt) :: T).
           split; [exact Hr|]. split; [repeat constructor; exact HT|].
           simpl. rewrite <- !app_assoc. reflexivity.
        -- exists r, (Attempt (outputFile law) attempt :: T).
           split; [exact Hr|]. split; [repeat constructor; exact HT|].
           simpl. rewrite <- !app_assoc. reflexivity.
      * right. destruct (attempt <? maxRetries opts)%nat.
        -- exists f, (Attempt (outputFile law) attempt
                      :: Sleep (outputFile law) (backoffDelay attempt) :: T).
           split; [exact Hf|]. split; [repeat constructor; exact HT|].
           simpl. rewrite <- !app_assoc. reflexivity.
        -- exists f, (Attempt (outputFile law) attempt :: T).
           split; [exact Hf|]. split; [repeat constructor; exact HT|].
           simpl. rewrite <- !app_assoc. reflexivity.
Qed.

(** The costs of the retry loop: attempts and backoff time. *)
Lemma backoffDelay_bounds : forall attempt, 1000 <= backoffDelay attempt <= 10000.
Proof.
  intros attempt. unfold backoffDelay.
  assert (0 < 2 ^ Z.of_nat (attempt - 1)) by (apply Z.pow_pos_nonneg; lia).
  lia.
Qed.

Lemma countAttempts_app : forall T1 T2,
    countAttempts (T1 ++ T2) = (countAttempts T1 + countAttempts T2)%nat.
Proof. intros. unfold countAttempts. rewrite filter_app, length_app. reflexivity. Qed.

Lemma totalSleep_app : forall T1 T2, totalSleep (T1 ++ T2) = totalSleep T1 + totalSleep T2.
Proof.
  induction T1 as [|e T1 IH]; intros T2; simpl; [reflexivity|].
  destruct e; rewrite ?IH; lia.
Qed.

Lemma retryLoop_costs : forall opts env law batchId remaining attempt lastError retryCount w,
    (attempt + remaining = S (maxRetries opts))%nat ->
    exists T,
      trace (retryLoop opts env law batchId remaining attempt lastError retryCount w)
      = trace w ++ T /\
      (countAttempts T <= remaining)%nat /\
      0 <= totalSleep T <= 10000 * Z.of_nat (remaining - 1).
Proof.
  intros opts env law batchId remaining.
  induction remaining as [|remaining IH]; intros attempt lastError retryCount w Hsum.
  - eexists. split; [reflexivity|]. unfold countAttempts. simpl. split; lia.
  - cbn [retryLoop].
    destruct (tryAttempt opts env law attempt (emit (Attempt (outputFile law) attempt) w))
      as [w'|message] eqn:Htry.
    + apply tryAttempt_success in Htry. destruct Htry as (r & _ & Hw').
      exists [Attempt (outputFile law) attempt; Saved (outputFile law) r].
      split; [rewrite Hw'; simpl; rewrite <- app_assoc; reflexivity|].
      split; [unfold countAttempts; cbn [filter length]; lia|].
      cbn [totalSleep]. lia.
    + match goal with
      | |- context [retryLoop _ _ _ _ remaining (S attempt) (Some message) attempt ?w2] =>
          destruct (IH (S attempt) (Some message) attempt w2) as (T & E & Hc & Hs); [lia|]
      end.
      pose proof (backoffDelay_bounds attempt) as Hb.
      destruct (attempt <? maxRetries opts)%nat eqn:Hlt.
      * apply Nat.ltb_lt in Hlt.
        exists (Attempt (outputFile law) attempt
                :: Sleep (outputFile law) (backoffDelay attempt) :: T).
        split; [rewrite E; simpl; rewrite <- !app_assoc; reflexivity|].
        split; [unfold countAttempts in *; cbn [filter length]; lia|].
        cbn [totalSleep].
        replace (S remaining - 1)%nat with (S (remaining - 1)) by lia.
        rewrite Nat2Z.inj_succ. lia.
      * exists (Attempt (outputFile law) attempt :: T).
        split; [rewrite E; simpl; rewrite <- !app_assoc; reflexivity|].
        split; [unfold countAttempts in *; cbn [filter length]; lia|].
        cbn [totalSleep]. lia.
Qed.

(** X10: one call of [scrapeSingleLaw] makes at most [maxRetries] attempts,
    and the backoff delays it sleeps add up to at most 10000 milliseconds
    for each attempt but the last (nothing when [maxRetries] is 0 or 1).  A
    law whose output file exists is skipped: no attempt, no delay. *)
Theorem X10_retry_loop_is_bounded : forall opts env law batchId w,
    exists T,
      trace (scrapeSingleLaw opts env law batchId w) = trace w ++ T /\
      (countAttempts T <= maxRetries opts)%nat /\
      0 <= totalSleep T <= 10000 * Z.of_nat (maxRetries opts - 1) /\
      ((maxRetries opts <= 1)%nat -> totalSleep T = 0) /\
      (existsSync (outputFile law) (files w) = true ->
       T = [Skipped (outputFile law)] /\ countAttempts T = O /\ totalSleep T = 0).
Proof.
  intros opts env law batchId w. unfold scrapeSingleLaw.
  destruct (existsSync (outputFile law) (files w)).
  - exists [Skipped (outputFile law)]. split; [reflexivity|].
    split; [unfold countAttempts; cbn [filter length]; lia|].
    cbn [totalSleep]. split; [lia|]. split; [reflexivity|].
    intros _. repeat split.
  - destruct (retryLoop_costs opts env law batchId (maxRetries opts) 1 None 0 w)
      as (T & E & Hc & Hs); [lia|].
    exists T. split; [exact E|]. split; [exact Hc|]. split; [exact Hs|].
    split; [|discriminate].
    intros H1. replace (maxRetries opts - 1)%nat with O in Hs by lia. lia.
Qed.

(** X10 at a law whose output file is in the directory. *)
Lemma X10_witness_skipped_law :
  existsSync (outputFile Spec.someLaw)
    (files (freshWorld [(outputFile Spec.someLaw, CorruptFile)])) = true /\
  exists T,
    trace (scrapeSingleLaw Spec.threeRetries Spec.alwaysSucceeds Spec.someLaw Spec.batchId
             (freshWorld [(outputFile Spec.someLaw, CorruptFile)]))
    = trace (freshWorld [(outputFile Spec.someLaw, CorruptFile)]) ++ T /\
    (countAttempts T <= maxRetries Spec.threeRetries)%nat /\
    0 <= totalSleep T <= 10000 * Z.of_nat (maxRetries Spec.threeRetries - 1) /\
    ((maxRetries Spec.threeRetries <= 1)%nat -> totalSleep T = 0) /\
    (existsSync (outputFile Spec.someLaw)
       (files (freshWorld [(outputFile Spec.someLaw, CorruptFile)])) = true ->
     T = [Skipped (outputFile Spec.someLaw)] /\ countAttempts T = O /\ totalSleep T = 0).
Proof.
  split; [vm_compute; reflexivity|].
  apply (X10_retry_loop_is_bounded Spec.threeRetries Spec.alwaysSucceeds Spec.someLaw
           Spec.batchId (freshWorld [(outputFile Spec.someLaw, CorruptFile)])).
Defined.

(** ** The counters of a run *)

Lemma countScraping_setWorker : forall i x pool y,
    nth_error pool i = Some y ->
    (countScraping (setWorker i x pool) + (if isScraping y then 1 else 0)
     = countScraping pool + (if isScraping x then 1 else 0))%nat.
Proof.
  unfold countScraping. induction i as [|i IH]; intros x pool y H.
  - destruct pool as [|z pool]; [discriminate|]. simpl in H. inversion H; subst z.
    simpl. destruct (isScraping y), (isScraping x); simpl; lia.
  - destruct pool as [|z pool]; [discriminate|]. simpl in H.
    specialize (IH x pool y H). simpl. destruct (isScraping z); simpl; lia.
Qed.

Lemma countScraping_done : forall pool, forallb isDone pool = true -> countScraping pool = O.
Proof.
  unfold countScraping. intros pool. induction pool as [|x pool IH]; simpl; [reflexivity|].
  intros H. apply andb_prop in H. destruct H as [Hx Hws].
  destruct x; try discriminate. simpl. auto.
Qed.

Lemma workerStep_accounted : forall opts env batchId laws w0 i s s',
    Accounted opts laws w0 s ->
    workerStep opts env batchId laws i s = Some s' ->
    Accounted opts laws w0 s'.
Proof.
  intros opts env batchId laws w0 i s s' [Hp Hf Hi Hg Hb] H.
  unfold workerStep in H.
  destruct (nth_error (workers s) i) as [[|currentIndex lawc|]|] eqn:Hn; try discriminate.
  - destruct (nth_error laws (index s)) as [law|] eqn:Hl.
    + assert (Hlt : (index s < length laws)%nat)
        by (apply nth_error_Some; rewrite Hl; discriminate).
      destruct (existsSync (outputFile law) (files (world s)));
        inversion H; subst s'; clear H.
      * destruct (afterItem_effect opts (length laws) (index s) (skip law (world s)))
          as (T & _ & E).
        split; cbn [index workers world]; rewrite ?E; simpl; lia.
      * pose proof (countScraping_setWorker i (Scraping (index s) law) _ _ Hn) as Hc.
        simpl in Hc. split; cbn [index workers world]; lia.
    + inversion H; subst s'; clear H.
      pose proof (countScraping_setWorker i Done _ _ Hn) as Hc. simpl in Hc.
      split; cbn [index workers world]; lia.
  - inversion H; subst s'; clear H.
    pose proof (countScraping_setWorker i Idle _ _ Hn) as Hc. simpl in Hc.
    match goal with
    | |- context [afterItem opts ?t ?c ?w] =>
        destruct (afterItem_effect opts t c w) as (T & _ & E)
    end.
    destruct (retryLoop_details opts (env currentIndex) lawc batchId (maxRetries opts) 1
                None 0 (world s)) as [(r & T' & _ & _ & E')|(f & T' & _ & _ & E')];
      try lia;
      split; cbn [index workers world]; rewrite ?E, ?E'; simpl;
        rewrite ?length_app; simpl; lia.
Qed.

Lemma runSchedule_accounted : forall opts env batchId laws w0 schedule s,
    Accounted opts laws w0 s ->
    Accounted opts laws w0 (runSchedule opts env batchId laws schedule s).
Proof.
  intros opts env batchId laws w0 schedule.
  induction schedule as [|i schedule IH]; intros s Hs; simpl; [exact Hs|].
  destruct (workerStep opts env batchId laws i s) as [s'|] eqn:E.
  - apply IH. exact (workerStep_accounted _ _ _ _ _ _ _ _ Hs E).
  - apply IH. exact Hs.
Qed.

Lemma startWorkersOn_accounted : forall opts laws w,
    Accounted opts laws w (startWorkersOn opts w).
Proof.
  intros opts laws w. split; simpl; try lia.
  assert (E : countScraping (repeat Idle (concurrency opts)) = O).
  { unfold countScraping. induction (concurrency opts); simpl; auto. }
  rewrite E. lia.
Qed.

Lemma startWorkers_accounted : forall opts laws dir,
    Accounted opts laws (freshWorld dir) (startWorkers opts dir).
Proof. intros opts laws dir. exact (startWorkersOn_accounted opts laws (freshWorld dir)). Qed.

Lemma startWorkersOn_claimed : forall opts laws w, Claimed opts laws (startWorkersOn opts w).
Proof.
  intros opts laws w. split; simpl.
  - intros k l _ Hlt. lia.
  - apply Forall_forall. intros x Hx. apply repeat_spec in Hx. subst x. exact I.
  - apply repeat_length.
Qed.

(** Without a worker nothing happens. *)
Lemma runSchedule_no_worker : forall opts env batchId laws schedule s,
    workers s = [] -> runSchedule opts env batchId laws schedule s = s.
Proof.
  intros opts env batchId laws schedule.
  induction schedule as [|i schedule IH]; intros s Hs; simpl; [reflexivity|].
  unfold workerStep. rewrite Hs. destruct i; simpl; apply IH; exact Hs.
Qed.

(** What a call that is over has added to the counters, whatever state [w]
    the scraper was in when it began. *)
Lemma completed_call_counts : forall opts env batchId laws schedule w,
    let s := runSchedule opts env batchId laws schedule (startWorkersOn opts w) in
    allDone s = true ->
    (concurrency opts = O -> world s = w) /\
    ((1 <= concurrency opts)%nat ->
     (successful (stats (world s)) + failed (stats (world s)) + skipped (stats (world s))
      = length laws + successful (stats w) + failed (stats w) + skipped (stats w))%nat).
Proof.
  intros opts env batchId laws schedule w s Hd.
  destruct (runSchedule_accounted opts env batchId laws w schedule _
              (startWorkersOn_accounted opts laws w)) as [Hp Hf Hi Hg Hb].
  pose proof (runSchedule_claimed opts env batchId laws schedule _
                (startWorkersOn_claimed opts laws w)) as [Ha Hw Hpool].
  fold s in Hp, Hf, Hi, Hg, Hb, Ha, Hw, Hpool.
  split.
  - intros Hc.
    assert (Es : s = startWorkersOn opts w).
    { unfold s. apply runSchedule_no_worker. simpl. rewrite Hc. reflexivity. }
    rewrite Es. reflexivity.
  - intros Hc.
    assert (Hidx : (length laws <= index s)%nat).
    { exact (allDone_index _ s ltac:(lia) Hd Hw). }
    unfold allDone in Hd. apply countScraping_done in Hd. lia.
Qed.

Lemma completed_run_counts : forall opts env batchId laws schedule dir,
    allDone (processLawsWithConcurrency opts env batchId laws schedule dir) = true ->
    let s := processLawsWithConcurrency opts env batchId laws schedule dir in
    (concurrency opts = O ->
     successful (stats (world s)) = O /\ failed (stats (world s)) = O /\
     skipped (stats (world s)) = O /\ world s = freshWorld dir) /\
    ((1 <= concurrency opts)%nat ->
     (successful (stats (world s)) + failed (stats (world s)) + skipped (stats (world s))
      = length laws)%nat).
Proof.
  intros opts env batchId laws schedule dir Hd s.
  destruct (completed_call_counts opts env batchId laws schedule (freshWorld dir) Hd)
    as [H0 H1].
  change (runSchedule opts env batchId laws schedule (startWorkersOn opts (freshWorld dir)))
    with s in H0, H1.
  split.
  - intros Hc. rewrite (H0 Hc). simpl. auto.
  - intros Hc. specialize (H1 Hc). simpl in H1. lia.
Qed.

Lemma filter_length_le_all : forall {A} (p : A -> bool) l,
    (length (filter p l) <= length l)%nat.
Proof.
  induction l as [|x l IH]; simpl; [lia|]. destruct (p x); simpl; lia.
Qed.

(** X11: a call of [scrapeLawsBatch] that returns, on a scraper in any
    state [w0] (a new object, or one that earlier calls have used), was
    given a worklist that is not empty; [total] counts the laws
    [validateInputLaw] accepts; the summary reports the counters of the
    object, which only grow; during the call [logFailedLaw] was called once
    per law it counted as failed, and [processed] grew by what [successful]
    and [failed] grew by.  With at least one worker every accepted law is
    counted exactly once, as successful, failed or skipped, whatever the
    interleaving of the workers and the answers of the site: the three
    counters grow by [total] together, so that they add up to [total] on a
    new object and to more on an object used before.  With [concurrency] 0
    the call returns with the state as it was. *)
Theorem X11_scrapeLawsBatch_counts_every_valid_law :
  forall opts env batchId laws schedule w0 summary w,
    scrapeLawsBatch opts env batchId laws schedule w0 = Some (summary, w) ->
    laws <> [] /\
    summaryBatchId summary = batchId /\
    total summary = length (filter validateInputLaw laws) /\
    (total summary <= length laws)%nat /\
    summarySuccessful summary = successful (stats w) /\
    summaryFailed summary = failed (stats w) /\
    summarySkipped summary = skipped (stats w) /\
    (successful (stats w0) <= successful (stats w))%nat /\
    (failed (stats w0) <= failed (stats w))%nat /\
    (skipped (stats w0) <= skipped (stats w))%nat /\
    (length (failures w) - length (failures w0) = failed (stats w) - failed (stats w0))%nat /\
    (processed (stats w) - processed (stats w0)
     = (successful (stats w) - successful (stats w0))
       + (failed (stats w) - failed (stats w0)))%nat /\
    ((1 <= concurrency opts)%nat ->
     (summarySuccessful summary + summaryFailed summary + summarySkipped summary
      = total summary
        + (successful (stats w0) + failed (stats w0) + skipped (stats w0)))%nat) /\
    ((1 <= concurrency opts)%nat -> stats w0 = mkStats 0 0 0 0 ->
     (summarySuccessful summary + summaryFailed summary + summarySkipped summary
      = total summary)%nat) /\
    (concurrency opts = O ->
     stats w = stats w0 /\ files w = files w0 /\ failures w = failures w0).
Proof.
  intros opts env batchId laws schedule w0 summary w H.
  unfold scrapeLawsBatch in H.
  destruct laws as [|law0 laws0]; [discriminate|].
  set (laws := law0 :: laws0) in *.
  set (validLaws := filter validateInputLaw laws) in *.
  destruct (allDone (runSchedule opts env batchId validLaws schedule (startWorkersOn opts w0)))
    eqn:Hd; [|discriminate].
  inversion H; subst summary w; clear H.
  cbn [summaryBatchId total summarySuccessful summaryFailed summarySkipped
       emit stats failures files].
  destruct (completed_call_counts opts env batchId validLaws schedule w0 Hd) as [H0 H1].
  destruct (runSchedule_accounted opts env batchId validLaws w0 schedule _
              (startWorkersOn_accounted opts validLaws w0)) as [Hp Hf _ (Hg1 & Hg2 & Hg3) _].
  split; [discriminate|]. split; [reflexivity|]. split; [reflexivity|].
  split; [apply filter_length_le_all|].
  split; [reflexivity|]. split; [reflexivity|]. split; [reflexivity|].
  split; [exact Hg1|]. split; [exact Hg2|]. split; [exact Hg3|].
  split; [lia|]. split; [lia|].
  split; [intros Hc; specialize (H1 Hc); lia|].
  split; [intros Hc Hz; specialize (H1 Hc); rewrite Hz in H1; simpl in H1; lia|].
  intros Hc. rewrite (H0 Hc). repeat split.
Qed.

(** X11 at the second call on one scraper object: the first call scraped
    two laws, the second is given the same two laws and skips them; its
    summary reports 2 successful and 2 skipped of a total of 2. *)
Lemma X11_witness_second_call :
  Spec.twoLaws <> [] /\
  summaryBatchId (mkSummary Spec.batchId 2 2 0 2) = Spec.batchId /\
  total (mkSummary Spec.batchId 2 2 0 2) = length (filter validateInputLaw Spec.twoLaws) /\
  (total (mkSummary Spec.batchId 2 2 0 2) <= length Spec.twoLaws)%nat /\
  summarySuccessful (mkSummary Spec.batchId 2 2 0 2) = successful (stats (emit (Progress (mkStats 2 2 0 2))
         (world (runSchedule Spec.threeRetries (fun _ => Spec.alwaysSucceeds) Spec.batchId
                   (filter validateInputLaw Spec.twoLaws) [O; O; O]
                   (startWorkersOn Spec.threeRetries
                      (world (processLawsWithConcurrency Spec.threeRetries (fun _ => Spec.alwaysSucceeds)
                Spec.batchId Spec.twoLaws [O; O; O; O; O] []))))))) /\
  summaryFailed (mkSummary Spec.batchId 2 2 0 2) = failed (stats (emit (Progress (mkStats 2 2 0 2))
         (world (runSchedule Spec.threeRetries (fun _ => Spec.alwaysSucceeds) Spec.batchId
                   (filter validateInputLaw Spec.twoLaws) [O; O; O]
                   (startWorkersOn Spec.threeRetries
                      (world (processLawsWithConcurrency Spec.threeRetries (fun _ => Spec.alwaysSucceeds)
                Spec.batchId Spec.twoLaws [O; O; O; O; O] []))))))) /\
  summarySkipped (mkSummary Spec.batchId 2 2 0 2) = skipped (stats (emit (Progress (mkStats 2 2 0 2))
         (world (runSchedule Spec.threeRetries (fun _ => Spec.alwaysSucceeds) Spec.batchId
                   (filter validateInputLaw Spec.twoLaws) [O; O; O]
                   (startWorkersOn Spec.threeRetries
                      (world (processLawsWithConcurrency Spec.threeRetries (fun _ => Spec.alwaysSucceeds)
                Spec.batchId Spec.twoLaws [O; O; O; O; O] []))))))) /\
  (successful (stats (world (processLawsWithConcurrency Spec.threeRetries (fun _ => Spec.alwaysSucceeds)
                Spec.batchId Spec.twoLaws [O; O; O; O; O] []))) <= successful (stats (emit (Progress (mkStats 2 2 0 2))
         (world (runSchedule Spec.threeRetries (fun _ => Spec.alwaysSucceeds) Spec.batchId
                   (filter validateInputLaw Spec.twoLaws) [O; O; O]
                   (startWorkersOn Spec.threeRetries
                      (world (processLawsWithConcurrency Spec.threeRetries (fun _ => Spec.alwaysSucceeds)
                Spec.batchId Spec.twoLaws [O; O; O; O; O] []))))))))%nat /\
  (failed (stats (world (processLawsWithConcurrency Spec.threeRetries (fun _ => Spec.alwaysSucceeds)
                Spec.batchId Spec.twoLaws [O; O; O; O; O] []))) <= failed (stats (emit (Progress (mkStats 2 2 0 2))
         (world (runSchedule Spec.threeRetries (fun _ => Spec.alwaysSucceeds) Spec.batchId
                   (filter validateInputLaw Spec.twoLaws) [O; O; O]
                   (startWorkersOn Spec.threeRetries
                      (world (processLawsWithConcurrency Spec.threeRetries (fun _ => Spec.alwaysSucceeds)
                Spec.batchId Spec.twoLaws [O; O; O; O; O] []))))))))%nat /\
  (skipped (stats (world (processLawsWithConcurrency Spec.threeRetries (fun _ => Spec.alwaysSucceeds)
                Spec.batchId Spec.twoLaws [O; O; O; O; O] []))) <= skipped (stats (emit (Progress (mkStats 2 2 0 2))
         (world (runSchedule Spec.threeRetries (fun _ => Spec.alwaysSucceeds) Spec.batchId
                   (filter validateInputLaw Spec.twoLaws) [O; O; O]
                   (startWorkersOn Spec.threeRetries
                      (world (processLawsWithConcurrency Spec.threeRetries (fun _ => Spec.alwaysSucceeds)
                Spec.batchId Spec.twoLaws [O; O; O; O; O] []))))))))%nat /\
  (length (failures (emit (Progress (mkStats 2 2 0 2))
         (world (runSchedule Spec.threeRetries (fun _ => Spec.alwaysSucceeds) Spec.batchId
                   (filter validateInputLaw Spec.twoLaws) [O; O; O]
                   (startWorkersOn Spec.threeRetries
                      (world (processLawsWithConcurrency Spec.threeRetries (fun _ => Spec.alwaysSucceeds)
                Spec.batchId Spec.twoLaws [O; O; O; O; O] []))))))) - length (failures (world (processLawsWithConcurrency Spec.threeRetries (fun _ => Spec.alwaysSucceeds)
                Spec.batchId Spec.twoLaws [O; O; O; O; O] []))) = failed (stats (emit (Progress (mkStats 2 2 0 2))
         (world (runSchedule Spec.threeRetries (fun _ => Spec.alwaysSucceeds) Spec.batchId
                   (filter validateInputLaw Spec.twoLaws) [O; O; O]
                   (startWorkersOn Spec.threeRetries
                      (world (processLawsWithConcurrency Spec.threeRetries (fun _ => Spec.alwaysSucceeds)
                Spec.batchId Spec.twoLaws [O; O; O; O; O] []))))))) - failed (stats (world (processLawsWithConcurrency Spec.threeRetries (fun _ => Spec.alwaysSucceeds)
                Spec.batchId Spec.twoLaws [O; O; O; O; O] []))))%nat /\
  (processed (stats (emit (Progress (mkStats 2 2 0 2))
         (world (runSchedule Spec.threeRetries (fun _ => Spec.alwaysSucceeds) Spec.batchId
                   (filter validateInputLaw Spec.twoLaws) [O; O; O]
                   (startWorkersOn Spec.threeRetries
                      (world (processLawsWithConcurrency Spec.threeRetries (fun _ => Spec.alwaysSucceeds)
                Spec.batchId Spec.twoLaws [O; O; O; O; O] []))))))) - processed (stats (world (processLawsWithConcurrency Spec.threeRetries (fun _ => Spec.alwaysSucceeds)
                Spec.batchId Spec.twoLaws [O; O; O; O; O] [])))
   = (successful (stats (emit (Progress (mkStats 2 2 0 2))
         (world (runSchedule Spec.threeRetries (fun _ => Spec.alwaysSucceeds) Spec.batchId
                   (filter validateInputLaw Spec.twoLaws) [O; O; O]
                   (startWorkersOn Spec.threeRetries
                      (world (processLawsWithConcurrency Spec.threeRetries (fun _ => Spec.alwaysSucceeds)
                Spec.batchId Spec.twoLaws [O; O; O; O; O] []))))))) - successful (stats (world (processLawsWithConcurrency Spec.threeRetries (fun _ => Spec.alwaysSucceeds)
                Spec.batchId Spec.twoLaws [O; O; O; O; O] []))))
     + (failed (stats (emit (Progress (mkStats 2 2 0 2))
         (world (runSchedule Spec.threeRetries (fun _ => Spec.alwaysSucceeds) Spec.batchId
                   (filter validateInputLaw Spec.twoLaws) [O; O; O]
                   (startWorkersOn Spec.threeRetries
                      (world (processLawsWithConcurrency Spec.threeRetries (fun _ => Spec.alwaysSucceeds)
                Spec.batchId Spec.twoLaws [O; O; O; O; O] []))))))) - failed (stats (world (processLawsWithConcurrency Spec.threeRetries (fun _ => Spec.alwaysSucceeds)
                Spec.batchId Spec.twoLaws [O; O; O; O; O] [])))))%nat /\
  ((1 <= concurrency Spec.threeRetries)%nat ->
   (summarySuccessful (mkSummary Spec.batchId 2 2 0 2) + summaryFailed (mkSummary Spec.batchId 2 2 0 2) + summarySkipped (mkSummary Spec.batchId 2 2 0 2)
    = total (mkSummary Spec.batchId 2 2 0 2)
      + (successful (stats (world (processLawsWithConcurrency Spec.threeRetries (fun _ => Spec.alwaysSucceeds)
                Spec.batchId Spec.twoLaws [O; O; O; O; O] []))) + failed (stats (world (processLawsWithConcurrency Spec.threeRetries (fun _ => Spec.alwaysSucceeds)
                Spec.batchId Spec.twoLaws [O; O; O; O; O] []))) + skipped (stats (world (processLawsWithConcurrency Spec.threeRetries (fun _ => Spec.alwaysSucceeds)
                Spec.batchId Spec.twoLaws [O; O; O; O; O] [])))))%nat) /\
  ((1 <= concurrency Spec.threeRetries)%nat -> stats (world (processLawsWithConcurrency Spec.threeRetries (fun _ => Spec.alwaysSucceeds)
                Spec.batchId Spec.twoLaws [O; O; O; O; O] [])) = mkStats 0 0 0 0 ->
   (summarySuccessful (mkSummary Spec.batchId 2 2 0 2) + summaryFailed (mkSummary Spec.batchId 2 2 0 2) + summarySkipped (mkSummary Spec.batchId 2 2 0 2) = total (mkSummary Spec.batchId 2 2 0 2))%nat) /\
  (concurrency Spec.threeRetries = O ->
   stats (emit (Progress (mkStats 2 2 0 2))
         (world (runSchedule Spec.threeRetries (fun _ => Spec.alwaysSucceeds) Spec.batchId
                   (filter validateInputLaw Spec.twoLaws) [O; O; O]
                   (startWorkersOn Spec.threeRetries
                      (world (processLawsWithConcurrency Spec.threeRetries (fun _ => Spec.alwaysSucceeds)
                Spec.batchId Spec.twoLaws [O; O; O; O; O] [])))))) = stats (world (processLawsWithConcurrency Spec.threeRetries (fun _ => Spec.alwaysSucceeds)
                Spec.batchId Spec.twoLaws [O; O; O; O; O] [])) /\ files (emit (Progress (mkStats 2 2 0 2))
         (world (runSchedule Spec.threeRetries (fun _ => Spec.alwaysSucceeds) Spec.batchId
                   (filter validateInputLaw Spec.twoLaws) [O; O; O]
                   (startWorkersOn Spec.threeRetries
                      (world (processLawsWithConcurrency Spec.threeRetries (fun _ => Spec.alwaysSucceeds)
                Spec.batchId Spec.twoLaws [O; O; O; O; O] [])))))) = files (world (processLawsWithConcurrency Spec.threeRetries (fun _ => Spec.alwaysSucceeds)
                Spec.batchId Spec.twoLaws [O; O; O; O; O] [])) /\ failures (emit (Progress (mkStats 2 2 0 2))
         (world (runSchedule Spec.threeRetries (fun _ => Spec.alwaysSucceeds) Spec.batchId
                   (filter validateInputLaw Spec.twoLaws) [O; O; O]
                   (startWorkersOn Spec.threeRetries
                      (world (processLawsWithConcurrency Spec.threeRetries (fun _ => Spec.alwaysSucceeds)
                Spec.batchId Spec.twoLaws [O; O; O; O; O] [])))))) = failures (world (processLawsWithConcurrency Spec.threeRetries (fun _ => Spec.alwaysSucceeds)
                Spec.batchId Spec.twoLaws [O; O; O; O; O] []))).
Proof.
  apply (X11_scrapeLawsBatch_counts_every_valid_law Spec.threeRetries
           (fun _ => Spec.alwaysSucceeds) Spec.batchId Spec.twoLaws [O; O; O]
           (world (processLawsWithConcurrency Spec.threeRetries (fun _ => Spec.alwaysSucceeds)
                       Spec.batchId Spec.twoLaws [O; O; O; O; O] []))).
  vm_compute. reflexivity.
Defined.

(** ** What a run writes and logs *)

Lemma In_writeFile_name : forall n c name content d,
    In (n, c) (writeFile name content d) -> (n = name /\ c = content) \/ In (n, c) d.
Proof.
  intros n c name content d. induction d as [|(m, x) d IH]; simpl; intros H.
  - destruct H as [H|[]]. inversion H. left. split; reflexivity.
  - destruct (JS.eqb m name) eqn:E; simpl in H.
    + apply eqb_eq in E. destruct H as [H|H]; [|right; right; exact H].
      inversion H; subst. left. split; reflexivity.
    + destruct H as [H|H]; [right; left; exact H|].
      destruct (IH H) as [F|F]; [left; exact F|right; right; exact F].
Qed.

Lemma In_writeFile_other : forall n c name content d,
    In (n, c) d -> n <> name -> In (n, c) (writeFile name content d).
Proof.
  intros n c name content d Hin Hne. induction d as [|(m, x) d IH]; simpl; [destruct Hin|].
  destruct (JS.eqb m name) eqn:E.
  - apply eqb_eq in E. destruct Hin as [Hin|Hin]; [|right; exact Hin].
    inversion Hin; subst. contradiction.
  - destruct Hin as [Hin|Hin]; [left; exact Hin|right; exact (IH Hin)].
Qed.

Lemma saved_in_extension : forall T1 T2 T3 name r name' r',
    Forall (fun e => isRetryStep e = true) T2 ->
    Forall (fun e => isBookkeeping e = true) T3 ->
    In (Saved name r) (((T1 ++ T2 ++ [Saved name' r']) ++ T3)) ->
    In (Saved name r) T1 \/ (name = name' /\ r = r').
Proof.
  intros T1 T2 T3 name r name' r' H2 H3 Hin.
  rewrite Forall_forall in H2, H3.
  apply in_app_or in Hin. destruct Hin as [Hin|Hin]; [|apply H3 in Hin; discriminate Hin].
  apply in_app_or in Hin. destruct Hin as [Hin|Hin]; [left; exact Hin|].
  apply in_app_or in Hin. destruct Hin as [Hin|Hin]; [apply H2 in Hin; discriminate Hin|].
  destruct Hin as [Hin|[]]. inversion Hin; subst. right. split; reflexivity.
Qed.

Lemma saved_in_quiet_extension : forall T1 T2 T3 e name r,
    Forall (fun e => isRetryStep e = true) T2 ->
    Forall (fun e => isBookkeeping e = true) T3 ->
    match e with Saved _ _ => False | _ => True end ->
    In (Saved name r) (((T1 ++ T2 ++ [e]) ++ T3)) ->
    In (Saved name r) T1.
Proof.
  intros T1 T2 T3 e name r H2 H3 He Hin.
  rewrite Forall_forall in H2, H3.
  apply in_app_or in Hin. destruct Hin as [Hin|Hin]; [|apply H3 in Hin; discriminate Hin].
  apply in_app_or in Hin. destruct Hin as [Hin|Hin]; [exact Hin|].
  apply in_app_or in Hin. destruct Hin as [Hin|Hin]; [apply H2 in Hin; discriminate Hin|].
  destruct Hin as [Hin|[]]. subst e. destruct He.
Qed.

Lemma In_setWorker_inv : forall i x l y, In y (setWorker i x l) -> y = x \/ In y l.
Proof.
  intros i x l. revert i. induction l as [|a l IH]; intros [|i] y Hin; simpl in *;
    try contradiction.
  - destruct Hin as [Hin|Hin]; [left; symmetry; exact Hin|right; right; exact Hin].
  - destruct Hin as [Hin|Hin]; [right; left; exact Hin|].
    destruct (IH _ _ Hin) as [E|E]; [left; exact E|right; right; exact E].
Qed.

Lemma In_existsSync : forall name content d, In (name, content) d -> existsSync name d = true.
Proof.
  intros name content d Hin. unfold existsSync. apply existsb_exists.
  exists (name, content). split; [exact Hin|apply eqb_refl].
Qed.

Lemma workerStep_faithful : forall opts env batchId laws dir i s s',
    Claimed opts laws s ->
    Faithful opts batchId laws dir s ->
    workerStep opts env batchId laws i s = Some s' ->
    Faithful opts batchId laws dir s'.
Proof.
  intros opts env batchId laws dir i s s' [_ Hcw _] [Hs Hf Hd Hk He Hfr] H.
  unfold workerStep in H.
  destruct (nth_error (workers s) i) as [[|currentIndex lawc|]|] eqn:Hn; try discriminate.
  - destruct (nth_error laws (index s)) as [law|] eqn:Hl.
    + destruct (existsSync (outputFile law) (files (world s))) eqn:Hex;
        inversion H; subst s'; clear H.
      * destruct (afterItem_effect opts (length laws) (index s) (skip law (world s)))
          as (T & HT & E).
        split; cbn [world workers]; rewrite ?E; cbn [files failures trace skip];
          try assumption.
        intros name r Hin. apply Hs.
        apply (saved_in_quiet_extension _ [] T (Skipped (outputFile law)));
          [constructor|exact HT|exact I|exact Hin].
      * split; cbn [world workers]; try assumption.
        intros k law0 Hin.
        destruct (In_setWorker_inv _ _ _ _ Hin) as [Hin'|Hin'].
        -- assert (El : law0 = law) by congruence. rewrite El.
           destruct (existsSync (outputFile law) dir) eqn:Hdir; [|reflexivity].
           apply He in Hdir. congruence.
        -- exact (Hfr _ _ Hin').
    + inversion H; subst s'; clear H. split; cbn [world workers]; try assumption.
      intros k law0 Hin.
      destruct (In_setWorker_inv _ _ _ _ Hin) as [Hin'|Hin'];
        [discriminate Hin'|exact (Hfr _ _ Hin')].
  - assert (Hlaw : In lawc laws).
    { rewrite Forall_forall in Hcw. pose proof (nth_error_In _ _ Hn) as Hin.
      apply Hcw in Hin. exact (nth_error_In _ _ Hin). }
    assert (Hnew : existsSync (outputFile lawc) dir = false).
    { exact (Hfr _ _ (nth_error_In _ _ Hn)). }
    assert (Hfr' : forall k law,
               In (Scraping k law) (setWorker i Idle (workers s)) ->
               existsSync (outputFile law) dir = false).
    { intros k law0 Hin.
      destruct (In_setWorker_inv _ _ _ _ Hin) as [Hin'|Hin'];
        [discriminate Hin'|exact (Hfr _ _ Hin')]. }
    inversion H; subst s'; clear H.
    match goal with
    | |- context [afterItem opts ?t ?c ?w] =>
        destruct (afterItem_effect opts t c w) as (T & HT & E)
    end.
    destruct (retryLoop_details opts (env currentIndex) lawc batchId (maxRetries opts) 1
                None 0 (world s)) as [(r & T' & Hr & HT' & E')|(f & T' & Hfl & HT' & E')];
      try lia;
      split; cbn [world workers]; rewrite ?E, ?E'; cbn [files failures trace];
        try exact Hfr'.
    + intros name r0 Hin.
      destruct (saved_in_extension _ _ _ _ _ _ _ HT' HT Hin) as [Hold|[-> ->]];
        [exact (Hs _ _ Hold)|].
      exists lawc. repeat split; try assumption; apply Hr.
    + exact Hf.
    + intros name content Hin. apply In_writeFile_name in Hin.
      destruct Hin as [[-> ->]|Hin]; [|exact (Hd _ _ Hin)].
      right. exists lawc, r. repeat split; try assumption; apply Hr.
    + intros name content Hin. apply In_writeFile_other; [exact (Hk _ _ Hin)|].
      intros Heq. subst name. apply In_existsSync in Hin. congruence.
    + intros name Hex. apply existsSync_writeFile_mono. exact (He _ Hex).
    + intros name r0 Hin. apply Hs.
      apply (saved_in_quiet_extension _ T' T (Failure f));
        [exact HT'|exact HT|exact I|exact Hin].
    + intros f0 Hin. apply in_app_or in Hin. destruct Hin as [Hin|[<-|[]]];
        [exact (Hf _ Hin)|]. exists lawc. split; assumption.
    + exact Hd.
    + exact Hk.
    + exact He.
Qed.

Lemma runSchedule_faithful : forall opts env batchId laws dir schedule s,
    Claimed opts laws s ->
    Faithful opts batchId laws dir s ->
    Faithful opts batchId laws dir (runSchedule opts env batchId laws schedule s).
Proof.
  intros opts env batchId laws dir schedule.
  induction schedule as [|i schedule IH]; intros s Hc Hs; simpl; [exact Hs|].
  destruct (workerStep opts env batchId laws i s) as [s'|] eqn:E.
  - apply IH; [exact (workerStep_claimed _ _ _ _ _ _ _ Hc E)
              |exact (workerStep_faithful _ _ _ _ _ _ _ _ Hc Hs E)].
  - apply IH; assumption.
Qed.

Lemma startWorkers_faithful : forall opts batchId laws dir,
    Faithful opts batchId laws dir (startWorkers opts dir).
Proof.
  intros opts batchId laws dir. split; simpl; intros; try contradiction; auto.
  match goal with H : In _ (repeat _ _) |- _ => apply repeat_spec in H; discriminate H end.
Qed.

Lemma run_faithful : forall opts env batchId laws schedule dir,
    Faithful opts batchId laws dir
      (processLawsWithConcurrency opts env batchId laws schedule dir).
Proof.
  intros. unfold processLawsWithConcurrency.
  apply runSchedule_faithful; [apply startWorkers_claimed|apply startWorkers_faithful].
Qed.

(** X12: at every point of every run, whatever the interleaving of the
    workers and the answers of the site, a file of the output directory is a
    file the directory held at the start, or the record of a law of the
    worklist under that law's file name: title, date and link copied from
    the law, the id taken from the link, [isComplete] set, no error, fewer
    retries than [maxRetries], and a text of more than 50 and at most
    [maxTextLength] + 12 units whose length is [textLength]. *)
Theorem X12_written_files_are_records_of_worklist_laws :
  forall opts env batchId laws schedule dir name content,
    In (name, content)
       (files (world (processLawsWithConcurrency opts env batchId laws schedule dir))) ->
    In (name, content) dir \/
    exists law r,
      In law laws /\ name = outputFile law /\ content = RecordFile r /\
      recordOf opts law r.
Proof.
  intros opts env batchId laws schedule dir name content Hin.
  exact (faithful_files _ _ _ _ _ (run_faithful opts env batchId laws schedule dir) _ _ Hin).
Qed.

(** X12 at the first file of a run over two laws and a site that answers. *)
Lemma X12_witness_first_file :
  In (outputFile (Spec.numberedLaw 1),
      snd (hd ([], CorruptFile)
             (files (world (processLawsWithConcurrency Spec.threeRetries
                              (fun _ => Spec.alwaysSucceeds) Spec.batchId Spec.twoLaws
                              [O; O; O; O; O] []))))) [] \/
  exists law r,
    In law Spec.twoLaws /\ outputFile (Spec.numberedLaw 1) = outputFile law /\
    snd (hd ([], CorruptFile)
           (files (world (processLawsWithConcurrency Spec.threeRetries
                            (fun _ => Spec.alwaysSucceeds) Spec.batchId Spec.twoLaws
                            [O; O; O; O; O] [])))) = RecordFile r /\
    recordOf Spec.threeRetries law r.
Proof.
  apply (X12_written_files_are_records_of_worklist_laws Spec.threeRetries
           (fun _ => Spec.alwaysSucceeds) Spec.batchId Spec.twoLaws [O; O; O; O; O] []).
  vm_compute. left. reflexivity.
Defined.

(** X13: every entry handed to [logFailedLaw] in a run belongs to a law of
    the worklist: it carries that law's id, link and title and the batch id
    of the run, its [retryCount] is [maxRetries], and its error message is
    not empty. *)
Theorem X13_failure_entries_belong_to_worklist_laws :
  forall opts env batchId laws schedule dir f,
    In f (failures (world (processLawsWithConcurrency opts env batchId laws schedule dir))) ->
    exists law, In law laws /\ failureOf opts batchId law f.
Proof.
  intros opts env batchId laws schedule dir f Hin.
  exact (faithful_failures _ _ _ _ _ (run_faithful opts env batchId laws schedule dir) _ Hin).
Qed.

(** X13 at the entry of the first law of a run in which every attempt times
    out. *)
Lemma X13_witness_timeout_entry :
  exists law,
    In law Spec.twoLaws /\
    failureOf Spec.threeRetries Spec.batchId law
      (createFailedLaw 1900 (Spec.numberedLaw 1) (js "Timeout 30000ms exceeded") 3
         Spec.batchId).
Proof.
  apply (X13_failure_entries_belong_to_worklist_laws Spec.threeRetries
           (fun _ => Spec.alwaysTimesOut) Spec.batchId Spec.twoLaws [O; O; O; O; O] []).
  vm_compute. left. reflexivity.
Defined.

(** X14: a run never removes or rewrites a file that was in the output
    directory when it started: a law whose output file is there is skipped,
    and [saveLawToFile] only writes the files of laws that had none.  (The
    progress file and the failure log lie outside the directory, as their
    default paths do.) *)
Theorem X14_files_present_at_the_start_are_kept :
  forall opts env batchId laws schedule dir name content,
    In (name, content) dir ->
    In (name, content)
       (files (world (processLawsWithConcurrency opts env batchId laws schedule dir))).
Proof.
  intros opts env batchId laws schedule dir name content Hin.
  exact (faithful_kept _ _ _ _ _ (run_faithful opts env batchId laws schedule dir) _ _ Hin).
Qed.

(** X14 at a directory that holds an unreadable file under the name of the
    first law's output. *)
Lemma X14_witness_corrupt_file_is_kept :
  In (outputFile (Spec.numberedLaw 1), CorruptFile)
     (files (world (processLawsWithConcurrency Spec.threeRetries
                      (fun _ => Spec.alwaysSucceeds) Spec.batchId Spec.twoLaws
                      [O; O; O; O; O] [(outputFile (Spec.numberedLaw 1), CorruptFile)]))).
Proof.
  apply (X14_files_present_at_the_start_are_kept Spec.threeRetries
           (fun _ => Spec.alwaysSucceeds) Spec.batchId Spec.twoLaws [O; O; O; O; O]
           [(outputFile (Spec.numberedLaw 1), CorruptFile)]).
  simpl. left. reflexivity.
Defined.

(** ** From the scraper to the aggregator *)

Lemma outputFile_is_json : forall law, endsWith (js ".json") (outputFile law) = true.
Proof.
  intros law. unfold outputFile. destruct (extractLawId (link law)) as [lawId|].
  - apply endsWith_app.
  - vm_compute. reflexivity.
Qed.

Lemma run_keeps_scraperOutput : forall opts env batchId laws schedule dir,
    scraperOutput dir ->
    scraperOutput (files (world (processLawsWithConcurrency opts env batchId laws schedule dir))).
Proof.
  intros opts env batchId laws schedule dir Hdir name content Hin.
  destruct (faithful_files _ _ _ _ _ (run_faithful opts env batchId laws schedule dir) _ _ Hin)
    as [Hold|(law & r & _ & -> & -> & Hr)]; [exact (Hdir _ _ Hold)|].
  split; [apply outputFile_is_json|].
  exists r. split; [reflexivity|]. split; [apply Hr|].
  destruct Hr. lia.
Qed.

Lemma lawFiles_scraperOutput : forall d, scraperOutput d -> lawFiles d = d.
Proof.
  unfold lawFiles. induction d as [|(name, content) d IH]; intros H; [reflexivity|].
  simpl. destruct (H name content (or_introl eq_refl)) as [Hjson _]. rewrite Hjson.
  f_equal. apply IH. intros n c Hin. apply (H n c). right. exact Hin.
Qed.

Lemma processFiles_all_successful : forall contents acc stats,
    Forall (fun c => exists r, c = RecordFile r /\ ScrapedLaw.isComplete r = true /\
                               (50 < ScrapedLaw.textLength r)%nat) contents ->
    exists stats',
      fold_left processFile contents (acc, stats)
      = (acc ++ AggregatorAux.parsedValues contents, stats') /\
      ResultAggregator.total stats' = (ResultAggregator.total stats + length contents)%nat /\
      ResultAggregator.successful stats'
      = (ResultAggregator.successful stats + length contents)%nat /\
      withErrors stats' = withErrors stats /\
      length (AggregatorAux.parsedValues contents) = length contents /\
      existsb AggregatorAux.isNullValue (AggregatorAux.parsedValues contents) = false.
Proof.
  induction contents as [|c contents IH]; intros acc stats H.
  - exists stats. simpl. rewrite app_nil_r. repeat split; lia.
  - inversion H as [|c' cs' (r & -> & Hc & Hl) Hrest]; subst.
    cbn [fold_left processFile]. rewrite Hc.
    assert (E : (50 <? ScrapedLaw.textLength r)%nat = true) by (apply Nat.ltb_lt; exact Hl).
    rewrite E. cbn [andb].
    match goal with
    | |- context [fold_left processFile contents (?a, ?s)] =>
        destruct (IH a s Hrest) as (stats' & Hf & Ht & Hs & He & Hlen & Hnull)
    end.
    exists stats'. rewrite Hf, <- app_assoc. simpl in *. repeat split; try lia.
    exact Hnull.
Qed.

(** X15: the scraper and the aggregator agree on what a good record is.  If
    the output directory held only complete records in [*.json] files (or
    nothing) before a run, then after the run, however far it got, and with
    a failure log that is absent or holds an array, [aggregate] returns,
    reports no error, and counts every file of the directory as a
    successful law. *)
Theorem X15_aggregate_accepts_everything_the_scraper_saves :
  forall opts env batchId laws schedule dir log,
    scraperOutput dir ->
    AggregatorAux.logIsUsable log = true ->
    exists r,
      aggregate
        (Some (files (world (processLawsWithConcurrency opts env batchId laws schedule dir))))
        log = Some r /\
      errorLaws (metadata r) = O /\
      successfulLaws (metadata r)
      = length (files (world (processLawsWithConcurrency opts env batchId laws schedule dir)))
      /\
      totalScrapedLaws (metadata r) = successfulLaws (metadata r) /\
      length (scrapedLaws r) = successfulLaws (metadata r).
Proof.
  intros opts env batchId laws schedule dir log Hdir Hlog.
  pose proof (run_keeps_scraperOutput opts env batchId laws schedule dir Hdir) as Hout.
  set (d := files (world (processLawsWithConcurrency opts env batchId laws schedule dir)))
    in *.
  unfold aggregate. rewrite (lawFiles_scraperOutput d Hout).
  destruct (processFiles_all_successful (map snd d) [] initialStatistics)
    as (stats' & Hf & Ht & Hs & He & Hlen & Hnull).
  { apply Forall_forall. intros c Hc. apply in_map_iff in Hc.
    destruct Hc as ((name, content) & <- & Hin). exact (proj2 (Hout _ _ Hin)). }
  rewrite Hf. rewrite length_map in Ht, Hs, Hlen. simpl in Ht, Hs, He. simpl app.
  pose proof (sortByDate_spec (AggregatorAux.parsedValues (map snd d))) as Hsort.
  rewrite Hnull, andb_false_r in Hsort. destruct Hsort as (out & Hout' & Hperm).
  rewrite Hout'.
  destruct log as [| | |entries]; try discriminate Hlog;
    eexists; (split; [reflexivity|]);
    cbn [metadata scrapedLaws successfulLaws errorLaws totalScrapedLaws
         finishStatistics ResultAggregator.total ResultAggregator.successful withErrors];
    rewrite (Permutation_length Hperm), Hlen;
    repeat split; lia.
Qed.

(** X15 at a run over two laws that starts from an empty directory. *)
Lemma X15_witness_two_laws :
  exists r,
    aggregate
      (Some (files (world (processLawsWithConcurrency Spec.threeRetries
                             (fun _ => Spec.alwaysSucceeds) Spec.batchId Spec.twoLaws
                             [O; O; O; O; O] []))))
      NoLog = Some r /\
    errorLaws (metadata r) = O /\
    successfulLaws (metadata r)
    = length (files (world (processLawsWithConcurrency Spec.threeRetries
                              (fun _ => Spec.alwaysSucceeds) Spec.batchId Spec.twoLaws
                              [O; O; O; O; O] []))) /\
    totalScrapedLaws (metadata r) = successfulLaws (metadata r) /\
    length (scrapedLaws r) = successfulLaws (metadata r).
Proof.
  apply (X15_aggregate_accepts_everything_the_scraper_saves Spec.threeRetries
           (fun _ => Spec.alwaysSucceeds) Spec.batchId Spec.twoLaws [O; O; O; O; O] [] NoLog).
  - intros name content Hin. destruct Hin.
  - reflexivity.
Defined.

(** ** From the scraper to the validator *)

Lemma prefixBy_folded : forall m l rest,
    sameFolded m l ->
    prefixBy (map (fun c x => canonicalize x =? canonicalize c) l) (m ++ rest) = true.
Proof.
  unfold sameFolded. induction m as [|a m IH]; intros [|b l] rest H; simpl in *;
    try discriminate; [reflexivity|].
  inversion H as [[Hab Hml]]. rewrite Hab, Z.eqb_refl. simpl. apply IH. exact Hml.
Qed.

Lemma sameFolded_length : forall m l, sameFolded m l -> length m = length l.
Proof.
  unfold sameFolded. intros m l H. apply (f_equal (@length _)) in H.
  rewrite !length_map in H. exact H.
Qed.

(** A pattern that is a literal under the flag [i] is found in every text
    that holds the literal in some letter case. *)
Lemma test_liti_contains : forall str pre m post,
    sameFolded m (js str) ->
    test (liti str) (pre ++ m ++ post) = true.
Proof.
  intros str pre m post H. unfold test, exec.
  destruct (search_finds (liti str) pre (m ++ post) 0 (length pre + length (js str)))
    as (b & e & Hs & _).
  - unfold liti, unit_ci. rewrite <- map_map with (g := Unit). rewrite rmatch_units.
    rewrite (prefixBy_folded m (js str) post H). rewrite !length_map. reflexivity.
  - rewrite Hs. reflexivity.
Qed.

Lemma dropWhile_keeps_tail : forall {A} (p : A -> bool) y c m,
    p c = false -> exists pre, dropWhile p (y ++ c :: m) = pre ++ c :: m.
Proof.
  intros A p y c m Hc. induction y as [|a y IH]; simpl.
  - rewrite Hc. exists []. reflexivity.
  - destruct (p a); [exact IH|]. exists (a :: y). reflexivity.
Qed.

(** What [trim] leaves of a text that ends with the truncation marker still
    ends with ["[TRUNCATED]"]. *)
Lemma trim_keeps_marker : forall x,
    exists pre, trim (x ++ truncationMarker) = pre ++ js "[TRUNCATED]".
Proof.
  intros x.
  pose (body := removelast (tl (js "[TRUNCATED]"))).
  assert (Em : truncationMarker = [10] ++ 91 :: body ++ [93]) by (vm_compute; reflexivity).
  assert (Ej : js "[TRUNCATED]" = 91 :: body ++ [93]) by (vm_compute; reflexivity).
  clearbody body. rewrite Em, Ej, app_assoc.
  destruct (dropWhile_keeps_tail isWhiteSpace (x ++ [10]) 91 (body ++ [93]) eq_refl)
    as (pre & Hpre).
  exists pre. unfold trim, trimStart, trimEnd. rewrite Hpre.
  replace (pre ++ 91 :: body ++ [93]) with ((pre ++ 91 :: body) ++ [93])
    by (rewrite <- app_assoc; reflexivity).
  rewrite rev_app_distr. simpl rev at 1. rewrite rev_involutive. reflexivity.
Qed.

Lemma truncated_fullText : forall opts page,
    (maxTextLength opts < length (processLawText (bodyText page)))%nat ->
    exists pre,
      ScrapingData.fullText (extractLawContent opts page) = Some (pre ++ js "[TRUNCATED]").
Proof.
  intros opts page Hlen. cbn [extractLawContent ScrapingData.fullText].
  unfold cleanAndLimit. destruct (bodyText page) as [|b body] eqn:Hbody.
  - simpl in Hlen. lia.
  - apply Nat.ltb_lt in Hlen. rewrite Hlen.
    destruct (trim_keeps_marker
                (slice 0 (maxTextLength opts) (processLawText (b :: body)))) as (pre & E).
    exists pre. rewrite E. reflexivity.
Qed.

Lemma table_truncated : forall c,
    truncationFound c = true ->
    isValid (tableResult c) = false /\
    existsb (ValidatorRun.tagEqb truncated) (issues (tableResult c)) = true.
Proof.
  intros [b1 b2 b3 b4 b5 b6 b7 b8 b9] H. simpl in H. subst b6.
  destruct b1, b2, b3, b4, b5, b7, b8, b9; vm_compute; split; reflexivity.
Qed.

(** X16: the validator rejects every record that the scraper has truncated.
    When the text that [processLawText] returns is longer than
    [maxTextLength], the record made from the extraction, in whatever file
    it is kept, ends with the marker, is invalid for [validateLawText] and
    has the issue [truncated]. *)
Theorem X16_truncated_records_are_rejected_by_the_validator :
  forall opts page now law retryCount fileId,
    (maxTextLength opts < length (processLawText (bodyText page)))%nat ->
    let scrapingData := extractLawContent opts page in
    let scrapedLaw :=
      createScrapedLaw now law
        {| ScrapingData.actualTitle := ScrapingData.actualTitle scrapingData;
           ScrapingData.metadata := ScrapingData.metadata scrapingData;
           ScrapingData.fullText := ScrapingData.fullText scrapingData;
           ScrapingData.error := ScrapingData.error scrapingData;
           ScrapingData.retryCount := Some retryCount |} in
    let validation := validateLawText (ValidatorRun.lawDataOf fileId scrapedLaw) in
    endsWith (js "[TRUNCATED]") (ScrapedLaw.fullText scrapedLaw) = true /\
    isValid validation = false /\
    In truncated (issues validation).
Proof.
  intros opts page now law retryCount fileId Hlen scrapingData scrapedLaw validation.
  destruct (truncated_fullText opts page Hlen) as (pre & Hfull).
  assert (Htext : ScrapedLaw.fullText scrapedLaw = pre ++ js "[TRUNCATED]").
  { unfold scrapedLaw, scrapingData.
    cbn [createScrapedLaw ScrapedLaw.fullText ScrapingData.fullText]. rewrite Hfull.
    destruct pre; reflexivity. }
  split; [rewrite Htext; apply endsWith_app|].
  unfold validation. rewrite validateLawText_table. unfold tableOf, ValidatorRun.lawDataOf.
  cbn [LawData.fullText]. rewrite Htext.
  destruct (pre ++ js "[TRUNCATED]") as [|c text] eqn:E.
  { destruct pre; discriminate E. }
  rewrite <- E.
  destruct (table_truncated (conditionsOf (pre ++ js "[TRUNCATED]"))) as [Hv Hi].
  - cbn [conditionsOf truncationFound]. unfold truncationIndicators. cbn [existsb].
    rewrite <- (app_nil_r (js "[TRUNCATED]")) at 1.
    rewrite (test_liti_contains "[TRUNCATED]" pre (js "[TRUNCATED]") []); reflexivity.
  - split; [exact Hv|].
    apply existsb_exists in Hi. destruct Hi as (tag & Hin & Htag).
    destruct tag; try discriminate Htag. exact Hin.
Qed.

(** X16 at a limit of 5 units and a text of 8. *)
Lemma X16_witness_limit_five :
  let scrapingData := extractLawContent Spec.limitFive Spec.eightUnitPage in
  let scrapedLaw :=
    createScrapedLaw 1800 Spec.someLaw
      {| ScrapingData.actualTitle := ScrapingData.actualTitle scrapingData;
         ScrapingData.metadata := ScrapingData.metadata scrapingData;
         ScrapingData.fullText := ScrapingData.fullText scrapingData;
         ScrapingData.error := ScrapingData.error scrapingData;
         ScrapingData.retryCount := Some O |} in
  let validation := validateLawText (ValidatorRun.lawDataOf (js "163456") scrapedLaw) in
  endsWith (js "[TRUNCATED]") (ScrapedLaw.fullText scrapedLaw) = true /\
  isValid validation = false /\
  In truncated (issues validation).
Proof.
  apply (X16_truncated_records_are_rejected_by_the_validator Spec.limitFive
           Spec.eightUnitPage 1800 Spec.someLaw O (js "163456")).
  vm_compute. lia.
Defined.

(** ** validateAllLaws *)

(** What the counting of [validateAllLaws] relies on: a valid result has
    severity [none] or [low], a rejected one [medium] or more, and no issue
    is listed twice. *)
Lemma validation_facts : forall lawData,
    (if isValid (validateLawText lawData)
     then (rank (severity (validateLawText lawData)) <=? 1)%nat
     else (2 <=? rank (severity (validateLawText lawData)))%nat)
    && forallb (fun tag =>
                  (length (filter (fun t => ValidatorRun.tagEqb t tag)
                             (issues (validateLawText lawData))) <=? 1)%nat)
         [no_full_text; extremely_short; very_short; ends_with_table_data;
          suspicious_ending; truncated; encoding_issues; poor_structure; no_law_content]
    = true.
Proof. validator_table. Qed.

Lemma countOf_countIssue : forall tag t m,
    ValidatorRun.countOf tag (ValidatorRun.countIssue t m)
    = (ValidatorRun.countOf tag m + if ValidatorRun.tagEqb t tag then 1 else 0)%nat.
Proof.
  intros tag t m. induction m as [|(t', n) m IH]; simpl.
  - destruct (ValidatorRun.tagEqb t tag); reflexivity.
  - destruct (ValidatorRun.tagEqb t' t) eqn:E; simpl.
    + destruct t', t; try discriminate E; destruct tag; simpl; lia.
    + destruct (ValidatorRun.tagEqb t' tag) eqn:E'; [|exact IH].
      destruct t', t; try discriminate E; destruct tag; try discriminate E'; simpl; lia.
Qed.

Lemma countOf_fold : forall tag tags m,
    ValidatorRun.countOf tag (fold_left (fun m issue => ValidatorRun.countIssue issue m) tags m)
    = (ValidatorRun.countOf tag m
       + length (filter (fun t => ValidatorRun.tagEqb t tag) tags))%nat.
Proof.
  intros tag tags. induction tags as [|t tags IH]; intros m; simpl; [lia|].
  rewrite IH, countOf_countIssue. destruct (ValidatorRun.tagEqb t tag); simpl; lia.
Qed.

Lemma listsIssue_found : forall tag tags r,
    ValidatorRun.resultIssues r = map ValidatorRun.Found tags ->
    ValidatorRun.listsIssue tag r = existsb (fun t => ValidatorRun.tagEqb t tag) tags.
Proof.
  intros tag tags r H. unfold ValidatorRun.listsIssue. rewrite H. clear H.
  induction tags as [|t tags IH]; simpl; [reflexivity|]. rewrite IH. reflexivity.
Qed.

Lemma filter_at_most_once : forall {A} (p : A -> bool) l,
    (length (filter p l) <= 1)%nat ->
    length (filter p l) = if existsb p l then 1%nat else 0%nat.
Proof.
  intros A p l. induction l as [|x l IH]; simpl; [reflexivity|].
  destruct (p x); simpl; intros H.
  - lia.
  - apply IH. exact H.
Qed.

Lemma priorityList_snoc : forall s results r acc',
    ValidatorRun.detailedResults acc' = ValidatorRun.detailedResults results ++ [r] ->
    length (ValidatorRun.priorityList s acc')
    = (length (ValidatorRun.priorityList s results)
       + if (rank (ValidatorRun.resultSeverity r) =? rank s)%nat then 1 else 0)%nat.
Proof.
  intros s results r acc' H. unfold ValidatorRun.priorityList.
  rewrite H, filter_app, map_app, length_app. simpl.
  destruct (rank (ValidatorRun.resultSeverity r) =? rank s)%nat; reflexivity.
Qed.

Lemma filter_split_length : forall {A} (p : A -> bool) l,
    (length (filter p l) + length (filter (fun x => negb (p x)) l) = length l)%nat.
Proof.
  intros A p l. induction l as [|x l IH]; simpl; [reflexivity|].
  destruct (p x); simpl; lia.
Qed.

(** What the validation of [{ ...null, lawId }] gives. *)
Lemma validateLawText_no_text : forall lawId title,
    validateLawText {| LawData.fullText := None; LawData.lawId := lawId;
                       LawData.title := title |}
    = {| isValid := false; issues := [no_full_text]; severity := critical;
         recommendations := recommendations
                              (validateLawText {| LawData.fullText := None;
                                                  LawData.lawId := lawId;
                                                  LawData.title := title |}) |}.
Proof. reflexivity. Qed.

Lemma parseError_consistent : forall n lawId acc,
    ValidatorRun.Consistent n acc ->
    ValidatorRun.Consistent n (ValidatorRun.parseError lawId acc).
Proof.
  intros n lawId acc [Hd Hv Hc Hh Hm Hi Hl Hn Hcount].
  split; cbn [ValidatorRun.parseError ValidatorRun.detailedResults ValidatorRun.valid
              ValidatorRun.invalid ValidatorRun.bySeverity ValidatorRun.byIssueType
              ValidatorRun.countSeverity ValidatorRun.criticalCount ValidatorRun.highCount
              ValidatorRun.mediumCount ValidatorRun.lowCount ValidatorRun.noneIsNaN];
    try assumption.
  - rewrite length_app. simpl. lia.
  - rewrite filter_app, length_app. simpl. lia.
  - erewrite priorityList_snoc by reflexivity. simpl. lia.
  - erewrite priorityList_snoc by reflexivity. simpl. lia.
  - erewrite priorityList_snoc by reflexivity. simpl. lia.
  - lia.
  - intros tag. rewrite filter_app, length_app. simpl. rewrite Hcount. lia.
Qed.

(** A file that holds [null] is counted twice. *)
Lemma countedTwice_consistent : forall n lawId acc,
    ValidatorRun.Consistent n acc ->
    ValidatorRun.Consistent (S n)
      (ValidatorRun.parseError lawId
         {| ValidatorRun.total := ValidatorRun.total acc;
            ValidatorRun.valid := ValidatorRun.valid acc;
            ValidatorRun.invalid := S (ValidatorRun.invalid acc);
            ValidatorRun.bySeverity :=
              ValidatorRun.countSeverity critical (ValidatorRun.bySeverity acc);
            ValidatorRun.byIssueType :=
              ValidatorRun.countIssue no_full_text (ValidatorRun.byIssueType acc);
            ValidatorRun.detailedResults := ValidatorRun.detailedResults acc |}).
Proof.
  intros n lawId acc [Hd Hv Hc Hh Hm Hi Hl Hn Hcount].
  split; cbn [ValidatorRun.parseError ValidatorRun.detailedResults ValidatorRun.valid
              ValidatorRun.invalid ValidatorRun.bySeverity ValidatorRun.byIssueType
              ValidatorRun.countSeverity ValidatorRun.criticalCount ValidatorRun.highCount
              ValidatorRun.mediumCount ValidatorRun.lowCount ValidatorRun.noneIsNaN];
    try assumption.
  - rewrite length_app. simpl. lia.
  - rewrite filter_app, length_app. simpl. lia.
  - unfold ValidatorRun.priorityList in *.
    cbn [ValidatorRun.parseError ValidatorRun.detailedResults].
    rewrite filter_app, map_app, length_app. simpl in *. lia.
  - unfold ValidatorRun.priorityList in *.
    cbn [ValidatorRun.parseError ValidatorRun.detailedResults].
    rewrite filter_app, map_app, length_app. simpl in *. lia.
  - unfold ValidatorRun.priorityList in *.
    cbn [ValidatorRun.parseError ValidatorRun.detailedResults].
    rewrite filter_app, map_app, length_app. simpl in *. lia.
  - lia.
  - intros tag. rewrite countOf_countIssue, filter_app, length_app. simpl.
    rewrite Hcount. destruct tag; simpl; lia.
Qed.

Lemma validateFile_consistent : forall n acc entry,
    ValidatorRun.Consistent n acc ->
    ValidatorRun.Consistent (n + if ValidatorRun.isNull (snd entry) then 1 else 0)
      (ValidatorRun.validateFile acc entry).
Proof.
  intros n acc [file content] Hacc.
  unfold ValidatorRun.validateFile. cbn [fst snd].
  destruct content as [lawData| |]; cbn [ValidatorRun.isNull].
  - rewrite Nat.add_0_r. destruct Hacc as [Hd Hv Hc Hh Hm Hi Hl Hn Hcount].
    set (lawId := ValidatorRun.removeFirst (js ".json") file).
    pose proof (validation_facts (ValidatorRun.lawDataOf lawId lawData)) as Hf.
    set (v := validateLawText (ValidatorRun.lawDataOf lawId lawData)) in *.
    apply andb_true_iff in Hf. destruct Hf as [Hsev Honce].
    rewrite forallb_forall in Honce.
    destruct (isValid v) eqn:Hvalid.
    + apply Nat.leb_le in Hsev.
      split; cbn [ValidatorRun.detailedResults ValidatorRun.valid ValidatorRun.invalid
                  ValidatorRun.bySeverity ValidatorRun.byIssueType];
        try assumption.
      * rewrite length_app. simpl. lia.
      * rewrite filter_app, length_app. simpl. rewrite ?Hvalid. simpl. lia.
      * erewrite priorityList_snoc by reflexivity. simpl.
        destruct (severity v); simpl in *; try lia.
      * erewrite priorityList_snoc by reflexivity. simpl.
        destruct (severity v); simpl in *; try lia.
      * erewrite priorityList_snoc by reflexivity. simpl.
        destruct (severity v); simpl in *; try lia.
      * intros tag. rewrite filter_app, length_app. simpl. rewrite ?Hvalid. simpl.
        rewrite Hcount. lia.
    + apply Nat.leb_le in Hsev.
      split; cbn [ValidatorRun.detailedResults ValidatorRun.valid ValidatorRun.invalid
                  ValidatorRun.bySeverity ValidatorRun.byIssueType].
      * rewrite length_app. simpl. lia.
      * rewrite filter_app, length_app. simpl. rewrite ?Hvalid. simpl. lia.
      * erewrite priorityList_snoc by reflexivity. simpl.
        destruct (severity v); simpl in *; lia.
      * erewrite priorityList_snoc by reflexivity. simpl.
        destruct (severity v); simpl in *; lia.
      * erewrite priorityList_snoc by reflexivity. simpl.
        destruct (severity v); simpl in *; lia.
      * destruct (severity v); simpl in *; lia.
      * destruct (severity v); simpl in *; lia.
      * destruct (severity v); simpl in *; try lia; assumption.
      * intros tag. rewrite countOf_fold, Hcount, filter_app, length_app.
        cbn [filter ValidatorRun.resultIsValid]. rewrite ?Hvalid. cbn [negb andb].
        rewrite (listsIssue_found tag (issues v)) by reflexivity.
        assert (Hone : (length (filter (fun t => ValidatorRun.tagEqb t tag) (issues v))
                        <= 1)%nat).
        { apply Nat.leb_le. apply Honce. destruct tag; simpl; auto 12. }
        rewrite (filter_at_most_once _ _ Hone).
        destruct (existsb (fun t => ValidatorRun.tagEqb t tag) (issues v)); simpl; lia.
  - rewrite validateLawText_no_text. cbn [isValid severity issues fold_left].
    rewrite Nat.add_1_r. apply countedTwice_consistent. exact Hacc.
  - rewrite Nat.add_0_r. apply parseError_consistent. exact Hacc.
Qed.

Lemma validateFiles_consistent : forall entries n acc,
    ValidatorRun.Consistent n acc ->
    ValidatorRun.Consistent (n + length (filter ValidatorRun.isNull (map snd entries)))
      (fold_left ValidatorRun.validateFile entries acc) /\
    ValidatorRun.total (fold_left ValidatorRun.validateFile entries acc) = ValidatorRun.total acc /\
    length (ValidatorRun.detailedResults (fold_left ValidatorRun.validateFile entries acc))
    = (length (ValidatorRun.detailedResults acc) + length entries)%nat.
Proof.
  induction entries as [|entry entries IH]; intros n acc Hacc; cbn [fold_left map filter].
  - rewrite Nat.add_0_r. split; [exact Hacc|]. split; [reflexivity|simpl; lia].
  - destruct (IH _ _ (validateFile_consistent n acc entry Hacc)) as (Hc & Ht & Hl).
    split.
    + destruct (ValidatorRun.isNull (snd entry)); cbn [length];
        [replace (n + S (length (filter ValidatorRun.isNull (map snd entries))))%nat
           with (n + 1 + length (filter ValidatorRun.isNull (map snd entries)))%nat by lia
        |rewrite Nat.add_0_r in Hc]; exact Hc.
    + rewrite Ht, Hl. split.
      * unfold ValidatorRun.validateFile.
        destruct (snd entry); [destruct (isValid _)| |]; reflexivity.
      * unfold ValidatorRun.validateFile.
        destruct (snd entry); [destruct (isValid _)| |]; simpl; rewrite length_app;
          simpl; lia.
Qed.

Lemma validateAllLaws_consistent : forall scrapedDir,
    ValidatorRun.Consistent (ValidatorRun.nullFiles scrapedDir)
      (ValidatorRun.validateAllLaws scrapedDir) /\
    length (ValidatorRun.detailedResults (ValidatorRun.validateAllLaws scrapedDir))
    = ValidatorRun.total (ValidatorRun.validateAllLaws scrapedDir) /\
    ValidatorRun.total (ValidatorRun.validateAllLaws scrapedDir)
    = match scrapedDir with Some dir => length (lawFiles dir) | None => O end.
Proof.
  assert (Hinit : forall n,
             ValidatorRun.Consistent 0
               {| ValidatorRun.total := n; ValidatorRun.valid := 0; ValidatorRun.invalid := 0;
                  ValidatorRun.bySeverity := ValidatorRun.mkBySeverity 0 0 0 0 false;
                  ValidatorRun.byIssueType := []; ValidatorRun.detailedResults := [] |}).
  { intros n. split; try reflexivity. intros tag. simpl. destruct tag; reflexivity. }
  intros [dir|]; unfold ValidatorRun.validateAllLaws, ValidatorRun.nullFiles.
  - destruct (validateFiles_consistent (lawFiles dir) 0 _ (Hinit (length (lawFiles dir))))
      as (Hc & Ht & Hl).
    split; [exact Hc|]. rewrite Ht, Hl. simpl. split; reflexivity.
  - split; [apply Hinit|]. split; reflexivity.
Qed.

(** X17: the counters that [validateAllLaws] returns, for every directory
    whose [*.json] files hold a record, [null] or text that is not JSON
    (and for a missing directory).  [total] is the number of [*.json] files
    and of detailed results.  A file that holds [null] is counted twice, by
    the [try] block and by the [catch] block, so [valid + invalid] is
    [total] plus the number of such files, and equals [total] when there is
    none.  The invalid counts lie under [critical], [high] or [medium] and
    never under [low] or a key the literal lacks.  The count of each issue
    type is the number of invalid results that list the issue (issues of
    valid results and parse errors are not counted), plus, for
    [no_full_text], the files that hold [null]. *)
Theorem X17_validateAllLaws_counters_add_up : forall scrapedDir,
    let results := ValidatorRun.validateAllLaws scrapedDir in
    let nulls := ValidatorRun.nullFiles scrapedDir in
    ValidatorRun.total results
    = match scrapedDir with Some dir => length (lawFiles dir) | None => O end /\
    length (ValidatorRun.detailedResults results) = ValidatorRun.total results /\
    (ValidatorRun.valid results + ValidatorRun.invalid results)%nat
    = (ValidatorRun.total results + nulls)%nat /\
    length (filter ValidatorRun.resultIsValid (ValidatorRun.detailedResults results))
    = ValidatorRun.valid results /\
    (ValidatorRun.criticalCount (ValidatorRun.bySeverity results)
     + ValidatorRun.highCount (ValidatorRun.bySeverity results)
     + ValidatorRun.mediumCount (ValidatorRun.bySeverity results))%nat
    = ValidatorRun.invalid results /\
    ValidatorRun.lowCount (ValidatorRun.bySeverity results) = O /\
    ValidatorRun.noneIsNaN (ValidatorRun.bySeverity results) = false /\
    forall tag,
      ValidatorRun.countOf tag (ValidatorRun.byIssueType results)
      = (length (filter (fun r => negb (ValidatorRun.resultIsValid r)
                                  && ValidatorRun.listsIssue tag r)
                   (ValidatorRun.detailedResults results))
         + if ValidatorRun.tagEqb tag no_full_text then nulls else O)%nat.
Proof.
  intros scrapedDir results nulls.
  destruct (validateAllLaws_consistent scrapedDir)
    as ([Hd Hv Hc Hh Hm Hi Hl Hn Hcount] & Hlen & Ht).
  fold results in Hd, Hv, Hc, Hh, Hm, Hi, Hl, Hn, Hcount, Hlen, Ht.
  fold nulls in Hd, Hc, Hcount.
  repeat split; try assumption. lia.
Qed.

(** X18: the re-scrape lists of [generateValidationReport], made from the
    results of [validateAllLaws] over a directory whose [*.json] files hold
    a record, [null] or text that is not JSON.  The lists for [high] and
    [medium] have as many entries as the two severity counters say; the
    list for [critical] is short of its counter by the number of files that
    hold [null], each of which is counted twice and listed once.  Together
    the three lists hold one entry for each detailed result that is not
    valid and none for a valid one. *)
Theorem X18_priority_lists_hold_the_invalid_results : forall scrapedDir,
    let results := ValidatorRun.validateAllLaws scrapedDir in
    let lists := ValidatorRun.priorityLists results in
    let nulls := ValidatorRun.nullFiles scrapedDir in
    (length (ValidatorRun.criticalList lists) + nulls)%nat
    = ValidatorRun.criticalCount (ValidatorRun.bySeverity results) /\
    length (ValidatorRun.highList lists)
    = ValidatorRun.highCount (ValidatorRun.bySeverity results) /\
    length (ValidatorRun.mediumList lists)
    = ValidatorRun.mediumCount (ValidatorRun.bySeverity results) /\
    (length (ValidatorRun.criticalList lists) + length (ValidatorRun.highList lists)
     + length (ValidatorRun.mediumList lists) + nulls)%nat = ValidatorRun.invalid results /\
    (length (ValidatorRun.criticalList lists) + length (ValidatorRun.highList lists)
     + length (ValidatorRun.mediumList lists))%nat
    = length (filter (fun r => negb (ValidatorRun.resultIsValid r))
                (ValidatorRun.detailedResults results)).
Proof.
  intros scrapedDir results lists nulls.
  destruct (validateAllLaws_consistent scrapedDir)
    as ([Hd Hv Hc Hh Hm Hi Hl Hn Hcount] & Hlen & Ht).
  fold results in Hd, Hv, Hc, Hh, Hm, Hi, Hl, Hn, Hcount, Hlen, Ht.
  fold nulls in Hd, Hc, Hcount.
  unfold lists, ValidatorRun.priorityLists.
  cbn [ValidatorRun.criticalList ValidatorRun.highList ValidatorRun.mediumList].
  pose proof (filter_split_length ValidatorRun.resultIsValid
                (ValidatorRun.detailedResults results)) as Hsplit.
  repeat split; try assumption; lia.
Qed.

(** ** More on the aggregator *)

Lemma records_nulls_and_corrupt : forall contents,
    (length (AggregatorAux.parsedValues contents) + Spec.corruptIn contents
     = length contents)%nat.
Proof.
  induction contents as [|[law| |] contents IH]; simpl; lia.
Qed.

(** X19: [aggregate] on a directory that exists, whose [*.json] files hold
    a record, [null] or text that is not JSON.  It is rejected exactly when
    the failure log is there and is not an array (it does not parse, or it
    holds [null]), or when two or more files parse and one of them holds
    [null], which the sort then compares.  Otherwise every [*.json] file is
    counted once, as a successful law or as an error; [totalScrapedLaws] is
    the number of values in [scrapedLaws], which leaves out the files that
    do not parse; and [failedLaws] is the content of the log (empty when
    there is none). *)
Theorem X19_aggregate_counts_every_json_file : forall dir log,
    match aggregate (Some dir) log with
    | Some r =>
        AggregatorAux.rejects dir log = false /\
        (successfulLaws (metadata r) + errorLaws (metadata r))%nat = length (lawFiles dir) /\
        totalScrapedLaws (metadata r) = length (scrapedLaws r) /\
        (successfulLaws (metadata r) <= totalScrapedLaws (metadata r))%nat /\
        (totalScrapedLaws (metadata r) + Spec.corruptCount dir)%nat = length (lawFiles dir) /\
        failedLaws r = match log with Log entries => entries | _ => [] end /\
        failedLawsCount (metadata r) = length (failedLaws r)
    | None => AggregatorAux.rejects dir log = true
    end.
Proof.
  intros dir log.
  destruct (AggregatorAux.rejects dir log) eqn:Hrej.
  - rewrite (aggregate_rejects dir log Hrej). reflexivity.
  - destruct (aggregate_counts dir log Hrej)
      as (r & Hr & Hts & Ht & He & Hs & Hperm & Hfl & Hfc).
    rewrite Hr. split; [reflexivity|].
    pose proof (records_nulls_and_corrupt (map snd (lawFiles dir))) as Hrc.
    pose proof (parsedValues_length (map snd (lawFiles dir))) as Hpl.
    pose proof (filter_split_length Spec.countsAsError (Spec.parsedRecords dir)) as Hsplit.
    rewrite length_map in Hrc. unfold Spec.parsedRecords, Spec.corruptCount in *.
    rewrite (Permutation_length Hperm).
    repeat split; try assumption; lia.
Qed.

Lemma processFile_statisticsOk : forall acc stats content,
    AggregatorAux.StatisticsOk stats ->
    AggregatorAux.StatisticsOk (snd (processFile (acc, stats) content)).
Proof.
  intros acc stats content [Havg Hempty Hfilled]. unfold processFile.
  destruct content as [law| |]; [|split; assumption|split; assumption].
  destruct (ScrapedLaw.isComplete law && (50 <? ScrapedLaw.textLength law)%nat) eqn:E;
    [|split; assumption].
  apply andb_true_iff in E. destruct E as [_ E]. apply Nat.ltb_lt in E.
  split; cbn [snd averageTextLength ResultAggregator.successful
              ResultAggregator.minTextLength ResultAggregator.maxTextLength
              totalTextLength].
  - exact Havg.
  - discriminate.
  - intros _. destruct (ResultAggregator.successful stats) as [|n] eqn:Hn.
    + destruct (Hempty eq_refl) as (Hmin & Hmax & Htot).
      rewrite Hmin, Hmax, Htot. exists (ScrapedLaw.textLength law).
      split; [reflexivity|]. lia.
    + destruct (Hfilled ltac:(lia)) as (m & Hmin & Hm & Hlo & Hhi).
      rewrite Hmin. exists (Nat.min m (ScrapedLaw.textLength law)).
      split; [reflexivity|]. nia.
Qed.

Lemma processFiles_statisticsOk : forall contents acc stats,
    AggregatorAux.StatisticsOk stats ->
    AggregatorAux.StatisticsOk (snd (fold_left processFile contents (acc, stats))).
Proof.
  induction contents as [|c contents IH]; intros acc stats H; cbn [fold_left]; [exact H|].
  pose proof (processFile_statisticsOk acc stats c H) as Hstep.
  destruct (processFile (acc, stats) c) as [acc' stats']. apply IH. exact Hstep.
Qed.

(** X20: the statistics block that [aggregate] returns, which it does
    unless the failure log is there and is not an array or the sort compares
    [null].  [minTextLength] is a number (never the initial [Infinity]).  With no successful law the
    minimum, maximum, average and total length are all 0.  With at least
    one, the minimum is above 50, the rounded average lies between the
    minimum and the maximum, and the total lies between [successful] times
    the minimum and [successful] times the maximum. *)
Theorem X20_aggregate_statistics_are_ordered : forall dir log,
    AggregatorAux.rejects dir log = false ->
    exists r m,
      aggregate (Some dir) log = Some r /\
      ResultAggregator.minTextLength (statistics (metadata r)) = Some m /\
      ResultAggregator.successful (statistics (metadata r)) = successfulLaws (metadata r) /\
      (successfulLaws (metadata r) = O ->
       m = O /\ ResultAggregator.maxTextLength (statistics (metadata r)) = O /\
       averageTextLength (statistics (metadata r)) = O /\
       totalTextLength (statistics (metadata r)) = O) /\
      ((0 < successfulLaws (metadata r))%nat ->
       (50 < m)%nat /\
       (m <= averageTextLength (statistics (metadata r)))%nat /\
       (averageTextLength (statistics (metadata r))
        <= ResultAggregator.maxTextLength (statistics (metadata r)))%nat /\
       (successfulLaws (metadata r) * m <= totalTextLength (statistics (metadata r)))%nat /\
       (totalTextLength (statistics (metadata r))
        <= successfulLaws (metadata r)
           * ResultAggregator.maxTextLength (statistics (metadata r)))%nat).
Proof.
  intros dir log Hrej.
  destruct (aggregate_counts dir log Hrej) as (r0 & Hr0 & _).
  unfold aggregate in *.
  assert (Hinit : AggregatorAux.StatisticsOk initialStatistics).
  { split; simpl; auto. intros H. lia. }
  pose proof (processFiles_statisticsOk (map snd (lawFiles dir)) [] initialStatistics Hinit)
    as Hok.
  destruct (fold_left processFile (map snd (lawFiles dir)) ([], initialStatistics))
    as [records stats].
  simpl in Hok. destruct Hok as [Havg Hempty Hfilled].
  assert (Hfinal :
    exists m,
      ResultAggregator.minTextLength (finishStatistics stats) = Some m /\
      (ResultAggregator.successful stats = O ->
       m = O /\ ResultAggregator.maxTextLength stats = O /\
       averageTextLength (finishStatistics stats) = O /\ totalTextLength stats = O) /\
      ((0 < ResultAggregator.successful stats)%nat ->
       (50 < m)%nat /\
       (m <= averageTextLength (finishStatistics stats))%nat /\
       (averageTextLength (finishStatistics stats) <= ResultAggregator.maxTextLength stats)%nat
       /\ (ResultAggregator.successful stats * m <= totalTextLength stats)%nat /\
       (totalTextLength stats
        <= ResultAggregator.successful stats * ResultAggregator.maxTextLength stats)%nat)).
  { unfold finishStatistics.
    cbn [ResultAggregator.minTextLength averageTextLength].
    destruct (ResultAggregator.successful stats) as [|n] eqn:Hn.
    - destruct (Hempty eq_refl) as (Hmin & Hmax & Htot). rewrite Hmin. simpl.
      exists O. split; [reflexivity|]. split; [auto|]. intros H. lia.
    - destruct (Hfilled ltac:(lia)) as (m & Hmin & Hm & Hlo & Hhi). rewrite Hmin.
      change (0 <? S n)%nat with true. cbv iota.
      exists m. split; [reflexivity|]. split; [intros H; discriminate H|]. intros _.
      split; [lia|]. split; [|split; [|split; assumption]].
      + apply Nat.div_le_lower_bound; nia.
      + apply Nat.lt_succ_r. apply Nat.Div0.div_lt_upper_bound; nia. }
  destruct Hfinal as (m & Hmin & H0 & H1).
  destruct log as [| | |entries]; try discriminate Hr0;
    destruct (sortByDate records) as [sorted|]; try discriminate Hr0;
    eexists; exists m; (split; [reflexivity|]);
    cbn [metadata statistics successfulLaws]; (split; [exact Hmin|]);
    (split; [reflexivity|]); split; assumption.
Qed.

(** X20 at the directory of nine complete records and one corrupt file. *)
Lemma X20_witness_nine_and_one_corrupt :
  exists r m,
    aggregate (Some Spec.nineAndOneCorrupt) NoLog = Some r /\
    ResultAggregator.minTextLength (statistics (metadata r)) = Some m /\
    ResultAggregator.successful (statistics (metadata r)) = successfulLaws (metadata r) /\
    (successfulLaws (metadata r) = O ->
     m = O /\ ResultAggregator.maxTextLength (statistics (metadata r)) = O /\
     averageTextLength (statistics (metadata r)) = O /\
     totalTextLength (statistics (metadata r)) = O) /\
    ((0 < successfulLaws (metadata r))%nat ->
     (50 < m)%nat /\
     (m <= averageTextLength (statistics (metadata r)))%nat /\
     (averageTextLength (statistics (metadata r))
      <= ResultAggregator.maxTextLength (statistics (metadata r)))%nat /\
     (successfulLaws (metadata r) * m <= totalTextLength (statistics (metadata r)))%nat /\
     (totalTextLength (statistics (metadata r))
      <= successfulLaws (metadata r)
         * ResultAggregator.maxTextLength (statistics (metadata r)))%nat).
Proof.
  apply (X20_aggregate_statistics_are_ordered Spec.nineAndOneCorrupt NoLog).
  vm_compute. reflexivity.
Defined.

(** ** More on the batches *)

(** X21: the year [extractYearFromLaw] assigns to a law always lies between
    2016 and 2030: a four-digit number of the title outside that range is
    not used, and the estimate from the law ID or the default is in it. *)
Theorem X21_extractYearFromLaw_is_between_2016_and_2030 : forall law,
    2016 <= extractYearFromLaw law <= 2030.
Proof.
  intros law. unfold extractYearFromLaw.
  assert (Hid : 2016 <=
                match extractLawId (link law) with
                | Some lawId =>
                    let id := parseDigits lawId in
                    if 166000 <=? id then 2025
                    else if 165000 <=? id then 2024
                    else if 164000 <=? id then 2023
                    else if 163000 <=? id then 2022
                    else if 162000 <=? id then 2021
                    else if 161000 <=? id then 2020
                    else if 160000 <=? id then 2019
                    else if 159000 <=? id then 2018
                    else if 158000 <=? id then 2017
                    else 2016
                | None => 2025
                end <= 2030).
  { destruct (extractLawId (link law)) as [lawId|]; [|lia]. cbv zeta.
    repeat match goal with |- context [if ?c then _ else _] => destruct c end; lia. }
  destruct (exec yearPattern (Schemas.title law)) as [[b e]|]; [|exact Hid].
  cbv zeta.
  destruct ((2016 <=? parseDigits (slice b e (Schemas.title law)))
            && (parseDigits (slice b e (Schemas.title law)) <=? 2030)) eqn:E; [|exact Hid].
  apply andb_true_iff in E. destruct E as [E1 E2].
  apply Z.leb_le in E1. apply Z.leb_le in E2. lia.
Qed.

Lemma nth_error_snoc_cases : forall {A} (l : list A) x k y,
    nth_error (l ++ [x]) k = Some y ->
    nth_error l k = Some y \/ (k = length l /\ y = x).
Proof.
  intros A l x k y H. destruct (Nat.lt_ge_cases k (length l)) as [Hlt|Hge].
  - rewrite nth_error_app1 in H by exact Hlt. left. exact H.
  - rewrite nth_error_app2 in H by exact Hge.
    destruct (k - length l)%nat as [|d] eqn:Ed; simpl in H.
    + inversion H; subst. right. split; [lia|reflexivity].
    + destruct d; discriminate H.
Qed.

(** The loop of the strategy [size] lays the batches out one after the
    other. *)
Lemma sizeLoop_layout : forall fuel bs l i batches out,
    (1 <= bs)%nat ->
    i = (length batches * bs)%nat ->
    (forall k b, nth_error batches k = Some b -> BatchAux.SizeBatch bs l k b) ->
    sizeLoop fuel bs l i batches = Some out ->
    (forall k b, nth_error out k = Some b -> BatchAux.SizeBatch bs l k b) /\
    (length l <= length out * bs)%nat /\
    (length batches <= length out)%nat /\
    ((length batches < length out)%nat -> ((length out - 1) * bs < length l)%nat).
Proof.
  induction fuel as [|fuel IH]; intros bs l i batches out Hbs Hi Hold H; simpl in H.
  - destruct (i <? length l)%nat eqn:E; [discriminate|].
    apply Nat.ltb_ge in E. inversion H; subst out.
      split; [exact Hold|]. split; [lia|]. split; [lia|intros Hc; lia].
  - destruct (i <? length l)%nat eqn:E.
    + apply Nat.ltb_lt in E.
      apply IH in H; [| exact Hbs | rewrite length_app; simpl; lia |].
      * destruct H as (Hall & Hlen & Hle & Hlast). rewrite length_app in Hle, Hlast.
        simpl in Hle, Hlast. split; [exact Hall|]. split; [exact Hlen|]. split; [lia|].
        intros _. destruct (Nat.eq_dec (length out) (length batches + 1)) as [Eq|Ne].
        -- rewrite Eq. replace (length batches + 1 - 1)%nat with (length batches) by lia.
           lia.
        -- apply Hlast. lia.
      * intros k b Hk. apply nth_error_snoc_cases in Hk.
        destruct Hk as [Hk|[-> ->]]; [exact (Hold _ _ Hk)|].
        assert (Hl : length (slice i (i + bs) l) = Nat.min bs (length l - i)).
        { unfold slice. rewrite length_firstn, length_skipn. lia. }
        split;
          cbn [batchIndex BatchProcessor.startIndex BatchProcessor.endIndex laws size year
               subBatch];
          rewrite ?Hl; try reflexivity; try lia.
        -- unfold slice. rewrite <- Hi. f_equal. lia.
        -- split; reflexivity.
    + apply Nat.ltb_ge in E. inversion H; subst out.
      split; [exact Hold|]. split; [lia|]. split; [lia|intros Hc; lia].
Qed.

(** X22: with a batch size of at least one, [createBatchesBySize] returns
    ceil(n / batchSize) batches for a worklist of n laws; the batch at
    position k has [batchIndex] k, starts at index k * batchSize, holds the
    next [batchSize] laws of the worklist (fewer in the last batch, never
    none), and its [size] is [endIndex - startIndex]. *)
Theorem X22_size_batches_are_consecutive_runs : forall opts l,
    (1 <= batchSize opts)%nat ->
    exists batches,
      createBatchesBySize opts l = Some batches /\
      length batches = ceilDiv (length l) (batchSize opts) /\
      forall k b,
        nth_error batches k = Some b -> BatchAux.SizeBatch (batchSize opts) l k b.
Proof.
  intros opts l Hbs.
  destruct (createBatchesBySize_complete opts l Hbs) as (batches & Hb & _).
  exists batches. split; [exact Hb|].
  unfold createBatchesBySize in Hb.
  apply sizeLoop_layout in Hb; [|exact Hbs|reflexivity|intros [|k] b Hk; discriminate Hk].
  destruct Hb as (Hall & Hlen & _ & Hlast). split; [|exact Hall].
  unfold ceilDiv. simpl in Hlast.
  destruct (length batches) as [|L] eqn:EL.
  - apply (Nat.div_unique _ _ 0 (length l + batchSize opts - 1)); lia.
  - specialize (Hlast ltac:(lia)).
    apply (Nat.div_unique _ _ (S L)
             (length l + batchSize opts - 1 - batchSize opts * S L)); nia.
Qed.

(** X22 at the sorted worklist of 25 laws and a batch size of 10. *)
Lemma X22_witness_25_laws_by_10 :
  exists batches,
    createBatchesBySize
      {| batchSize := 10; sortOrder := desc; strategy := size_; totalWorkers := None |}
      Spec.twentyFiveLaws = Some batches /\
    length batches
    = ceilDiv (length Spec.twentyFiveLaws)
        (batchSize {| batchSize := 10; sortOrder := desc; strategy := size_;
                      totalWorkers := None |}) /\
    forall k b,
      nth_error batches k = Some b ->
      BatchAux.SizeBatch
        (batchSize {| batchSize := 10; sortOrder := desc; strategy := size_;
                      totalWorkers := None |})
        Spec.twentyFiveLaws k b.
Proof.
  apply (X22_size_batches_are_consecutive_runs
           {| batchSize := 10; sortOrder := desc; strategy := size_; totalWorkers := None |}
           Spec.twentyFiveLaws).
  simpl. lia.
Defined.

(** *** The layout of the batches of the strategy [year] *)

Lemma sorted_span : forall xs f g,
    StronglySorted lt xs ->
    hd_error xs = Some f -> hd_error (rev xs) = Some g ->
    (f <= g)%nat /\ (length xs <= g + 1 - f)%nat.
Proof.
  induction xs as [|x xs IH]; intros f g Hs Hf Hg; [discriminate|].
  simpl in Hf. inversion Hf; subst x. inversion Hs as [|? ? Hs' Hall]; subst.
  destruct xs as [|x' xs'].
  - simpl in Hg. inversion Hg; subst. simpl. lia.
  - assert (Hg' : hd_error (rev (x' :: xs')) = Some g).
    { simpl in Hg. simpl.
      destruct (rev xs' ++ [x']) as [|z zs] eqn:E.
      - destruct (rev xs'); discriminate E.
      - simpl in Hg. exact Hg. }
    destruct (IH x' g Hs' eq_refl Hg') as [Hle Hlen].
    inversion Hall as [|? ? Hlt _]; subst. simpl in *. lia.
Qed.

Lemma StronglySorted_firstn : forall n (xs : list nat),
    StronglySorted lt xs -> StronglySorted lt (firstn n xs).
Proof.
  induction n as [|n IH]; intros xs H; [constructor|].
  destruct xs as [|x xs]; [constructor|]. inversion H as [|? ? Hs Hall]; subst.
  simpl. constructor; [apply IH; exact Hs|].
  rewrite Forall_forall in *. intros y Hy. apply Hall.
  rewrite <- (firstn_skipn n xs). apply in_or_app. left. exact Hy.
Qed.

Lemma StronglySorted_skipn : forall n (xs : list nat),
    StronglySorted lt xs -> StronglySorted lt (skipn n xs).
Proof.
  induction n as [|n IH]; intros xs H; [exact H|].
  destruct xs as [|x xs]; [constructor|]. inversion H; subst. simpl. apply IH. assumption.
Qed.

Lemma Forall_slice : forall {A} (P : A -> Prop) i j l, Forall P l -> Forall P (slice i j l).
Proof.
  intros A P i j l H. rewrite Forall_forall in *. intros x Hx. apply H.
  unfold slice in Hx.
  rewrite <- (firstn_skipn i l). apply in_or_app. right.
  rewrite <- (firstn_skipn (j - i) (skipn i l)). apply in_or_app. left. exact Hx.
Qed.

Lemma entriesOk_slice : forall l n y entries i j,
    BatchAux.EntriesOk l n y entries -> BatchAux.EntriesOk l n y (slice i j entries).
Proof.
  intros l n y entries i j [Hp Hs]. split.
  - apply Forall_slice. exact Hp.
  - unfold slice. rewrite <- firstn_map, <- skipn_map.
    apply StronglySorted_firstn, StronglySorted_skipn. exact Hs.
Qed.

Lemma entriesOk_later : forall l n y entries,
    BatchAux.EntriesOk l n y entries -> BatchAux.EntriesOk l (S n) y entries.
Proof.
  intros l n y entries [Hp Hs]. split; [|exact Hs].
  eapply Forall_impl; [|exact Hp]. intros e (H1 & H2 & H3). repeat split; auto.
Qed.

Lemma sorted_snoc : forall xs n,
    StronglySorted lt xs -> Forall (fun k => (k < n)%nat) xs ->
    StronglySorted lt (xs ++ [n]).
Proof.
  intros xs n Hs Hb. induction Hs as [|x xs Hs IH Hall]; simpl.
  - constructor; constructor.
  - inversion Hb as [|? ? Hx Hb']; subst. constructor; [apply IH; exact Hb'|].
    apply Forall_app. split; [exact Hall|]. constructor; [exact Hx|constructor].
Qed.

Lemma entriesOk_snoc : forall l n law entries,
    nth_error l n = Some law ->
    BatchAux.EntriesOk l n (extractYearFromLaw law) entries ->
    BatchAux.EntriesOk l (S n) (extractYearFromLaw law) (entries ++ [(law, n)]).
Proof.
  intros l n law entries Hn [Hp Hs]. split.
  - apply Forall_app. split.
    + eapply Forall_impl; [|exact Hp]. intros e (H1 & H2 & H3). repeat split; auto.
    + constructor; [|constructor]. simpl. repeat split; auto.
  - rewrite map_app. simpl.
    assert (Hb : Forall (fun k => (k < n)%nat) (map snd entries)).
    { apply Forall_forall. intros k Hk. apply in_map_iff in Hk.
      destruct Hk as (e & <- & He). rewrite Forall_forall in Hp.
      destruct (Hp e He) as (_ & H2 & _). exact H2. }
    apply sorted_snoc; assumption.
Qed.

Lemma push_entriesOk : forall l n law groups,
    nth_error l n = Some law ->
    Forall (fun g => BatchAux.EntriesOk l n (fst g) (snd g)) groups ->
    Forall (fun g => BatchAux.EntriesOk l (S n) (fst g) (snd g))
      (push (extractYearFromLaw law) (law, n) groups).
Proof.
  intros l n law groups Hn H. induction H as [|(k, es) rest Hg Hrest IH]; [constructor|].
  simpl. destruct (k =? extractYearFromLaw law) eqn:E.
  - apply Z.eqb_eq in E. subst k. constructor.
    + simpl. apply entriesOk_snoc; assumption.
    + eapply Forall_impl; [|exact Hrest]. intros g. apply entriesOk_later.
  - constructor; [apply entriesOk_later; exact Hg|exact IH].
Qed.

Lemma groupByYear_entriesOk : forall rest l n groups,
    skipn n l = rest ->
    Forall (fun g => BatchAux.EntriesOk l n (fst g) (snd g)) groups ->
    Forall (fun g => BatchAux.EntriesOk l (length l) (fst g) (snd g))
      (groupByYear rest n groups).
Proof.
  induction rest as [|law rest IH]; intros l n groups Hskip H; simpl.
  - assert (Hn : (length l <= n)%nat).
    { apply (f_equal (@length _)) in Hskip. rewrite length_skipn in Hskip. simpl in Hskip.
      lia. }
    eapply Forall_impl; [|exact H]. intros g [Hp Hs]. split; [|exact Hs].
    eapply Forall_impl; [|exact Hp]. intros e (H1 & H2 & H3). repeat split; auto.
    apply nth_error_Some. rewrite H1. discriminate.
  - assert (Hlaw : nth_error l n = Some law).
    { rewrite <- (firstn_skipn n l) at 1. rewrite Hskip.
      assert (Hlen : (n <= length l)%nat).
      { apply (f_equal (@length _)) in Hskip. rewrite length_skipn in Hskip.
        simpl in Hskip. lia. }
      rewrite nth_error_app2; rewrite length_firstn; [|lia].
      replace (n - Nat.min n (length l))%nat with O by lia. reflexivity. }
    apply (IH l (S n)).
    + replace (S n) with (1 + n)%nat by lia. rewrite <- skipn_skipn, Hskip. reflexivity.
    + unfold addToGroups. apply push_entriesOk; [exact Hlaw|].
      destruct (has (extractYearFromLaw law) groups); [exact H|].
      apply Forall_app. split; [exact H|]. constructor; [|constructor].
      simpl. split; simpl; constructor.
Qed.

Lemma get_entriesOk : forall l n groups y,
    Forall (fun g => BatchAux.EntriesOk l n (fst g) (snd g)) groups ->
    BatchAux.EntriesOk l n y (get y groups).
Proof.
  intros l n groups y H. induction H as [|(k, es) rest Hg Hrest IH]; simpl.
  - split; simpl; constructor.
  - destruct (k =? y) eqn:E; [|exact IH]. apply Z.eqb_eq in E. subst k. exact Hg.
Qed.

Lemma hd_error_map : forall {A B} (f : A -> B) l, hd_error (map f l) = option_map f (hd_error l).
Proof. intros A B f [|x l]; reflexivity. Qed.

(** The batch made of a run of entries of one year. *)
Lemma yearBatch_of_entries : forall bs l y entries first last k sb,
    BatchAux.EntriesOk l (length l) y entries ->
    indexRange entries = Some (first, last) ->
    (length entries <= bs)%nat ->
    BatchAux.YearBatch bs l k
      {| batchIndex := k; year := Some y; subBatch := sb; laws := map fst entries;
         size := length entries;
         BatchProcessor.startIndex := first; BatchProcessor.endIndex := last |}.
Proof.
  intros bs l y entries first last k sb [Hp Hs] Hr Hlen.
  unfold indexRange in Hr. unfold Entry in *.
  destruct (hd_error entries) as [[law0 f]|] eqn:Hhd; [|discriminate].
  destruct (hd_error (rev entries)) as [[law1 g]|] eqn:Hlast; [|discriminate].
  inversion Hr; subst first last. clear Hr.
  assert (Hin0 : In (law0, f) entries).
  { destruct entries as [|e es]; [discriminate|]. inversion Hhd; subst. left. reflexivity. }
  assert (Hin1 : In (law1, g) entries).
  { apply (proj2 (in_rev entries (law1, g))).
    destruct (rev entries) as [|e es]; [discriminate|].
    inversion Hlast; subst. left. reflexivity. }
  rewrite Forall_forall in Hp.
  destruct (Hp _ Hin0) as (Hn0 & _ & _). destruct (Hp _ Hin1) as (Hn1 & Hb1 & _).
  simpl in Hn0, Hn1, Hb1.
  destruct (sorted_span (map snd entries) f g Hs) as [Hle Hspan].
  { rewrite hd_error_map, Hhd. reflexivity. }
  { rewrite <- map_rev, hd_error_map, Hlast. reflexivity. }
  rewrite length_map in Hspan.
  split; cbn [batchIndex year laws size BatchProcessor.startIndex BatchProcessor.endIndex].
  - reflexivity.
  - exists y. split; [reflexivity|]. apply Forall_forall. intros law Hlaw.
    apply in_map_iff in Hlaw. destruct Hlaw as (e & <- & He).
    destruct (Hp e He) as (_ & _ & Hy). exact Hy.
  - rewrite length_map. reflexivity.
  - split; [|exact Hlen]. destruct entries; [discriminate|]. simpl. lia.
  - lia.
  - rewrite hd_error_map, Hhd. exact Hn0.
  - replace (g + 1 - 1)%nat with g by lia.
    rewrite <- map_rev, hd_error_map, Hlast. exact Hn1.
  - lia.
Qed.

Lemma subBatchLoop_layout : forall fuel bs l y entries i batches out,
    BatchAux.EntriesOk l (length l) y entries ->
    (forall k b, nth_error batches k = Some b -> BatchAux.YearBatch bs l k b) ->
    subBatchLoop fuel bs y entries i batches = Some out ->
    forall k b, nth_error out k = Some b -> BatchAux.YearBatch bs l k b.
Proof.
  induction fuel as [|fuel IH]; intros bs l y entries i batches out Hok Hold H; simpl in H.
  - destruct (i <? length entries)%nat; [discriminate|]. inversion H; subst. exact Hold.
  - destruct (i <? length entries)%nat; [|inversion H; subst; exact Hold].
    destruct (indexRange (slice i (i + bs) entries)) as [[first last]|] eqn:Hr;
      [|discriminate].
    refine (IH bs l y entries _ _ out Hok _ H).
    intros k b Hk. apply nth_error_snoc_cases in Hk.
    destruct Hk as [Hk|[-> ->]]; [exact (Hold _ _ Hk)|].
    apply yearBatch_of_entries; [apply entriesOk_slice; exact Hok|exact Hr|].
    unfold slice. rewrite length_firstn. lia.
Qed.

Lemma yearLoop_layout : forall opts l groups years batches out,
    Forall (fun g => BatchAux.EntriesOk l (length l) (fst g) (snd g)) groups ->
    (forall k b, nth_error batches k = Some b -> BatchAux.YearBatch (batchSize opts) l k b) ->
    yearLoop opts groups years batches = Some out ->
    forall k b, nth_error out k = Some b -> BatchAux.YearBatch (batchSize opts) l k b.
Proof.
  intros opts l groups years. induction years as [|y years IH];
    intros batches out Hok Hold H; simpl in H.
  - inversion H; subst. exact Hold.
  - pose proof (get_entriesOk l (length l) groups y Hok) as Hy.
    destruct (batchSize opts <? length (get y groups))%nat eqn:E.
    + destruct (subBatchLoop (length (get y groups)) (batchSize opts) y (get y groups) 0
                  batches) as [mid|] eqn:Hmid; [|discriminate].
      refine (IH mid out Hok _ H).
      exact (subBatchLoop_layout _ _ _ _ _ _ _ _ Hy Hold Hmid).
    + apply Nat.ltb_ge in E.
      destruct (indexRange (get y groups)) as [[first last]|] eqn:Hr; [|discriminate].
      refine (IH _ out Hok _ H).
      intros k b Hk. apply nth_error_snoc_cases in Hk.
      destruct Hk as [Hk|[-> ->]]; [exact (Hold _ _ Hk)|].
      apply yearBatch_of_entries; assumption.
Qed.

(** X23: with a batch size of at least one, [createBatchesByYear] returns
    batches of which the one at position k has [batchIndex] k and holds
    between 1 and [batchSize] laws, all of the batch's year as
    [extractYearFromLaw] gives it; [startIndex] is the place in the
    worklist of the batch's first law and [endIndex] one past the place of
    its last law, so the range is inside the worklist and at least as long
    as the batch. *)
Theorem X23_year_batches_hold_laws_of_one_year : forall opts l,
    (1 <= batchSize opts)%nat ->
    exists batches,
      createBatchesByYear opts l = Some batches /\
      forall k b,
        nth_error batches k = Some b -> BatchAux.YearBatch (batchSize opts) l k b.
Proof.
  intros opts l Hbs.
  destruct (createBatchesByYear_complete opts l Hbs) as (batches & Hb & _).
  exists batches. split; [exact Hb|].
  unfold createBatchesByYear in Hb.
  refine (yearLoop_layout opts l _ _ [] batches _ _ Hb).
  - apply groupByYear_entriesOk; [reflexivity|constructor].
  - intros [|k] b Hk; discriminate Hk.
Qed.

(** X23 at the worklist of seven laws of three years and a batch size of 2. *)
Lemma X23_witness_seven_laws :
  exists batches,
    createBatchesByYear
      {| batchSize := 2; sortOrder := desc; strategy := year_; totalWorkers := None |}
      Spec.sevenLaws = Some batches /\
    forall k b,
      nth_error batches k = Some b ->
      BatchAux.YearBatch
        (batchSize {| batchSize := 2; sortOrder := desc; strategy := year_;
                      totalWorkers := None |})
        Spec.sevenLaws k b.
Proof.
  apply (X23_year_batches_hold_laws_of_one_year
           {| batchSize := 2; sortOrder := desc; strategy := year_; totalWorkers := None |}
           Spec.sevenLaws).
  simpl. lia.
Defined.

(** *** A batch size of zero *)

Lemma createBatchesByYear_zero : forall opts l,
    batchSize opts = O -> l <> [] -> createBatchesByYear opts l = None.
Proof.
  intros opts l Hbs Hl. unfold createBatchesByYear.
  destruct (groupByYear_ok l 0 []) as [[Hnd Hne] Hperm]; [split; constructor|].
  set (groups := groupByYear l 0 []) in *.
  pose proof (sortYears_perm (sortOrder opts) (map fst groups)) as Hsort.
  destruct (sortYears (sortOrder opts) (map fst groups)) as [|y years] eqn:Ey.
  - exfalso. apply Permutation_nil in Hsort.
    destruct groups as [|g groups']; [|discriminate Hsort].
    simpl in Hperm. apply Permutation_nil in Hperm. contradiction.
  - assert (Hy : get y groups <> []).
    { apply get_nonempty; [exact Hne|].
      eapply Permutation_in; [exact Hsort|left; reflexivity]. }
    simpl. rewrite Hbs. destruct (get y groups) as [|e es]; [contradiction|].
    reflexivity.
Qed.

(** X24: the partitioning returns batches exactly when the batch size is
    at least one or the worklist is empty, whatever the strategy.  With a
    batch size of zero and a worklist that is not empty the loop of the
    strategies [size] and [equal] never advances (it has not ended after
    any number of iterations), and the strategy [year] reads the first
    entry of an empty sub-batch. *)
Theorem X24_batches_are_returned_iff_the_batch_size_is_positive : forall opts l,
    (createBatchesByStrategy opts l = None <-> batchSize opts = O /\ l <> []) /\
    (forall fuel, batchSize opts = O -> l <> [] ->
                  sizeLoop fuel (batchSize opts) l 0 [] = None).
Proof.
  intros opts l. split; [split|].
  - intros H. destruct (batchSize opts) as [|bs] eqn:Hbs.
    + split; [reflexivity|]. intros ->. unfold createBatchesByStrategy in H.
      destruct (strategy opts); discriminate H.
    + exfalso. unfold createBatchesByStrategy in H.
      destruct (strategy opts).
      * destruct (createBatchesBySize_complete opts l) as (b & Hb & _); [lia|]. congruence.
      * destruct (createBatchesByYear_complete opts l) as (b & Hb & _); [lia|]. congruence.
      * rewrite createEqualSizeBatches_is_createBatchesBySize in H.
        destruct (createBatchesBySize_complete opts l) as (b & Hb & _); [lia|]. congruence.
  - intros [Hbs Hl]. unfold createBatchesByStrategy.
    destruct (strategy opts).
    + unfold createBatchesBySize. rewrite Hbs. apply sizeLoop_zero_diverges. exact Hl.
    + apply createBatchesByYear_zero; assumption.
    + rewrite createEqualSizeBatches_is_createBatchesBySize.
      unfold createBatchesBySize. rewrite Hbs. apply sizeLoop_zero_diverges. exact Hl.
  - intros fuel Hbs Hl. rewrite Hbs. apply sizeLoop_zero_diverges. exact Hl.
Qed.

(** ** Batch files: what is saved can be read back *)

(** Decimal rendering and [parseInt] are inverse to each other. *)
Lemma js_digit : forall c s,
    (Z.of_N (N_of_ascii c) <? 128) = true ->
    js (String c s) = Z.of_N (N_of_ascii c) :: js s.
Proof.
  intros c s H. unfold js. cbn [list_ascii_of_string map utf8_decode]. rewrite H. reflexivity.
Qed.

Lemma parseDigits_string_of_uint : forall d acc,
    fold_left (fun a c => a * 10 + (c - 48)) (js (NilEmpty.string_of_uint d)) (Z.of_nat acc)
    = Z.of_nat (Nat.of_uint_acc d acc).
Proof.
  induction d as [|d IH|d IH|d IH|d IH|d IH|d IH|d IH|d IH|d IH|d IH]; intros acc;
    [reflexivity| | | | | | | | | |];
    cbn [NilEmpty.string_of_uint Nat.of_uint_acc];
    rewrite js_digit by reflexivity; cbn [fold_left];
    rewrite <- IH; f_equal; rewrite Nat.tail_mul_spec;
    match goal with |- context [N_of_ascii ?c] =>
      let v := eval vm_compute in (Z.of_N (N_of_ascii c)) in
      change (Z.of_N (N_of_ascii c)) with v
    end; lia.
Qed.

Lemma parseDigits_ofNat : forall n, parseDigits (ofNat n) = Z.of_nat n.
Proof.
  intros n. unfold parseDigits, ofNat.
  rewrite <- (DecimalNat.Unsigned.of_to n) at 2. unfold Nat.of_uint.
  rewrite <- parseDigits_string_of_uint.
  destruct (Nat.to_uint n); reflexivity.
Qed.

Lemma parseDigits_zeros : forall k s, parseDigits (repeat 48 k ++ s) = parseDigits s.
Proof.
  intros k s. unfold parseDigits. induction k as [|k IH]; [reflexivity|]. exact IH.
Qed.

(** Two batches have the same file name only if they have the same index. *)
Lemma batchFileName_injective : forall a b,
    BatchFiles.batchFileName a = BatchFiles.batchFileName b -> a = b.
Proof.
  intros a b H. unfold BatchFiles.batchFileName in H.
  apply app_inv_head in H. apply app_inv_tail in H.
  apply (f_equal parseDigits) in H. unfold BatchFiles.padStart3 in H.
  rewrite !parseDigits_zeros, !parseDigits_ofNat in H. lia.
Qed.

Lemma readBatchFile_write_same : forall name content dir,
    BatchFiles.readBatchFile name (BatchFiles.writeBatchFile name content dir) = Some content.
Proof.
  intros name content dir. induction dir as [|(n, c) dir IH]; simpl.
  - rewrite eqb_refl. reflexivity.
  - destruct (JS.eqb n name) eqn:E; simpl; rewrite E; [reflexivity|exact IH].
Qed.

Lemma readBatchFile_write_other : forall name other content dir,
    other <> name ->
    BatchFiles.readBatchFile name (BatchFiles.writeBatchFile other content dir)
    = BatchFiles.readBatchFile name dir.
Proof.
  intros name other content dir Hne. induction dir as [|(n, c) dir IH]; simpl.
  - destruct (JS.eqb other name) eqn:E; [|reflexivity].
    apply eqb_eq in E. contradiction.
  - destruct (JS.eqb n other) eqn:E; simpl.
    + apply eqb_eq in E. subst n. destruct (JS.eqb other name) eqn:E'; [|reflexivity].
      apply eqb_eq in E'. contradiction.
    + destruct (JS.eqb n name); [reflexivity|exact IH].
Qed.

Lemma saveLoop_configs : forall clock total rest position dir configs,
    fst (BatchFiles.saveBatchFilesLoop clock total rest position dir configs)
    = configs ++ map BatchFiles.batchConfigOf rest.
Proof.
  intros clock total rest. induction rest as [|b rest IH]; intros position dir configs; simpl.
  - rewrite app_nil_r. reflexivity.
  - rewrite IH, <- app_assoc. reflexivity.
Qed.

Lemma saveLoop_read_other : forall clock total rest position dir configs name,
    (forall b, In b rest -> BatchFiles.batchFileName (batchIndex b) <> name) ->
    BatchFiles.readBatchFile name
      (snd (BatchFiles.saveBatchFilesLoop clock total rest position dir configs))
    = BatchFiles.readBatchFile name dir.
Proof.
  intros clock total rest. induction rest as [|b rest IH];
    intros position dir configs name H; simpl; [reflexivity|].
  rewrite IH by (intros b' Hb'; apply H; right; exact Hb').
  apply readBatchFile_write_other. apply H. left. reflexivity.
Qed.

Lemma saveLoop_read_written : forall clock total rest position dir configs j b,
    NoDup (map batchIndex rest) ->
    nth_error rest j = Some b ->
    BatchFiles.readBatchFile (BatchFiles.batchFileName (batchIndex b))
      (snd (BatchFiles.saveBatchFilesLoop clock total rest position dir configs))
    = Some (BatchFiles.BatchFile (BatchFiles.batchDataOf (clock (position + j)%nat) total b)).
Proof.
  intros clock total rest. induction rest as [|b0 rest IH];
    intros position dir configs j b Hnd Hj; [destruct j; discriminate Hj|].
  simpl in Hnd. inversion Hnd as [|? ? Hnin Hnd']; subst.
  destruct j as [|j]; simpl in Hj; simpl.
  - inversion Hj; subst b0. rewrite saveLoop_read_other.
    + rewrite Nat.add_0_r. apply readBatchFile_write_same.
    + intros b' Hb' Heq. apply batchFileName_injective in Heq.
      apply Hnin. rewrite <- Heq. apply in_map. exact Hb'.
  - rewrite (IH (S position) _ _ j b Hnd' Hj).
    replace (S position + j)%nat with (position + S j)%nat by lia. reflexivity.
Qed.

(** Batches numbered by their positions. *)
Lemma positions_seq : forall (l : list Batch) off,
    (forall j b, nth_error l j = Some b -> batchIndex b = (off + j)%nat) ->
    map batchIndex l = seq off (length l).
Proof.
  induction l as [|b l IH]; intros off H; [reflexivity|]. simpl. f_equal.
  - rewrite (H 0%nat b eq_refl). lia.
  - apply IH. intros j b' Hj. rewrite (H (S j) b' Hj). lia.
Qed.

Lemma find_config_by_position : forall (l : list Batch) off k b,
    (forall j b', nth_error l j = Some b' -> batchIndex b' = (off + j)%nat) ->
    nth_error l k = Some b ->
    find (fun c => (BatchFiles.configBatchIndex c =? off + k)%nat)
      (map BatchFiles.batchConfigOf l)
    = Some (BatchFiles.batchConfigOf b).
Proof.
  induction l as [|b0 l IH]; intros off k b H Hk; [destruct k; discriminate Hk|].
  simpl. rewrite (H 0%nat b0 eq_refl). destruct k as [|k]; simpl in Hk.
  - inversion Hk; subst. rewrite Nat.eqb_refl. reflexivity.
  - assert (E : (off + 0 =? off + S k)%nat = false) by (apply Nat.eqb_neq; lia).
    rewrite E. replace (off + S k)%nat with (S off + k)%nat by lia.
    apply IH; [|exact Hk]. intros j b' Hj. rewrite (H (S j) b' Hj). lia.
Qed.

Lemma find_config_beyond : forall (l : list Batch) off k,
    (forall j b', nth_error l j = Some b' -> batchIndex b' = (off + j)%nat) ->
    (off + length l <= k)%nat ->
    find (fun c => (BatchFiles.configBatchIndex c =? k)%nat)
      (map BatchFiles.batchConfigOf l) = None.
Proof.
  induction l as [|b0 l IH]; intros off k H Hk; [reflexivity|].
  simpl in *. rewrite (H 0%nat b0 eq_refl).
  assert (E : (off + 0 =? k)%nat = false) by (apply Nat.eqb_neq; lia).
  rewrite E. apply (IH (S off)); [|lia].
  intros j b' Hj. rewrite (H (S j) b' Hj). lia.
Qed.

(** The batches of every strategy are numbered by their positions. *)
Lemma strategy_positions : forall opts l batches,
    (1 <= batchSize opts)%nat ->
    createBatchesByStrategy opts l = Some batches ->
    forall k b, nth_error batches k = Some b -> batchIndex b = k.
Proof.
  intros opts l batches Hbs H k b Hk. unfold createBatchesByStrategy in H.
  assert (Hsize : createBatchesBySize opts l = Some batches -> batchIndex b = k).
  { intros Hs. unfold createBatchesBySize in Hs.
    apply sizeLoop_layout in Hs; [|exact Hbs|reflexivity|intros [|j] b' Hj; discriminate Hj].
    destruct Hs as (Hall & _). destruct (Hall k b Hk). assumption. }
  destruct (strategy opts).
  - exact (Hsize H).
  - unfold createBatchesByYear in H.
    assert (Hy : BatchAux.YearBatch (batchSize opts) l k b).
    { refine (yearLoop_layout opts l _ _ [] batches _ _ H k b Hk).
      - apply groupByYear_entriesOk; [reflexivity|constructor].
      - intros [|j] b' Hj; discriminate Hj. }
    destruct Hy. assumption.
  - rewrite createEqualSizeBatches_is_createBatchesBySize in H. exact (Hsize H).
Qed.

Lemma createBatchesByStrategy_returns : forall opts l,
    (1 <= batchSize opts)%nat -> exists batches, createBatchesByStrategy opts l = Some batches.
Proof.
  intros opts l Hbs. unfold createBatchesByStrategy. destruct (strategy opts).
  - destruct (createBatchesBySize_complete opts l Hbs) as (b & Hb & _). exists b. exact Hb.
  - destruct (createBatchesByYear_complete opts l Hbs) as (b & Hb & _). exists b. exact Hb.
  - rewrite createEqualSizeBatches_is_createBatchesBySize.
    destruct (createBatchesBySize_complete opts l Hbs) as (b & Hb & _). exists b. exact Hb.
Qed.

(** X25: what [createBatches] saves can be read back.  With a batch size
    of at least one, after the batches of a worklist are partitioned and
    saved (whatever the strategy and whatever the output directory and the
    configuration file held before), [getBatchIndicesForMatrix] returns
    0, 1, ..., n - 1 for the n batches, [getBatchData] of an index below n
    returns the data of the batch at that position (its laws, range, year,
    and the total n), and [getBatchData] of any other index throws because
    the configuration has no such batch. *)
Theorem X25_saved_batches_are_read_back : forall opts clock now l disk,
    (1 <= batchSize opts)%nat ->
    exists batches disk',
      BatchFiles.saveBatches opts clock now l disk = Some (batches, disk') /\
      createBatchesByStrategy opts l = Some batches /\
      BatchFiles.getBatchIndicesForMatrix disk' = inr (seq 0 (length batches)) /\
      (forall k b,
          nth_error batches k = Some b ->
          BatchFiles.getBatchData disk' k
          = inr (BatchFiles.batchDataOf (clock k) (length batches) b)) /\
      (forall k,
          (length batches <= k)%nat ->
          BatchFiles.getBatchData disk' k = inl BatchFiles.BatchNotInConfiguration).
Proof.
  intros opts clock now l disk Hbs.
  destruct (createBatchesByStrategy_returns opts l Hbs) as (batches & Hb).
  pose proof (strategy_positions opts l batches Hbs Hb) as Hpos.
  unfold BatchFiles.saveBatches, BatchFiles.saveBatchFiles. rewrite Hb.
  pose proof (saveLoop_configs clock (length batches) batches 0 (BatchFiles.outputDir disk) [])
    as Hconfigs.
  destruct (BatchFiles.saveBatchFilesLoop clock (length batches) batches 0
              (BatchFiles.outputDir disk) []) as [configs dir] eqn:Hloop.
  simpl in Hconfigs. subst configs.
  eexists _, _. split; [reflexivity|]. split; [reflexivity|].
  assert (Hseq : map batchIndex batches = seq 0 (length batches)).
  { apply positions_seq. intros j b Hj. exact (Hpos j b Hj). }
  split; [|split].
  - unfold BatchFiles.getBatchIndicesForMatrix. simpl. rewrite map_map, <- Hseq. reflexivity.
  - intros k b Hk. unfold BatchFiles.getBatchData. simpl.
    pose proof (find_config_by_position batches 0 k b Hpos Hk) as Hfind.
    simpl in Hfind. rewrite Hfind. simpl.
    assert (Hread := saveLoop_read_written clock (length batches) batches 0
                       (BatchFiles.outputDir disk) [] k b).
    rewrite Hloop in Hread. simpl in Hread. rewrite Hread; [reflexivity| |exact Hk].
    rewrite Hseq. apply seq_NoDup.
  - intros k Hk. unfold BatchFiles.getBatchData. simpl.
    rewrite (find_config_beyond batches 0 k); [reflexivity| |simpl; lia].
    intros j b' Hj. apply Hpos. exact Hj.
Qed.

(** X25 at the worklist of 25 laws, batches of 10, and an empty disk. *)
Lemma X25_witness_25_laws_by_10 :
  exists batches disk',
    BatchFiles.saveBatches
      {| batchSize := 10; sortOrder := desc; strategy := size_; totalWorkers := None |}
      (fun k => Z.of_nat k) 0 Spec.twentyFiveLaws
      (BatchFiles.mkDisk [] BatchFiles.NoConfigurationFile) = Some (batches, disk') /\
    createBatchesByStrategy
      {| batchSize := 10; sortOrder := desc; strategy := size_; totalWorkers := None |}
      Spec.twentyFiveLaws = Some batches /\
    BatchFiles.getBatchIndicesForMatrix disk' = inr (seq 0 (length batches)) /\
    (forall k b,
        nth_error batches k = Some b ->
        BatchFiles.getBatchData disk' k
        = inr (BatchFiles.batchDataOf ((fun k => Z.of_nat k) k) (length batches) b)) /\
    (forall k,
        (length batches <= k)%nat ->
        BatchFiles.getBatchData disk' k = inl BatchFiles.BatchNotInConfiguration).
Proof.
  apply (X25_saved_batches_are_read_back
           {| batchSize := 10; sortOrder := desc; strategy := size_; totalWorkers := None |}
           (fun k => Z.of_nat k) 0 Spec.twentyFiveLaws
           (BatchFiles.mkDisk [] BatchFiles.NoConfigurationFile)).
  simpl. lia.
Defined.

Lemma readBatchFile_filter : forall (p : jsstring -> bool) dir name,
    BatchFiles.readBatchFile name (filter (fun entry => p (fst entry)) dir)
    = if p name then BatchFiles.readBatchFile name dir else None.
Proof.
  intros p dir name. induction dir as [|(n, c) dir IH]; simpl.
  - destruct (p name); reflexivity.
  - destruct (JS.eqb n name) eqn:E.
    + apply eqb_eq in E. subst n. destruct (p name) eqn:Hp; simpl.
      * rewrite eqb_refl. reflexivity.
      * rewrite IH, ?Hp. reflexivity.
    + destruct (p n); simpl; [rewrite E|]; exact IH.
Qed.

Lemma batchFileName_shape : forall k,
    startsWith (js "batch_") (BatchFiles.batchFileName k)
    && endsWith (js ".json") (BatchFiles.batchFileName k) = true.
Proof.
  intros k. unfold BatchFiles.batchFileName. rewrite startsWith_app.
  rewrite app_assoc, endsWith_app. reflexivity.
Qed.

(** X26: after [cleanupBatchFiles] no batch can be read any more: the
    configuration is gone, so [getBatchIndicesForMatrix] and [getBatchData]
    throw for want of a configuration, and no file of a batch is left in the
    output directory, whatever its index; every file of the directory whose
    name is not of the form [batch_*.json] is still there with its
    content. *)
Theorem X26_cleanup_removes_the_batch_files_only : forall disk,
    BatchFiles.getBatchIndicesForMatrix (BatchFiles.cleanupBatchFiles disk)
    = inl BatchFiles.NoBatchConfiguration /\
    (forall k,
        BatchFiles.getBatchData (BatchFiles.cleanupBatchFiles disk) k
        = inl BatchFiles.NoBatchConfiguration /\
        BatchFiles.readBatchFile (BatchFiles.batchFileName k)
          (BatchFiles.outputDir (BatchFiles.cleanupBatchFiles disk)) = None) /\
    (forall name,
        startsWith (js "batch_") name && endsWith (js ".json") name = false ->
        BatchFiles.readBatchFile name (BatchFiles.outputDir (BatchFiles.cleanupBatchFiles disk))
        = BatchFiles.readBatchFile name (BatchFiles.outputDir disk)).
Proof.
  intros disk. split; [reflexivity|]. split.
  - intros k. split; [reflexivity|].
    unfold BatchFiles.cleanupBatchFiles. cbn [BatchFiles.outputDir].
    rewrite (readBatchFile_filter
               (fun n => negb (startsWith (js "batch_") n && endsWith (js ".json") n))).
    rewrite batchFileName_shape. reflexivity.
  - intros name Hname. unfold BatchFiles.cleanupBatchFiles. cbn [BatchFiles.outputDir].
    rewrite (readBatchFile_filter
               (fun n => negb (startsWith (js "batch_") n && endsWith (js ".json") n))).
    rewrite Hname. reflexivity.
Qed.

(** ** Every call comes to its end *)

(** X27: [scrapeLawsBatch] returns.  For every worklist that is not empty,
    every state of the scraper (directory and counters) and whatever the
    site answers, the call returns under every order of the workers' turns
    in which each worker is given [2 * n + 1] turns or more, [n] being the
    number of laws [validateInputLaw] accepts: an item costs the worker
    that claims it two turns at most (the claim, and the end of the retry
    loop, which is bounded), and one more turn finds the worklist
    exhausted.  With at least one worker the summary has then counted every
    accepted law once. *)
Theorem X27_scrapeLawsBatch_returns : forall opts env batchId laws schedule w0,
    laws <> [] ->
    resumesEveryWorker opts (filter validateInputLaw laws) schedule = true ->
    exists summary w,
      scrapeLawsBatch opts env batchId laws schedule w0 = Some (summary, w) /\
      total summary = length (filter validateInputLaw laws) /\
      ((1 <= concurrency opts)%nat ->
       (summarySuccessful summary + summaryFailed summary + summarySkipped summary
        = total summary
          + (successful (stats w0) + failed (stats w0) + skipped (stats w0)))%nat).
Proof.
  intros opts env batchId laws schedule w0 Hl Hturns. unfold scrapeLawsBatch.
  destruct laws as [|law0 laws0]; [contradiction|].
  set (validLaws := filter validateInputLaw (law0 :: laws0)) in *.
  pose proof (resumed_workers_finish opts env batchId validLaws schedule w0 Hturns) as Hd.
  change {| index := 0; workers := repeat Idle (concurrency opts); world := w0 |}
    with (startWorkersOn opts w0) in Hd.
  rewrite Hd. eexists _, _. split; [reflexivity|]. split; [reflexivity|].
  intros Hc.
  destruct (completed_call_counts opts env batchId validLaws schedule w0 Hd) as [_ H1].
  cbn [summarySuccessful summaryFailed summarySkipped total emit stats].
  specialize (H1 Hc). lia.
Qed.

(** X27 at the worklist of two laws, two workers that take turns, and a
    site that never answers. *)
Lemma X27_witness_two_laws_time_out :
  exists summary w,
    scrapeLawsBatch
      {| maxRetries := 3; delayBetweenRequests := 2000; concurrency := 2;
         Scraper.minTextLength := 50; Scraper.maxTextLength := 1000 |}
      (fun _ => Spec.alwaysTimesOut) Spec.batchId Spec.twoLaws
      [0; 1; 0; 1; 0; 1; 0; 1; 0; 1]%nat (freshWorld [])
    = Some (summary, w) /\
    total summary = length (filter validateInputLaw Spec.twoLaws) /\
    ((1 <= concurrency
             {| maxRetries := 3; delayBetweenRequests := 2000; concurrency := 2;
                Scraper.minTextLength := 50; Scraper.maxTextLength := 1000 |})%nat ->
     (summarySuccessful summary + summaryFailed summary + summarySkipped summary
      = total summary
        + (successful (stats (freshWorld [])) + failed (stats (freshWorld []))
           + skipped (stats (freshWorld []))))%nat).
Proof.
  apply (X27_scrapeLawsBatch_returns
           {| maxRetries := 3; delayBetweenRequests := 2000; concurrency := 2;
              Scraper.minTextLength := 50; Scraper.maxTextLength := 1000 |}
           (fun _ => Spec.alwaysTimesOut) Spec.batchId Spec.twoLaws
           [0; 1; 0; 1; 0; 1; 0; 1; 0; 1]%nat (freshWorld [])).
  - discriminate.
  - vm_compute. reflexivity.
Defined.

(** ** The outcome of a run does not depend on the interleaving *)

(** The retry loop saves exactly when one of its attempts passes. *)
Lemma retryLoop_fate : forall opts env law batchId remaining attempt lastError retryCount w,
    if Fates.someAttemptPasses opts env law remaining attempt
    then
      stats (retryLoop opts env law batchId remaining attempt lastError retryCount w)
      = {| processed := S (processed (stats w)); successful := S (successful (stats w));
           failed := failed (stats w); skipped := skipped (stats w) |} /\
      exists r,
        files (retryLoop opts env law batchId remaining attempt lastError retryCount w)
        = writeFile (outputFile law) (RecordFile r) (files w)
    else
      stats (retryLoop opts env law batchId remaining attempt lastError retryCount w)
      = {| processed := S (processed (stats w)); successful := successful (stats w);
           failed := S (failed (stats w)); skipped := skipped (stats w) |} /\
      files (retryLoop opts env law batchId remaining attempt lastError retryCount w)
      = files w.
Proof.
  intros opts env law batchId remaining.
  induction remaining as [|remaining IH]; intros attempt lastError retryCount w.
  - simpl. split; reflexivity.
  - cbn [retryLoop Fates.someAttemptPasses].
    destruct (tryAttempt opts env law attempt (emit (Attempt (outputFile law) attempt) w))
      as [w'|message] eqn:Htry.
    + rewrite (tryAttempt_succeeds _ _ _ _ _ _ Htry). cbn [negb orb].
      apply tryAttempt_success in Htry. destruct Htry as (r & _ & ->).
      split; [reflexivity|]. exists r. reflexivity.
    + rewrite (tryAttempt_fails _ _ _ _ _ _ Htry). cbn [negb orb].
      match goal with
      | |- context [retryLoop _ _ _ _ remaining (S attempt) (Some message) attempt ?w2] =>
          specialize (IH (S attempt) (Some message) attempt w2);
          assert (Hs : stats w2 = stats w) by (destruct (attempt <? maxRetries opts)%nat;
                                               reflexivity);
          assert (Hf : files w2 = files w) by (destruct (attempt <? maxRetries opts)%nat;
                                               reflexivity)
      end.
      rewrite Hs, Hf in IH. exact IH.
Qed.

Lemma existsSync_writeFile_inv : forall name n content d,
    existsSync name (writeFile n content d) = true -> name = n \/ existsSync name d = true.
Proof.
  intros name n content d. induction d as [|(m, c) d IH]; simpl.
  - rewrite orb_false_r. intros H. apply eqb_eq in H. left. symmetry. exact H.
  - destruct (JS.eqb m n) eqn:E; simpl.
    + intros H. right. exact H.
    + intros H. apply orb_true_iff in H. destruct H as [H|H].
      * right. rewrite H. reflexivity.
      * destruct (IH H) as [F|F]; [left; exact F|right; rewrite F; apply orb_true_r].
Qed.

Lemma countFate_app : forall opts env dir f l1 l2,
    Fates.countFate opts env dir f (l1 ++ l2)
    = (Fates.countFate opts env dir f l1 + Fates.countFate opts env dir f l2)%nat.
Proof. intros. unfold Fates.countFate. rewrite filter_app, length_app. reflexivity. Qed.

Lemma countFate_setWorker : forall opts env dir f i x pool y,
    nth_error pool i = Some y ->
    (Fates.countFate opts env dir f (Fates.scrapingItems (setWorker i x pool))
     + Fates.countFate opts env dir f (Fates.scrapingItems [y]))%nat
    = (Fates.countFate opts env dir f (Fates.scrapingItems pool)
       + Fates.countFate opts env dir f (Fates.scrapingItems [x]))%nat.
Proof.
  intros opts env dir f i x pool. revert i.
  induction pool as [|a pool IH]; intros [|i] y H; try discriminate H.
  - simpl in H. inversion H; subst a.
    change (setWorker 0 x (y :: pool)) with ([x] ++ pool).
    change (y :: pool) with ([y] ++ pool).
    unfold Fates.scrapingItems. rewrite !flat_map_app, !countFate_app. lia.
  - simpl in H. specialize (IH i y H).
    change (setWorker (S i) x (a :: pool)) with ([a] ++ setWorker i x pool).
    change (a :: pool) with ([a] ++ pool).
    unfold Fates.scrapingItems in *. rewrite !flat_map_app, !countFate_app. lia.
Qed.

Lemma nth_error_items : forall laws k law,
    nth_error laws k = Some law -> nth_error (Fates.items laws) k = Some (k, law).
Proof.
  intros laws k law H. unfold Fates.items.
  assert (Hgen : forall (l : list InputLaw) off j x,
             nth_error l j = Some x ->
             nth_error (combine (seq off (length l)) l) j = Some ((off + j)%nat, x)).
  { induction l as [|a l IH]; intros off [|j] x Hj; try discriminate Hj; simpl in *.
    - inversion Hj; subst. rewrite Nat.add_0_r. reflexivity.
    - rewrite (IH (S off) j x Hj). f_equal. f_equal. lia. }
  exact (Hgen laws 0%nat k law H).
Qed.

Lemma skipn_nth_error : forall {A} (l : list A) k x,
    nth_error l k = Some x -> skipn k l = x :: skipn (S k) l.
Proof.
  intros A l. induction l as [|a l IH]; intros [|k] x H; try discriminate H; simpl in *.
  - inversion H; subst. reflexivity.
  - exact (IH k x H).
Qed.

Lemma length_items : forall laws, length (Fates.items laws) = length laws.
Proof.
  intros laws. unfold Fates.items. rewrite length_combine, length_seq. lia.
Qed.

Lemma outputFile_injective_on : forall laws i j a b,
    NoDup (map outputFile laws) ->
    nth_error laws i = Some a -> nth_error laws j = Some b ->
    outputFile a = outputFile b -> i = j.
Proof.
  intros laws i j a b Hnd Hi Hj Heq.
  assert (Hlen : (i < length (map outputFile laws))%nat).
  { rewrite length_map. apply nth_error_Some. rewrite Hi. discriminate. }
  apply (proj1 (NoDup_nth_error (map outputFile laws)) Hnd i j Hlen).
  rewrite !nth_error_map, Hi, Hj. simpl. f_equal. exact Heq.
Qed.

Lemma fate_cases : forall opts env dir f item,
    Fates.countFate opts env dir f [item]
    = if Fates.fateEqb (Fates.fate opts env dir item) f then 1%nat else 0%nat.
Proof.
  intros. unfold Fates.countFate. simpl.
  destruct (Fates.fateEqb (Fates.fate opts env dir item) f); reflexivity.
Qed.

Lemma countFate_cons : forall opts env dir f item rest,
    Fates.countFate opts env dir f (item :: rest)
    = (Fates.countFate opts env dir f [item] + Fates.countFate opts env dir f rest)%nat.
Proof. intros. apply (countFate_app opts env dir f [item] rest). Qed.

Lemma workerStep_balanced : forall opts env batchId laws dir i s s',
    NoDup (map outputFile laws) ->
    Fates.Balanced opts env laws dir s ->
    workerStep opts env batchId laws i s = Some s' ->
    Fates.Balanced opts env laws dir s'.
Proof.
  intros opts env batchId laws dir i s s' Hnd [Hcount Hidx Hw Hkept Hsound Hcompl] H.
  assert (Hidle : forall f, Fates.countFate opts env dir f (Fates.scrapingItems [Idle]) = O)
    by reflexivity.
  assert (Hdone : forall f, Fates.countFate opts env dir f (Fates.scrapingItems [Done]) = O)
    by reflexivity.
  assert (Hscr : forall f k law,
             Fates.countFate opts env dir f (Fates.scrapingItems [Scraping k law])
             = Fates.countFate opts env dir f [(k, law)]) by reflexivity.
  unfold workerStep in H.
  destruct (nth_error (workers s) i) as [[|k lawc|]|] eqn:Hn; try discriminate.
  - destruct (nth_error laws (index s)) as [law|] eqn:Hl.
    + assert (Hlt : (index s < length laws)%nat)
        by (apply nth_error_Some; rewrite Hl; discriminate).
      pose proof (skipn_nth_error _ _ _ (nth_error_items _ _ _ Hl)) as Hskip.
      destruct (existsSync (outputFile law) (files (world s))) eqn:Hex;
        inversion H; subst s'; clear H.
      * assert (Hdir : existsSync (outputFile law) dir = true).
        { destruct (Hsound _ Hex) as [Hd|(k & law' & Hk & Hlk & Heq & _)]; [exact Hd|].
          exfalso.
          pose proof (outputFile_injective_on laws (index s) k law law' Hnd Hl Hlk Heq).
          lia. }
        assert (Hfate : Fates.fate opts env dir (index s, law) = Fates.WillSkip).
        { unfold Fates.fate. cbn [fst snd]. rewrite Hdir. reflexivity. }
        destruct (afterItem_effect opts (length laws) (index s) (skip law (world s)))
          as (T & _ & E).
        split; cbn [index workers world]; rewrite ?E; cbn [stats files skip].
        -- intros f. specialize (Hcount f). rewrite Hskip, countFate_cons, fate_cases in Hcount.
           rewrite Hfate in Hcount. destruct f; simpl in *; lia.
        -- lia.
        -- intros k law0 Hin. destruct (Hw _ _ Hin) as (H1 & H2 & H3).
           split; [lia|]. split; assumption.
        -- exact Hkept.
        -- intros name Hname.
           destruct (Hsound _ Hname) as [Hd|(k & l0 & Hk & Hrest)]; [left; exact Hd|].
           right. exists k, l0. split; [lia|exact Hrest].
        -- intros k law0 Hk Hlk Hf. destruct (Nat.eq_dec k (index s)) as [->|Hne].
           ++ rewrite Hl in Hlk. inversion Hlk; subst. rewrite Hfate in Hf. discriminate Hf.
           ++ apply Hcompl; [lia|exact Hlk|exact Hf].
      * assert (Hdir : existsSync (outputFile law) dir = false).
        { destruct (existsSync (outputFile law) dir) eqn:Hd; [|reflexivity].
          apply Hkept in Hd. congruence. }
        split; cbn [index workers world].
        -- intros f. specialize (Hcount f). rewrite Hskip, countFate_cons in Hcount.
           pose proof (countFate_setWorker opts env dir f i (Scraping (index s) law) _ _ Hn)
             as Hc.
           rewrite Hidle, Hscr in Hc. lia.
        -- lia.
        -- intros k law0 Hin. destruct (In_setWorker_inv _ _ _ _ Hin) as [Hnew|Hold].
           ++ inversion Hnew; subst. split; [lia|]. split; assumption.
           ++ destruct (Hw _ _ Hold) as (H1 & H2 & H3). split; [lia|]. split; assumption.
        -- exact Hkept.
        -- intros name Hname.
           destruct (Hsound _ Hname) as [Hd|(k & l0 & Hk & Hrest)]; [left; exact Hd|].
           right. exists k, l0. split; [lia|exact Hrest].
        -- intros k law0 Hk Hlk Hf. destruct (Nat.eq_dec k (index s)) as [->|Hne].
           ++ rewrite Hl in Hlk. inversion Hlk; subst. left.
              exact (In_setWorker_new _ _ _ _ Hn).
           ++ destruct (Hcompl k law0 ltac:(lia) Hlk Hf) as [Hin|Hfile]; [|right; exact Hfile].
              left. destruct (In_setWorker_cases i (Scraping (index s) law) _ _ _ Hin Hn)
                as [Heq|Hin']; [discriminate Heq|exact Hin'].
    + inversion H; subst s'; clear H. split; cbn [index workers world]; try assumption.
      * intros f. specialize (Hcount f).
        pose proof (countFate_setWorker opts env dir f i Done _ _ Hn) as Hc.
        rewrite Hidle, Hdone in Hc. lia.
      * intros k law0 Hin. destruct (In_setWorker_inv _ _ _ _ Hin) as [Hnew|Hold];
          [discriminate Hnew|exact (Hw _ _ Hold)].
      * intros k law0 Hk Hlk Hf.
        destruct (Hcompl k law0 Hk Hlk Hf) as [Hin|Hfile]; [|right; exact Hfile].
        left. destruct (In_setWorker_cases i Done _ _ _ Hin Hn) as [Heq|Hin'];
          [discriminate Heq|exact Hin'].
  - destruct (Hw k lawc (nth_error_In _ _ Hn)) as (Hk & Hlk & Hdir).
    inversion H; subst s'; clear H.
    match goal with
    | |- context [afterItem opts ?t ?c ?w] =>
        destruct (afterItem_effect opts t c w) as (T & _ & E)
    end.
    pose proof (retryLoop_fate opts (env k) lawc batchId (maxRetries opts) 1 None 0 (world s))
      as Hloop.
    assert (Hworkers : forall k0 law0,
               In (Scraping k0 law0) (setWorker i Idle (workers s)) ->
               (k0 < index s)%nat /\ nth_error laws k0 = Some law0 /\
               existsSync (outputFile law0) dir = false).
    { intros k0 law0 Hin. destruct (In_setWorker_inv _ _ _ _ Hin) as [Hnew|Hold];
        [discriminate Hnew|exact (Hw _ _ Hold)]. }
    destruct (Fates.someAttemptPasses opts (env k) lawc (maxRetries opts) 1) eqn:Hpass.
    + destruct Hloop as (Hstats & r & Hfiles).
      assert (Hfate : Fates.fate opts env dir (k, lawc) = Fates.WillSave).
      { unfold Fates.fate. cbn [fst snd]. rewrite Hdir, Hpass. reflexivity. }
      split; cbn [index workers world]; rewrite ?E; cbn [stats files]; rewrite ?Hstats, ?Hfiles.
      * intros f. specialize (Hcount f).
        pose proof (countFate_setWorker opts env dir f i Idle _ _ Hn) as Hc.
        rewrite Hidle, Hscr, fate_cases, Hfate in Hc. destruct f; simpl in *; lia.
      * exact Hidx.
      * exact Hworkers.
      * intros name Hname. apply existsSync_writeFile_mono. exact (Hkept _ Hname).
      * intros name Hname. apply existsSync_writeFile_inv in Hname.
        destruct Hname as [->|Hname]; [|exact (Hsound _ Hname)].
        right. exists k, lawc. repeat split; assumption.
      * intros k0 law0 Hk0 Hlk0 Hf.
        destruct (Hcompl k0 law0 Hk0 Hlk0 Hf) as [Hin|Hfile].
        -- destruct (In_setWorker_cases i Idle _ _ _ Hin Hn) as [Heq|Hin'];
             [|left; exact Hin'].
           inversion Heq; subst. right. apply existsSync_writeFile_same.
        -- right. apply existsSync_writeFile_mono. exact Hfile.
    + destruct Hloop as (Hstats & Hfiles).
      assert (Hfate : Fates.fate opts env dir (k, lawc) = Fates.WillFail).
      { unfold Fates.fate. cbn [fst snd]. rewrite Hdir, Hpass. reflexivity. }
      split; cbn [index workers world]; rewrite ?E; cbn [stats files]; rewrite ?Hstats, ?Hfiles.
      * intros f. specialize (Hcount f).
        pose proof (countFate_setWorker opts env dir f i Idle _ _ Hn) as Hc.
        rewrite Hidle, Hscr, fate_cases, Hfate in Hc. destruct f; simpl in *; lia.
      * exact Hidx.
      * exact Hworkers.
      * exact Hkept.
      * exact Hsound.
      * intros k0 law0 Hk0 Hlk0 Hf.
        destruct (Hcompl k0 law0 Hk0 Hlk0 Hf) as [Hin|Hfile]; [|right; exact Hfile].
        destruct (In_setWorker_cases i Idle _ _ _ Hin Hn) as [Heq|Hin']; [|left; exact Hin'].
        inversion Heq; subst. rewrite Hfate in Hf. discriminate Hf.
Qed.

Lemma runSchedule_balanced : forall opts env batchId laws dir schedule s,
    NoDup (map outputFile laws) ->
    Fates.Balanced opts env laws dir s ->
    Fates.Balanced opts env laws dir (runSchedule opts env batchId laws schedule s).
Proof.
  intros opts env batchId laws dir schedule.
  induction schedule as [|i schedule IH]; intros s Hnd Hs; simpl; [exact Hs|].
  destruct (workerStep opts env batchId laws i s) as [s'|] eqn:E.
  - apply IH; [exact Hnd|exact (workerStep_balanced _ _ _ _ _ _ _ _ Hnd Hs E)].
  - apply IH; assumption.
Qed.

Lemma startWorkers_balanced : forall opts env laws dir,
    Fates.Balanced opts env laws dir (startWorkers opts dir).
Proof.
  intros opts env laws dir. split; simpl.
  - intros f.
    assert (Hnone : Fates.scrapingItems (repeat Idle (concurrency opts)) = []).
    { induction (concurrency opts) as [|c IH]; [reflexivity|exact IH]. }
    rewrite Hnone. destruct f; reflexivity.
  - lia.
  - intros k law Hin. apply repeat_spec in Hin. discriminate Hin.
  - auto.
  - auto.
  - intros k law Hk. lia.
Qed.

Lemma scrapingItems_done : forall pool, forallb isDone pool = true -> Fates.scrapingItems pool = [].
Proof.
  intros pool. induction pool as [|x pool IH]; simpl; [reflexivity|].
  intros H. apply andb_prop in H. destruct H as [Hx Hp].
  destruct x; try discriminate Hx. exact (IH Hp).
Qed.

(** What a run that is over has counted and written, by the fates of the
    items. *)
Lemma completed_run_fates : forall opts env batchId laws schedule dir,
    NoDup (map outputFile laws) ->
    (1 <= concurrency opts)%nat ->
    allDone (processLawsWithConcurrency opts env batchId laws schedule dir) = true ->
    (forall f,
        Fates.counter f
          (stats (world (processLawsWithConcurrency opts env batchId laws schedule dir)))
        = Fates.countFate opts env dir f (Fates.items laws)) /\
    (forall name,
        existsSync name
          (files (world (processLawsWithConcurrency opts env batchId laws schedule dir)))
        = true <->
        existsSync name dir = true \/
        exists k law,
          nth_error laws k = Some law /\ name = outputFile law /\
          Fates.fate opts env dir (k, law) = Fates.WillSave).
Proof.
  intros opts env batchId laws schedule dir Hnd Hc Hd.
  unfold processLawsWithConcurrency in *.
  pose proof (runSchedule_balanced opts env batchId laws dir schedule _ Hnd
                (startWorkers_balanced opts env laws dir))
    as [Hcount Hidx Hw Hkept Hsound Hcompl].
  pose proof (runSchedule_claimed opts env batchId laws schedule _
                (startWorkers_claimed opts laws dir)) as [_ Hcw Hpool].
  set (s := runSchedule opts env batchId laws schedule (startWorkers opts dir)) in *.
  assert (Hfull : (length laws <= index s)%nat).
  { exact (allDone_index _ s ltac:(lia) Hd Hcw). }
  assert (Hnone : Fates.scrapingItems (workers s) = []).
  { apply scrapingItems_done. exact Hd. }
  split.
  - intros f. specialize (Hcount f). rewrite Hnone in Hcount.
    rewrite skipn_all2 in Hcount by (rewrite length_items; lia).
    unfold Fates.countFate in Hcount at 1 2. simpl in Hcount. lia.
  - intros name. split.
    + intros H. destruct (Hsound _ H) as [Hdir|(k & law & _ & Hk & Hname & Hf)];
        [left; exact Hdir|].
      right. exists k, law. repeat split; assumption.
    + intros [Hdir|(k & law & Hk & -> & Hf)]; [exact (Hkept _ Hdir)|].
      assert (Hlt : (k < index s)%nat).
      { assert (k < length laws)%nat by (apply nth_error_Some; rewrite Hk; discriminate).
        lia. }
      destruct (Hcompl k law Hlt Hk Hf) as [Hin|Hfile]; [|exact Hfile].
      exfalso. unfold allDone in Hd. rewrite forallb_forall in Hd.
      apply Hd in Hin. discriminate Hin.
Qed.

Lemma count_will_skip : forall opts env dir laws,
    Fates.countFate opts env dir Fates.WillSkip (Fates.items laws)
    = length (filter (fun law => existsSync (outputFile law) dir) laws).
Proof.
  intros opts env dir laws. unfold Fates.countFate, Fates.items.
  generalize 0%nat. induction laws as [|law laws IH]; intros off; [reflexivity|].
  cbn [length seq combine filter]. unfold Fates.fate at 1. cbn [fst snd].
  destruct (existsSync (outputFile law) dir).
  - cbn [Fates.fateEqb length]. f_equal. apply IH.
  - destruct (Fates.someAttemptPasses _ _ _ _ _); cbn [Fates.fateEqb]; apply IH.
Qed.

(** X28: the outcome of a run does not depend on the interleaving of the
    workers.  When the laws of the worklist have pairwise distinct output
    files, two runs on the same worklist and directory with the same
    answers of the site, each brought to its end by its own schedule of at
    least one worker, leave the same counters and the same set of file
    names; the skipped items are the laws whose output file was in the
    directory at the start. *)
Theorem X28_the_outcome_does_not_depend_on_the_interleaving :
  forall opts env batchId laws dir sched1 sched2,
    NoDup (map outputFile laws) ->
    (1 <= concurrency opts)%nat ->
    allDone (processLawsWithConcurrency opts env batchId laws sched1 dir) = true ->
    allDone (processLawsWithConcurrency opts env batchId laws sched2 dir) = true ->
    stats (world (processLawsWithConcurrency opts env batchId laws sched1 dir))
    = stats (world (processLawsWithConcurrency opts env batchId laws sched2 dir)) /\
    (forall name,
        existsSync name
          (files (world (processLawsWithConcurrency opts env batchId laws sched1 dir)))
        = existsSync name
            (files (world (processLawsWithConcurrency opts env batchId laws sched2 dir)))) /\
    skipped (stats (world (processLawsWithConcurrency opts env batchId laws sched1 dir)))
    = length (filter (fun law => existsSync (outputFile law) dir) laws).
Proof.
  intros opts env batchId laws dir sched1 sched2 Hnd Hc Hd1 Hd2.
  destruct (completed_run_fates opts env batchId laws sched1 dir Hnd Hc Hd1) as [Hc1 Hf1].
  destruct (completed_run_fates opts env batchId laws sched2 dir Hnd Hc Hd2) as [Hc2 Hf2].
  destruct (runSchedule_accounted opts env batchId laws (freshWorld dir) sched1 _
              (startWorkers_accounted opts laws dir)) as [Hp1 _ _ _ _].
  destruct (runSchedule_accounted opts env batchId laws (freshWorld dir) sched2 _
              (startWorkers_accounted opts laws dir)) as [Hp2 _ _ _ _].
  fold (processLawsWithConcurrency opts env batchId laws sched1 dir) in Hp1.
  fold (processLawsWithConcurrency opts env batchId laws sched2 dir) in Hp2.
  cbn [freshWorld stats processed successful failed] in Hp1, Hp2.
  pose proof (Hc1 Fates.WillSave) as Hs1. pose proof (Hc2 Fates.WillSave) as Hs2.
  pose proof (Hc1 Fates.WillFail) as Hx1. pose proof (Hc2 Fates.WillFail) as Hx2.
  pose proof (Hc1 Fates.WillSkip) as Hk1. pose proof (Hc2 Fates.WillSkip) as Hk2.
  simpl in Hs1, Hs2, Hx1, Hx2, Hk1, Hk2.
  split; [|split].
  - destruct (stats (world (processLawsWithConcurrency opts env batchId laws sched1 dir))).
    destruct (stats (world (processLawsWithConcurrency opts env batchId laws sched2 dir))).
    simpl in *. f_equal; lia.
  - intros name.
    destruct (existsSync name
                (files (world (processLawsWithConcurrency opts env batchId laws sched1 dir))))
      eqn:E1.
    + symmetry. apply Hf2. apply Hf1. exact E1.
    + destruct (existsSync name
                  (files (world (processLawsWithConcurrency opts env batchId laws sched2 dir))))
        eqn:E2; [|reflexivity].
      apply Hf2 in E2. apply Hf1 in E2. congruence.
  - rewrite Hk1. apply count_will_skip.
Qed.

(** X28 at two laws and two workers: the workers taking turns, and the
    first worker doing all the work. *)
Lemma X28_witness_two_workers :
  stats (world (processLawsWithConcurrency
                  {| maxRetries := 3; delayBetweenRequests := 2000; concurrency := 2;
                     Scraper.minTextLength := 50; Scraper.maxTextLength := 1000 |}
                  (fun _ => Spec.failTwiceThenSucceed) Spec.batchId Spec.twoLaws
                  [0; 1; 0; 1; 0; 1]%nat []))
  = stats (world (processLawsWithConcurrency
                    {| maxRetries := 3; delayBetweenRequests := 2000; concurrency := 2;
                       Scraper.minTextLength := 50; Scraper.maxTextLength := 1000 |}
                    (fun _ => Spec.failTwiceThenSucceed) Spec.batchId Spec.twoLaws
                    [0; 0; 0; 0; 0; 1]%nat [])) /\
  (forall name,
      existsSync name
        (files (world (processLawsWithConcurrency
                         {| maxRetries := 3; delayBetweenRequests := 2000; concurrency := 2;
                            Scraper.minTextLength := 50; Scraper.maxTextLength := 1000 |}
                         (fun _ => Spec.failTwiceThenSucceed) Spec.batchId Spec.twoLaws
                         [0; 1; 0; 1; 0; 1]%nat [])))
      = existsSync name
          (files (world (processLawsWithConcurrency
                           {| maxRetries := 3; delayBetweenRequests := 2000; concurrency := 2;
                              Scraper.minTextLength := 50; Scraper.maxTextLength := 1000 |}
                           (fun _ => Spec.failTwiceThenSucceed) Spec.batchId Spec.twoLaws
                           [0; 0; 0; 0; 0; 1]%nat [])))) /\
  skipped (stats (world (processLawsWithConcurrency
                           {| maxRetries := 3; delayBetweenRequests := 2000; concurrency := 2;
                              Scraper.minTextLength := 50; Scraper.maxTextLength := 1000 |}
                           (fun _ => Spec.failTwiceThenSucceed) Spec.batchId Spec.twoLaws
                           [0; 1; 0; 1; 0; 1]%nat [])))
  = length (filter (fun law => existsSync (outputFile law) []) Spec.twoLaws).
Proof.
  apply (X28_the_outcome_does_not_depend_on_the_interleaving
           {| maxRetries := 3; delayBetweenRequests := 2000; concurrency := 2;
              Scraper.minTextLength := 50; Scraper.maxTextLength := 1000 |}
           (fun _ => Spec.failTwiceThenSucceed) Spec.batchId Spec.twoLaws []
           [0; 1; 0; 1; 0; 1]%nat [0; 0; 0; 0; 0; 1]%nat).
  - vm_compute. repeat constructor; simpl; intuition discriminate.
  - simpl. lia.
  - vm_compute. reflexivity.
  - vm_compute. reflexivity.
Defined.

(** ** cleanHtmlText *)

Lemma skipn_takeWhile : forall {A} (p : A -> bool) l,
    skipn (length (takeWhile p l)) l = dropWhile p l.
Proof.
  intros A p l. induction l as [|x l IH]; simpl; [reflexivity|].
  destruct (p x); simpl; [exact IH|reflexivity].
Qed.

Lemma takeWhile_dropWhile_nil : forall {A} (p : A -> bool) l, takeWhile p (dropWhile p l) = [].
Proof.
  intros A p l. induction l as [|x l IH]; simpl; [reflexivity|].
  destruct (p x) eqn:E; [exact IH|]. simpl. rewrite E. reflexivity.
Qed.

(** Where [/\n{3,}/] matches, and how far: a run of three line feeds or
    more, to its end. *)
Lemma rmatch_threeLineFeeds : forall i s,
    rmatch HtmlCleaner.threeLineFeeds i s accept
    = if (3 <=? length (takeWhile (fun c : Z => (c =? 10)%Z) s))%nat
      then Some (i + length (takeWhile (fun c : Z => (c =? 10)%Z) s))%nat
      else None.
Proof.
  intros i s. unfold HtmlCleaner.threeLineFeeds, HtmlCleaner.lineFeed. cbn [seqs].
  rewrite rmatch_Seq, rmatch_Unit. destruct s as [|a s]; [reflexivity|].
  cbn [takeWhile]. destruct (a =? 10); [|reflexivity].
  rewrite rmatch_Seq, rmatch_Unit. destruct s as [|b s]; [reflexivity|].
  cbn [takeWhile]. destruct (b =? 10); [|reflexivity].
  rewrite rmatch_Seq, rmatch_Unit. destruct s as [|c s]; [reflexivity|].
  cbn [takeWhile]. destruct (c =? 10); [|reflexivity].
  rewrite rmatch_star_unit_accept. cbn [length Nat.leb]. f_equal. lia.
Qed.

Lemma tripleFree_cons : forall a out,
    HtmlCleaner.tripleFree out = true ->
    (a =? 10) = false \/ (length (takeWhile (fun c : Z => (c =? 10)%Z) out) <= 1)%nat ->
    HtmlCleaner.tripleFree (a :: out) = true.
Proof.
  intros a out Hout Hcase. cbn [HtmlCleaner.tripleFree].
  destruct out as [|b [|c rest]]; try reflexivity.
  rewrite Hout, andb_true_r. destruct Hcase as [Ha|Hrun].
  - rewrite Ha. reflexivity.
  - cbn [takeWhile] in Hrun. destruct (b =? 10); [|rewrite andb_false_r; reflexivity].
    destruct (c =? 10); [simpl in Hrun; lia|rewrite andb_false_r; reflexivity].
Qed.

(** The replacement of [/\n{3,}/g] by two line feeds leaves no three line
    feeds in a row. *)
Lemma collapse_loop : forall fuel i s,
    (length s < fuel)%nat ->
    HtmlCleaner.tripleFree (HtmlCleaner.replaceLoop fuel HtmlCleaner.threeLineFeeds [10; 10] i s)
    = true /\
    length (takeWhile (fun c : Z => (c =? 10)%Z)
              (HtmlCleaner.replaceLoop fuel HtmlCleaner.threeLineFeeds [10; 10] i s))
    = Nat.min 2 (length (takeWhile (fun c : Z => (c =? 10)%Z) s)).
Proof.
  induction fuel as [|fuel IH]; intros i s Hfuel; [lia|].
  cbn [HtmlCleaner.replaceLoop]. rewrite rmatch_threeLineFeeds.
  destruct (3 <=? length (takeWhile (fun c : Z => (c =? 10)%Z) s))%nat eqn:Hrun.
  - apply Nat.leb_le in Hrun.
    assert (Hlt : (i <? i + length (takeWhile (fun c : Z => (c =? 10)%Z) s))%nat = true)
      by (apply Nat.ltb_lt; lia).
    rewrite Hlt.
    replace (i + length (takeWhile (fun c : Z => (c =? 10)%Z) s) - i)%nat
      with (length (takeWhile (fun c : Z => (c =? 10)%Z) s)) by lia.
    rewrite skipn_takeWhile.
    destruct (IH (i + length (takeWhile (fun c : Z => (c =? 10)%Z) s))%nat
                (dropWhile (fun c : Z => (c =? 10)%Z) s)) as [Hfree Hlead].
    { pose proof (dropWhile_length (fun c : Z => (c =? 10)%Z) s) as Hd.
      assert (length (dropWhile (fun c : Z => (c =? 10)%Z) s) < length s)%nat; [|lia].
      rewrite <- (takeWhile_dropWhile (fun c : Z => (c =? 10)%Z) s) at 2. rewrite length_app. lia. }
    rewrite takeWhile_dropWhile_nil in Hlead. simpl in Hlead.
    set (out := HtmlCleaner.replaceLoop fuel HtmlCleaner.threeLineFeeds [10; 10]
                  (i + length (takeWhile (fun c : Z => (c =? 10)%Z) s))%nat
                  (dropWhile (fun c : Z => (c =? 10)%Z) s)) in *.
    cbn [app]. split.
    + apply tripleFree_cons; [|right; cbn [takeWhile]; simpl; rewrite Hlead; lia].
      apply tripleFree_cons; [exact Hfree|right; lia].
    + rewrite Nat.min_l by lia. cbn [takeWhile]. change ((10 =? 10)%Z) with true.
      cbv iota. cbn [length]. rewrite Hlead. reflexivity.
  - apply Nat.leb_gt in Hrun. destruct s as [|a s]; [split; reflexivity|].
    simpl in Hfuel. destruct (IH (S i) s ltac:(lia)) as [Hfree Hlead].
    set (out := HtmlCleaner.replaceLoop fuel HtmlCleaner.threeLineFeeds [10; 10] (S i) s) in *.
    cbn [takeWhile] in *. destruct (a =? 10) eqn:Ha.
    + simpl in Hrun. split.
      * apply tripleFree_cons; [exact Hfree|right; lia].
      * cbn [length]. lia.
    + split; [|reflexivity]. apply tripleFree_cons; [exact Hfree|left; exact Ha].
Qed.

(** [/^\s+|\s+$/g]: the replacement trims. *)
Lemma starLoop_eol : forall p fuel i s,
    (length s <= fuel)%nat ->
    starLoop (Unit p) (fun i2 s2 => rmatch Eol i2 s2 accept) fuel i s
    = if forallb p s then Some (i + length s)%nat else None.
Proof.
  intros p fuel. induction fuel as [|fuel IH]; intros i s Hf.
  - destruct s; [|simpl in Hf; lia]. simpl. rewrite Nat.add_0_r. reflexivity.
  - cbn [starLoop]. rewrite rmatch_Unit. destruct s as [|c s].
    + simpl. rewrite Nat.add_0_r. reflexivity.
    + cbn [forallb]. destruct (p c); [|reflexivity].
      assert (Hlt : (i <? S i)%nat = true) by (apply Nat.ltb_lt; lia).
      rewrite Hlt, IH by (simpl in Hf; lia). cbn [andb].
      destruct (forallb p s); [|reflexivity]. f_equal. simpl. lia.
Qed.

Lemma rmatch_trailing : forall i s,
    rmatch (Seq (Plus ws) Eol) i s accept
    = match s with
      | [] => None
      | _ :: _ => if forallb isWhiteSpace s then Some (i + length s)%nat else None
      end.
Proof.
  intros i s. unfold Plus, ws. rewrite !rmatch_Seq, rmatch_Unit.
  destruct s as [|c s]; [reflexivity|]. cbn [forallb].
  destruct (isWhiteSpace c); [|reflexivity].
  rewrite rmatch_star_loop.
  rewrite (starLoop_eol isWhiteSpace (length s) (S i) s) by lia. cbn [andb].
  destruct (forallb isWhiteSpace s); [|reflexivity]. f_equal. simpl. lia.
Qed.

Lemma rmatch_leading : forall i s,
    rmatch (Seq Bol (Plus ws)) i s accept
    = if (i =? 0)%nat then
        match s with
        | c :: s' =>
            if isWhiteSpace c then Some (S i + length (takeWhile isWhiteSpace s'))%nat else None
        | [] => None
        end
      else None.
Proof.
  intros i s. unfold Plus, ws. rewrite rmatch_Seq. cbn [rmatch].
  destruct (i =? 0)%nat; [|reflexivity].
  destruct s as [|c s]; [reflexivity|]. destruct (isWhiteSpace c); [|reflexivity].
  apply (rmatch_star_unit_accept isWhiteSpace (S i) s).
Qed.

Lemma rmatch_Alt : forall a b i s k,
    rmatch (Alt a b) i s k
    = match rmatch a i s k with
      | Some e => Some e
      | None => rmatch b i s k
      end.
Proof. reflexivity. Qed.

Lemma dropWhile_snoc : forall {A} (p : A -> bool) l c,
    dropWhile p (l ++ [c])
    = if forallb p l then (if p c then [] else [c]) else dropWhile p l ++ [c].
Proof.
  intros A p l c. induction l as [|x l IH]; simpl; [reflexivity|].
  destruct (p x); [exact IH|reflexivity].
Qed.

Lemma forallb_rev : forall {A} (p : A -> bool) l, forallb p (rev l) = forallb p l.
Proof.
  intros A p l. induction l as [|x l IH]; simpl; [reflexivity|].
  rewrite forallb_app, IH. simpl. rewrite andb_true_r. apply andb_comm.
Qed.

Lemma trimEnd_cons : forall c s,
    trimEnd (c :: s) = if forallb isWhiteSpace (c :: s) then [] else c :: trimEnd s.
Proof.
  intros c s. unfold trimEnd. cbn [rev forallb]. rewrite dropWhile_snoc, forallb_rev.
  destruct (forallb isWhiteSpace s) eqn:Hall.
  - destruct (isWhiteSpace c); [reflexivity|]. simpl.
    assert (E : dropWhile isWhiteSpace (rev s) = []).
    { rewrite <- forallb_rev in Hall. induction (rev s) as [|x l IH]; [reflexivity|].
      simpl in *. apply andb_prop in Hall. destruct Hall as [Hx Hl]. rewrite Hx. exact (IH Hl). }
    rewrite E. reflexivity.
  - rewrite andb_false_r, rev_app_distr. reflexivity.
Qed.

Lemma trim_loop_inside : forall fuel i s,
    (length s < fuel)%nat -> (0 < i)%nat ->
    HtmlCleaner.replaceLoop fuel HtmlCleaner.outerWhiteSpace [] i s = trimEnd s.
Proof.
  induction fuel as [|fuel IH]; intros i s Hfuel Hi; [lia|].
  unfold HtmlCleaner.outerWhiteSpace in *. cbn [HtmlCleaner.replaceLoop].
  rewrite rmatch_Alt, rmatch_leading, rmatch_trailing.
  assert (Ei : (i =? 0)%nat = false) by (apply Nat.eqb_neq; lia). rewrite Ei.
  destruct s as [|c s]; [reflexivity|].
  rewrite trimEnd_cons. destruct (forallb isWhiteSpace (c :: s)).
  - assert (Hlt : (i <? i + length (c :: s))%nat = true) by (apply Nat.ltb_lt; simpl; lia).
    rewrite Hlt. replace (i + length (c :: s) - i)%nat with (length (c :: s)) by lia.
    rewrite skipn_all. cbn [app].
    destruct fuel as [|fuel']; [reflexivity|].
    rewrite (IH (i + length (c :: s))%nat []); [reflexivity|simpl; lia|lia].
  - simpl in Hfuel. rewrite (IH (S i) s); [reflexivity|lia|lia].
Qed.

Lemma replaceAll_outerWhiteSpace : forall s,
    HtmlCleaner.replaceAll HtmlCleaner.outerWhiteSpace [] s = trim s.
Proof.
  intros s. unfold HtmlCleaner.replaceAll. cbn [HtmlCleaner.replaceLoop].
  unfold HtmlCleaner.outerWhiteSpace.
  rewrite rmatch_Alt, rmatch_leading, rmatch_trailing. cbn [Nat.eqb].
  destruct s as [|c s]; [reflexivity|].
  unfold trim, trimStart. cbn [dropWhile forallb].
  destruct (isWhiteSpace c) eqn:Hc.
  - cbn [Nat.ltb Nat.leb]. replace (1 + length (takeWhile isWhiteSpace s) - 0)%nat
      with (S (length (takeWhile isWhiteSpace s))) by lia.
    cbn [skipn app]. rewrite skipn_takeWhile. fold HtmlCleaner.outerWhiteSpace.
    apply trim_loop_inside; [|lia].
    pose proof (dropWhile_length isWhiteSpace s). simpl. lia.
  - cbn [andb]. fold HtmlCleaner.outerWhiteSpace. rewrite trim_loop_inside by (simpl; lia).
    rewrite trimEnd_cons. cbn [forallb]. rewrite Hc. reflexivity.
Qed.

Lemma tripleFree_tail : forall a s,
    HtmlCleaner.tripleFree (a :: s) = true -> HtmlCleaner.tripleFree s = true.
Proof.
  intros a s H. cbn [HtmlCleaner.tripleFree] in H.
  destruct s as [|b [|c rest]]; try reflexivity.
  apply andb_prop in H. exact (proj2 H).
Qed.

Lemma tripleFree_suffix : forall pre s,
    HtmlCleaner.tripleFree (pre ++ s) = true -> HtmlCleaner.tripleFree s = true.
Proof.
  induction pre as [|a pre IH]; intros s H; [exact H|].
  apply IH. exact (tripleFree_tail a _ H).
Qed.

Lemma tripleFree_prefix : forall s post,
    HtmlCleaner.tripleFree (s ++ post) = true -> HtmlCleaner.tripleFree s = true.
Proof.
  induction s as [|a s IH]; intros post H; [reflexivity|].
  pose proof (IH post (tripleFree_tail a _ H)) as Hs.
  cbn [HtmlCleaner.tripleFree]. destruct s as [|b [|c rest]]; try reflexivity.
  rewrite Hs, andb_true_r. cbn [app HtmlCleaner.tripleFree] in H.
  apply andb_prop in H. exact (proj1 H).
Qed.

Lemma tripleFree_spec : forall s pre post,
    HtmlCleaner.tripleFree s = true -> s <> pre ++ [10; 10; 10] ++ post.
Proof.
  intros s pre post H E. subst s. apply tripleFree_suffix in H.
  cbn [app HtmlCleaner.tripleFree] in H. discriminate H.
Qed.

(** X29: the text [cleanHtmlText] returns has no white space at its ends
    and nowhere three line feeds in a row, whatever the markup. *)
Theorem X29_cleanHtmlText_is_trimmed_without_blank_runs : forall html,
    (forall pre post, HtmlCleaner.cleanHtmlText html <> pre ++ [10; 10; 10] ++ post) /\
    (forall c rest, HtmlCleaner.cleanHtmlText html = c :: rest -> isWhiteSpace c = false) /\
    (forall body z, HtmlCleaner.cleanHtmlText html = body ++ [z] -> isWhiteSpace z = false).
Proof.
  intros html. unfold HtmlCleaner.cleanHtmlText. cbv zeta.
  match goal with
  | |- context [HtmlCleaner.replaceAll HtmlCleaner.threeLineFeeds [10; 10] ?y] =>
      set (x := HtmlCleaner.replaceAll HtmlCleaner.threeLineFeeds [10; 10] y)
  end.
  rewrite replaceAll_outerWhiteSpace, trim_idempotent.
  split; [|split].
  - intros pre post. apply tripleFree_spec.
    destruct (trim_decompose x) as (before & after & E & _ & _).
    assert (Hx : HtmlCleaner.tripleFree x = true).
    { unfold x, HtmlCleaner.replaceAll. apply collapse_loop. lia. }
    rewrite E in Hx. apply tripleFree_suffix in Hx. apply tripleFree_prefix in Hx. exact Hx.
  - intros c rest H. exact (trim_head _ _ _ H).
  - intros body z H. exact (trim_last _ _ _ H).
Qed.

(** A match ends inside the input, at or after its start. *)
Lemma rmatch_accept_bounds : forall r i s e,
    rmatch r i s accept = Some e -> (i <= e <= i + length s)%nat.
Proof.
  intros r i s e H. apply rmatch_cont in H. destruct H as (i' & s' & E & L & Hk).
  inversion Hk; subst. lia.
Qed.

(** A global replacement whose matches are at least as long as the
    replacement does not lengthen the text. *)
Lemma replaceLoop_length : forall pattern replacement,
    (forall i s e, rmatch pattern i s accept = Some e -> (i + length replacement <= e)%nat) ->
    forall fuel i s,
      (length (HtmlCleaner.replaceLoop fuel pattern replacement i s) <= length s)%nat.
Proof.
  intros pattern replacement Hlong fuel.
  induction fuel as [|fuel IH]; intros i s; [reflexivity|].
  cbn [HtmlCleaner.replaceLoop].
  destruct (rmatch pattern i s accept) as [e|] eqn:Hm.
  - pose proof (Hlong _ _ _ Hm) as Hl. pose proof (rmatch_accept_bounds _ _ _ _ Hm) as Hb.
    destruct (i <? e)%nat eqn:Hlt.
    + rewrite length_app. specialize (IH e (skipn (e - i) s)).
      rewrite length_skipn in IH. lia.
    + apply Nat.ltb_ge in Hlt.
      assert (Hr : replacement = []) by (destruct replacement; [reflexivity|simpl in Hl; lia]).
      subst replacement. destruct s as [|c s]; [reflexivity|].
      cbn [app length]. specialize (IH (S i) s). lia.
  - destruct s as [|c s]; [reflexivity|]. cbn [length]. specialize (IH (S i) s). lia.
Qed.

Lemma replaceAll_length : forall pattern replacement s,
    (forall i s e, rmatch pattern i s accept = Some e -> (i + length replacement <= e)%nat) ->
    (length (HtmlCleaner.replaceAll pattern replacement s) <= length s)%nat.
Proof. intros. unfold HtmlCleaner.replaceAll. apply replaceLoop_length. assumption. Qed.

Lemma lit_match_length : forall str i s e,
    rmatch (lit str) i s accept = Some e -> e = (i + length (js str))%nat.
Proof.
  intros str i s e H. rewrite rmatch_lit in H.
  destruct (startsWith (js str) s); [|discriminate]. inversion H. reflexivity.
Qed.

Lemma lit_prefix_match_length : forall str rest i s e,
    rmatch (Seq (lit str) rest) i s accept = Some e -> (i + length (js str) <= e)%nat.
Proof.
  intros str rest i s e H. rewrite rmatch_Seq, rmatch_lit in H.
  destruct (startsWith (js str) s); [|discriminate].
  apply rmatch_accept_bounds in H. lia.
Qed.

Lemma removeElementsLoop_length : forall name fuel i s,
    (length (HtmlCleaner.removeElementsLoop fuel name i s) <= length s)%nat.
Proof.
  intros name fuel. induction fuel as [|fuel IH]; intros i s; [reflexivity|].
  cbn [HtmlCleaner.removeElementsLoop].
  destruct (HtmlCleaner.matchElement name i s) as [e|].
  - specialize (IH e (skipn (e - i) s)). rewrite length_skipn in IH. lia.
  - destruct s as [|c s]; [reflexivity|]. cbn [length]. specialize (IH (S i) s). lia.
Qed.

(** X30: [cleanHtmlText] never returns a text that is longer than the
    markup it was given: elements and tags are removed or replaced by one
    line feed, each entity by at most one unit, runs of line feeds by two,
    and the ends are trimmed. *)
Theorem X30_cleanHtmlText_does_not_lengthen : forall html,
    (length (HtmlCleaner.cleanHtmlText html) <= length html)%nat.
Proof.
  intros html. unfold HtmlCleaner.cleanHtmlText. cbv zeta.
  etransitivity; [apply trim_length|].
  etransitivity; [apply replaceAll_length|].
  { intros i s e H. apply rmatch_accept_bounds in H. simpl. lia. }
  etransitivity; [apply replaceAll_length|].
  { intros i s e H. rewrite rmatch_threeLineFeeds in H.
    destruct (3 <=? length (takeWhile (fun c : Z => (c =? 10)%Z) s))%nat eqn:E;
      [|discriminate]. apply Nat.leb_le in E. inversion H. simpl. lia. }
  etransitivity; [apply replaceAll_length|].
  { intros i s e H. apply rmatch_accept_bounds in H. simpl. lia. }
  etransitivity; [apply replaceAll_length|].
  { intros i s e H. apply lit_match_length in H. subst e. vm_compute length. lia. }
  etransitivity; [apply replaceAll_length|].
  { intros i s e H. apply lit_match_length in H. subst e. vm_compute length. lia. }
  etransitivity; [apply replaceAll_length|].
  { intros i s e H. apply lit_match_length in H. subst e. vm_compute length. lia. }
  etransitivity; [apply replaceAll_length|].
  { intros i s e H. apply lit_match_length in H. subst e. vm_compute length. lia. }
  etransitivity; [apply replaceAll_length|].
  { intros i s e H. apply lit_match_length in H. subst e. vm_compute length. lia. }
  etransitivity; [apply replaceAll_length|].
  { intros i s e H. unfold HtmlCleaner.anyTag in H. apply lit_prefix_match_length in H.
    revert H. vm_compute length. lia. }
  etransitivity; [apply removeElementsLoop_length|].
  apply removeElementsLoop_length.
Qed.
